(** * pygamelib: the spatial kernel (Board, Inventory, Game)

    A shallow embedding of [pygamelib/engine.py] and of the parts of
    [pygamelib/base.py] it relies on.

    Python objects are mutable and shared, so every board item lives in a
    store and is designated by a reference; the matrices, the movable and
    immovable sets, the inventories and the rosters hold references.  A
    method is a computation over that store which either returns or raises,
    and a raise keeps the mutations done before it. *)

From stdpp Require Import gmap strings list.
From Stdlib Require Import ZArith Lia.
From Stdlib Require DecimalString.

Open Scope Z_scope.

#[local] Set Warnings "-clear-no-such-hyp".

(** ** Exceptions and the method monad *)

(** The exception classes of [pygamelib/base.py], with the [error] code for
    the two that carry one, and the built-in exceptions the code can let
    escape. *)
Inductive exn : Type :=
| PglInvalidTypeException
| PglException (error : string)
| PglOutOfBoardBoundException
| PglObjectIsNotMovableException
| PglInvalidLevelException
| PglInventoryException (error : string)
| IndexError
| KeyError
| TypeError
| AttributeError
| ValueError
| FileNotFoundError.

Inductive res (A : Type) : Type :=
| Ok (a : A)
| Raise (e : exn).
Arguments Ok {A} a.
Arguments Raise {A} e.

Definition M (S A : Type) : Type := S -> res A * S.

Definition ret {S A} (a : A) : M S A := fun s => (Ok a, s).
Definition raise {S A} (e : exn) : M S A := fun s => (Raise e, s).
Definition bind {S A B} (m : M S A) (k : A -> M S B) : M S B :=
  fun s => match m s with
           | (Ok a, s') => k a s'
           | (Raise e, s') => (Raise e, s')
           end.
Definition gets {S A} (f : S -> A) : M S A := fun s => (Ok (f s), s).
Definition modify {S} (f : S -> S) : M S unit := fun s => (Ok tt, f s).

Declare Scope py_scope.
Delimit Scope py_scope with py.
Notation "'do' x <- m ; k" := (bind m (fun x => k))
  (at level 10, x name, m at level 100, k at level 200) : py_scope.
Notation "m ;; k" := (bind m (fun _ => k))
  (at level 100, k at level 200, right associativity) : py_scope.
Notation "'when' c 'then' m" := (if c then m else ret tt)
  (at level 10, c at level 100, m at level 200) : py_scope.
Open Scope py_scope.

(** ** Python list indexing *)

(** [l[i]]: a negative index counts from the end; outside
    [-len(l) .. len(l) - 1] Python raises [IndexError]. *)
Definition py_index {A} (l : list A) (i : Z) : option nat :=
  let n := Z.of_nat (length l) in
  if bool_decide (0 <= i < n) then Some (Z.to_nat i)
  else if bool_decide (- n <= i < 0) then Some (Z.to_nat (n + i))
  else None.

Definition py_get {A} (l : list A) (i : Z) : option A :=
  match py_index l i with
  | Some k => l !! k
  | None => None
  end.

Definition py_set {A} (l : list A) (i : Z) (x : A) : option (list A) :=
  match py_index l i with
  | Some k => Some (<[k:=x]> l)
  | None => None
  end.

(** [l[i][j]] and [l[i][j] = x]. *)
Definition py_get2 {A} (m : list (list A)) (i j : Z) : option A :=
  match py_get m i with
  | Some r => py_get r j
  | None => None
  end.

Definition py_set2 {A} (m : list (list A)) (i j : Z) (x : A)
  : option (list (list A)) :=
  match py_get m i with
  | Some r =>
      match py_set r j x with
      | Some r' => py_set m i r'
      | None => None
      end
  | None => None
  end.

(** ** Constants *)

(** Modelled from the spec: [pygamelib/constants.py] is not among the
    sources.  The spec fixes the direction set, the permission masks and the
    engine states; any other value given as a direction matches none of the
    eight tests of the movers and behaves as [NO_DIR]. *)
Inductive Direction : Type :=
| NO_DIR | UP | DOWN | LEFT | RIGHT | DRUP | DRDOWN | DLUP | DLDOWN.

Inductive Permission : Type :=
| PLAYER_AUTHORIZED
| NPC_AUTHORIZED
| ALL_CHARACTERS_AUTHORIZED
| ALL_MOVABLE_AUTHORIZED
| NONE_AUTHORIZED.

Inductive EngineState : Type := RUNNING | PAUSED | STOPPED.

#[global] Instance Direction_eq_dec : EqDecision Direction.
Proof. solve_decision. Defined.
#[global] Instance Permission_eq_dec : EqDecision Permission.
Proof. solve_decision. Defined.
#[global] Instance EngineState_eq_dec : EqDecision EngineState.
Proof. solve_decision. Defined.

(** [base.Vector2D], with the integer components [Board.move] is left with
    once it has rounded them. *)
Record Vector2D : Type := { v_row : Z; v_column : Z }.

(** What [Board.move] accepts as [direction]. *)
Inductive DirArg : Type :=
| Const (d : Direction)
| Vector (v : Vector2D).

(** [Vector2D.from_direction]. *)
Definition from_direction (direction : Direction) (step : Z) : Vector2D :=
  match direction with
  | NO_DIR => {| v_row := 0; v_column := 0 |}
  | UP => {| v_row := - step; v_column := 0 |}
  | DOWN => {| v_row := step; v_column := 0 |}
  | LEFT => {| v_row := 0; v_column := - step |}
  | RIGHT => {| v_row := 0; v_column := step |}
  | DRUP => {| v_row := - step; v_column := step |}
  | DRDOWN => {| v_row := step; v_column := step |}
  | DLUP => {| v_row := - step; v_column := - step |}
  | DLDOWN => {| v_row := step; v_column := - step |}
  end.

(** ** Geometry *)

Module Math.

(** [Math.intersect], on the integers its documentation gives it. *)
Definition intersect (row1 column1 width1 height1
                      row2 column2 width2 height2 : Z) : bool :=
  if bool_decide (row1 = row2) && bool_decide (column1 = column2) then true
  else
    bool_decide (Z.max row1 (row1 + height1 - 1)
                 >= Z.min row2 (row2 + height2 - 1))
    && bool_decide (Z.min row1 (row1 + height1 - 1)
                    <= Z.max row2 (row2 + height2 - 1))
    && bool_decide (Z.max column1 (column1 + width1 - 1)
                    >= Z.min column2 (column2 + width2 - 1))
    && bool_decide (Z.min column1 (column1 + width1 - 1)
                    <= Z.max column2 (column2 + width2 - 1)).

End Math.

(** ** Board items *)

Definition ref : Type := nat.
Definition inv_ref : Type := nat.

(** Modelled from the spec: [pygamelib/board_items.py] is not among the
    sources.  The classes are the single-cell variants of spec section 2
    ([BaseParticle] is in [gfx/particles.py]); [OtherObject] stands for any
    Python object that is not a [BoardItem].  [BoardComplexItem] and its
    sub-items are outside the embedding, so every [isinstance] test against
    it is false here. *)
Inductive ItemClass : Type :=
| OtherObject
| BoardItem
| BoardItemVoid
| Wall
| Treasure
| Door
| GenericStructure
| GenericActionableStructure
| Movable
| Player
| NPC
| Projectile
| BaseParticle.

#[global] Instance ItemClass_eq_dec : EqDecision ItemClass.
Proof. solve_decision. Defined.

(** [isinstance(x, board_items.C)] for the classes the engine tests. *)
Definition is_BoardItem (c : ItemClass) : bool :=
  match c with OtherObject => false | _ => true end.
Definition is_BoardItemVoid (c : ItemClass) : bool :=
  match c with BoardItemVoid => true | _ => false end.
Definition is_Immovable (c : ItemClass) : bool :=
  match c with
  | Wall | Treasure | Door | GenericStructure | GenericActionableStructure => true
  | _ => false
  end.
Definition is_Movable (c : ItemClass) : bool :=
  match c with
  | Movable | Player | NPC | Projectile | BaseParticle => true
  | _ => false
  end.
Definition is_Actionable (c : ItemClass) : bool :=
  match c with GenericActionableStructure => true | _ => false end.
Definition is_Player (c : ItemClass) : bool :=
  match c with Player => true | _ => false end.
Definition is_NPC (c : ItemClass) : bool :=
  match c with NPC => true | _ => false end.
Definition is_Projectile (c : ItemClass) : bool :=
  match c with Projectile => true | _ => false end.

(** [gfx.core.Sprixel], as far as the board reads and writes it. *)
Record Sprixel : Type := {
  sp_model : string;
  bg_color : option string;
  is_bg_transparent : bool
}.

Inductive Parent : Type := NoParent | ParentBoard | ParentGame | ParentOther.

(** Modelled from the spec: [pygamelib/actuators.py] is not among the
    sources.  The engine consumes [state] and [next_move()]; the movement
    policy itself is outside the kernel, so an actuator carries the answers
    of its successive [next_move()] calls ([a_answers], [a_calls] of them
    already given).  [a_kind] holds what the level format persists; an entry
    of a move list is [None] where [_string_to_constant] found no
    constant. *)
Inductive ActuatorKind : Type :=
| RandomActuator (moveset : list (option Direction))
| PathActuator (path : list (option Direction))
| PatrolActuator (path : list (option Direction))
| PathFinder (waypoints : list (Z * Z)) (circle_waypoints : bool)
| OtherActuator.

Record Actuator : Type := {
  a_state : EngineState;
  a_kind : ActuatorKind;
  a_answers : nat -> Direction;
  a_calls : nat
}.

(** [actuator.next_move()]: the answer, and the actuator after the call. *)
Definition next_move (a : Actuator) : Direction * Actuator :=
  (a_answers a (a_calls a),
   {| a_state := a_state a; a_kind := a_kind a; a_answers := a_answers a;
      a_calls := S (a_calls a) |}).

(** One board item: its class, the attributes the engine reads or writes,
    and what its [overlappable()], [pickable()], [restorable()] and
    [can_move()] methods answer.  [_inventory_space] and [value] are [None]
    when the object has no such attribute ([hasattr] is false). *)
Record Item : Type := {
  cls : ItemClass;
  name : string;
  type : string;
  model : string;
  pos : option (Z * Z);
  parent : Parent;
  sprixel : option Sprixel;
  overlappable : bool;
  pickable : bool;
  restorable : bool;
  can_move : bool;
  perm : Permission;
  _inventory_space : option Z;
  value : option Z;
  inventory : option inv_ref;
  step : option Z;
  actuator : option Actuator;
  range : Z;
  is_aoe : bool;
  aoe_radius : Z;
  hp : option Z;
  max_hp : option Z;
  remaining_lives : option Z;
  attack_power : option Z
}.

(** Attribute assignments on an item. *)
Definition set_name (v : string) (i : Item) : Item :=
  {| cls := cls i; name := v; type := type i; model := model i;
     pos := pos i; parent := parent i; sprixel := sprixel i;
     overlappable := overlappable i; pickable := pickable i;
     restorable := restorable i; can_move := can_move i; perm := perm i;
     _inventory_space := _inventory_space i; value := value i;
     inventory := inventory i; step := step i; actuator := actuator i;
     range := range i; is_aoe := is_aoe i; aoe_radius := aoe_radius i;
     hp := hp i; max_hp := max_hp i; remaining_lives := remaining_lives i;
     attack_power := attack_power i |}.
Definition set_model (v : string) (i : Item) : Item :=
  {| cls := cls i; name := name i; type := type i; model := v; pos := pos i;
     parent := parent i; sprixel := sprixel i;
     overlappable := overlappable i; pickable := pickable i;
     restorable := restorable i; can_move := can_move i; perm := perm i;
     _inventory_space := _inventory_space i; value := value i;
     inventory := inventory i; step := step i; actuator := actuator i;
     range := range i; is_aoe := is_aoe i; aoe_radius := aoe_radius i;
     hp := hp i; max_hp := max_hp i; remaining_lives := remaining_lives i;
     attack_power := attack_power i |}.
Definition set_pos (v : option (Z * Z)) (i : Item) : Item :=
  {| cls := cls i; name := name i; type := type i; model := model i;
     pos := v; parent := parent i; sprixel := sprixel i;
     overlappable := overlappable i; pickable := pickable i;
     restorable := restorable i; can_move := can_move i; perm := perm i;
     _inventory_space := _inventory_space i; value := value i;
     inventory := inventory i; step := step i; actuator := actuator i;
     range := range i; is_aoe := is_aoe i; aoe_radius := aoe_radius i;
     hp := hp i; max_hp := max_hp i; remaining_lives := remaining_lives i;
     attack_power := attack_power i |}.
Definition set_parent (v : Parent) (i : Item) : Item :=
  {| cls := cls i; name := name i; type := type i; model := model i;
     pos := pos i; parent := v; sprixel := sprixel i;
     overlappable := overlappable i; pickable := pickable i;
     restorable := restorable i; can_move := can_move i; perm := perm i;
     _inventory_space := _inventory_space i; value := value i;
     inventory := inventory i; step := step i; actuator := actuator i;
     range := range i; is_aoe := is_aoe i; aoe_radius := aoe_radius i;
     hp := hp i; max_hp := max_hp i; remaining_lives := remaining_lives i;
     attack_power := attack_power i |}.
Definition set_sprixel (v : option Sprixel) (i : Item) : Item :=
  {| cls := cls i; name := name i; type := type i; model := model i;
     pos := pos i; parent := parent i; sprixel := v;
     overlappable := overlappable i; pickable := pickable i;
     restorable := restorable i; can_move := can_move i; perm := perm i;
     _inventory_space := _inventory_space i; value := value i;
     inventory := inventory i; step := step i; actuator := actuator i;
     range := range i; is_aoe := is_aoe i; aoe_radius := aoe_radius i;
     hp := hp i; max_hp := max_hp i; remaining_lives := remaining_lives i;
     attack_power := attack_power i |}.
Definition set_step (v : option Z) (i : Item) : Item :=
  {| cls := cls i; name := name i; type := type i; model := model i;
     pos := pos i; parent := parent i; sprixel := sprixel i;
     overlappable := overlappable i; pickable := pickable i;
     restorable := restorable i; can_move := can_move i; perm := perm i;
     _inventory_space := _inventory_space i; value := value i;
     inventory := inventory i; step := v; actuator := actuator i;
     range := range i; is_aoe := is_aoe i; aoe_radius := aoe_radius i;
     hp := hp i; max_hp := max_hp i; remaining_lives := remaining_lives i;
     attack_power := attack_power i |}.
Definition set_actuator (v : option Actuator) (i : Item) : Item :=
  {| cls := cls i; name := name i; type := type i; model := model i;
     pos := pos i; parent := parent i; sprixel := sprixel i;
     overlappable := overlappable i; pickable := pickable i;
     restorable := restorable i; can_move := can_move i; perm := perm i;
     _inventory_space := _inventory_space i; value := value i;
     inventory := inventory i; step := step i; actuator := v;
     range := range i; is_aoe := is_aoe i; aoe_radius := aoe_radius i;
     hp := hp i; max_hp := max_hp i; remaining_lives := remaining_lives i;
     attack_power := attack_power i |}.
Definition set_range (v : Z) (i : Item) : Item :=
  {| cls := cls i; name := name i; type := type i; model := model i;
     pos := pos i; parent := parent i; sprixel := sprixel i;
     overlappable := overlappable i; pickable := pickable i;
     restorable := restorable i; can_move := can_move i; perm := perm i;
     _inventory_space := _inventory_space i; value := value i;
     inventory := inventory i; step := step i; actuator := actuator i;
     range := v; is_aoe := is_aoe i; aoe_radius := aoe_radius i; hp := hp i;
     max_hp := max_hp i; remaining_lives := remaining_lives i;
     attack_power := attack_power i |}.

Definition set_type (v : string) (i : Item) : Item :=
  {| cls := cls i; name := name i; type := v; model := model i;
     pos := pos i; parent := parent i; sprixel := sprixel i;
     overlappable := overlappable i; pickable := pickable i;
     restorable := restorable i; can_move := can_move i; perm := perm i;
     _inventory_space := _inventory_space i; value := value i;
     inventory := inventory i; step := step i; actuator := actuator i;
     range := range i; is_aoe := is_aoe i; aoe_radius := aoe_radius i;
     hp := hp i; max_hp := max_hp i; remaining_lives := remaining_lives i;
     attack_power := attack_power i |}.
Definition set_overlappable (v : bool) (i : Item) : Item :=
  {| cls := cls i; name := name i; type := type i; model := model i;
     pos := pos i; parent := parent i; sprixel := sprixel i;
     overlappable := v; pickable := pickable i; restorable := restorable i;
     can_move := can_move i; perm := perm i;
     _inventory_space := _inventory_space i; value := value i;
     inventory := inventory i; step := step i; actuator := actuator i;
     range := range i; is_aoe := is_aoe i; aoe_radius := aoe_radius i;
     hp := hp i; max_hp := max_hp i; remaining_lives := remaining_lives i;
     attack_power := attack_power i |}.
Definition set_pickable (v : bool) (i : Item) : Item :=
  {| cls := cls i; name := name i; type := type i; model := model i;
     pos := pos i; parent := parent i; sprixel := sprixel i;
     overlappable := overlappable i; pickable := v;
     restorable := restorable i; can_move := can_move i; perm := perm i;
     _inventory_space := _inventory_space i; value := value i;
     inventory := inventory i; step := step i; actuator := actuator i;
     range := range i; is_aoe := is_aoe i; aoe_radius := aoe_radius i;
     hp := hp i; max_hp := max_hp i; remaining_lives := remaining_lives i;
     attack_power := attack_power i |}.
Definition set_restorable (v : bool) (i : Item) : Item :=
  {| cls := cls i; name := name i; type := type i; model := model i;
     pos := pos i; parent := parent i; sprixel := sprixel i;
     overlappable := overlappable i; pickable := pickable i;
     restorable := v; can_move := can_move i; perm := perm i;
     _inventory_space := _inventory_space i; value := value i;
     inventory := inventory i; step := step i; actuator := actuator i;
     range := range i; is_aoe := is_aoe i; aoe_radius := aoe_radius i;
     hp := hp i; max_hp := max_hp i; remaining_lives := remaining_lives i;
     attack_power := attack_power i |}.
Definition set_inventory_space (v : option Z) (i : Item) : Item :=
  {| cls := cls i; name := name i; type := type i; model := model i;
     pos := pos i; parent := parent i; sprixel := sprixel i;
     overlappable := overlappable i; pickable := pickable i;
     restorable := restorable i; can_move := can_move i; perm := perm i;
     _inventory_space := v; value := value i; inventory := inventory i;
     step := step i; actuator := actuator i; range := range i;
     is_aoe := is_aoe i; aoe_radius := aoe_radius i; hp := hp i;
     max_hp := max_hp i; remaining_lives := remaining_lives i;
     attack_power := attack_power i |}.
Definition set_value (v : option Z) (i : Item) : Item :=
  {| cls := cls i; name := name i; type := type i; model := model i;
     pos := pos i; parent := parent i; sprixel := sprixel i;
     overlappable := overlappable i; pickable := pickable i;
     restorable := restorable i; can_move := can_move i; perm := perm i;
     _inventory_space := _inventory_space i; value := v;
     inventory := inventory i; step := step i; actuator := actuator i;
     range := range i; is_aoe := is_aoe i; aoe_radius := aoe_radius i;
     hp := hp i; max_hp := max_hp i; remaining_lives := remaining_lives i;
     attack_power := attack_power i |}.
Definition set_hp (v : option Z) (i : Item) : Item :=
  {| cls := cls i; name := name i; type := type i; model := model i;
     pos := pos i; parent := parent i; sprixel := sprixel i;
     overlappable := overlappable i; pickable := pickable i;
     restorable := restorable i; can_move := can_move i; perm := perm i;
     _inventory_space := _inventory_space i; value := value i;
     inventory := inventory i; step := step i; actuator := actuator i;
     range := range i; is_aoe := is_aoe i; aoe_radius := aoe_radius i;
     hp := v; max_hp := max_hp i; remaining_lives := remaining_lives i;
     attack_power := attack_power i |}.
Definition set_max_hp (v : option Z) (i : Item) : Item :=
  {| cls := cls i; name := name i; type := type i; model := model i;
     pos := pos i; parent := parent i; sprixel := sprixel i;
     overlappable := overlappable i; pickable := pickable i;
     restorable := restorable i; can_move := can_move i; perm := perm i;
     _inventory_space := _inventory_space i; value := value i;
     inventory := inventory i; step := step i; actuator := actuator i;
     range := range i; is_aoe := is_aoe i; aoe_radius := aoe_radius i;
     hp := hp i; max_hp := v; remaining_lives := remaining_lives i;
     attack_power := attack_power i |}.
Definition set_remaining_lives (v : option Z) (i : Item) : Item :=
  {| cls := cls i; name := name i; type := type i; model := model i;
     pos := pos i; parent := parent i; sprixel := sprixel i;
     overlappable := overlappable i; pickable := pickable i;
     restorable := restorable i; can_move := can_move i; perm := perm i;
     _inventory_space := _inventory_space i; value := value i;
     inventory := inventory i; step := step i; actuator := actuator i;
     range := range i; is_aoe := is_aoe i; aoe_radius := aoe_radius i;
     hp := hp i; max_hp := max_hp i; remaining_lives := v;
     attack_power := attack_power i |}.
Definition set_attack_power (v : option Z) (i : Item) : Item :=
  {| cls := cls i; name := name i; type := type i; model := model i;
     pos := pos i; parent := parent i; sprixel := sprixel i;
     overlappable := overlappable i; pickable := pickable i;
     restorable := restorable i; can_move := can_move i; perm := perm i;
     _inventory_space := _inventory_space i; value := value i;
     inventory := inventory i; step := step i; actuator := actuator i;
     range := range i; is_aoe := is_aoe i; aoe_radius := aoe_radius i;
     hp := hp i; max_hp := max_hp i; remaining_lives := remaining_lives i;
     attack_power := v |}.

(** [item.sprixel.bg_color = c]. *)
Definition set_bg_color (c : option string) (i : Item) : Item :=
  match sprixel i with
  | Some sp =>
      set_sprixel
        (Some {| sp_model := sp_model sp; bg_color := c;
                 is_bg_transparent := is_bg_transparent sp |}) i
  | None => i
  end.

(** [item.store_position(row, column)]. *)
Definition store_position (row column : Z) (i : Item) : Item :=
  set_pos (Some (row, column)) i.

(** Modelled from the spec: the constructor [board_items.BoardItemVoid]
    is not among the sources.  A Void is overlappable, not pickable and not
    restorable, and has no position until it is placed. *)
Definition new_BoardItemVoid (mdl : string) (sp : option Sprixel)
  (par : Parent) : Item :=
  {| cls := BoardItemVoid; name := "void_cell"; type := "void"; model := mdl;
     pos := None; parent := par; sprixel := sp;
     overlappable := true; pickable := false; restorable := false;
     can_move := false; perm := NONE_AUTHORIZED;
     _inventory_space := None; value := None; inventory := None;
     step := None; actuator := None; range := 0; is_aoe := false;
     aoe_radius := 0; hp := None; max_hp := None; remaining_lives := None;
     attack_power := None |}.

(** ** The store *)

(** [engine.Inventory]: [max_size] and the [__items] dictionary, in
    insertion order. *)
Record Inventory : Type := {
  max_size : Z;
  items : list (string * ref)
}.

(** What the host's callbacks are called with: [activate()] on an
    actionable item, and [hit(objects)] on a projectile.  Their bodies belong
    to the host program; the kernel's part is the call, which the trace
    records in order. *)
Inductive Event : Type :=
| Activated (target : ref)
| Hit (projectile : ref) (objects : list ref).

(** The objects of a run.  [heap] gives each reference its item, references
    below [next_ref] being the allocated ones; [uuid_hex] is the sequence of
    values the successive calls of [uuid.uuid4().hex] return. *)
Record Store : Type := {
  heap : ref -> Item;
  next_ref : ref;
  inventories : inv_ref -> Inventory;
  trace : list Event;
  uuid_hex : nat -> string;
  uuid_count : nat
}.

Definition set_heap (h : ref -> Item) (s : Store) : Store :=
  {| heap := h; next_ref := next_ref s; inventories := inventories s;
     trace := trace s; uuid_hex := uuid_hex s; uuid_count := uuid_count s |}.
Definition set_inventories (v : inv_ref -> Inventory) (s : Store) : Store :=
  {| heap := heap s; next_ref := next_ref s; inventories := v;
     trace := trace s; uuid_hex := uuid_hex s; uuid_count := uuid_count s |}.
Definition set_trace (t : list Event) (s : Store) : Store :=
  {| heap := heap s; next_ref := next_ref s; inventories := inventories s;
     trace := t; uuid_hex := uuid_hex s; uuid_count := uuid_count s |}.

(** Assignment to the object behind a reference. *)
Definition upd {A} (r : nat) (x : A) (f : nat -> A) : nat -> A :=
  fun r' => if bool_decide (r' = r) then x else f r'.

Definition update_item (r : ref) (f : Item -> Item) (s : Store) : Store :=
  set_heap (upd r (f (heap s r)) (heap s)) s.

(** A constructor call: the new object gets the next reference. *)
Definition allocate (i : Item) : M Store ref := fun s =>
  (Ok (next_ref s),
   {| heap := upd (next_ref s) i (heap s); next_ref := S (next_ref s);
      inventories := inventories s; trace := trace s;
      uuid_hex := uuid_hex s; uuid_count := uuid_count s |}).

Definition log (e : Event) (s : Store) : Store :=
  set_trace (trace s ++ [e]) s.

(** [uuid.uuid4().hex]. *)
Definition uuid4_hex : M Store string := fun s =>
  (Ok (uuid_hex s (uuid_count s)),
   {| heap := heap s; next_ref := next_ref s; inventories := inventories s;
      trace := trace s; uuid_hex := uuid_hex s;
      uuid_count := S (uuid_count s) |}).

(** ** Python dictionaries with string keys, in insertion order *)

Fixpoint dict_get {V} (d : list (string * V)) (k : string) : option V :=
  match d with
  | [] => None
  | (k', v) :: d' => if bool_decide (k' = k) then Some v else dict_get d' k
  end.

Definition dict_mem {V} (d : list (string * V)) (k : string) : bool :=
  match dict_get d k with Some _ => true | None => false end.

(** [d[k] = v]: an existing key keeps its place, a new one goes last. *)
Fixpoint dict_set {V} (d : list (string * V)) (k : string) (v : V)
  : list (string * V) :=
  match d with
  | [] => [(k, v)]
  | (k', v') :: d' =>
      if bool_decide (k' = k) then (k, v) :: d' else (k', v') :: dict_set d' k v
  end.

(** [del d[k]]. *)
Fixpoint dict_del {V} (d : list (string * V)) (k : string)
  : list (string * V) :=
  match d with
  | [] => []
  | (k', v') :: d' =>
      if bool_decide (k' = k) then d' else (k', v') :: dict_del d' k
  end.

(** [needle in hay] on strings. *)
Definition contains (needle hay : string) : bool :=
  match String.index 0 needle hay with Some _ => true | None => false end.

(** ** Inventory *)

Module Inventory.

(** Modelled from the spec: [inventory_space()] is a method of the absent
    [board_items] classes; it answers the [_inventory_space] attribute, the
    one the engine tests with [hasattr] and the level loader assigns, and
    fails on an object that has none. *)
Definition inventory_space (i : Item) : M Store Z :=
  match _inventory_space i with
  | Some n => ret n
  | None => raise AttributeError
  end.

(** [Inventory(max_size, parent)]: a new, empty inventory in slot [self]. *)
Definition init (self : inv_ref) (max : Z) : M Store unit :=
  modify (fun s =>
    set_inventories (upd self {| max_size := max; items := [] |} (inventories s)) s).

(** [Inventory.size]. *)
Definition size_of (h : ref -> Item) (d : list (string * ref)) : Z :=
  foldl (fun val kv =>
           match _inventory_space (h kv.2) with
           | Some n => val + n
           | None => val
           end) 0 d.

Definition size (self : inv_ref) : M Store Z :=
  gets (fun s => size_of (heap s) (items (inventories s self))).

(** [Inventory.value]. *)
Definition value_of (h : ref -> Item) (d : list (string * ref)) : Z :=
  foldl (fun val kv =>
           match value (h kv.2) with
           | Some n => val + n
           | None => val
           end) 0 d.

Definition value (self : inv_ref) : M Store Z :=
  gets (fun s => value_of (heap s) (items (inventories s self))).

(** [Inventory.empty]. *)
Definition empty (self : inv_ref) : M Store unit :=
  modify (fun s =>
    set_inventories
      (upd self {| max_size := max_size (inventories s self); items := [] |}
         (inventories s)) s).

Definition set_items (self : inv_ref) (d : list (string * ref)) : M Store unit :=
  modify (fun s =>
    set_inventories
      (upd self {| max_size := max_size (inventories s self); items := d |}
         (inventories s)) s).

(** [Inventory.add_item].  The last branch of the source builds its message
    with [str + type(item)], which Python refuses before the exception
    object exists: what escapes there is a [TypeError]. *)
Definition add_item (self : inv_ref) (item : ref) : M Store unit :=
  do i <- gets (fun s => heap s item);
  if is_BoardItem (cls i) then
    if pickable i then
      do keys <- gets (fun s => items (inventories s self));
      (when (bool_decide (name i = "") || dict_mem keys (name i)) then
         do u <- uuid4_hex;
         modify (update_item item (set_name (name i +:+ "_" +:+ u))));;
      do i <- gets (fun s => heap s item);
      do inv <- gets (fun s => inventories s self);
      do sz <- size self;
      match _inventory_space i with
      | Some space =>
          if bool_decide (max_size inv >= sz + space) then
            set_items self (dict_set (items inv) (name i) item)
          else raise (PglInventoryException "not_enough_space")
      | None =>
          inventory_space i;;
          raise (PglInventoryException "not_enough_space")
      end
    else raise (PglInventoryException "not_pickable")
  else raise TypeError.

(** [Inventory.items_name]. *)
Definition items_name (self : inv_ref) : M Store (list string) :=
  gets (fun s => (items (inventories s self)).*1).

(** [Inventory.get_item]. *)
Definition get_item (self : inv_ref) (nm : string) : M Store ref :=
  do d <- gets (fun s => items (inventories s self));
  match dict_get d nm with
  | Some r => ret r
  | None => raise (PglInventoryException "no_item_by_that_name")
  end.

(** [Inventory.delete_item]. *)
Definition delete_item (self : inv_ref) (nm : string) : M Store unit :=
  do d <- gets (fun s => items (inventories s self));
  if dict_mem d nm then set_items self (dict_del d nm)
  else raise (PglInventoryException "no_item_by_that_name").

(** [Inventory.search]. *)
Definition search (self : inv_ref) (query : string) : M Store (list ref) :=
  gets (fun s =>
    omap (fun kv : string * ref =>
            if contains query kv.1 then Some kv.2 else None)
      (items (inventories s self))).

End Inventory.

(** ** Board *)

(** [engine.Board].  [size] is [[width, height]]; the two matrices are
    indexed [[row][column]]; [_movables] and [_immovables] are sets of
    object references. *)
Record Board : Type := {
  board_name : string;
  size : Z * Z;
  player_starting_position : Z * Z;
  ui_border_left : string;
  ui_border_right : string;
  ui_border_top : string;
  ui_border_bottom : string;
  ui_board_void_cell : string;
  ui_board_void_cell_sprixel : option Sprixel;
  matrix : list (list ref);
  overlapped_matrix : list (list (option ref));
  movables : gset ref;
  immovables : gset ref
}.

Definition set_matrix (v : list (list ref)) (b : Board) : Board :=
  {| board_name := board_name b; size := size b;
     player_starting_position := player_starting_position b;
     ui_border_left := ui_border_left b;
     ui_border_right := ui_border_right b; ui_border_top := ui_border_top b;
     ui_border_bottom := ui_border_bottom b;
     ui_board_void_cell := ui_board_void_cell b;
     ui_board_void_cell_sprixel := ui_board_void_cell_sprixel b;
     matrix := v; overlapped_matrix := overlapped_matrix b;
     movables := movables b; immovables := immovables b |}.
Definition set_overlapped_matrix (v : list (list (option ref))) (b : Board)
  : Board :=
  {| board_name := board_name b; size := size b;
     player_starting_position := player_starting_position b;
     ui_border_left := ui_border_left b;
     ui_border_right := ui_border_right b; ui_border_top := ui_border_top b;
     ui_border_bottom := ui_border_bottom b;
     ui_board_void_cell := ui_board_void_cell b;
     ui_board_void_cell_sprixel := ui_board_void_cell_sprixel b;
     matrix := matrix b; overlapped_matrix := v; movables := movables b;
     immovables := immovables b |}.
Definition set_movables (v : gset ref) (b : Board) : Board :=
  {| board_name := board_name b; size := size b;
     player_starting_position := player_starting_position b;
     ui_border_left := ui_border_left b;
     ui_border_right := ui_border_right b; ui_border_top := ui_border_top b;
     ui_border_bottom := ui_border_bottom b;
     ui_board_void_cell := ui_board_void_cell b;
     ui_board_void_cell_sprixel := ui_board_void_cell_sprixel b;
     matrix := matrix b; overlapped_matrix := overlapped_matrix b;
     movables := v; immovables := immovables b |}.
Definition set_immovables (v : gset ref) (b : Board) : Board :=
  {| board_name := board_name b; size := size b;
     player_starting_position := player_starting_position b;
     ui_border_left := ui_border_left b;
     ui_border_right := ui_border_right b; ui_border_top := ui_border_top b;
     ui_border_bottom := ui_border_bottom b;
     ui_board_void_cell := ui_board_void_cell b;
     ui_board_void_cell_sprixel := ui_board_void_cell_sprixel b;
     matrix := matrix b; overlapped_matrix := overlapped_matrix b;
     movables := movables b; immovables := v |}.

(** A board together with the objects it refers to. *)
Record World : Type := {
  store : Store;
  board : Board
}.

Definition on_store {A} (m : M Store A) : M World A := fun w =>
  let '(r, s) := m (store w) in (r, {| store := s; board := board w |}).

Definition on_board (f : Board -> Board) : M World unit :=
  modify (fun w => {| store := store w; board := f (board w) |}).

Definition deref (r : ref) : M World Item :=
  gets (fun w => heap (store w) r).

Definition assign (r : ref) (f : Item -> Item) : M World unit :=
  on_store (modify (update_item r f)).

(** Reads and writes of one cell; Python raises [IndexError] when an index
    is outside the list. *)
Definition or_raise {S A} (e : exn) (o : option A) : M S A :=
  match o with Some a => ret a | None => raise e end.

Definition matrix_get (row column : Z) : M World ref :=
  do m <- gets (fun w => matrix (board w));
  or_raise IndexError (py_get2 m row column).

Definition matrix_set (row column : Z) (x : ref) : M World unit :=
  do m <- gets (fun w => matrix (board w));
  do m' <- or_raise IndexError (py_set2 m row column x);
  on_board (set_matrix m').

Definition overlapped_get (row column : Z) : M World (option ref) :=
  do m <- gets (fun w => overlapped_matrix (board w));
  or_raise IndexError (py_get2 m row column).

Definition overlapped_set (row column : Z) (x : option ref) : M World unit :=
  do m <- gets (fun w => overlapped_matrix (board w));
  do m' <- or_raise IndexError (py_set2 m row column x);
  on_board (set_overlapped_matrix m').

(** [n] runs of [m], collecting the results. *)
Fixpoint replicateM {S A} (n : nat) (m : M S A) : M S (list A) :=
  match n with
  | O => ret []
  | S n' => do x <- m; do xs <- replicateM n' m; ret (x :: xs)
  end.

(** Modelled from the spec: the default [model] of a [BoardItemVoid] built
    without one is a class default of the absent [board_items]. *)
Definition BoardItemVoid_default_model : string := "".

(** The attributes a keyword of [get_movables] and [get_immovables] can
    name here: those of every item that hold a string. *)
Inductive StrAttr : Type := AttrName | AttrType | AttrModel.

(** [getattr(item, arg_key)]. *)
Definition getattr (i : Item) (k : StrAttr) : string :=
  match k with
  | AttrName => name i
  | AttrType => type i
  | AttrModel => model i
  end.

(** The test of the loop of [get_movables] and [get_immovables]: the
    keywords whose value the attribute contains are counted, and the count
    is compared with the number of keywords. *)
Definition kwargs_match (i : Item) (kwargs : list (StrAttr * string)) : bool :=
  let counter :=
    foldl (fun counter kv =>
             if contains kv.2 (getattr i kv.1) then counter + 1 else counter)
      0 kwargs in
  bool_decide (counter = Z.of_nat (length kwargs)).

(** [for item in s] and [list(s)] on a set: the members, each once, in an
    order the set chooses. *)
Definition set_members (s : gset ref) : list ref := elements s.

(** The body [get_movables] and [get_immovables] share: without keywords
    the members, else those that pass the test for every keyword. *)
Definition select (s : gset ref) (kwargs : list (StrAttr * string))
  : M World (list ref) :=
  match kwargs with
  | [] => ret (set_members s)
  | _ =>
      do h <- gets (fun w => heap (store w));
      ret (filter (fun item => kwargs_match (h item) kwargs = true)
             (set_members s))
  end.

Module Board.

Definition width (b : Board) : Z := (size b).1.
Definition height (b : Board) : Z := (size b).2.

(** [Board.generate_void_cell]: the new Void takes the board's void
    sprixel and its model when there is one, else the void-cell model. *)
Definition void_of (b : Board) : Item :=
  match ui_board_void_cell_sprixel b with
  | Some sp => new_BoardItemVoid (sp_model sp) (Some sp) ParentBoard
  | None => new_BoardItemVoid (ui_board_void_cell b) None ParentBoard
  end.

Definition generate_void_cell : M World ref :=
  do b <- gets board;
  on_store (allocate (void_of b)).

(** [Board.init_board]: [size[1]] rows of [size[0]] new Voids, and an
    overlapped matrix of the same shape filled with [None]. *)
Definition init_board : M World unit :=
  do b <- gets board;
  let w := Z.to_nat (width b) in
  let h := Z.to_nat (height b) in
  let void :=
    match ui_board_void_cell_sprixel b with
    | Some sp => new_BoardItemVoid BoardItemVoid_default_model (Some sp) ParentBoard
    | None => new_BoardItemVoid (ui_board_void_cell b) None ParentBoard
    end in
  do m <- replicateM h (replicateM w (on_store (allocate void)));
  on_board (set_matrix m);;
  on_board (set_overlapped_matrix (replicate h (replicate w None))).

(** [Board.init_cell]. *)
Definition init_cell (row column : Z) : M World unit :=
  do v <- generate_void_cell;
  matrix_set row column v.

(** [Board.item]. *)
Definition item (row column : Z) : M World ref :=
  do b <- gets board;
  if bool_decide (row < height b) && bool_decide (column < width b) then
    matrix_get row column
  else raise PglOutOfBoardBoundException.

(** [Board.place_item], for the single-cell items of the embedding: no
    item is a [BoardComplexItem], so the branch that places one component
    by component is not taken, and no item has one as its parent, so the
    item itself, not its parent, enters the set of its class. *)
Definition place_item (item : ref) (row column : Z) : M World unit :=
  do b <- gets board;
  if bool_decide (row < height b) && bool_decide (column < width b) then
    do i <- deref item;
    if is_BoardItem (cls i) then
      do existing_item <- matrix_get row column;
      do e <- deref existing_item;
      (when (is_Immovable (cls e) && restorable e && overlappable e) then
         overlapped_set row column (Some existing_item);;
         match sprixel i, sprixel e with
         | Some si, Some se =>
             when (is_bg_transparent si) then
               assign item (set_bg_color (bg_color se))
         | _, _ => ret tt
         end);;
      matrix_set row column item;;
      (when (match parent i with NoParent => true | _ => false end) then
         assign item (set_parent ParentBoard));;
      assign item (store_position row column);;
      if is_Movable (cls i) then
        on_board (fun b => set_movables (movables b ∪ {[item]}) b)
      else if is_Immovable (cls i) then
        on_board (fun b => set_immovables (immovables b ∪ {[item]}) b)
      else ret tt
    else raise PglInvalidTypeException
  else raise PglOutOfBoardBoundException.

(** [Board.clear_cell].  The source writes [None] to the cell between the
    set update and the read of the overlap slot; the two matrices have the
    same shape, so that read succeeds whenever the first one did and the
    [None] is never observed. *)
Definition clear_cell (row column : Z) : M World unit :=
  do occupant <- matrix_get row column;
  do b <- gets board;
  (if bool_decide (occupant ∈ movables b) then
     on_board (fun b => set_movables (movables b ∖ {[occupant]}) b)
   else if bool_decide (occupant ∈ immovables b) then
     on_board (fun b => set_immovables (immovables b ∖ {[occupant]}) b)
   else ret tt);;
  do o <- overlapped_get row column;
  match o with
  | Some overlapped =>
      matrix_set row column overlapped;;
      overlapped_set row column None
  | None => init_cell row column
  end.

(** Modelled from the spec: [has_inventory()] and [activate()] are methods
    of the absent [board_items] classes.  An item has an inventory when its
    [inventory] attribute holds one; [activate()] runs the host's action,
    which the trace records.  What the action does to the game is the
    host's and is outside the embedding: the properties that say what a
    move leaves unchanged suppose that the move activates nothing. *)
Definition has_inventory (i : Item) : bool :=
  match inventory i with Some _ => true | None => false end.

Definition activate (target : ref) : M World unit :=
  on_store (modify (log (Activated target))).

(** [item.pos[0]], [item.pos[1]]: arithmetic on the [[None, None]] of an
    item that was never placed is a [TypeError]. *)
Definition pos_of (item : ref) : M World (Z * Z) :=
  do i <- deref item;
  or_raise TypeError (pos i).

(** The first part of [Board._move_simple]: the new coordinates, [None]
    when no branch assigns them. *)
Definition destination (item : ref) (direction : DirArg) (stp : Z)
  : M World (option (Z * Z)) :=
  match direction with
  | Vector v =>
      do p <- pos_of item; ret (Some (p.1 + v_row v, p.2 + v_column v))
  | Const UP => do p <- pos_of item; ret (Some (p.1 - stp, p.2))
  | Const DOWN => do p <- pos_of item; ret (Some (p.1 + stp, p.2))
  | Const LEFT => do p <- pos_of item; ret (Some (p.1, p.2 - stp))
  | Const RIGHT => do p <- pos_of item; ret (Some (p.1, p.2 + stp))
  | Const DRUP => do p <- pos_of item; ret (Some (p.1 - stp, p.2 + stp))
  | Const DRDOWN => do p <- pos_of item; ret (Some (p.1 + stp, p.2 + stp))
  | Const DLUP => do p <- pos_of item; ret (Some (p.1 - stp, p.2 - stp))
  | Const DLDOWN => do p <- pos_of item; ret (Some (p.1 + stp, p.2 - stp))
  | Const NO_DIR => ret None
  end.

(** The permission test of [Board._move_simple]. *)
Definition may_activate (mover : ItemClass) (p : Permission) : bool :=
  (is_Player mover
   && (bool_decide (p = PLAYER_AUTHORIZED)
       || bool_decide (p = ALL_CHARACTERS_AUTHORIZED)))
  || (is_NPC mover
      && (bool_decide (p = NPC_AUTHORIZED)
          || bool_decide (p = ALL_CHARACTERS_AUTHORIZED))).

(** [place_item(x, x.pos[0], x.pos[1])]. *)
Definition place_item_at_own_pos (x : ref) : M World unit :=
  do p <- pos_of x;
  place_item x p.1 p.2.

(** [Board._move_simple], in parts.  First, with the destination in
    bounds: activation of an actionable destination, then pickup of a
    destination that is pickable and not overlappable. *)
Definition activate_and_pickup (item : ref) (new_row new_column : Z)
  : M World unit :=
  do i <- deref item;
  do dest <- matrix_get new_row new_column;
  do dst <- deref dest;
  (when (is_Actionable (cls dst) && may_activate (cls i) (perm dst)) then
     activate dest);;
  when (negb (overlappable dst) && pickable dst
        && is_Movable (cls i) && has_inventory i) then
    match inventory i with
    | Some inv => on_store (Inventory.add_item inv dest)
    | None => raise AttributeError
    end;;
    clear_cell new_row new_column.

(** What goes to the departure cell: the overlapped item under the mover
    when it is a restorable Immovable that is not stored at the new cell,
    else a new Void. *)
Definition leave_cell (item : ref) (new_row new_column : Z) : M World unit :=
  do p <- pos_of item;
  do o <- overlapped_get p.1 p.2;
  match o with
  | Some overlapped_item =>
      do oi <- deref overlapped_item;
      if is_Immovable (cls oi) && restorable oi
         && bool_decide (pos oi <> Some (new_row, new_column))
      then
        place_item_at_own_pos overlapped_item;;
        do p <- pos_of item;
        overlapped_set p.1 p.2 None
      else
        do v <- generate_void_cell;
        do p <- pos_of item;
        place_item v p.1 p.2
  | None =>
      do v <- generate_void_cell;
      do p <- pos_of item;
      place_item v p.1 p.2
  end.

(** Then, when what the destination now holds is overlappable: it is saved
    on the hidden layer if it is a restorable Immovable, and the item adopts
    its background colour if its own is transparent. *)
Definition park_destination (item : ref) (new_row new_column : Z) (dest : ref)
  : M World unit :=
  do dst <- deref dest;
  (when (negb (is_BoardItemVoid (cls dst))
         && is_Immovable (cls dst) && restorable dst) then
     overlapped_set new_row new_column (Some dest));;
  do i <- deref item;
  match sprixel i, sprixel dst with
  | Some si, Some sd =>
      when (is_bg_transparent si) then
        assign item (set_bg_color (bg_color sd))
  | _, _ => ret tt
  end.

(** Last, the departure cell is settled and the item is placed. *)
Definition overlap_and_place (item : ref) (new_row new_column : Z)
  : M World unit :=
  do dest <- matrix_get new_row new_column;
  do dst <- deref dest;
  when (overlappable dst) then
    park_destination item new_row new_column dest;;
    leave_cell item new_row new_column;;
    place_item item new_row new_column.

Definition _move_simple (item : ref) (direction : DirArg) (stp : Z)
  : M World unit :=
  do i <- deref item;
  if is_Movable (cls i) && can_move i then
    do d <- destination item direction stp;
    do b <- gets board;
    match d with
    | Some (new_row, new_column) =>
        when (bool_decide (new_row >= 0) && bool_decide (new_column >= 0)
              && bool_decide (new_row < height b)
              && bool_decide (new_column < width b)) then
          activate_and_pickup item new_row new_column;;
          overlap_and_place item new_row new_column
    | None => ret tt
    end
  else raise PglObjectIsNotMovableException.

(** [Board.move].  The components of a [Vector2D] are already integers, on
    which [round] is the identity, and no item of the embedding is a
    [BoardComplexItem]: the call goes to [_move_simple]. *)
Definition move (item : ref) (direction : DirArg) (stp : Z) : M World unit :=
  _move_simple item direction stp.

(** [Board.move(item, direction, item.step)] with a direction constant, as
    [actuate_npcs] and [actuate_projectiles] call it.  A step that is
    [None] is passed on as it is: [_move_simple] then refuses an item that
    is no Movable or cannot move, does nothing for [NO_DIR], and for every
    other direction meets a [TypeError] in the arithmetic of the new
    coordinates. *)
Definition move_own_step (item : ref) (direction : Direction) : M World unit :=
  do i <- deref item;
  match step i with
  | Some stp => move item (Const direction) stp
  | None =>
      if is_Movable (cls i) && can_move i then
        match direction with
        | NO_DIR => ret tt
        | _ => raise TypeError
        end
      else raise PglObjectIsNotMovableException
  end.

(** [Board.get_movables] and [Board.get_immovables]; the keywords are given
    as the list of their names and values. *)
Definition get_movables (kwargs : list (StrAttr * string))
  : M World (list ref) :=
  do b <- gets board; select (movables b) kwargs.

Definition get_immovables (kwargs : list (StrAttr * string))
  : M World (list ref) :=
  do b <- gets board; select (immovables b) kwargs.

End Board.

(** ** Stock items and empty boards *)

(** Modelled from the spec: the constructors of the absent [board_items]
    classes.  [mk_item] fixes the attributes every item has; the flags are
    those spec section 3 gives each variant. *)
Definition mk_item (c : ItemClass) (nm : string) (ov pk rs cm : bool)
  (space val : option Z) (inv : option inv_ref) : Item :=
  {| cls := c; name := nm; type := "item"; model := "*";
     pos := None; parent := NoParent; sprixel := None;
     overlappable := ov; pickable := pk; restorable := rs; can_move := cm;
     perm := NONE_AUTHORIZED;
     _inventory_space := space; value := val; inventory := inv;
     step := None; actuator := None; range := 0; is_aoe := false;
     aoe_radius := 0; hp := None; max_hp := None; remaining_lives := None;
     attack_power := None |}.

Definition mk_Wall (nm : string) : Item :=
  mk_item Wall nm false false false false (Some 1) None None.
Definition mk_Door (nm : string) : Item :=
  mk_item Door nm true false true false (Some 1) (Some 0) None.
Definition mk_Treasure (nm : string) (val space : Z) : Item :=
  mk_item Treasure nm false true false false (Some space) (Some val) None.
Definition mk_Player (nm : string) (inv : option inv_ref) : Item :=
  mk_item Player nm false false false true None None inv.
Definition mk_NPC (nm : string) : Item :=
  mk_item NPC nm false false false true None None None.

(** Modelled from the spec: [Projectile(name, is_aoe, aoe_radius, range)] of
    the absent [board_items], a Movable with no actuator and no step yet. *)
Definition mk_Projectile (nm : string) (aoe : bool) (radius rng : Z) : Item :=
  {| cls := Projectile; name := nm; type := "item"; model := "*";
     pos := None; parent := NoParent; sprixel := None;
     overlappable := false; pickable := false; restorable := false;
     can_move := true; perm := NONE_AUTHORIZED;
     _inventory_space := None; value := None; inventory := None;
     step := None; actuator := None; range := rng; is_aoe := aoe;
     aoe_radius := radius; hp := None; max_hp := None;
     remaining_lives := None; attack_power := None |}.

(** The start of a run: nothing allocated yet. *)
Definition empty_store (uuids : nat -> string) : Store :=
  {| heap := fun _ => mk_item OtherObject "" false false false false None None None;
     next_ref := 0%nat;
     inventories := fun _ => {| max_size := 0; items := [] |};
     trace := []; uuid_hex := uuids; uuid_count := 0%nat |}.

(** The fields [Board.__init__] sets before [init_board], for a board of
    the given name and size; the other fields keep their defaults.
    [check_sanity] tests the types of these fields, which the record
    already fixes. *)
Definition Board_defaults (nm : string) (sz : Z * Z) : Board :=
  {| board_name := nm; size := sz; player_starting_position := (0, 0);
     ui_border_left := "|"; ui_border_right := "|";
     ui_border_top := "-"; ui_border_bottom := "-";
     ui_board_void_cell := " "; ui_board_void_cell_sprixel := None;
     matrix := []; overlapped_matrix := [];
     movables := ∅; immovables := ∅ |}.

(** Running a sequence of calls from a state, keeping the final state. *)
Definition exec {S A} (m : M S A) (s : S) : S := (m s).2.
Definition outcome {S A} (m : M S A) (s : S) : res A := (m s).1.

(** [Board(name=nm, size=sz)] in a fresh run. *)
Definition new_world (nm : string) (sz : Z * Z) : World :=
  exec Board.init_board
    {| store := empty_store (fun _ => "0"); board := Board_defaults nm sz |}.


(** ** Game *)

(** One entry of [Game._boards].  The entry holds its board by value: the
    embedding covers the games in which every level has a [Board] object of
    its own.  The source stores a reference, so that one object added under
    two numbers changes under both at once; the properties that relate the
    boards of two levels suppose that these differ. *)
Record Level : Type := {
  lvl_board : Board;
  npcs : list ref;
  projectiles : list ref
}.

(** ** The persisted level format *)

(** A direction in a persisted move list: an integer constant or its name.
    The integer values are those of the absent [constants] module, so an
    integer entry is given by the constant it denotes. *)
Inductive DirDoc : Type :=
| DirInt (d : Direction)
| DirStr (s : string).

(** The [actuator] sub-object of an NPC reference; a key that is absent is
    [None]. *)
Record ActuatorDoc : Type := {
  ad_type : string;
  ad_moveset : option (list DirDoc);
  ad_path : option (list DirDoc);
  ad_waypoints : option (list (Z * Z));
  ad_circle_waypoints : option bool
}.

(** An [itemRef] dictionary.  A key that is absent is [None]; a key whose
    value is Python's [None] (JSON [null]) is [Some None]. *)
Record ItemDoc : Type := {
  d_object : option string;
  d_name : option string;
  d_pos : option (option (Z * Z));
  d_model : option string;
  d_type : option string;
  d_value : option (option Z);
  d_size : option (option Z);
  d_inventory_space : option (option Z);
  d_overlappable : option bool;
  d_pickable : option bool;
  d_restorable : option bool;
  d_hp : option (option Z);
  d_max_hp : option (option Z);
  d_step : option (option Z);
  d_remaining_lives : option (option Z);
  d_attack_power : option (option Z);
  d_actuator : option ActuatorDoc
}.

(** The level document; [map_data] maps a row key to a dictionary from
    column keys to item references. *)
Record BoardDoc : Type := {
  bd_name : option string;
  bd_size : option (Z * Z);
  bd_player_starting_position : option (Z * Z);
  bd_ui_border_left : option string;
  bd_ui_border_right : option string;
  bd_ui_border_top : option string;
  bd_ui_border_bottom : option string;
  bd_ui_board_void_cell : option string;
  bd_library : option (list ItemDoc);
  bd_map_data : option (list (string * list (string * ItemDoc)))
}.

(** [engine.Game], without its menus, configuration and terminal.  [files]
    is the file system as [save_board] and [load_board] see it: the
    documents [json.dump] wrote, by file name.  [policies] stands for the
    absent [actuators] module: the answers an actuator of a given kind gives
    to its successive [next_move()] calls. *)
Record Game : Type := {
  game_store : Store;
  boards : gmap Z Level;
  current_level : option Z;
  player : option ref;
  state : EngineState;
  object_library : list ref;
  files : gmap string BoardDoc;
  policies : ActuatorKind -> nat -> Direction
}.

Definition set_game_store (v : Store) (g : Game) : Game :=
  {| game_store := v; boards := boards g; current_level := current_level g;
     player := player g; state := state g;
     object_library := object_library g; files := files g;
     policies := policies g |}.
Definition set_boards (v : gmap Z Level) (g : Game) : Game :=
  {| game_store := game_store g; boards := v;
     current_level := current_level g; player := player g; state := state g;
     object_library := object_library g; files := files g;
     policies := policies g |}.
Definition set_current_level (v : option Z) (g : Game) : Game :=
  {| game_store := game_store g; boards := boards g; current_level := v;
     player := player g; state := state g;
     object_library := object_library g; files := files g;
     policies := policies g |}.
Definition set_player (v : option ref) (g : Game) : Game :=
  {| game_store := game_store g; boards := boards g;
     current_level := current_level g; player := v; state := state g;
     object_library := object_library g; files := files g;
     policies := policies g |}.
Definition set_state (v : EngineState) (g : Game) : Game :=
  {| game_store := game_store g; boards := boards g;
     current_level := current_level g; player := player g; state := v;
     object_library := object_library g; files := files g;
     policies := policies g |}.
Definition set_object_library (v : list ref) (g : Game) : Game :=
  {| game_store := game_store g; boards := boards g;
     current_level := current_level g; player := player g; state := state g;
     object_library := v; files := files g; policies := policies g |}.
Definition set_files (v : gmap string BoardDoc) (g : Game) : Game :=
  {| game_store := game_store g; boards := boards g;
     current_level := current_level g; player := player g; state := state g;
     object_library := object_library g; files := v; policies := policies g |}.

Definition on_game_store {A} (m : M Store A) : M Game A := fun g =>
  let '(r, s) := m (game_store g) in (r, set_game_store s g).

(** [self._boards[level_number]]. *)
Definition level (level_number : Z) : M Game Level :=
  do bs <- gets boards;
  or_raise KeyError (bs !! level_number).

Definition set_level (level_number : Z) (l : Level) : M Game unit :=
  modify (fun g => set_boards (<[level_number := l]> (boards g)) g).

(** A call of a [Board] method on the board of a level: the board and the
    store are those of the game, before and after. *)
Definition on_level_board {A} (level_number : Z) (m : M World A) : M Game A :=
  fun g =>
    match boards g !! level_number with
    | None => (Raise KeyError, g)
    | Some l =>
        let '(r, w) := m {| store := game_store g; board := lvl_board l |} in
        (r, set_boards
              (<[level_number :=
                   {| lvl_board := board w; npcs := npcs l;
                      projectiles := projectiles l |}]> (boards g))
              (set_game_store (store w) g))
    end.

Definition game_deref (r : ref) : M Game Item :=
  gets (fun g => heap (game_store g) r).

Definition game_assign (r : ref) (f : Item -> Item) : M Game unit :=
  on_game_store (modify (update_item r f)).

(** Modelled from the spec: [Projectile.hit(objects)] is a method of the
    absent [board_items]; it hands the struck items to the projectile's hit
    callback, which the trace records.  What the callback does is the
    host's and is outside the embedding. *)
Definition hit (projectile : ref) (objects : list ref) : M Game unit :=
  on_game_store (modify (log (Hit projectile objects))).

(** [for x in l: body(x)]. *)
Fixpoint for_each {S A} (l : list A) (body : A -> M S unit) : M S unit :=
  match l with
  | [] => ret tt
  | x :: l' => body x;; for_each l' body
  end.

(** [range(a, b, 1)]. *)
Definition py_range (a b : Z) : list Z := seqZ a (b - a).

(** [l.remove(x)]: the first occurrence goes; [ValueError] when there is
    none. *)
Fixpoint list_remove (x : ref) (l : list ref) : option (list ref) :=
  match l with
  | [] => None
  | y :: l' =>
      if bool_decide (y = x) then Some l'
      else match list_remove x l' with
           | Some l'' => Some (y :: l'')
           | None => None
           end
  end.

(** [for x in l: acc = body(acc, x)]. *)
Fixpoint fold_each {S A B} (l : list A) (body : B -> A -> M S B) (acc : B)
  : M S B :=
  match l with
  | [] => ret acc
  | x :: l' => do acc' <- body acc x; fold_each l' body acc'
  end.

(** Modelled from the spec: the constructors of the absent [actuators]
    module.  A new actuator is running and has answered nothing yet. *)
Definition new_actuator (policy : ActuatorKind -> nat -> Direction)
  (kind : ActuatorKind) : Actuator :=
  {| a_state := RUNNING; a_kind := kind; a_answers := policy kind;
     a_calls := 0%nat |}.

(** [str(n)] and [int(s)] on integers.  [int] also accepts spellings that
    [str] never produces (a leading [+], surrounding blanks); those are not
    needed for keys written by [save_board] and are refused here. *)
Definition py_str (n : Z) : string :=
  DecimalString.NilZero.string_of_int (Z.to_int n).
Definition py_int (s : string) : option Z :=
  match DecimalString.NilZero.int_of_string s with
  | Some d => Some (Z.of_int d)
  | None => None
  end.

(** [str(obj.__class__)]. *)
Definition class_repr (c : ItemClass) : string :=
  match c with
  | OtherObject => "<class 'object'>"
  | BoardItem => "<class 'pygamelib.board_items.BoardItem'>"
  | BoardItemVoid => "<class 'pygamelib.board_items.BoardItemVoid'>"
  | Wall => "<class 'pygamelib.board_items.Wall'>"
  | Treasure => "<class 'pygamelib.board_items.Treasure'>"
  | Door => "<class 'pygamelib.board_items.Door'>"
  | GenericStructure => "<class 'pygamelib.board_items.GenericStructure'>"
  | GenericActionableStructure =>
      "<class 'pygamelib.board_items.GenericActionableStructure'>"
  | Movable => "<class 'pygamelib.board_items.Movable'>"
  | Player => "<class 'pygamelib.board_items.Player'>"
  | NPC => "<class 'pygamelib.board_items.NPC'>"
  | Projectile => "<class 'pygamelib.board_items.Projectile'>"
  | BaseParticle => "<class 'pygamelib.gfx.particles.BaseParticle'>"
  end.

(** Modelled from the spec: the objects the default constructors of the
    absent [board_items] classes build, before [_ref2obj] assigns the
    persisted fields. *)
Definition default_Wall : Item := mk_Wall "wall".
Definition default_Treasure : Item := mk_Treasure "treasure" 10 1.
Definition default_Door : Item := mk_Door "door".
Definition default_GenericStructure : Item :=
  mk_item GenericStructure "structure" false false false false
    (Some 1) (Some 0) None.
Definition default_GenericActionableStructure : Item :=
  mk_item GenericActionableStructure "structure" false false false false
    (Some 1) (Some 0) None.
Definition default_NPC : Item := mk_NPC "npc".
Definition default_BoardItemVoid : Item :=
  new_BoardItemVoid BoardItemVoid_default_model None NoParent.

(** [if key in obj_keys: assignment]. *)
Definition if_key {A} (o : option A) (f : A -> Item -> Item) (i : Item) : Item :=
  match o with Some v => f v i | None => i end.

Module Game.

(** [Game.add_board]. *)
Definition add_board (level_number : Z) (b : Board) : M Game unit :=
  set_level level_number {| lvl_board := b; npcs := []; projectiles := [] |}.

(** [Game.get_board]. *)
Definition get_board (level_number : Z) : M Game Board :=
  do l <- level level_number; ret (lvl_board l).

(** [Game.current_board]. *)
Definition current_board : M Game Board :=
  do bs <- gets boards;
  do cl <- gets current_level;
  match cl with
  | Some n =>
      match bs !! n with
      | Some l => ret (lvl_board l)
      | None => raise PglInvalidLevelException
      end
  | None => raise PglInvalidLevelException
  end.

(** A call of a method on [self.current_board()]. *)
Definition on_current_board {A} (m : M World A) : M Game A :=
  current_board;;
  do cl <- gets current_level;
  match cl with
  | Some n => on_level_board n m
  | None => raise PglInvalidLevelException
  end.

(** [Game.change_level]. *)
Definition change_level (level_number : Z) : M Game unit :=
  do pl <- gets player;
  match pl with
  | None => raise (PglException "undefined_player")
  | Some p =>
      do i <- game_deref p;
      (when (match parent i with ParentGame => false | _ => true end) then
         game_assign p (set_parent ParentGame));;
      do bs <- gets boards;
      match bs !! level_number with
      | Some _ =>
          (match pos i with
           | Some (r, c) =>
               do cl <- gets current_level;
               do n <- or_raise KeyError cl;
               on_level_board n (Board.clear_cell r c)
           | None => ret tt
           end);;
          modify (set_current_level (Some level_number));;
          do l <- level level_number;
          let psp := player_starting_position (lvl_board l) in
          on_level_board level_number (Board.place_item p psp.1 psp.2)
      | None => raise PglInvalidLevelException
      end
  end.

(** [Game.add_npc], called with both coordinates. *)
Definition add_npc (level_number : Z) (npc : ref) (row column : Z)
  : M Game unit :=
  do i <- game_deref npc;
  if is_NPC (cls i) then
    (match actuator i with
     | None =>
         do policy <- gets policies;
         game_assign npc
           (set_actuator
              (Some (new_actuator policy
                       (RandomActuator
                          [Some UP; Some DOWN; Some LEFT; Some RIGHT]))))
     | Some _ => ret tt
     end);;
    (match step i with
     | None => game_assign npc (set_step (Some 1))
     | Some _ => ret tt
     end);;
    on_level_board level_number (Board.place_item npc row column);;
    do l <- level level_number;
    set_level level_number
      {| lvl_board := lvl_board l; npcs := npcs l ++ [npc];
         projectiles := projectiles l |}
  else raise PglInvalidTypeException.

(** [item.actuator.next_move()] on a stored item. *)
Definition item_next_move (r : ref) : M Game Direction :=
  do i <- game_deref r;
  do a <- or_raise AttributeError (actuator i);
  let '(d, a') := next_move a in
  game_assign r (set_actuator (Some a'));;
  ret d.

Definition actuator_state (r : ref) : M Game EngineState :=
  do i <- game_deref r;
  do a <- or_raise AttributeError (actuator i);
  ret (a_state a).

(** [item.step] used as a number in an arithmetic expression. *)
Definition step_of (r : ref) : M Game Z :=
  do i <- game_deref r;
  or_raise TypeError (step i).

(** [Game.actuate_npcs]. *)
Definition actuate_npcs (level_number : Z) : M Game unit :=
  do st <- gets state;
  when (bool_decide (st = RUNNING)) then
    do bs <- gets boards;
    match bs !! level_number with
    | Some l =>
        for_each (npcs l) (fun npc =>
          do ast <- actuator_state npc;
          when (bool_decide (ast = RUNNING)) then
            do d <- item_next_move npc;
            on_level_board level_number (Board.move_own_step npc d))
    | None => raise PglInvalidLevelException
    end.

(** [Game.neighbors]. *)
Definition neighbors (radius : Z) (object : option ref) : M Game (list ref) :=
  do pl <- gets player;
  let object := match object with Some o => Some o | None => pl end in
  fold_each (py_range (- radius) (radius + 1)) (fun return_array x =>
    fold_each (py_range (- radius) (radius + 1)) (fun return_array y =>
      if bool_decide (x = 0) && bool_decide (y = 0) then ret return_array
      else
        do o <- or_raise AttributeError object;
        do i <- game_deref o;
        do p <- or_raise TypeError (pos i);
        let true_x := p.1 + x in
        let true_y := p.2 + y in
        do b <- current_board;
        if bool_decide (true_x < Board.height b)
           && bool_decide (true_y < Board.width b)
        then
          do c <- on_current_board (Board.item true_x true_y);
          do ci <- game_deref c;
          if negb (is_BoardItemVoid (cls ci)) then
            do c <- on_current_board (Board.item true_x true_y);
            ret (return_array ++ [c])
          else ret return_array
        else ret return_array)
      return_array) [].

(** [Game.add_projectile]; [None] for a coordinate that is not given. *)
Definition add_projectile (level_number : Z) (projectile : ref)
  (row column : option Z) : M Game unit :=
  do p <- game_deref projectile;
  if is_Projectile (cls p) then
    match row, column with
    | Some row, Some column =>
        do l <- level level_number;
        let b := lvl_board l in
        if bool_decide (row >= Board.height b)
           || bool_decide (column >= Board.width b)
           || bool_decide (row < 0) || bool_decide (column < 0)
        then ret tt
        else
          do check_object <- on_level_board level_number (Board.item row column);
          do co <- game_deref check_object;
          if negb (is_BoardItemVoid (cls co)) then
            if is_aoe p then
              do around <- neighbors (aoe_radius p) (Some check_object);
              hit projectile around
            else hit projectile [check_object]
          else
            (match actuator p with
             | None =>
                 do policy <- gets policies;
                 game_assign projectile
                   (set_actuator
                      (Some (new_actuator policy (RandomActuator [Some RIGHT]))))
             | Some _ => ret tt
             end);;
            (match step p with
             | None => game_assign projectile (set_step (Some 1))
             | Some _ => ret tt
             end);;
            on_level_board level_number (Board.place_item projectile row column);;
            do l <- level level_number;
            set_level level_number
              {| lvl_board := lvl_board l; npcs := npcs l;
                 projectiles := projectiles l ++ [projectile] |}
    | _, _ => raise PglInvalidTypeException
    end
  else raise PglInvalidTypeException.

(** [Game.remove_npc].  [self.current_board()] is evaluated before the
    arguments of [clear_cell]. *)
Definition remove_npc (level_number : Z) (npc : ref) : M Game unit :=
  do l <- level level_number;
  do ns <- or_raise ValueError (list_remove npc (npcs l));
  set_level level_number
    {| lvl_board := lvl_board l; npcs := ns; projectiles := projectiles l |};;
  current_board;;
  do i <- game_deref npc;
  do p <- or_raise TypeError (pos i);
  on_current_board (Board.clear_cell p.1 p.2).

(** [self._boards[level_number]["projectiles"].remove(proj)] followed by
    [board.clear_cell(proj.pos[0], proj.pos[1])]. *)
Definition discard_projectile (level_number : Z) (proj : ref) : M Game unit :=
  do l <- level level_number;
  do ps <- or_raise ValueError (list_remove proj (projectiles l));
  set_level level_number
    {| lvl_board := lvl_board l; npcs := npcs l; projectiles := ps |};;
  do i <- game_deref proj;
  do p <- or_raise TypeError (pos i);
  on_level_board level_number (Board.clear_cell p.1 p.2).

(** [proj.hit([board_items.BoardItemVoid()])]. *)
Definition hit_placeholder (proj : ref) : M Game unit :=
  do v <- on_game_store
            (allocate (new_BoardItemVoid BoardItemVoid_default_model None NoParent));
  hit proj [v].

(** The cell beyond the projectile that [actuate_projectiles] computes after
    a directional collision; [None] when no branch assigns it. *)
Definition beyond (direction : Direction) (p : Z * Z) (stp : Z)
  : option (Z * Z) :=
  match direction with
  | UP => Some (p.1 - stp, p.2)
  | DOWN => Some (p.1 + stp, p.2)
  | LEFT => Some (p.1, p.2 - stp)
  | RIGHT => Some (p.1, p.2 + stp)
  | DRUP => Some (p.1 - stp, p.2 + stp)
  | DRDOWN => Some (p.1 + stp, p.2 + stp)
  | DLUP => Some (p.1 - stp, p.2 - stp)
  | DLDOWN => Some (p.1 + stp, p.2 - stp)
  | NO_DIR => None
  end.

(** The body of the loop of [Game.actuate_projectiles], for one projectile
    of the roster.  [proj.range -= proj.step] is a [TypeError] when the step
    is [None]. *)
Definition actuate_projectile (level_number : Z) (proj : ref) : M Game unit :=
  do ast <- actuator_state proj;
  if bool_decide (ast = RUNNING) then
    do p <- game_deref proj;
    if bool_decide (range p > 0) then
      let init_position := pos p in
      do direction <- item_next_move proj;
      on_level_board level_number (Board.move_own_step proj direction);;
      do stp <- step_of proj;
      game_assign proj (fun i => set_range (range i - stp) i);;
      do p <- game_deref proj;
      when (bool_decide (pos p = init_position)) then
        if is_aoe p then
          do around <- neighbors (aoe_radius p) (Some proj);
          hit proj around
        else
          hit_placeholder proj;;
          match direction with
          | NO_DIR => ret tt
          | _ =>
              do here <- or_raise TypeError (pos p);
              do l <- level level_number;
              match beyond direction here stp with
              | Some (new_x, new_y) =>
                  when (bool_decide (new_x >= 0) && bool_decide (new_y >= 0)
                        && bool_decide (new_x < Board.height (lvl_board l))
                        && bool_decide (new_y < Board.width (lvl_board l))) then
                    do c <- on_level_board level_number (Board.item new_x new_y);
                    hit proj [c]
              | None => ret tt
              end
          end
    else if bool_decide (range p = 0) then
      if is_aoe p then
        do around <- neighbors (aoe_radius p) (Some proj);
        hit proj around
      else hit_placeholder proj
    else discard_projectile level_number proj
  else if bool_decide (ast = STOPPED) then
    discard_projectile level_number proj
  else ret tt.

(** [for proj in roster: ...] over a list the body may shorten: Python's
    iterator reads position [idx] of the list as it is at that moment and
    stops when there is none.  The roster never grows, so [fuel] at its
    initial length covers every iteration. *)
Fixpoint actuate_from (fuel : nat) (level_number : Z) (idx : nat)
  : M Game unit :=
  match fuel with
  | O => ret tt
  | S fuel' =>
      do l <- level level_number;
      match projectiles l !! idx with
      | Some proj =>
          actuate_projectile level_number proj;;
          actuate_from fuel' level_number (S idx)
      | None => ret tt
      end
  end.

(** [Game.actuate_projectiles]. *)
Definition actuate_projectiles (level_number : Z) : M Game unit :=
  do st <- gets state;
  when (bool_decide (st = RUNNING)) then
    do bs <- gets boards;
    match bs !! level_number with
    | Some l => actuate_from (length (projectiles l)) level_number 0
    | None => raise PglInvalidLevelException
    end.

(** [Game.move_player]. *)
Definition move_player (direction : DirArg) (stp : Z) : M Game unit :=
  do st <- gets state;
  when (bool_decide (st = RUNNING)) then
    do cl <- gets current_level;
    do n <- or_raise KeyError cl;
    do l <- level n;
    do pl <- gets player;
    do p <- or_raise AttributeError pl;
    on_level_board n (Board.move p direction stp).

(** [Game.start], [Game.pause], [Game.stop]. *)
Definition start : M Game unit := modify (set_state RUNNING).
Definition pause : M Game unit := modify (set_state PAUSED).
Definition stop : M Game unit := modify (set_state STOPPED).

(** [Game._obj2ref]. *)
Definition no_keys (c : string) (i : Item) : ItemDoc :=
  {| d_object := Some c; d_name := Some (name i); d_pos := Some (pos i);
     d_model := Some (model i); d_type := Some (type i);
     d_value := None; d_size := None; d_inventory_space := None;
     d_overlappable := None; d_pickable := None; d_restorable := None;
     d_hp := None; d_max_hp := None; d_step := None;
     d_remaining_lives := None; d_attack_power := None;
     d_actuator := None |}.

Definition dir_doc (d : option Direction) : DirDoc :=
  match d with Some d => DirInt d | None => DirStr "" end.

Definition actuator_ref (a : Actuator) : option ActuatorDoc :=
  match a_kind a with
  | RandomActuator moveset =>
      Some {| ad_type := "RandomActuator";
              ad_moveset := Some (dir_doc <$> moveset); ad_path := None;
              ad_waypoints := None; ad_circle_waypoints := None |}
  | PatrolActuator path =>
      Some {| ad_type := "PatrolActuator"; ad_moveset := None;
              ad_path := Some (dir_doc <$> path);
              ad_waypoints := None; ad_circle_waypoints := None |}
  | PathActuator path =>
      Some {| ad_type := "PathActuator"; ad_moveset := None;
              ad_path := Some (dir_doc <$> path);
              ad_waypoints := None; ad_circle_waypoints := None |}
  | PathFinder waypoints circle_waypoints =>
      Some {| ad_type := "PathFinder"; ad_moveset := None; ad_path := None;
              ad_waypoints := Some waypoints;
              ad_circle_waypoints := Some circle_waypoints |}
  | OtherActuator => None
  end.

Definition _obj2ref (obj : Item) : ItemDoc :=
  let r := no_keys (class_repr (cls obj)) obj in
  let '(Build_ItemDoc o n p m t _ _ _ _ _ _ _ _ _ _ _ _) := r in
  match cls obj with
  | Wall =>
      Build_ItemDoc o n p m t None None (Some (_inventory_space obj))
        None None None None None None None None None
  | Treasure =>
      Build_ItemDoc o n p m t (Some (value obj)) None
        (Some (_inventory_space obj))
        None None None None None None None None None
  | GenericActionableStructure | GenericStructure | Door =>
      Build_ItemDoc o n p m t (Some (value obj)) None
        (Some (_inventory_space obj))
        (Some (overlappable obj)) (Some (pickable obj)) (Some (restorable obj))
        None None None None None None
  | NPC =>
      Build_ItemDoc o n p m t None None None None None None
        (Some (hp obj)) (Some (max_hp obj)) (Some (step obj))
        (Some (remaining_lives obj)) (Some (attack_power obj))
        (match actuator obj with
         | Some a => actuator_ref a
         | None => None
         end)
  | _ => r
  end.

(** [Game._string_to_constant]. *)
Definition _string_to_constant (s : DirDoc) : option Direction :=
  match s with
  | DirInt d => Some d
  | DirStr s =>
      if bool_decide (s = "UP") then Some UP
      else if bool_decide (s = "DOWN") then Some DOWN
      else if bool_decide (s = "RIGHT") then Some RIGHT
      else if bool_decide (s = "LEFT") then Some LEFT
      else if bool_decide (s = "DRUP") then Some DRUP
      else if bool_decide (s = "DRDOWN") then Some DRDOWN
      else if bool_decide (s = "DLDOWN") then Some DLDOWN
      else if bool_decide (s = "DLUP") then Some DLUP
      else None
  end.

(** The [actuator] part of [Game._ref2obj]. *)
Definition moves_of (l : option (list DirDoc)) : list (option Direction) :=
  match l with
  | Some ms => _string_to_constant <$> ms
  | None => []
  end.

Definition ref2actuator (policy : ActuatorKind -> nat -> Direction)
  (a : ActuatorDoc) : option Actuator :=
  if contains "RandomActuator" (ad_type a) then
    Some (new_actuator policy (RandomActuator (moves_of (ad_moveset a))))
  else if contains "PathActuator" (ad_type a) then
    Some (new_actuator policy (PathActuator (moves_of (ad_path a))))
  else if contains "PatrolActuator" (ad_type a) then
    Some (new_actuator policy (PatrolActuator (moves_of (ad_path a))))
  else if contains "PathFinder" (ad_type a) then
    Some (new_actuator policy
            (PathFinder
               (match ad_waypoints a with Some w => w | None => [] end)
               (match ad_circle_waypoints a with Some c => c | None => false end)))
  else None.

(** The fields [_ref2obj] assigns to a Treasure and, with more, to the
    structures. *)
Definition load_value_and_space (r : ItemDoc) (i : Item) : Item :=
  if_key (d_inventory_space r) set_inventory_space
    (if_key (d_size r) set_inventory_space
       (if_key (d_value r) set_value i)).

(** [Game._ref2obj]; [KeyError] when the reference has no [object] key. *)
Definition _ref2obj (policy : ActuatorKind -> nat -> Direction) (r : ItemDoc)
  : res Item :=
  match d_object r with
  | None => Raise KeyError
  | Some object =>
      let local_object :=
        if contains "Wall" object then default_Wall
        else if contains "Treasure" object then
          load_value_and_space r default_Treasure
        else if contains "GenericStructure" object then
          if_key (d_overlappable r) set_overlappable
            (if_key (d_pickable r) set_pickable
               (load_value_and_space r default_GenericStructure))
        else if contains "Door" object then
          if_key (d_restorable r) set_restorable
            (if_key (d_overlappable r) set_overlappable
               (if_key (d_pickable r) set_pickable
                  (load_value_and_space r default_Door)))
        else if contains "GenericActionableStructure" object then
          if_key (d_overlappable r) set_overlappable
            (if_key (d_pickable r) set_pickable
               (load_value_and_space r default_GenericActionableStructure))
        else if contains "NPC" object then
          if_key (d_actuator r) (fun a i =>
              match ref2actuator policy a with
              | Some act => set_actuator (Some act) i
              | None => i
              end)
            (if_key (d_attack_power r) set_attack_power
               (if_key (d_remaining_lives r) set_remaining_lives
                  (if_key (d_step r) set_step
                     (if_key (d_max_hp r) set_max_hp
                        (if_key (d_hp r) set_hp
                           (load_value_and_space r default_NPC))))))
        else default_BoardItemVoid in
      Ok (if is_BoardItemVoid (cls local_object) then local_object
          else
            if_key (d_type r) set_type
              (if_key (d_model r) set_model
                 (if_key (d_name r) set_name local_object)))
  end.

(** [o = Game._ref2obj(ref)]: the new object in the store. *)
Definition load_object (r : ItemDoc) : M Game ref :=
  do policy <- gets policies;
  match _ref2obj policy r with
  | Ok i => on_game_store (allocate i)
  | Raise e => raise e
  end.

(** [Game.save_board]. *)
Definition save_cell (map_data : list (string * list (string * ItemDoc)))
  (y : Item) : list (string * list (string * ItemDoc)) :=
  if negb (is_BoardItemVoid (cls y)) && negb (is_Player (cls y)) then
    let row_key := match pos y with Some p => py_str p.1 | None => "None" end in
    let col_key := match pos y with Some p => py_str p.2 | None => "None" end in
    let map_data :=
      if dict_mem map_data row_key then map_data
      else dict_set map_data row_key [] in
    match dict_get map_data row_key with
    | Some row => dict_set map_data row_key (dict_set row col_key (_obj2ref y))
    | None => map_data
    end
  else map_data.

Definition save_board (lvl_number : Z) (filename : string) : M Game unit :=
  do bs <- gets boards;
  match bs !! lvl_number with
  | None => raise PglInvalidLevelException
  | Some l =>
      let local_board := lvl_board l in
      do h <- gets (fun g => heap (game_store g));
      do lib <- gets object_library;
      do cb <- current_board;
      let map_data :=
        foldl (fun acc x => foldl (fun acc y => save_cell acc (h y)) acc x)
          [] (matrix cb) in
      let data :=
        {| bd_name := Some (board_name local_board);
           bd_size := Some (size local_board);
           bd_player_starting_position :=
             Some (player_starting_position local_board);
           bd_ui_border_left := Some (ui_border_left local_board);
           bd_ui_border_right := Some (ui_border_right local_board);
           bd_ui_border_top := Some (ui_border_top local_board);
           bd_ui_border_bottom := Some (ui_border_bottom local_board);
           bd_ui_board_void_cell := Some (ui_board_void_cell local_board);
           bd_library :=
             if bool_decide (0 < length lib)%nat
             then Some ((fun o => _obj2ref (h o)) <$> lib) else None;
           bd_map_data := Some map_data |} in
      modify (fun g => set_files (<[filename := data]> (files g)) g)
  end.

(** The fields [load_board] copies from the document onto the new board. *)
Definition board_of_doc (data : BoardDoc) (b : Board) : Board :=
  {| board_name := default (board_name b) (bd_name data);
     size := default (size b) (bd_size data);
     player_starting_position :=
       default (player_starting_position b) (bd_player_starting_position data);
     ui_border_left := default (ui_border_left b) (bd_ui_border_left data);
     ui_border_right := default (ui_border_right b) (bd_ui_border_right data);
     ui_border_top := default (ui_border_top b) (bd_ui_border_top data);
     ui_border_bottom := default (ui_border_bottom b) (bd_ui_border_bottom data);
     ui_board_void_cell :=
       default (ui_board_void_cell b) (bd_ui_board_void_cell data);
     ui_board_void_cell_sprixel := ui_board_void_cell_sprixel b;
     matrix := matrix b; overlapped_matrix := overlapped_matrix b;
     movables := movables b; immovables := immovables b |}.

(** [o.actuator.add_waypoint(x, y)] on a [PathFinder]. *)
Definition add_waypoint (x y : Z) (a : Actuator) : Actuator :=
  match a_kind a with
  | PathFinder waypoints circle =>
      {| a_state := a_state a; a_kind := PathFinder (waypoints ++ [(x, y)]) circle;
         a_answers := a_answers a; a_calls := a_calls a |}
  | _ => a
  end.

(** [Game.load_board]. *)
Definition load_entry (lvl_number : Z) (x y : Z) (r : ItemDoc) : M Game unit :=
  match d_object r with
  | Some _ =>
      do o <- load_object r;
      do i <- game_deref o;
      if negb (is_NPC (cls i)) && negb (is_BoardItemVoid (cls i)) then
        on_level_board lvl_number (Board.place_item o x y)
      else if is_NPC (cls i) then
        add_npc lvl_number o x y;;
        do i <- game_deref o;
        match actuator i with
        | Some a => game_assign o (set_actuator (Some (add_waypoint x y a)))
        | None => ret tt
        end
      else ret tt
  | None => ret tt
  end.

Definition load_board (filename : string) (lvl_number : Z) : M Game Board :=
  do fs <- gets files;
  do data <- or_raise FileNotFoundError (fs !! filename);
  do s <- gets game_store;
  let w := exec Board.init_board
             {| store := s; board := Board_defaults "Board" (10, 10) |} in
  let w := exec Board.init_board
             {| store := store w; board := board_of_doc data (board w) |} in
  modify (set_game_store (store w));;
  add_board lvl_number (board w);;
  (match bd_library data with
   | Some lib =>
       modify (set_object_library []);;
       for_each lib (fun e =>
         do o <- load_object e;
         modify (fun g => set_object_library (object_library g ++ [o]) g))
   | None => ret tt
   end);;
  (match bd_map_data data with
   | Some map_data =>
       for_each map_data (fun '(pos_x, row) =>
         do x <- or_raise ValueError (py_int pos_x);
         for_each row (fun '(pos_y, r) =>
           do y <- or_raise ValueError (py_int pos_y);
           load_entry lvl_number x y r))
   | None => ret tt
   end);;
  get_board lvl_number.

(** *** The menu *)

(** One entry of a menu category: the dictionary with the keys [shortcut],
    [message] and [data]; a shortcut or a data that is [None] is [None]
    here.  [Game._menu] maps a category to its entries, in the order they
    were added; the menu methods use no other attribute of the game, and
    are computations over that dictionary. *)
Record MenuEntry (D : Type) : Type := {
  shortcut : option string;
  message : string;
  data : option D
}.
Arguments shortcut {D} _.
Arguments message {D} _.
Arguments data {D} _.

Section menu.
Context {D : Type}.

(** [Game.add_menu_entry]. *)
Definition add_menu_entry (category : string) (sc : option string)
  (msg : string) (dt : option D)
  : M (gmap string (list (MenuEntry D))) unit :=
  let e := {| shortcut := sc; message := msg; data := dt |} in
  do menu <- gets id;
  match menu !! category with
  | Some l => modify (<[category := l ++ [e]]>)
  | None => modify (<[category := [e]]>)
  end.

(** [Game.delete_menu_category]; [None] for a category that is not given
    or is not a string. *)
Definition delete_menu_category (category : option string)
  : M (gmap string (list (MenuEntry D))) unit :=
  do menu <- gets id;
  match category with
  | Some c =>
      match menu !! c with
      | Some _ => modify (delete c)
      | None => raise PglInvalidTypeException
      end
  | None => raise PglInvalidTypeException
  end.

(** [Game.update_menu_entry]: the body of the loop, then the loop over the
    entries of the category. *)
Definition update_entry (sc : option string) (msg : string) (dt : option D)
  (e : MenuEntry D) : MenuEntry D :=
  if bool_decide (shortcut e = sc) then
    {| shortcut := shortcut e; message := msg;
       data := match dt with Some _ => dt | None => data e end |}
  else e.

Definition update_menu_entry (category : string) (sc : option string)
  (msg : string) (dt : option D)
  : M (gmap string (list (MenuEntry D))) unit :=
  do menu <- gets id;
  do l <- or_raise KeyError (menu !! category);
  modify (<[category := update_entry sc msg dt <$> l]>).

(** [Game.get_menu_entry]: the first entry of the category with the
    shortcut, [None] when there is none. *)
Fixpoint first_entry (sc : option string) (l : list (MenuEntry D))
  : option (MenuEntry D) :=
  match l with
  | [] => None
  | e :: l' => if bool_decide (shortcut e = sc) then Some e else first_entry sc l'
  end.

Definition get_menu_entry (category : string) (sc : option string)
  : M (gmap string (list (MenuEntry D))) (option (MenuEntry D)) :=
  do menu <- gets id;
  match menu !! category with
  | Some l => ret (first_entry sc l)
  | None => ret None
  end.

End menu.

End Game.

(** * The vocabulary of the properties *)

(** ** Boards, items and what a method leaves of them *)

(** A matrix of [h] rows of [w] cells. *)
Definition rect {A} (h w : Z) (m : list (list A)) : Prop :=
  Z.of_nat (length m) = h /\ Forall (fun row => Z.of_nat (length row) = w) m.

(** The attributes of an item other than those a placement or a pickup
    assigns ([pos], [parent], [sprixel], [name]). *)
Definition erase (i : Item) : Item :=
  set_name "" (set_pos None (set_parent NoParent (set_sprixel None i))).

(** Two states of an item that differ in those attributes at most. *)
Definition stable (i i' : Item) : Prop := erase i = erase i'.

(** The fields of a board that no method assigns. *)
Definition board_static (b : Board) :=
  (board_name b, size b, player_starting_position b,
   (ui_border_left b, ui_border_right b, ui_border_top b, ui_border_bottom b),
   ui_board_void_cell b, ui_board_void_cell_sprixel b).

(** The part of the store a placement leaves alone. *)
Definition store_rest (s : Store) :=
  (next_ref s, inventories s, trace s, uuid_hex s, uuid_count s).

(** The state [w'] a successful [place_item(it, r, c)] leaves, [e] being the
    item the cell held. *)
Record placed (w : World) (it : ref) (r c : Z) (e : ref) (w' : World) : Prop := {
  placed_matrix :
    py_set2 (matrix (board w)) r c it = Some (matrix (board w'));
  placed_overlapped :
    if is_Immovable (cls (heap (store w) e)) && restorable (heap (store w) e)
       && overlappable (heap (store w) e)
    then py_set2 (overlapped_matrix (board w)) r c (Some e)
         = Some (overlapped_matrix (board w'))
    else overlapped_matrix (board w') = overlapped_matrix (board w);
  placed_movables :
    movables (board w') =
      if is_Movable (cls (heap (store w) it))
      then movables (board w) ∪ {[it]} else movables (board w);
  placed_immovables :
    immovables (board w') =
      if is_Movable (cls (heap (store w) it)) then immovables (board w)
      else if is_Immovable (cls (heap (store w) it))
           then immovables (board w) ∪ {[it]} else immovables (board w);
  placed_static : board_static (board w') = board_static (board w);
  placed_item_stable : stable (heap (store w) it) (heap (store w') it);
  placed_item_pos : pos (heap (store w') it) = Some (r, c);
  placed_item_name : name (heap (store w') it) = name (heap (store w) it);
  placed_others : forall x, x <> it -> heap (store w') x = heap (store w) x;
  placed_rest : store_rest (store w') = store_rest (store w)
}.

(** Both matrices have [height] rows of [width] cells, as [init_board]
    builds them. *)
Definition board_wf (b : Board) : Prop :=
  rect (Board.height b) (Board.width b) (matrix b)
  /\ rect (Board.height b) (Board.width b) (overlapped_matrix b).

(** The index Python reads for [i] in a list of length [n]. *)
Definition wrapped (n i : Z) : Z := if bool_decide (i < 0) then n + i else i.

(** ** Inventories *)

(** The size, the value and the capacity of an inventory in a store. *)
Definition inv_size (s : Store) (self : inv_ref) : Z :=
  Inventory.size_of (heap s) (items (inventories s self)).
Definition inv_value (s : Store) (self : inv_ref) : Z :=
  Inventory.value_of (heap s) (items (inventories s self)).
Definition inv_max (s : Store) (self : inv_ref) : Z :=
  max_size (inventories s self).

(** The key [add_item] stores an item under: its name, with a UUID suffix
    when the name is empty or already a key. *)
Definition stored_name (s : Store) (self : inv_ref) (item : ref) : string :=
  let i := heap s item in
  if bool_decide (name i = "") || dict_mem (items (inventories s self)) (name i)
  then name i +:+ "_" +:+ uuid_hex s (uuid_count s)
  else name i.





(** The space and the value an item counts for in [size()] and
    [value()]. *)
Definition space_of (h : ref -> Item) (r : ref) : Z :=
  match _inventory_space (h r) with Some n => n | None => 0 end.
Definition value_or_0 (h : ref -> Item) (r : ref) : Z :=
  match value (h r) with Some n => n | None => 0 end.

(** What [add_item] does to the store before it tests the space: the
    renaming of the item, when its name is empty or taken. *)
Definition renamed (s : Store) (self : inv_ref) (item : ref) : Store :=
  let i := heap s item in
  if bool_decide (name i = "") || dict_mem (items (inventories s self)) (name i)
  then
    update_item item (set_name (stored_name s self item))
      {| heap := heap s; next_ref := next_ref s; inventories := inventories s;
         trace := trace s; uuid_hex := uuid_hex s;
         uuid_count := S (uuid_count s) |}
  else s.

(** ** The steps of a move *)

(** The references allocated so far. *)
Definition live (w : World) (x : ref) : Prop := (x < next_ref (store w))%nat.

(** The world after [generate_void_cell]: one more Void, allocated at the
    next reference. *)
Definition with_void (w : World) : World :=
  {| store :=
       {| heap := upd (next_ref (store w)) (Board.void_of (board w)) (heap (store w));
          next_ref := S (next_ref (store w));
          inventories := inventories (store w); trace := trace (store w);
          uuid_hex := uuid_hex (store w); uuid_count := uuid_count (store w) |};
     board := board w |}.

(** The state a successful [clear_cell(r, c)] leaves, [e] being the
    occupant and [o] the content of the overlap slot. *)
Record cleared (w : World) (r c : Z) (e : ref) (o : option ref) (w' : World)
  : Prop := {
  cleared_matrix :
    py_set2 (matrix (board w)) r c
      (match o with Some x => x | None => next_ref (store w) end)
    = Some (matrix (board w'));
  cleared_overlapped :
    match o with
    | Some _ =>
        py_set2 (overlapped_matrix (board w)) r c None
        = Some (overlapped_matrix (board w'))
    | None => overlapped_matrix (board w') = overlapped_matrix (board w)
    end;
  cleared_movables : movables (board w') = movables (board w) ∖ {[e]};
  cleared_immovables :
    immovables (board w') =
      if bool_decide (e ∈ movables (board w)) then immovables (board w)
      else immovables (board w) ∖ {[e]};
  cleared_static : board_static (board w') = board_static (board w);
  cleared_store :
    store w' = match o with
               | Some _ => store w
               | None => store (with_void w)
               end
}.

(** The test of [_move_simple] on the overlap slot [o] under the mover:
    whether it holds a restorable Immovable that is not stored at the new
    cell. *)
Definition restores (h : ref -> Item) (o : option ref) (new : Z * Z) : bool :=
  match o with
  | Some oi =>
      is_Immovable (cls (h oi)) && restorable (h oi)
      && bool_decide (pos (h oi) <> Some new)
  | None => false
  end.

(** The state [w2] after [_move_simple] has saved the item [d] of the
    destination cell [(r', c')] on the overlapped matrix, which it does when
    [d] is a restorable Immovable. *)
Record parked (w : World) (m : ref) (r' c' : Z) (d : ref) (w2 : World)
  : Prop := {
  parked_matrix : matrix (board w2) = matrix (board w);
  parked_overlapped :
    if negb (is_BoardItemVoid (cls (heap (store w) d)))
       && is_Immovable (cls (heap (store w) d)) && restorable (heap (store w) d)
    then py_set2 (overlapped_matrix (board w)) r' c' (Some d)
         = Some (overlapped_matrix (board w2))
    else overlapped_matrix (board w2) = overlapped_matrix (board w);
  parked_movables : movables (board w2) = movables (board w);
  parked_immovables : immovables (board w2) = immovables (board w);
  parked_static : board_static (board w2) = board_static (board w);
  parked_stable : stable (heap (store w) m) (heap (store w2) m);
  parked_pos : pos (heap (store w2) m) = pos (heap (store w) m);
  parked_name : name (heap (store w2) m) = name (heap (store w) m);
  parked_others : forall x, x <> m -> heap (store w2) x = heap (store w) x;
  parked_rest : store_rest (store w2) = store_rest (store w)
}.

(** The state [w'] after the mover [m] went from cell [(r, c)] to cell
    [(r', c')], which held [d]; [left] is what the departure cell now holds:
    the item that was parked under the mover when [restored], else a new
    Void. *)
Record moved (w : World) (m : ref) (r c r' c' : Z) (d left : ref)
  (restored : bool) (w' : World) : Prop := {
  moved_new : py_get2 (matrix (board w')) r' c' = Some m;
  moved_src : py_get2 (matrix (board w')) r c = Some left;
  moved_matrix :
    forall i j, 0 <= i -> 0 <= j -> ~ (i = r /\ j = c) -> ~ (i = r' /\ j = c') ->
      py_get2 (matrix (board w')) i j = py_get2 (matrix (board w)) i j;
  moved_parked_new :
    live w d ->
    py_get2 (overlapped_matrix (board w')) r' c' =
      if is_Immovable (cls (heap (store w) d)) && restorable (heap (store w) d)
      then Some (Some d)
      else py_get2 (overlapped_matrix (board w)) r' c';
  moved_parked_src :
    py_get2 (overlapped_matrix (board w')) r c =
      if restored then Some None
      else py_get2 (overlapped_matrix (board w)) r c;
  moved_parked :
    forall i j, 0 <= i -> 0 <= j -> ~ (i = r /\ j = c) -> ~ (i = r' /\ j = c') ->
      py_get2 (overlapped_matrix (board w')) i j
      = py_get2 (overlapped_matrix (board w)) i j;
  moved_wf : board_wf (board w');
  moved_static : board_static (board w') = board_static (board w);
  moved_pos : pos (heap (store w') m) = Some (r', c');
  moved_stable :
    forall x, live w x -> stable (heap (store w) x) (heap (store w') x);
  moved_pos_others :
    forall x, live w x -> x <> m ->
      pos (heap (store w') x) = pos (heap (store w) x);
  moved_names :
    forall x, live w x -> name (heap (store w') x) = name (heap (store w) x);
  moved_movables : movables (board w') = movables (board w) ∪ {[m]};
  moved_immovables :
    immovables (board w') =
      if restored then immovables (board w) ∪ {[left]} else immovables (board w);
  moved_left :
    if restored then True
    else left = next_ref (store w)
         /\ cls (heap (store w') left) = BoardItemVoid
         /\ live w' left;
  moved_next : (next_ref (store w) <= next_ref (store w'))%nat;
  moved_inventories : inventories (store w') = inventories (store w);
  moved_trace : trace (store w') = trace (store w)
}.

(** The world after the activation test of a move of [m] onto the cell
    holding [t]. *)
Definition activated (w : World) (m t : ref) : World :=
  if is_Actionable (cls (heap (store w) t))
     && Board.may_activate (cls (heap (store w) m)) (perm (heap (store w) t))
  then {| store := log (Activated t) (store w); board := board w |}
  else w.

(** Whether [_move_simple] calls [activate()] on [t] when [m] moves onto
    its cell. *)
Definition activates (w : World) (m t : ref) : bool :=
  is_Actionable (cls (heap (store w) t))
  && Board.may_activate (cls (heap (store w) m)) (perm (heap (store w) t)).

(** Whether [_move_simple] attempts a pickup of [t] by [m]. *)
Definition picks_up (w : World) (m t : ref) : bool :=
  negb (overlappable (heap (store w) t)) && pickable (heap (store w) t)
  && is_Movable (cls (heap (store w) m))
  && Board.has_inventory (heap (store w) m).

(** The world once [add_item] has stored [t] in the inventory [inv]. *)
Definition picked (w : World) (inv : inv_ref) (t : ref) : World :=
  {| store :=
       set_inventories
         (upd inv
            {| max_size := inv_max (store w) inv;
               items := dict_set (items (inventories (store w) inv))
                          (stored_name (store w) inv t) t |}
            (inventories (store w)))
         (renamed (store w) inv t);
     board := board w |}.

(** The cell [(r, c)] is on the board. *)
Definition in_bounds (b : Board) (r c : Z) : Prop :=
  0 <= r < Board.height b /\ 0 <= c < Board.width b.

(** The destination [_move_simple] computes for an item stored at [p]. *)
Definition target (p : Z * Z) (dir : DirArg) (stp : Z) : option (Z * Z) :=
  match dir with
  | Vector v => Some (p.1 + v_row v, p.2 + v_column v)
  | Const UP => Some (p.1 - stp, p.2)
  | Const DOWN => Some (p.1 + stp, p.2)
  | Const LEFT => Some (p.1, p.2 - stp)
  | Const RIGHT => Some (p.1, p.2 + stp)
  | Const DRUP => Some (p.1 - stp, p.2 + stp)
  | Const DRDOWN => Some (p.1 + stp, p.2 + stp)
  | Const DLUP => Some (p.1 - stp, p.2 - stp)
  | Const DLDOWN => Some (p.1 + stp, p.2 - stp)
  | Const NO_DIR => None
  end.

(** Activation and pickup at cell [(r', c')] touch that cell only, keep
    every item's class, flags and position, and allocate at most a Void. *)
Record kept (w : World) (r' c' : Z) (w' : World) : Prop := {
  kept_static : board_static (board w') = board_static (board w);
  kept_wf : board_wf (board w) -> board_wf (board w');
  kept_matrix :
    forall i j, 0 <= i -> 0 <= j -> ~ (i = r' /\ j = c') ->
      py_get2 (matrix (board w')) i j = py_get2 (matrix (board w)) i j;
  kept_parked :
    forall i j, 0 <= i -> 0 <= j -> ~ (i = r' /\ j = c') ->
      py_get2 (overlapped_matrix (board w')) i j
      = py_get2 (overlapped_matrix (board w)) i j;
  kept_stable :
    forall x, live w x -> stable (heap (store w) x) (heap (store w') x);
  kept_pos :
    forall x, live w x -> pos (heap (store w') x) = pos (heap (store w) x);
  kept_next : (next_ref (store w) <= next_ref (store w'))%nat
}.

(** Whether [t] is stored in the matrix [m] at the cell [(r, c)] only. *)
Definition only_cell (m : list (list ref)) (t : ref) (r c : nat) : bool :=
  forallb (fun ir : nat * list ref =>
             forallb (fun jx : nat * ref =>
                        implb (bool_decide (jx.2 = t))
                          (bool_decide (ir.1 = r /\ jx.1 = c)))
               (imap pair ir.2))
    (imap pair m).

(** ** The two sets of a board *)

(** [x] is in the set of its class. *)
Definition member_of (w : World) (x : ref) : Prop :=
  (is_Movable (cls (heap (store w) x)) = true -> x ∈ movables (board w))
  /\ (is_Immovable (cls (heap (store w) x)) = true ->
      x ∈ immovables (board w)).

(** What the board keeps about its two sets: the members of [movables]
    are Movables and those of [immovables] Immovables, and every Movable or
    Immovable that is stored in the matrix, or parked in the overlapped
    matrix, is in the set of its class.  Items on the board are allocated
    objects. *)
Record board_ok (w : World) : Prop := {
  ok_wf : board_wf (board w);
  ok_cells_live :
    forall i j x, 0 <= i -> 0 <= j ->
      py_get2 (matrix (board w)) i j = Some x -> live w x;
  ok_parked_live :
    forall i j x, 0 <= i -> 0 <= j ->
      py_get2 (overlapped_matrix (board w)) i j = Some (Some x) -> live w x;
  ok_movables :
    forall x, x ∈ movables (board w) ->
      live w x /\ is_Movable (cls (heap (store w) x)) = true;
  ok_immovables :
    forall x, x ∈ immovables (board w) ->
      live w x /\ is_Immovable (cls (heap (store w) x)) = true;
  ok_stored :
    forall i j x, 0 <= i -> 0 <= j ->
      py_get2 (matrix (board w)) i j = Some x -> member_of w x;
  ok_parked :
    forall i j x, 0 <= i -> 0 <= j ->
      py_get2 (overlapped_matrix (board w)) i j = Some (Some x) ->
      member_of w x
}.

(** [e] is stored in the cell [(r, c)] only, and parked nowhere. *)
Definition only_at (w : World) (e : ref) (r c : Z) : Prop :=
  (forall i j, 0 <= i -> 0 <= j ->
     py_get2 (matrix (board w)) i j = Some e -> i = r /\ j = c)
  /\ (forall i j, 0 <= i -> 0 <= j ->
        py_get2 (overlapped_matrix (board w)) i j <> Some (Some e)).

(** Whether [x] is stored in some cell of the matrix. *)
Definition stored (w : World) (x : ref) : bool :=
  bool_decide (x ∈ mjoin (matrix (board w))).

(** [board_ok], as a test that can be run on a given world. *)
Definition liveb (w : World) (x : ref) : bool :=
  bool_decide (x < next_ref (store w))%nat.
Definition member_ofb (w : World) (x : ref) : bool :=
  implb (is_Movable (cls (heap (store w) x)))
    (bool_decide (x ∈ movables (board w)))
  && implb (is_Immovable (cls (heap (store w) x)))
       (bool_decide (x ∈ immovables (board w))).
Definition board_okb (w : World) : bool :=
  forallb (fun x => liveb w x && member_ofb w x) (mjoin (matrix (board w)))
  && forallb (fun o : option ref =>
                match o with
                | Some x => liveb w x && member_ofb w x
                | None => true
                end) (mjoin (overlapped_matrix (board w)))
  && forallb (fun x => liveb w x && is_Movable (cls (heap (store w) x)))
       (elements (movables (board w)))
  && forallb (fun x => liveb w x && is_Immovable (cls (heap (store w) x)))
       (elements (immovables (board w))).

(** ** Games *)

(** The projectile roster of a level. *)
Definition roster (g : Game) (n : Z) : list ref :=
  match boards g !! n with Some l => projectiles l | None => [] end.

(** The game after [proj.hit(objs)]. *)
Definition fired (g : Game) (proj : ref) (objs : list ref) : Game :=
  set_game_store (log (Hit proj objs) (game_store g)) g.

(** Calls that leave the state as it is, whatever they return. *)
Definition reads {S A} (m : M S A) : Prop := forall s, (m s).2 = s.

(** What [neighbors(radius, object)] is to return for an object at [p]: the
    non-Void items of the cells of the square around [p], its centre left
    out, that are on the board, in row-major order. *)
Definition neighbors_spec (h : ref -> Item) (b : Board) (p : Z * Z)
  (radius : Z) : list ref :=
  x ← py_range (- radius) (radius + 1);
  y ← py_range (- radius) (radius + 1);
  if bool_decide ((x, y) <> (0, 0)
                  /\ (0 <= p.1 + x < Board.height b)
                  /\ (0 <= p.2 + y < Board.width b))
  then
    match py_get2 (matrix b) (p.1 + x) (p.2 + y) with
    | Some c => if is_BoardItemVoid (cls (h c)) then [] else [c]
    | None => []
    end
  else [].

(** The class of the item a board holds at a cell. *)
Definition class_at (s : Store) (b : Board) (r c : Z) : option ItemClass :=
  match py_get2 (matrix b) r c with
  | Some x => Some (cls (heap s x))
  | None => None
  end.

(** The outcome of a call that returns a board, with the store it leaves. *)
Definition loaded_class (run : res Board * Game) (r c : Z)
  : option ItemClass :=
  match run.1 with
  | Ok b => class_at (game_store run.2) b r c
  | Raise _ => None
  end.

(** The name of the board such a call returns. *)
Definition loaded_name (run : res Board * Game) : option string :=
  match run.1 with
  | Ok b => Some (board_name b)
  | Raise _ => None
  end.

(** ** Rectangles *)

(** The cell [(r, c)] is one of the rectangle of [height] rows and [width]
    columns whose first cell is [(row, column)]. *)
Definition covers (row column width height r c : Z) : Prop :=
  row <= r < row + height /\ column <= c < column + width.

(** ** Inventory names *)

(** The names an inventory stores its items under, in insertion order. *)
Definition names (s : Store) (self : inv_ref) : list string :=
  (items (inventories s self)).*1.

(** ** Building objects *)

(** The Void [init_board] fills a board with. *)
Definition init_void (b : Board) : Item :=
  match ui_board_void_cell_sprixel b with
  | Some sp => new_BoardItemVoid BoardItemVoid_default_model (Some sp) ParentBoard
  | None => new_BoardItemVoid (ui_board_void_cell b) None ParentBoard
  end.

(** What is left of the store by calls that build objects only. *)
Definition store_effects (s : Store) :=
  (inventories s, trace s, uuid_hex s, uuid_count s).

(** The store [s'] after [n] more objects [v] were built in [s]: they have
    the [n] next references, and nothing else changed. *)
Record built (n : nat) (v : Item) (s s' : Store) : Prop := {
  built_next : next_ref s' = (next_ref s + n)%nat;
  built_new :
    forall x, (next_ref s <= x < next_ref s + n)%nat -> heap s' x = v;
  built_old :
    forall x, ~ (next_ref s <= x < next_ref s + n)%nat -> heap s' x = heap s x;
  built_effects : store_effects s' = store_effects s
}.

(** ** Levels and rosters *)

(** The NPC roster of a level. *)
Definition npc_roster (g : Game) (n : Z) : list ref :=
  match boards g !! n with Some l => npcs l | None => [] end.

(** The world a [Board] method of level [l] runs in. *)
Definition level_world (g : Game) (l : Level) : World :=
  {| store := game_store g; board := lvl_board l |}.


(** The game after the object [p] was given the game as its parent, which
    [change_level] does to the player unless it is its parent already. *)
Definition owned (g : Game) (p : ref) : Game :=
  match parent (heap (game_store g) p) with
  | ParentGame => g
  | _ => set_game_store (update_item p (set_parent ParentGame) (game_store g)) g
  end.


(** ** Projectiles at the end of their flight *)

(** A projectile that [actuate_projectiles] finds with nothing left of its
    range: it is an allocated object, its actuator is running, its range is
    exactly 0, and it is not AoE. *)
Definition spent (g : Game) (p : ref) : Prop :=
  (p < next_ref (game_store g))%nat
  /\ (exists a, actuator (heap (game_store g) p) = Some a /\ a_state a = RUNNING)
  /\ range (heap (game_store g) p) = 0
  /\ is_aoe (heap (game_store g) p) = false.

(** The game after [proj.hit([BoardItemVoid()])]. *)
Definition hit_void (g : Game) (proj : ref) : Game :=
  fired
    (set_game_store
       (allocate (new_BoardItemVoid BoardItemVoid_default_model None NoParent)
          (game_store g)).2 g)
    proj [next_ref (game_store g)].



(** ** The persisted classes *)

(** The classes [_ref2obj] rebuilds. *)
Definition persistent (c : ItemClass) : bool :=
  match c with
  | Wall | Treasure | Door | GenericStructure | GenericActionableStructure
  | NPC => true
  | _ => false
  end.

(** The actuator [_ref2obj] builds from what [_obj2ref] wrote of an
    actuator: a new one of the same kind, for the four kinds the format
    knows. *)
Definition reloaded_actuator (policy : ActuatorKind -> nat -> Direction)
  (a : option Actuator) : option Actuator :=
  match a with
  | Some a =>
      match a_kind a with
      | OtherActuator => None
      | k => Some (new_actuator policy k)
      end
  | None => None
  end.

(** * Scenarios *)

(** A 5x5 board in a fresh run, and the same with a Wall allocated
    (reference 25, after the 25 Voids of the board) but not placed. *)
Definition board5 : World := new_world "board" (5, 5).
Definition board5_wall : World :=
  exec (on_store (allocate (mk_Wall "wall"))) board5.

(** The inventory of spec scenario 6: [Inventory(max_size=3)] in slot 0,
    item A of space 2 (reference 0) added, item B of space 2 (reference 1)
    not yet. *)
Definition inventory3 : Store :=
  exec (Inventory.init 0%nat 3;;
        do a <- allocate (mk_Treasure "A" 10 2);
        do b <- allocate (mk_Treasure "B" 10 2);
        Inventory.add_item 0%nat a)
    (empty_store (fun _ => "0")).


(** A Player (reference 26) with an [Inventory(max_size=1)] at (0, 0) and a
    Treasure (reference 25) of space 2 at (0, 1), on the 5x5 board. *)
Definition full_inventory_world : World :=
  exec (on_store (Inventory.init 0%nat 1);;
        do t <- on_store (allocate (mk_Treasure "gold" 50 2));
        do p <- on_store (allocate (mk_Player "player" (Some 0%nat)));
        Board.place_item t 0 1;;
        Board.place_item p 0 0)
    board5.

(** Spec scenario 2: a Wall (reference 25) at (0, 1) and a Player
    (reference 26, no inventory) at (0, 0) on the 5x5 board. *)
Definition wall_world : World :=
  exec (do wl <- on_store (allocate (mk_Wall "wall"));
        do p <- on_store (allocate (mk_Player "player" None));
        Board.place_item wl 0 1;;
        Board.place_item p 0 0)
    board5.

(** A Door (reference 25) at (2, 2), a second Door (reference 26) at (2, 3)
    and a Player (reference 27) at (2, 1) on the 5x5 board, after the Player
    moved RIGHT onto the first Door. *)
Definition two_doors_world : World :=
  exec (do d1 <- on_store (allocate (mk_Door "door1"));
        do d2 <- on_store (allocate (mk_Door "door2"));
        do p <- on_store (allocate (mk_Player "player" None));
        Board.place_item d1 2 2;;
        Board.place_item d2 2 3;;
        Board.place_item p 2 1;;
        Board.move p (Const RIGHT) 1)
    board5.

(** Spec scenario 1: a Door (reference 25) at (2, 2) and a Player
    (reference 26) at (2, 1) on the 5x5 board. *)
Definition door_world : World :=
  exec (do d <- on_store (allocate (mk_Door "door"));
        do p <- on_store (allocate (mk_Player "player" None));
        Board.place_item d 2 2;;
        Board.place_item p 2 1)
    board5.

(** Spec scenario 3: a Player (reference 26) with an empty
    [Inventory(max_size=10)] at (0, 0) and a Treasure (reference 25) of
    value 50 and space 2 at (0, 1), on the 5x5 board. *)
Definition treasure_world : World :=
  exec (on_store (Inventory.init 0%nat 10);;
        do t <- on_store (allocate (mk_Treasure "gold" 50 2));
        do p <- on_store (allocate (mk_Player "player" (Some 0%nat)));
        Board.place_item t 0 1;;
        Board.place_item p 0 0)
    board5.

(** A Wall (reference 25) at (0, 0) of the 5x5 board, and a second Wall
    (reference 26) allocated but not placed. *)
Definition one_wall_world : World :=
  exec (do w1 <- on_store (allocate (mk_Wall "wall1"));
        do w2 <- on_store (allocate (mk_Wall "wall2"));
        Board.place_item w1 0 0)
    board5.

(** A game with no board, no player and nothing allocated, RUNNING; the
    actuators it creates answer RIGHT. *)
Definition empty_game : Game :=
  {| game_store := empty_store (fun _ => "0"); boards := ∅;
     current_level := None; player := None; state := RUNNING;
     object_library := []; files := ∅; policies := fun _ _ => RIGHT |}.

(** [Board(name=nm, size=sz)] built within a game. *)
Definition new_board (nm : string) (sz : Z * Z) : M Game Board := fun g =>
  let w := exec Board.init_board
             {| store := game_store g; board := Board_defaults nm sz |} in
  (Ok (board w), set_game_store (store w) g).

(** A game whose level 1 is a new board, and is the current level. *)
Definition one_level (nm : string) (sz : Z * Z) : Game :=
  exec (do b <- new_board nm sz;
        Game.add_board 1 b;;
        modify (set_current_level (Some 1))) empty_game.

(** The spec scenario: a 10x10 board as level 1, Walls at (3, 3), (3, 4)
    and (4, 3) (references 100, 101 and 102), and an AoE projectile of
    radius 1 (reference 103) not yet added. *)
Definition three_walls_game : Game :=
  exec (do w1 <- on_game_store (allocate (mk_Wall "w1"));
        do w2 <- on_game_store (allocate (mk_Wall "w2"));
        do w3 <- on_game_store (allocate (mk_Wall "w3"));
        do pr <- on_game_store (allocate (mk_Projectile "fireball" true 1 5));
        on_level_board 1 (Board.place_item w1 3 3);;
        on_level_board 1 (Board.place_item w2 3 4);;
        on_level_board 1 (Board.place_item w3 4 3))
    (one_level "board" (10, 10)).

(** The level of a number, for the games where there is one. *)
Definition the_level (g : Game) (n : Z) : Level :=
  match boards g !! n with
  | Some l => l
  | None => {| lvl_board := Board_defaults "" (0, 0); npcs := [];
               projectiles := [] |}
  end.

(** A 5x5 board as level 1 with a Wall (reference 25) at (0, 1) and a
    projectile that is not AoE (reference 26, range 5) added at (0, 0);
    [add_projectile] gave it the step 1 and an actuator, which answers
    RIGHT. *)
Definition arrow_game : Game :=
  exec (do w1 <- on_game_store (allocate (mk_Wall "wall"));
        do pr <- on_game_store (allocate (mk_Projectile "arrow" false 0 5));
        on_level_board 1 (Board.place_item w1 0 1);;
        Game.add_projectile 1 pr (Some 0) (Some 0))
    (one_level "board" (5, 5)).

(** A 5x5 board as level 1 with a Wall (reference 25) at (4, 4) and a
    Player (reference 26) at (0, 0). *)
Definition corner_game : Game :=
  exec (do w1 <- on_game_store (allocate (mk_Wall "wall"));
        do pl <- on_game_store (allocate (mk_Player "player" None));
        on_level_board 1 (Board.place_item w1 4 4);;
        on_level_board 1 (Board.place_item pl 0 0))
    (one_level "board" (5, 5)).

(** Two 3x3 boards, "A" as level 1, the current level, and "B" as level 2
    with a Wall (reference 18) at (1, 1). *)
Definition two_boards_game : Game :=
  exec (do a <- new_board "A" (3, 3);
        do b <- new_board "B" (3, 3);
        Game.add_board 1 a;;
        Game.add_board 2 b;;
        modify (set_current_level (Some 1));;
        do w1 <- on_game_store (allocate (mk_Wall "wall"));
        on_level_board 2 (Board.place_item w1 1 1))
    empty_game.

(** A board of 5 rows and 5 columns as [Board.__init__] has it before it
    calls [init_board], in a fresh run. *)
Definition blank5 : World :=
  {| store := empty_store (fun _ => "0"); board := Board_defaults "board" (5, 5) |}.

(** [Inventory(max_size=3)] in slot 0, still empty, with the items A
    (reference 0) and B (reference 1) of space 2. *)
Definition two_treasures : Store :=
  exec (Inventory.init 0%nat 3;;
        do a <- allocate (mk_Treasure "A" 10 2);
        do b <- allocate (mk_Treasure "B" 10 2);
        ret tt)
    (empty_store (fun _ => "0")).

(** The inventory of scenario 6 once the item B, not in the inventory, was
    renamed "A", the name of the item that is. *)
Definition namesake_inventory : Store :=
  update_item 1%nat (set_name "A") inventory3.

(** A 5x5 board as level 1, and a Player (reference 25) that is the
    game's player and was never placed. *)
Definition player_game : Game :=
  exec (do p <- on_game_store (allocate (mk_Player "player" None));
        modify (set_player (Some p)))
    (one_level "board" (5, 5)).

(** The two 3x3 boards with a Player (reference 19) that [change_level(1)]
    placed at (0, 0) of the board "A". *)
Definition two_levels_player_game : Game :=
  exec (do p <- on_game_store (allocate (mk_Player "player" None));
        modify (set_player (Some p));;
        Game.change_level 1)
    two_boards_game.


(** The two 3x3 boards, "A" being the current level, with an NPC
    (reference 19) added at (0, 0) of level 2. *)
Definition guard_game : Game :=
  exec (do x <- on_game_store (allocate (mk_NPC "guard"));
        Game.add_npc 2 x 0 0)
    two_boards_game.

(** The game of the arrow facing the Wall, paused. *)
Definition paused_game : Game := exec Game.pause arrow_game.

(** The arrow of [arrow_game] once its range is used up. *)
Definition spent_arrow_game : Game :=
  exec (game_assign 26%nat (set_range 0)) arrow_game.



(** * Properties *)

(** ** Running a method *)

Lemma run_bind {S A B} (m : M S A) (k : A -> M S B) s a s' :
  m s = (Ok a, s') -> bind m k s = k a s'.
Proof. intros H. unfold bind. rewrite H. reflexivity. Qed.

Lemma run_bind_raise {S A B} (m : M S A) (k : A -> M S B) s e s' :
  m s = (Raise e, s') -> bind m k s = (Raise e, s').
Proof. intros H. unfold bind. rewrite H. reflexivity. Qed.

Lemma run_or_raise {S A} e (o : option A) (a : A) (s : S) :
  o = Some a -> or_raise e o s = (Ok a, s).
Proof. intros ->. reflexivity. Qed.

(** ** Python indexing *)

Section indexing.
Context {A : Type}.
Implicit Types (l : list A).

Lemma py_index_nonneg l i :
  0 <= i -> py_index l i = if bool_decide (i < Z.of_nat (length l))
                           then Some (Z.to_nat i) else None.
Proof.
  intros Hi. unfold py_index.
  destruct (bool_decide (i < Z.of_nat (length l))) eqn:E.
  - apply bool_decide_eq_true in E.
    rewrite bool_decide_eq_true_2 by lia. reflexivity.
  - apply bool_decide_eq_false in E.
    rewrite bool_decide_eq_false_2 by lia.
    rewrite bool_decide_eq_false_2 by lia. reflexivity.
Qed.

Lemma py_index_lt l i k : py_index l i = Some k -> (k < length l)%nat.
Proof.
  unfold py_index. repeat case_bool_decide; intros [= <-]; lia.
Qed.

(** A negative index in range reads from the end. *)
Lemma py_index_neg l i :
  - Z.of_nat (length l) <= i < 0 ->
  py_index l i = Some (Z.to_nat (Z.of_nat (length l) + i)).
Proof.
  intros Hi. unfold py_index.
  rewrite bool_decide_eq_false_2 by lia.
  rewrite bool_decide_eq_true_2 by lia. reflexivity.
Qed.

Lemma py_index_below l i : i < - Z.of_nat (length l) -> py_index l i = None.
Proof.
  intros Hi. unfold py_index.
  rewrite bool_decide_eq_false_2 by lia.
  rewrite bool_decide_eq_false_2 by lia. reflexivity.
Qed.

Lemma py_get_nonneg l i : 0 <= i -> py_get l i = l !! Z.to_nat i.
Proof.
  intros Hi. unfold py_get. rewrite py_index_nonneg by done.
  case_bool_decide; [done|].
  symmetry. apply lookup_ge_None. lia.
Qed.

Lemma py_get_Some_set l i x y :
  py_get l i = Some x -> exists l', py_set l i y = Some l'.
Proof.
  unfold py_get, py_set. destruct (py_index l i); [eauto | done].
Qed.

Lemma py_set_length l i x l' :
  py_set l i x = Some l' -> length l' = length l.
Proof.
  unfold py_set. destruct (py_index l i); intros [= <-].
  apply length_insert.
Qed.

Lemma py_index_length l l' i :
  length l' = length l -> py_index l' i = py_index l i.
Proof. unfold py_index. intros ->. reflexivity. Qed.

(** Reading after a write, at any two indices. *)
Lemma py_get_set l i j x l' :
  py_set l i x = Some l' ->
  py_get l' j = if bool_decide (py_index l j = py_index l i)
                then Some x else py_get l j.
Proof.
  intros Hs. pose proof (py_set_length _ _ _ _ Hs) as Hlen.
  unfold py_set in Hs. unfold py_get.
  rewrite (py_index_length _ _ _ Hlen).
  destruct (py_index l i) as [k|] eqn:Ei; [|done].
  injection Hs as <-.
  destruct (py_index l j) as [k'|] eqn:Ej.
  - case_bool_decide as E.
    + injection E as ->. apply list_lookup_insert_eq.
      eapply py_index_lt; eauto.
    + apply list_lookup_insert_ne. congruence.
  - rewrite bool_decide_eq_false_2 by done. reflexivity.
Qed.

Lemma py_index_nonneg_inj l i j :
  0 <= i -> 0 <= j -> py_index l i = py_index l j ->
  is_Some (py_index l i) -> i = j.
Proof.
  intros Hi Hj. rewrite !py_index_nonneg by done.
  repeat case_bool_decide; intros E [k Hk]; simplify_eq; lia.
Qed.

End indexing.

Lemma py_get2_Some_set2 {A} (m : list (list A)) i j x y :
  py_get2 m i j = Some x -> exists m', py_set2 m i j y = Some m'.
Proof.
  unfold py_get2, py_set2. destruct (py_get m i) as [r|] eqn:Er; [|done].
  intros Hr. destruct (py_get_Some_set r j x y Hr) as [r' ->].
  eapply py_get_Some_set; eauto.
Qed.

(** Reading a cell after a write to a cell, both at coordinates that are
    not negative. *)
Lemma py_get2_set2 {A} (m : list (list A)) i j x m' i' j' :
  0 <= i -> 0 <= j -> 0 <= i' -> 0 <= j' ->
  py_set2 m i j x = Some m' ->
  py_get2 m' i' j' = if bool_decide (i' = i /\ j' = j)
                     then Some x else py_get2 m i' j'.
Proof.
  intros Hi Hj Hi' Hj'. unfold py_set2, py_get2.
  destruct (py_get m i) as [r|] eqn:Er; [|done].
  destruct (py_set r j x) as [r'|] eqn:Er'; [|done].
  intros Hs. rewrite (py_get_set _ _ i' _ _ Hs).
  assert (is_Some (py_index m i)) as Hsome.
  { unfold py_get in Er. destruct (py_index m i); [eauto | done]. }
  case_bool_decide as E.
  - assert (i' = i) as ->.
    { eapply py_index_nonneg_inj; eauto. rewrite E. done. }
    rewrite (py_get_set _ _ j' _ _ Er'). rewrite Er.
    case_bool_decide as E'.
    + assert (j' = j) as ->.
      { eapply py_index_nonneg_inj; eauto. rewrite E'.
        unfold py_set in Er'. destruct (py_index r j); [eauto | done]. }
      rewrite bool_decide_eq_true_2 by done. reflexivity.
    + rewrite bool_decide_eq_false_2; [done|].
      intros [_ ->]. done.
  - rewrite bool_decide_eq_false_2; [done|].
    intros [-> _]. done.
Qed.

(** ** Rectangular matrices *)

Lemma rect_get {A} h w (m : list (list A)) i j :
  rect h w m -> 0 <= i < h -> 0 <= j < w -> is_Some (py_get2 m i j).
Proof.
  intros [Hh Hw] Hi Hj. unfold py_get2.
  rewrite py_get_nonneg by lia.
  destruct (lookup_lt_is_Some_2 m (Z.to_nat i)) as [r Hr]; [lia|].
  rewrite Hr. rewrite py_get_nonneg by lia.
  apply lookup_lt_is_Some_2.
  rewrite Forall_forall in Hw. specialize (Hw r).
  assert (r ∈ m) as Hin by (eapply list_elem_of_lookup_2; eauto).
  specialize (Hw Hin). lia.
Qed.

Lemma rect_set2 {A} h w (m m' : list (list A)) i j x :
  py_set2 m i j x = Some m' -> rect h w m -> rect h w m'.
Proof.
  unfold py_set2. destruct (py_get m i) as [r|] eqn:Er; [|done].
  destruct (py_set r j x) as [r'|] eqn:Er'; [|done].
  intros Hs [Hh Hw]. split.
  - rewrite (py_set_length _ _ _ _ Hs). done.
  - unfold py_set in Hs. destruct (py_index m i) as [k|]; [|done].
    injection Hs as <-. apply Forall_insert; [done|].
    rewrite (py_set_length _ _ _ _ Er').
    unfold py_get in Er. destruct (py_index m i) as [k0|] eqn:E0; [|done].
    rewrite Forall_forall in Hw. apply Hw.
    eapply list_elem_of_lookup_2; eauto.
Qed.

(** ** What the board methods keep *)

#[global] Instance stable_equiv : Equivalence stable.
Proof.
  unfold stable. split.
  - intros ?. reflexivity.
  - intros ? ? H. symmetry. exact H.
  - intros ? ? ? H1 H2. rewrite H1. exact H2.
Qed.

Lemma stable_proj {B} (f : Item -> B) i i' :
  (forall j, f (erase j) = f j) -> stable i i' -> f i = f i'.
Proof. intros Hf H. rewrite <- (Hf i), <- (Hf i'). unfold stable in H. rewrite H. done. Qed.

Lemma stable_cls i i' : stable i i' -> cls i = cls i'.
Proof. apply (stable_proj cls). done. Qed.
Lemma stable_overlappable i i' : stable i i' -> overlappable i = overlappable i'.
Proof. apply (stable_proj overlappable). done. Qed.
Lemma stable_pickable i i' : stable i i' -> pickable i = pickable i'.
Proof. apply (stable_proj pickable). done. Qed.
Lemma stable_restorable i i' : stable i i' -> restorable i = restorable i'.
Proof. apply (stable_proj restorable). done. Qed.
Lemma stable_can_move i i' : stable i i' -> can_move i = can_move i'.
Proof. apply (stable_proj can_move). done. Qed.
Lemma stable_perm i i' : stable i i' -> perm i = perm i'.
Proof. apply (stable_proj perm). done. Qed.
Lemma stable_inventory i i' : stable i i' -> inventory i = inventory i'.
Proof. apply (stable_proj inventory). done. Qed.
Lemma stable_inventory_space i i' :
  stable i i' -> _inventory_space i = _inventory_space i'.
Proof. apply (stable_proj _inventory_space). done. Qed.
Lemma stable_value i i' : stable i i' -> value i = value i'.
Proof. apply (stable_proj value). done. Qed.

Lemma stable_set_pos v i : stable i (set_pos v i).
Proof. done. Qed.
Lemma stable_set_parent v i : stable i (set_parent v i).
Proof. done. Qed.
Lemma stable_set_sprixel v i : stable i (set_sprixel v i).
Proof. done. Qed.
Lemma stable_set_name v i : stable i (set_name v i).
Proof. done. Qed.
Lemma stable_set_bg_color c i : stable i (set_bg_color c i).
Proof. unfold set_bg_color. destruct (sprixel i); done. Qed.

Lemma board_static_size b b' : board_static b = board_static b' -> size b = size b'.
Proof. unfold board_static. intros H. by simplify_eq. Qed.

Lemma upd_eq {A} r (x : A) f : upd r x f r = x.
Proof. unfold upd. by rewrite bool_decide_eq_true_2. Qed.
Lemma upd_ne {A} r r' (x : A) f : r' <> r -> upd r x f r' = f r'.
Proof. intros. unfold upd. by rewrite bool_decide_eq_false_2. Qed.

(** ** [Board.place_item] *)

(** Running the cell accessors. *)
Lemma matrix_get_run w r c x :
  py_get2 (matrix (board w)) r c = Some x -> matrix_get r c w = (Ok x, w).
Proof. intros H. unfold matrix_get. cbn. unfold bind. cbn. rewrite H. done. Qed.

Lemma overlapped_get_run w r c x :
  py_get2 (overlapped_matrix (board w)) r c = Some x ->
  overlapped_get r c w = (Ok x, w).
Proof. intros H. unfold overlapped_get. unfold bind. cbn. rewrite H. done. Qed.

Lemma matrix_set_run w r c x m' :
  py_set2 (matrix (board w)) r c x = Some m' ->
  matrix_set r c x w
  = (Ok tt, {| store := store w; board := set_matrix m' (board w) |}).
Proof. intros H. unfold matrix_set. unfold bind. cbn. rewrite H. done. Qed.

Lemma overlapped_set_run w r c x m' :
  py_set2 (overlapped_matrix (board w)) r c x = Some m' ->
  overlapped_set r c x w
  = (Ok tt, {| store := store w; board := set_overlapped_matrix m' (board w) |}).
Proof. intros H. unfold overlapped_set. unfold bind. cbn. rewrite H. done. Qed.

Lemma assign_run w r f :
  assign r f w
  = (Ok tt, {| store := update_item r f (store w); board := board w |}).
Proof. reflexivity. Qed.

Lemma deref_run w r : deref r w = (Ok (heap (store w) r), w).
Proof. reflexivity. Qed.

Lemma gets_run {S A} (f : S -> A) s : gets f s = (Ok (f s), s).
Proof. reflexivity. Qed.

Lemma on_board_run f w :
  on_board f w = (Ok tt, {| store := store w; board := f (board w) |}).
Proof. reflexivity. Qed.

Lemma ret_run {S A} (a : A) (s : S) : ret a s = (Ok a, s).
Proof. reflexivity. Qed.

(** One step of a run: the head of a [bind] is evaluated with the lemma
    given, or by computation. *)
Ltac run_with H := rewrite (run_bind _ _ _ _ _ H); cbn beta iota.
Ltac run_step :=
  first
    [ rewrite (run_bind _ _ _ _ _ (deref_run _ _))
    | rewrite (run_bind _ _ _ _ _ (gets_run _ _))
    | rewrite (run_bind _ _ _ _ _ (assign_run _ _ _))
    | rewrite (run_bind _ _ _ _ _ (on_board_run _ _))
    | rewrite (run_bind _ _ _ _ _ (ret_run _ _)) ];
  cbn beta iota.

Lemma bind_assoc {S A B C} (m : M S A) (f : A -> M S B) (g : B -> M S C) s :
  bind (bind m f) g s = bind m (fun a => bind (f a) g) s.
Proof. unfold bind. destruct (m s) as [[a|e] s']; reflexivity. Qed.

Ltac run_by tac :=
  rewrite ?bind_assoc; erewrite run_bind by tac; cbn beta iota.
Ltac run_cell :=
  first
    [ run_by ltac:(apply matrix_get_run; cbn; eassumption)
    | run_by ltac:(apply overlapped_get_run; cbn; eassumption)
    | run_by ltac:(apply matrix_set_run; cbn; eassumption)
    | run_by ltac:(apply overlapped_set_run; cbn; eassumption) ].
Ltac run_last :=
  first
    [ rewrite on_board_run | rewrite assign_run | rewrite ret_run
    | erewrite matrix_set_run by (cbn; eassumption)
    | erewrite overlapped_set_run by (cbn; eassumption) ].

Lemma place_item_spec w it r c e :
  r < Board.height (board w) -> c < Board.width (board w) ->
  is_BoardItem (cls (heap (store w) it)) = true ->
  py_get2 (matrix (board w)) r c = Some e ->
  is_Some (py_get2 (overlapped_matrix (board w)) r c) ->
  exists w', Board.place_item it r c w = (Ok tt, w') /\ placed w it r c e w'.
Proof.
  intros Hr Hc Hit He [o Ho].
  destruct (py_get2_Some_set2 _ _ _ _ it He) as [m' Hm'].
  destruct (py_get2_Some_set2 _ _ _ _ (Some e) Ho) as [om' Hom'].
  unfold Board.place_item. run_step.
  rewrite !bool_decide_eq_true_2 by done. cbn [andb].
  run_step. rewrite Hit.
  run_cell. run_step.
  destruct (is_Immovable (cls (heap (store w) e)) && restorable (heap (store w) e)
            && overlappable (heap (store w) e)) eqn:Esave.
  - run_cell.
    destruct (sprixel (heap (store w) it)) as [si|] eqn:Esi;
      [destruct (sprixel (heap (store w) e)) as [se|] eqn:Ese;
       [destruct (is_bg_transparent si) eqn:Et|]|];
      repeat (rewrite ?bind_assoc; run_step); run_cell;
      (destruct (parent (heap (store w) it)) eqn:Ep);
      repeat (rewrite ?bind_assoc; run_step);
      (destruct (is_Movable (cls (heap (store w) it))) eqn:Emov;
       [|destruct (is_Immovable (cls (heap (store w) it))) eqn:Eimm]);
      repeat run_last;
      (eexists; split; [reflexivity|]);
      (constructor; cbn; rewrite ?Esave, ?Emov, ?Eimm, ?upd_eq; try done;
       try (intros x Hx; rewrite ?upd_ne by done; done)).
    all: try (unfold stable; cbn; unfold set_bg_color; rewrite Esi; done).
    all: try (unfold set_bg_color; rewrite Esi; done).
  - run_step. run_cell.
    (destruct (parent (heap (store w) it)) eqn:Ep);
      repeat (rewrite ?bind_assoc; run_step);
      (destruct (is_Movable (cls (heap (store w) it))) eqn:Emov;
       [|destruct (is_Immovable (cls (heap (store w) it))) eqn:Eimm]);
      repeat run_last;
      (eexists; split; [reflexivity|]);
      (constructor; cbn; rewrite ?Esave, ?Emov, ?Eimm, ?upd_eq; try done;
       try (intros x Hx; rewrite ?upd_ne by done; done)).
Qed.

(** ** Well-formed boards *)

Lemma py_get_wrapped {A} (l : list A) i :
  - Z.of_nat (length l) <= i < Z.of_nat (length l) ->
  py_get l i = py_get l (wrapped (Z.of_nat (length l)) i)
  /\ is_Some (py_get l i).
Proof.
  intros Hi. unfold wrapped. case_bool_decide as E.
  - assert (py_get l i = l !! Z.to_nat (Z.of_nat (length l) + i)) as ->.
    { unfold py_get. by rewrite py_index_neg by lia. }
    rewrite py_get_nonneg by lia. split; [done|].
    apply lookup_lt_is_Some_2. lia.
  - split; [done|]. rewrite py_get_nonneg by lia.
    apply lookup_lt_is_Some_2. lia.
Qed.

Lemma py_get_out {A} (l : list A) i :
  i < - Z.of_nat (length l) -> py_get l i = None.
Proof. intros Hi. unfold py_get. by rewrite py_index_below. Qed.

Lemma rect_row {A} h w (m : list (list A)) i r :
  rect h w m -> py_get m i = Some r -> Z.of_nat (length r) = w.
Proof.
  intros [_ Hw] Hr. unfold py_get in Hr.
  destruct (py_index m i) as [k|]; [|done].
  rewrite Forall_forall in Hw. apply Hw.
  eapply list_elem_of_lookup_2; eauto.
Qed.

Lemma rect_get_wrapped {A} h w (m : list (list A)) i j :
  rect h w m -> - h <= i < h -> - w <= j < w ->
  py_get2 m i j = py_get2 m (wrapped h i) (wrapped w j)
  /\ is_Some (py_get2 m i j).
Proof.
  intros Hrect Hi Hj. pose proof Hrect as [Hh Hw].
  unfold py_get2. rewrite <- Hh in *.
  destruct (py_get_wrapped m i Hi) as [<- [r Hr]]. rewrite Hr.
  pose proof (rect_row _ _ _ _ _ Hrect Hr) as Hlen. rewrite <- Hlen in *.
  destruct (py_get_wrapped r j Hj) as [<- Hs]. done.
Qed.

Lemma rect_get_below {A} h w (m : list (list A)) i j :
  rect h w m -> i < h -> j < w -> i < - h \/ j < - w -> py_get2 m i j = None.
Proof.
  intros Hrect Hi Hj Hlow. pose proof Hrect as [Hh Hw].
  unfold py_get2. destruct (py_get m i) as [r|] eqn:Er; [|done].
  destruct Hlow as [Hlow|Hlow].
  - rewrite py_get_out in Er by lia. done.
  - apply py_get_out. rewrite (rect_row _ _ _ _ _ Hrect Er). done.
Qed.

Lemma py_get2_set2_same {A} (m m' : list (list A)) i j x :
  py_set2 m i j x = Some m' -> py_get2 m' i j = Some x.
Proof.
  unfold py_set2, py_get2.
  destruct (py_get m i) as [r|] eqn:Er; [|done].
  destruct (py_set r j x) as [r'|] eqn:Er'; [|done].
  intros Hs. rewrite (py_get_set _ _ i _ _ Hs).
  rewrite bool_decide_eq_true_2 by done.
  rewrite (py_get_set _ _ j _ _ Er').
  rewrite bool_decide_eq_true_2 by done. done.
Qed.

(** ** [Board.item] and [Board.place_item] at the bounds *)

Lemma item_run w row column x :
  row < Board.height (board w) -> column < Board.width (board w) ->
  py_get2 (matrix (board w)) row column = Some x ->
  Board.item row column w = (Ok x, w).
Proof.
  intros Hr Hc Hx. unfold Board.item. run_step.
  rewrite !bool_decide_eq_true_2 by done. cbn [andb].
  by apply matrix_get_run.
Qed.

Lemma item_out_of_bound w row column :
  outcome (Board.item row column) w = Raise PglOutOfBoardBoundException
  <-> Board.height (board w) <= row \/ Board.width (board w) <= column.
Proof.
  unfold outcome, Board.item. run_step.
  destruct (bool_decide (row < Board.height (board w))) eqn:Er;
    [destruct (bool_decide (column < Board.width (board w))) eqn:Ec|];
    cbn [andb].
  - apply bool_decide_eq_true in Er, Ec.
    unfold matrix_get, bind. cbn.
    destruct (py_get2 (matrix (board w)) row column); cbn; split;
      first [done | lia].
  - apply bool_decide_eq_false in Ec. cbn. split; [lia | done].
  - apply bool_decide_eq_false in Er. cbn. split; [lia | done].
Qed.

Lemma matrix_get_raise w r c :
  py_get2 (matrix (board w)) r c = None ->
  matrix_get r c w = (Raise IndexError, w).
Proof. intros H. unfold matrix_get, bind. cbn. rewrite H. done. Qed.

Lemma item_below w row column :
  board_wf (board w) ->
  row < Board.height (board w) -> column < Board.width (board w) ->
  row < - Board.height (board w) \/ column < - Board.width (board w) ->
  Board.item row column w = (Raise IndexError, w).
Proof.
  intros [Hm _] Hr Hc Hlow. unfold Board.item. run_step.
  rewrite !bool_decide_eq_true_2 by done. cbn [andb].
  apply matrix_get_raise. eapply rect_get_below; eauto.
Qed.

Lemma place_item_below w it row column :
  board_wf (board w) ->
  is_BoardItem (cls (heap (store w) it)) = true ->
  row < Board.height (board w) -> column < Board.width (board w) ->
  row < - Board.height (board w) \/ column < - Board.width (board w) ->
  Board.place_item it row column w = (Raise IndexError, w).
Proof.
  intros [Hm _] Hit Hr Hc Hlow. unfold Board.place_item. run_step.
  rewrite !bool_decide_eq_true_2 by done. cbn [andb].
  run_step. rewrite Hit.
  erewrite run_bind_raise; [done|].
  apply matrix_get_raise. eapply rect_get_below; eauto.
Qed.

Lemma place_item_above w it row column :
  Board.height (board w) <= row \/ Board.width (board w) <= column ->
  Board.place_item it row column w = (Raise PglOutOfBoardBoundException, w).
Proof.
  intros Hup. unfold Board.place_item. run_step.
  destruct (bool_decide (row < Board.height (board w))) eqn:Er;
    [destruct (bool_decide (column < Board.width (board w))) eqn:Ec|];
    cbn [andb]; try done.
  apply bool_decide_eq_true in Er, Ec. lia.
Qed.

Lemma place_item_wrapped w it row column :
  board_wf (board w) ->
  is_BoardItem (cls (heap (store w) it)) = true ->
  - Board.height (board w) <= row < Board.height (board w) ->
  - Board.width (board w) <= column < Board.width (board w) ->
  exists w' e,
    Board.place_item it row column w = (Ok tt, w')
    /\ placed w it row column e w'
    /\ py_get2 (matrix (board w'))
         (wrapped (Board.height (board w)) row)
         (wrapped (Board.width (board w)) column) = Some it.
Proof.
  intros [Hm Ho] Hit Hr Hc.
  destruct (rect_get_wrapped _ _ _ _ _ Hm Hr Hc) as [_ [e He]].
  destruct (rect_get_wrapped _ _ _ _ _ Ho Hr Hc) as [_ Hso].
  destruct (place_item_spec w it row column e) as (w' & Hrun & Hp);
    [lia | lia | done | done | done |].
  exists w', e. split; [done|]. split; [done|].
  pose proof (placed_matrix _ _ _ _ _ _ Hp) as Hset.
  pose proof (rect_set2 _ _ _ _ _ _ _ Hset Hm) as Hm'.
  destruct (rect_get_wrapped _ _ _ _ _ Hm' Hr Hc) as [<- _].
  eapply py_get2_set2_same; eauto.
Qed.

Lemma place_item_out_of_bound w it row column :
  board_wf (board w) ->
  is_BoardItem (cls (heap (store w) it)) = true ->
  outcome (Board.place_item it row column) w = Raise PglOutOfBoardBoundException
  <-> Board.height (board w) <= row \/ Board.width (board w) <= column.
Proof.
  intros Hwf Hit. unfold outcome. split.
  - intros Hraise.
    destruct (decide (Board.height (board w) <= row)); [lia|].
    destruct (decide (Board.width (board w) <= column)); [lia|].
    exfalso.
    destruct (decide (- Board.height (board w) <= row
                      /\ - Board.width (board w) <= column)) as [[? ?]|Hlow].
    + destruct (place_item_wrapped w it row column) as (w' & e & Hrun & _);
        [done | done | lia | lia |].
      rewrite Hrun in Hraise. done.
    + rewrite place_item_below in Hraise; [done | done | done | lia | lia | lia].
  - intros Hup. by rewrite place_item_above.
Qed.

Lemma board5_wall_wf : board_wf (board board5_wall).
Proof. vm_compute. split; (split; [reflexivity | repeat constructor]). Qed.

(** C10.  On a 5x5 board, [item(-6, 0)] has [row < height] and
    [column < width] with a negative row, and what comes out is neither a
    cell nor [PglOutOfBoardBoundException] but Python's [IndexError]; so it
    is with [place_item] of a Wall at these coordinates. *)
Theorem item_far_below_raises_IndexError :
  -6 < Board.height (board board5) /\ 0 < Board.width (board board5)
  /\ outcome (Board.item (-6) 0) board5 = Raise IndexError
  /\ is_BoardItem (cls (heap (store board5_wall) 25%nat)) = true
  /\ outcome (Board.place_item 25%nat (-6) 0) board5_wall = Raise IndexError.
Proof. vm_compute. repeat split. Qed.

(** The two methods at all coordinates, for the single-cell items of the
    embedding.  On a well-formed board, [Board.item] and
    [Board.place_item] raise [PglOutOfBoardBoundException] exactly when the
    row is at or beyond the height or the column at or beyond the width.
    Below those bounds, a row in [-height .. height-1] with a column in
    [-width .. width-1] designates the cell Python's negative indexing
    reaches (row -1 the last row, column -1 the last column): [item]
    returns it, and [place_item] writes the item there and stores the
    coordinates as given.  A row below [-height] or a column below [-width]
    makes both raise [IndexError], the board unchanged. *)
Theorem negative_coordinates_wrap_within_the_board
  (w : World) (it : ref) (row column : Z) :
  board_wf (board w) ->
  is_BoardItem (cls (heap (store w) it)) = true ->
  (outcome (Board.item row column) w = Raise PglOutOfBoardBoundException
   <-> Board.height (board w) <= row \/ Board.width (board w) <= column)
  /\ (outcome (Board.place_item it row column) w = Raise PglOutOfBoardBoundException
      <-> Board.height (board w) <= row \/ Board.width (board w) <= column)
  /\ (- Board.height (board w) <= row < Board.height (board w) ->
      - Board.width (board w) <= column < Board.width (board w) ->
      (exists x,
          Board.item row column w = (Ok x, w)
          /\ py_get2 (matrix (board w))
               (wrapped (Board.height (board w)) row)
               (wrapped (Board.width (board w)) column) = Some x)
      /\ (exists w',
             Board.place_item it row column w = (Ok tt, w')
             /\ py_get2 (matrix (board w'))
                  (wrapped (Board.height (board w)) row)
                  (wrapped (Board.width (board w)) column) = Some it
             /\ pos (heap (store w') it) = Some (row, column)))
  /\ (row < Board.height (board w) -> column < Board.width (board w) ->
      row < - Board.height (board w) \/ column < - Board.width (board w) ->
      Board.item row column w = (Raise IndexError, w)
      /\ Board.place_item it row column w = (Raise IndexError, w)).
Proof.
  intros Hwf Hit. split; [apply item_out_of_bound|].
  split; [by apply place_item_out_of_bound|]. split.
  - intros Hr Hc. split.
    + destruct Hwf as [Hm _].
      destruct (rect_get_wrapped _ _ _ _ _ Hm Hr Hc) as [Heq [x Hx]].
      exists x. split; [apply item_run; [lia | lia | done]|].
      by rewrite <- Heq.
    + destruct (place_item_wrapped w it row column Hwf Hit Hr Hc)
        as (w' & e & Hrun & Hp & Hcell).
      exists w'. split; [done|]. split; [done|].
      eapply placed_item_pos; eauto.
  - intros Hr Hc Hlow. split.
    + by apply item_below.
    + by apply place_item_below.
Qed.

Lemma negative_coordinates_wrap_witness :
  board_wf (board board5_wall)
  /\ is_BoardItem (cls (heap (store board5_wall) 25%nat)) = true
  /\ - Board.height (board board5_wall) <= -1 < Board.height (board board5_wall)
  /\ - Board.width (board board5_wall) <= -1 < Board.width (board board5_wall)
  /\ exists w',
       Board.place_item 25%nat (-1) (-1) board5_wall = (Ok tt, w')
       /\ py_get2 (matrix (board w'))
            (wrapped (Board.height (board board5_wall)) (-1))
            (wrapped (Board.width (board board5_wall)) (-1)) = Some 25%nat
       /\ pos (heap (store w') 25%nat) = Some (-1, -1).
Proof.
  assert (is_BoardItem (cls (heap (store board5_wall) 25%nat)) = true) as Hit
    by (vm_compute; reflexivity).
  assert (- Board.height (board board5_wall) <= -1
          < Board.height (board board5_wall)) as Hr
    by (vm_compute; split; [discriminate | reflexivity]).
  assert (- Board.width (board board5_wall) <= -1
          < Board.width (board board5_wall)) as Hc
    by (vm_compute; split; [discriminate | reflexivity]).
  split; [exact board5_wall_wf|]. split; [exact Hit|].
  split; [exact Hr|]. split; [exact Hc|].
  exact (proj2 (proj1 (proj2 (proj2
    (negative_coordinates_wrap_within_the_board board5_wall 25%nat (-1) (-1)
       board5_wall_wf Hit))) Hr Hc)).
Defined.

(** ** Inventory *)

Lemma size_of_sum h d :
  Inventory.size_of h d = foldr (fun kv acc => space_of h kv.2 + acc) 0 d.
Proof.
  unfold Inventory.size_of.
  assert (forall a,
    foldl (fun val kv => match _inventory_space (h kv.2) with
                         | Some n => val + n | None => val end) a d
    = a + foldr (fun kv acc => space_of h kv.2 + acc) 0 d) as H.
  { induction d as [|kv d IH]; intros a; cbn; [lia|].
    rewrite IH. unfold space_of. destruct (_inventory_space (h kv.2)); lia. }
  rewrite H. lia.
Qed.

Lemma value_of_sum h d :
  Inventory.value_of h d = foldr (fun kv acc => value_or_0 h kv.2 + acc) 0 d.
Proof.
  unfold Inventory.value_of.
  assert (forall a,
    foldl (fun val kv => match value (h kv.2) with
                         | Some n => val + n | None => val end) a d
    = a + foldr (fun kv acc => value_or_0 h kv.2 + acc) 0 d) as H.
  { induction d as [|kv d IH]; intros a; cbn; [lia|].
    rewrite IH. unfold value_or_0. destruct (value (h kv.2)); lia. }
  rewrite H. lia.
Qed.

Lemma size_of_ext h h' d :
  (forall kv, kv ∈ d -> _inventory_space (h' kv.2) = _inventory_space (h kv.2)) ->
  Inventory.size_of h' d = Inventory.size_of h d.
Proof.
  rewrite !size_of_sum. induction d as [|kv d IH]; intros H; cbn; [done|].
  rewrite IH by (intros; apply H; by right).
  unfold space_of. rewrite (H kv) by left. done.
Qed.

Lemma value_of_ext h h' d :
  (forall kv, kv ∈ d -> value (h' kv.2) = value (h kv.2)) ->
  Inventory.value_of h' d = Inventory.value_of h d.
Proof.
  rewrite !value_of_sum. induction d as [|kv d IH]; intros H; cbn; [done|].
  rewrite IH by (intros; apply H; by right).
  unfold value_or_0. rewrite (H kv) by left. done.
Qed.

Lemma dict_mem_false_get {V} (d : list (string * V)) k :
  dict_mem d k = false -> dict_get d k = None.
Proof. unfold dict_mem. destruct (dict_get d k); done. Qed.

(** Setting a key that is not in use appends the entry. *)
Lemma dict_set_fresh {V} (d : list (string * V)) k v :
  dict_mem d k = false -> dict_set d k v = d ++ [(k, v)].
Proof.
  unfold dict_mem. induction d as [|[k' v'] d IH]; cbn; [done|].
  case_bool_decide; [done|]. intros Hd. by rewrite IH.
Qed.



Lemma size_of_app h d d' :
  Inventory.size_of h (d ++ d') = Inventory.size_of h d + Inventory.size_of h d'.
Proof.
  rewrite !size_of_sum. induction d as [|kv d IH]; cbn; [lia|]. rewrite IH. lia.
Qed.

Lemma value_of_app h d d' :
  Inventory.value_of h (d ++ d')
  = Inventory.value_of h d + Inventory.value_of h d'.
Proof.
  rewrite !value_of_sum. induction d as [|kv d IH]; cbn; [lia|]. rewrite IH. lia.
Qed.

Lemma renamed_heap s self item x :
  stable (heap s x) (heap (renamed s self item) x)
  /\ pos (heap (renamed s self item) x) = pos (heap s x)
  /\ sprixel (heap (renamed s self item) x) = sprixel (heap s x)
  /\ parent (heap (renamed s self item) x) = parent (heap s x)
  /\ (x <> item -> heap (renamed s self item) x = heap s x).
Proof.
  unfold renamed.
  destruct (bool_decide (name (heap s item) = "")
            || dict_mem (items (inventories s self)) (name (heap s item)));
    [|done].
  cbn. unfold upd. case_bool_decide as E; [subst x|]; done.
Qed.

Lemma renamed_name s self item :
  name (heap (renamed s self item) item) = stored_name s self item.
Proof.
  unfold renamed, stored_name.
  destruct (bool_decide (name (heap s item) = "")
            || dict_mem (items (inventories s self)) (name (heap s item)));
    [|done].
  cbn. by rewrite upd_eq.
Qed.

Lemma renamed_rest s self item :
  inventories (renamed s self item) = inventories s
  /\ next_ref (renamed s self item) = next_ref s
  /\ trace (renamed s self item) = trace s.
Proof.
  unfold renamed.
  destruct (bool_decide (name (heap s item) = "")
            || dict_mem (items (inventories s self)) (name (heap s item)));
    done.
Qed.

Lemma renamed_size s self item k :
  inv_size (renamed s self item) k = inv_size s k.
Proof.
  unfold inv_size. destruct (renamed_rest s self item) as (-> & _ & _).
  apply size_of_ext. intros kv _.
  destruct (renamed_heap s self item kv.2) as (Hst & _).
  symmetry. by apply stable_inventory_space.
Qed.

Ltac run_refl :=
  rewrite ?bind_assoc; erewrite run_bind by reflexivity; cbn beta iota.

(** [add_item] on a pickable item that has an inventory space: the item is
    renamed if need be, then stored when it fits and refused otherwise. *)
Lemma add_item_run s self item sp :
  is_BoardItem (cls (heap s item)) = true ->
  pickable (heap s item) = true ->
  _inventory_space (heap s item) = Some sp ->
  Inventory.add_item self item s =
    if bool_decide (inv_max s self >= inv_size s self + sp) then
      (Ok tt,
       set_inventories
         (upd self
            {| max_size := inv_max s self;
               items := dict_set (items (inventories s self))
                          (stored_name s self item) item |}
            (inventories s))
         (renamed s self item))
    else (Raise (PglInventoryException "not_enough_space"), renamed s self item).
Proof.
  intros Hit Hpick Hsp. unfold Inventory.add_item.
  run_refl. rewrite Hit, Hpick. run_refl.
  assert (forall k : unit -> M Store unit,
    bind (when (bool_decide (name (heap s item) = "")
                || dict_mem (items (inventories s self)) (name (heap s item)))
          then do u <- uuid4_hex;
               modify (update_item item
                         (set_name (name (heap s item) +:+ "_" +:+ u)))) k s
    = k tt (renamed s self item)) as Hren.
  { intros k. unfold renamed, stored_name.
    destruct (bool_decide (name (heap s item) = "")
              || dict_mem (items (inventories s self)) (name (heap s item)));
      [|reflexivity].
    rewrite bind_assoc. reflexivity. }
  rewrite Hren. clear Hren.
  destruct (renamed_heap s self item item) as (Hst & _).
  destruct (renamed_rest s self item) as (Hinv & _ & _).
  run_refl. run_refl. run_refl.
  rewrite <- (stable_inventory_space _ _ Hst), Hsp.
  change (Inventory.size_of (heap (renamed s self item))
            (items (inventories (renamed s self item) self)))
    with (inv_size (renamed s self item) self).
  rewrite renamed_size. rewrite Hinv. fold (inv_max s self).
  case_bool_decide; [|reflexivity].
  rewrite renamed_name. unfold Inventory.set_items, modify.
  rewrite Hinv. reflexivity.
Qed.


Lemma add_item_exec s self item :
  exec (Inventory.add_item self item) s = s
  \/ exec (Inventory.add_item self item) s = renamed s self item
  \/ exists sp,
       _inventory_space (heap s item) = Some sp
       /\ inv_max s self >= inv_size s self + sp
       /\ exec (Inventory.add_item self item) s
          = set_inventories
              (upd self
                 {| max_size := inv_max s self;
                    items := dict_set (items (inventories s self))
                               (stored_name s self item) item |}
                 (inventories s))
              (renamed s self item).
Proof.
  destruct (is_BoardItem (cls (heap s item))) eqn:Hit.
  2: { left. unfold exec, Inventory.add_item. run_refl. by rewrite Hit. }
  destruct (pickable (heap s item)) eqn:Hpick.
  2: { left. unfold exec, Inventory.add_item. run_refl. by rewrite Hit, Hpick. }
  destruct (_inventory_space (heap s item)) as [sp|] eqn:Hsp.
  - unfold exec. rewrite (add_item_run s self item sp) by done.
    case_bool_decide; [|by right; left].
    right. right. exists sp. done.
  - right. left. unfold exec, Inventory.add_item.
    run_refl. rewrite Hit, Hpick. run_refl.
    destruct (renamed_heap s self item item) as (Hst & _).
    assert (forall k : unit -> M Store unit,
      bind (when (bool_decide (name (heap s item) = "")
                  || dict_mem (items (inventories s self)) (name (heap s item)))
            then do u <- uuid4_hex;
                 modify (update_item item
                           (set_name (name (heap s item) +:+ "_" +:+ u)))) k s
      = k tt (renamed s self item)) as Hren.
    { intros k. unfold renamed, stored_name.
      destruct (bool_decide (name (heap s item) = "")
                || dict_mem (items (inventories s self)) (name (heap s item)));
        [|reflexivity].
      rewrite bind_assoc. reflexivity. }
    rewrite Hren. run_refl. run_refl. run_refl.
    rewrite <- (stable_inventory_space _ _ Hst), Hsp.
    unfold Inventory.inventory_space.
    rewrite <- (stable_inventory_space _ _ Hst), Hsp. reflexivity.
Qed.








(** ** Cells after a write *)

Lemma set2_cells {A} (m m' : list (list A)) i j x :
  py_set2 m i j x = Some m' -> 0 <= i -> 0 <= j ->
  py_get2 m' i j = Some x
  /\ forall i' j', 0 <= i' -> 0 <= j' -> ~ (i' = i /\ j' = j) ->
       py_get2 m' i' j' = py_get2 m i' j'.
Proof.
  intros Hs Hi Hj. split; [by eapply py_get2_set2_same|].
  intros i' j' Hi' Hj' Hne.
  rewrite (py_get2_set2 _ _ _ _ _ i' j' Hi Hj Hi' Hj' Hs).
  by rewrite bool_decide_eq_false_2.
Qed.

(** ** [Board.generate_void_cell] *)

Lemma generate_void_cell_run w :
  Board.generate_void_cell w = (Ok (next_ref (store w)), with_void w).
Proof.
  reflexivity.
Qed.

Lemma void_of_cls b : cls (Board.void_of b) = BoardItemVoid.
Proof. unfold Board.void_of. destruct (ui_board_void_cell_sprixel b); done. Qed.

Lemma void_of_parent b : parent (Board.void_of b) = ParentBoard.
Proof. unfold Board.void_of. destruct (ui_board_void_cell_sprixel b); done. Qed.

Lemma with_void_heap w x :
  live w x -> heap (store (with_void w)) x = heap (store w) x.
Proof. unfold live. intros H. cbn. apply upd_ne. lia. Qed.

Lemma with_void_new w :
  heap (store (with_void w)) (next_ref (store w)) = Board.void_of (board w).
Proof. cbn. apply upd_eq. Qed.

(** ** [Board.clear_cell] *)

Lemma clear_cell_spec w r c e o :
  py_get2 (matrix (board w)) r c = Some e ->
  py_get2 (overlapped_matrix (board w)) r c = Some o ->
  exists w', Board.clear_cell r c w = (Ok tt, w') /\ cleared w r c e o w'.
Proof.
  intros He Ho.
  destruct (py_get2_Some_set2 _ _ _ _
              (match o with Some x => x | None => next_ref (store w) end) He)
    as [m' Hm'].
  destruct (py_get2_Some_set2 _ _ _ _ None Ho) as [om' Hom'].
  unfold Board.clear_cell. run_cell. run_step.
  destruct (bool_decide (e ∈ movables (board w))) eqn:Emov;
    [|destruct (bool_decide (e ∈ immovables (board w))) eqn:Eimm];
    repeat (rewrite ?bind_assoc; run_step); run_cell;
    (destruct o as [x|];
     [ run_cell; run_last
     | unfold Board.init_cell;
       run_by ltac:(apply generate_void_cell_run);
       erewrite matrix_set_run by (cbn; eassumption) ]);
    (eexists; split; [reflexivity|]);
    (constructor; cbn; rewrite ?Emov, ?Eimm; try done).
  all: apply bool_decide_eq_false in Emov;
    try apply bool_decide_eq_false in Eimm; set_solver.
Qed.

(** ** Leaving a cell *)

Lemma pos_of_run w x p :
  pos (heap (store w) x) = Some p -> Board.pos_of x w = (Ok p, w).
Proof. intros H. unfold Board.pos_of. run_step. rewrite H. reflexivity. Qed.

Lemma leave_cell_void w m r c r' c' e o :
  pos (heap (store w) m) = Some (r, c) ->
  live w m ->
  r < Board.height (board w) -> c < Board.width (board w) ->
  py_get2 (matrix (board w)) r c = Some e ->
  py_get2 (overlapped_matrix (board w)) r c = Some o ->
  restores (heap (store w)) o (r', c') = false ->
  exists w',
    Board.leave_cell m r' c' w = (Ok tt, w')
    /\ placed (with_void w) (next_ref (store w)) r c e w'.
Proof.
  intros Hpos Hlive Hr Hc He Ho Hres.
  assert (pos (heap (store (with_void w)) m) = Some (r, c)) as Hpos'
    by (rewrite with_void_heap; done).
  assert (is_BoardItem (cls (heap (store (with_void w)) (next_ref (store w))))
          = true) as Hvoid_item
    by (rewrite with_void_new, void_of_cls; done).
  destruct (place_item_spec (with_void w) (next_ref (store w)) r c e
              Hr Hc Hvoid_item He (ex_intro _ o Ho))
    as (w' & Hrun & Hp).
  exists w'. split; [|done].
  unfold Board.leave_cell.
  run_by ltac:(apply pos_of_run; eassumption). cbn [fst snd].
  run_cell.
  assert ((do v <- Board.generate_void_cell;
           do p <- Board.pos_of m; Board.place_item v p.1 p.2) w = (Ok tt, w'))
    as Hvoid.
  { run_by ltac:(apply generate_void_cell_run).
    run_by ltac:(apply pos_of_run; eassumption). cbn [fst snd]. exact Hrun. }
  destruct o as [oi|]; [|exact Hvoid].
  run_step. cbn in Hres. rewrite Hres. exact Hvoid.
Qed.

Lemma leave_cell_restore w m r c r' c' e oi :
  pos (heap (store w) m) = Some (r, c) ->
  oi <> m ->
  r < Board.height (board w) -> c < Board.width (board w) ->
  ~ (r' = r /\ c' = c) ->
  py_get2 (matrix (board w)) r c = Some e ->
  py_get2 (overlapped_matrix (board w)) r c = Some (Some oi) ->
  is_Immovable (cls (heap (store w) oi)) = true ->
  restorable (heap (store w) oi) = true ->
  pos (heap (store w) oi) = Some (r, c) ->
  exists w1 w' om',
    placed w oi r c e w1
    /\ py_set2 (overlapped_matrix (board w1)) r c None = Some om'
    /\ Board.leave_cell m r' c' w = (Ok tt, w')
    /\ w' = {| store := store w1; board := set_overlapped_matrix om' (board w1) |}.
Proof.
  intros Hpos Hne Hr Hc Hcell He Ho Himm Hrest Hpoi.
  assert (is_BoardItem (cls (heap (store w) oi)) = true) as Hoi_item
    by (destruct (cls (heap (store w) oi)); done).
  destruct (place_item_spec w oi r c e Hr Hc Hoi_item He (ex_intro _ _ Ho))
    as (w1 & Hrun & Hp).
  assert (exists om', py_set2 (overlapped_matrix (board w1)) r c None = Some om')
    as [om' Hom'].
  { pose proof (placed_overlapped _ _ _ _ _ _ Hp) as Hov.
    destruct (is_Immovable (cls (heap (store w) e)) && restorable (heap (store w) e)
              && overlappable (heap (store w) e)).
    - eapply py_get2_Some_set2. eapply py_get2_set2_same. exact Hov.
    - rewrite Hov. eapply py_get2_Some_set2. exact Ho. }
  exists w1, {| store := store w1; board := set_overlapped_matrix om' (board w1) |}, om'.
  split; [done|]. split; [done|]. split; [|done].
  unfold Board.leave_cell.
  run_by ltac:(apply pos_of_run; eassumption). cbn [fst snd].
  run_cell. run_step. rewrite Himm, Hrest, Hpoi.
  rewrite bool_decide_eq_true_2 by (intros [= ? ?]; apply Hcell; split; congruence).
  cbn [andb]. unfold Board.place_item_at_own_pos.
  run_by ltac:(apply pos_of_run; eassumption). cbn [fst snd].
  run_with Hrun.
  assert (pos (heap (store w1) m) = Some (r, c)) as Hpos1.
  { rewrite (placed_others _ _ _ _ _ _ Hp) by done. done. }
  run_by ltac:(apply pos_of_run; eassumption). cbn [fst snd].
  by apply overlapped_set_run.
Qed.

(** ** Parking the destination *)

Lemma park_destination_spec w m r' c' d :
  is_Some (py_get2 (overlapped_matrix (board w)) r' c') ->
  exists w2, Board.park_destination m r' c' d w = (Ok tt, w2)
             /\ parked w m r' c' d w2.
Proof.
  intros [o Ho].
  destruct (py_get2_Some_set2 _ _ _ _ (Some d) Ho) as [om' Hom'].
  unfold Board.park_destination. run_step.
  destruct (negb (is_BoardItemVoid (cls (heap (store w) d)))
            && is_Immovable (cls (heap (store w) d))
            && restorable (heap (store w) d)) eqn:Esave;
    [run_cell | run_step]; run_step;
    (destruct (sprixel (heap (store w) m)) as [si|] eqn:Esi;
     [destruct (sprixel (heap (store w) d)) as [sd|] eqn:Esd;
      [destruct (is_bg_transparent si) eqn:Et|]|]);
    cbn [store heap update_item set_heap]; rewrite ?Esi, ?Esd, ?Et;
    repeat run_last;
    (eexists; split; [reflexivity|]);
    (constructor; cbn; rewrite ?Esave, ?upd_eq; try done;
     try (intros x Hx; rewrite ?upd_ne by done; done)).
  all: try (unfold stable; cbn; unfold set_bg_color; rewrite Esi; done).
  all: try (unfold set_bg_color; rewrite Esi; done).
Qed.

(** ** The placement part of a move *)

Lemma board_static_dims b b' :
  board_static b = board_static b' ->
  Board.height b = Board.height b' /\ Board.width b = Board.width b'.
Proof.
  intros H. apply board_static_size in H. unfold Board.height, Board.width.
  by rewrite H.
Qed.

Lemma store_rest_eq s s' :
  store_rest s' = store_rest s ->
  next_ref s' = next_ref s /\ inventories s' = inventories s
  /\ trace s' = trace s.
Proof. unfold store_rest. intros H. by simplify_eq. Qed.

Lemma Movable_not_Immovable k : is_Movable k = true -> is_Immovable k = false.
Proof. by destruct k. Qed.
Lemma Movable_BoardItem k : is_Movable k = true -> is_BoardItem k = true.
Proof. by destruct k. Qed.
Lemma Immovable_BoardItem k : is_Immovable k = true -> is_BoardItem k = true.
Proof. by destruct k. Qed.
Lemma Immovable_not_Void k : is_Immovable k = true -> is_BoardItemVoid k = false.
Proof. by destruct k. Qed.
Lemma Immovable_not_Movable k : is_Immovable k = true -> is_Movable k = false.
Proof. by destruct k. Qed.

Section placement.

Variables (w : World) (m d : ref) (r c r' c' : Z).
Hypothesis Hwf : board_wf (board w).
Hypothesis Hsrc : 0 <= r < Board.height (board w) /\ 0 <= c < Board.width (board w).
Hypothesis Hnew : 0 <= r' < Board.height (board w) /\ 0 <= c' < Board.width (board w).
Hypothesis Hne : ~ (r' = r /\ c' = c).
Hypothesis Hpos : pos (heap (store w) m) = Some (r, c).
Hypothesis Hmov : is_Movable (cls (heap (store w) m)) = true.
Hypothesis Hat : py_get2 (matrix (board w)) r c = Some m.
Hypothesis Hd : py_get2 (matrix (board w)) r' c' = Some d.
Hypothesis Hov : overlappable (heap (store w) d) = true.
Hypothesis Hlive : live w m.

Lemma overlap_and_place_void o :
  py_get2 (overlapped_matrix (board w)) r c = Some o ->
  restores (heap (store w)) o (r', c') = false ->
  exists w',
    Board.overlap_and_place m r' c' w = (Ok tt, w')
    /\ moved w m r c r' c' d (next_ref (store w)) false w'.
Proof.
  intros Ho Hres. destruct Hwf as [Hrm Hro].
  destruct Hsrc as [Hr Hc]. destruct Hnew as [Hr' Hc'].
  (* parking *)
  destruct (park_destination_spec w m r' c' d) as (w2 & Hrun2 & P2).
  { eapply rect_get; eauto. }
  pose proof (board_static_dims _ _ (parked_static _ _ _ _ _ _ P2)) as [Hh2 Hw2].
  pose proof (store_rest_eq _ _ (parked_rest _ _ _ _ _ _ P2)) as (Hn2 & Hi2 & Ht2).
  assert (py_get2 (overlapped_matrix (board w2)) r c = Some o) as Ho2.
  { pose proof (parked_overlapped _ _ _ _ _ _ P2) as H.
    destruct (negb (is_BoardItemVoid (cls (heap (store w) d)))
              && is_Immovable (cls (heap (store w) d))
              && restorable (heap (store w) d)).
    - destruct (set2_cells _ _ _ _ _ H ltac:(lia) ltac:(lia)) as [_ Hoth].
      rewrite Hoth by lia. done.
    - by rewrite H. }
  assert (restores (heap (store w2)) o (r', c') = false) as Hres2.
  { destruct o as [oi|]; [|done]. cbn in *.
    destruct (decide (oi = m)) as [->|Hoi].
    - rewrite <- (stable_cls _ _ (parked_stable _ _ _ _ _ _ P2)).
      rewrite (Movable_not_Immovable _ Hmov). done.
    - rewrite (parked_others _ _ _ _ _ _ P2) by done. done. }
  (* leaving the cell *)
  destruct (leave_cell_void w2 m r c r' c' m o) as (w3 & Hrun3 & P3).
  { rewrite (parked_pos _ _ _ _ _ _ P2). done. }
  { unfold live. rewrite Hn2. done. }
  { lia. } { lia. }
  { rewrite (parked_matrix _ _ _ _ _ _ P2). done. }
  { done. } { done. }
  rewrite Hn2 in P3.
  set (v := next_ref (store w)) in *.
  assert (v <> m) as Hvm by (unfold live in Hlive; subst v; lia).
  pose proof (board_static_dims _ _ (placed_static _ _ _ _ _ _ P3)) as [Hh3 Hw3].
  cbn [board with_void] in Hh3, Hw3.
  pose proof (store_rest_eq _ _ (placed_rest _ _ _ _ _ _ P3)) as (Hn3 & Hi3 & Ht3).
  cbn [store with_void next_ref inventories trace] in Hn3, Hi3, Ht3.
  assert (heap (store (with_void w2)) v = Board.void_of (board w2)) as Hv2.
  { subst v. rewrite <- Hn2. apply with_void_new. }
  assert (forall x, live w x -> heap (store (with_void w2)) x = heap (store w2) x)
    as Hwv.
  { intros x Hx. apply with_void_heap. unfold live in *. rewrite Hn2. done. }
  pose proof (placed_matrix _ _ _ _ _ _ P3) as Hm3. cbn [board with_void] in Hm3.
  rewrite (parked_matrix _ _ _ _ _ _ P2) in Hm3.
  destruct (set2_cells _ _ _ _ _ Hm3 ltac:(lia) ltac:(lia)) as [Hm3s Hm3o].
  assert (overlapped_matrix (board w3) = overlapped_matrix (board w2)) as Ho3.
  { pose proof (placed_overlapped _ _ _ _ _ _ P3) as H.
    rewrite Hwv in H by done.
    rewrite <- (stable_cls _ _ (parked_stable _ _ _ _ _ _ P2)) in H.
    rewrite (Movable_not_Immovable _ Hmov) in H. exact H. }
  (* placing the mover *)
  assert (heap (store w3) m = heap (store w2) m) as Hm3eq.
  { rewrite (placed_others _ _ _ _ _ _ P3) by done. by apply Hwv. }
  assert (is_Movable (cls (heap (store w3) m)) = true) as Hmov3.
  { rewrite Hm3eq. rewrite <- (stable_cls _ _ (parked_stable _ _ _ _ _ _ P2)).
    done. }
  destruct (place_item_spec w3 m r' c' d) as (w4 & Hrun4 & P4).
  { lia. } { lia. }
  { by apply Movable_BoardItem. }
  { rewrite Hm3o by lia. done. }
  { rewrite Ho3. pose proof (parked_overlapped _ _ _ _ _ _ P2) as H.
    destruct (negb (is_BoardItemVoid (cls (heap (store w) d)))
              && is_Immovable (cls (heap (store w) d))
              && restorable (heap (store w) d)).
    - rewrite (py_get2_set2_same _ _ _ _ _ H). eauto.
    - rewrite H. eapply rect_get; eauto. }
  exists w4. split.
  { unfold Board.overlap_and_place. run_cell. run_step. rewrite Hov.
    run_with Hrun2. run_with Hrun3. exact Hrun4. }
  pose proof (placed_matrix _ _ _ _ _ _ P4) as Hm4.
  destruct (set2_cells _ _ _ _ _ Hm4 ltac:(lia) ltac:(lia)) as [Hm4s Hm4o].
  pose proof (store_rest_eq _ _ (placed_rest _ _ _ _ _ _ P4)) as (Hn4 & Hi4 & Ht4).
  assert (forall x, live w x -> x <> m -> heap (store w4) x = heap (store w) x)
    as Hothers.
  { intros x Hx Hxm.
    assert (x <> v) by (unfold live in Hx; subst v; lia).
    rewrite (placed_others _ _ _ _ _ _ P4) by done.
    rewrite (placed_others _ _ _ _ _ _ P3) by done.
    rewrite Hwv by done. by apply (parked_others _ _ _ _ _ _ P2). }
  assert (stable (heap (store w) m) (heap (store w4) m)) as Hst_m.
  { etrans; [apply (parked_stable _ _ _ _ _ _ P2)|].
    rewrite <- Hm3eq. apply (placed_item_stable _ _ _ _ _ _ P4). }
  constructor.
  - exact Hm4s.
  - rewrite Hm4o by lia. exact Hm3s.
  - intros i j Hi Hj Hs Hn. rewrite Hm4o by done. by rewrite Hm3o.
  - intros Hld.
    pose proof (placed_overlapped _ _ _ _ _ _ P4) as H4.
    pose proof (parked_overlapped _ _ _ _ _ _ P2) as H2.
    assert (heap (store w3) d = heap (store w2) d) as Hd3.
    { assert (d <> v) by (unfold live in Hld; subst v; lia).
      rewrite (placed_others _ _ _ _ _ _ P3) by done. by apply Hwv. }
    assert (stable (heap (store w) d) (heap (store w3) d)) as Hstd.
    { rewrite Hd3. destruct (decide (d = m)) as [->|Hdm].
      - apply (parked_stable _ _ _ _ _ _ P2).
      - rewrite (parked_others _ _ _ _ _ _ P2) by done. reflexivity. }
    rewrite <- (stable_cls _ _ Hstd), <- (stable_restorable _ _ Hstd),
      <- (stable_overlappable _ _ Hstd), Hov in H4.
    rewrite andb_true_r in H4.
    destruct (is_Immovable (cls (heap (store w) d))) eqn:Eimm;
      [destruct (restorable (heap (store w) d)) eqn:Erest|]; cbn [andb] in *.
    + by rewrite (py_get2_set2_same _ _ _ _ _ H4).
    + rewrite H4, Ho3. rewrite andb_false_r in H2. by rewrite H2.
    + rewrite H4, Ho3. rewrite andb_false_r in H2. cbn in H2. by rewrite H2.
  - pose proof (placed_overlapped _ _ _ _ _ _ P4) as H4.
    destruct (is_Immovable (cls (heap (store w3) d)) && restorable (heap (store w3) d)
              && overlappable (heap (store w3) d)).
    + destruct (set2_cells _ _ _ _ _ H4 ltac:(lia) ltac:(lia)) as [_ Hoth].
      rewrite Hoth by lia. rewrite Ho3. rewrite Ho2. by rewrite Ho.
    + rewrite H4, Ho3, Ho2. by rewrite Ho.
  - intros i j Hi Hj Hs Hn.
    pose proof (placed_overlapped _ _ _ _ _ _ P4) as H4.
    pose proof (parked_overlapped _ _ _ _ _ _ P2) as H2.
    assert (py_get2 (overlapped_matrix (board w2)) i j
            = py_get2 (overlapped_matrix (board w)) i j) as E2.
    { destruct (negb (is_BoardItemVoid (cls (heap (store w) d)))
                && is_Immovable (cls (heap (store w) d))
                && restorable (heap (store w) d)).
      - destruct (set2_cells _ _ _ _ _ H2 ltac:(lia) ltac:(lia)) as [_ Hoth].
        by apply Hoth.
      - by rewrite H2. }
    destruct (is_Immovable (cls (heap (store w3) d)) && restorable (heap (store w3) d)
              && overlappable (heap (store w3) d)).
    + destruct (set2_cells _ _ _ _ _ H4 ltac:(lia) ltac:(lia)) as [_ Hoth].
      rewrite Hoth by done. by rewrite Ho3.
    + by rewrite H4, Ho3.
  - pose proof (board_static_dims _ _ (placed_static _ _ _ _ _ _ P4)) as [Hh4 Hw4].
    split.
    + rewrite Hh4, Hw4, Hh3, Hw3, Hh2, Hw2.
      eapply rect_set2; [exact Hm4|]. eapply rect_set2; [exact Hm3|]. done.
    + rewrite Hh4, Hw4, Hh3, Hw3, Hh2, Hw2.
      pose proof (placed_overlapped _ _ _ _ _ _ P4) as H4.
      pose proof (parked_overlapped _ _ _ _ _ _ P2) as H2.
      assert (rect (Board.height (board w)) (Board.width (board w))
                (overlapped_matrix (board w2))) as R2.
      { destruct (negb (is_BoardItemVoid (cls (heap (store w) d)))
                  && is_Immovable (cls (heap (store w) d))
                  && restorable (heap (store w) d)).
        - eapply rect_set2; eauto.
        - by rewrite H2. }
      destruct (is_Immovable (cls (heap (store w3) d))
                && restorable (heap (store w3) d)
                && overlappable (heap (store w3) d)).
      * eapply rect_set2; [exact H4|]. by rewrite Ho3.
      * by rewrite H4, Ho3.
  - rewrite (placed_static _ _ _ _ _ _ P4), (placed_static _ _ _ _ _ _ P3).
    apply (parked_static _ _ _ _ _ _ P2).
  - apply (placed_item_pos _ _ _ _ _ _ P4).
  - intros x Hx. destruct (decide (x = m)) as [->|Hxm]; [done|].
    rewrite Hothers by done. reflexivity.
  - intros x Hx Hxm. by rewrite Hothers.
  - intros x Hx. destruct (decide (x = m)) as [->|Hxm].
    + rewrite (placed_item_name _ _ _ _ _ _ P4), Hm3eq.
      apply (parked_name _ _ _ _ _ _ P2).
    + by rewrite Hothers.
  - rewrite (placed_movables _ _ _ _ _ _ P4), Hmov3.
    rewrite (placed_movables _ _ _ _ _ _ P3).
    rewrite Hv2, void_of_cls. cbn [is_Movable].
    cbn [board with_void]. by rewrite (parked_movables _ _ _ _ _ _ P2).
  - rewrite (placed_immovables _ _ _ _ _ _ P4), Hmov3.
    rewrite (placed_immovables _ _ _ _ _ _ P3).
    rewrite Hv2, void_of_cls. cbn [is_Movable is_Immovable].
    cbn [board with_void]. by rewrite (parked_immovables _ _ _ _ _ _ P2).
  - split; [done|]. split.
    + rewrite (placed_others _ _ _ _ _ _ P4) by done.
      rewrite <- (stable_cls _ _ (placed_item_stable _ _ _ _ _ _ P3)).
      rewrite Hv2. apply void_of_cls.
    + unfold live. rewrite Hn4, Hn3, Hn2. subst v. lia.
  - rewrite Hn4, Hn3, Hn2. lia.
  - by rewrite Hi4, Hi3, Hi2.
  - by rewrite Ht4, Ht3, Ht2.
Qed.

Lemma overlap_and_place_restore oi :
  py_get2 (overlapped_matrix (board w)) r c = Some (Some oi) ->
  is_Immovable (cls (heap (store w) oi)) = true ->
  restorable (heap (store w) oi) = true ->
  pos (heap (store w) oi) = Some (r, c) ->
  exists w',
    Board.overlap_and_place m r' c' w = (Ok tt, w')
    /\ moved w m r c r' c' d oi true w'.
Proof.
  intros Ho Himm Hrest Hpoi. destruct Hwf as [Hrm Hro].
  destruct Hsrc as [Hr Hc]. destruct Hnew as [Hr' Hc'].
  assert (oi <> m) as Hoim.
  { intros ->. rewrite (Movable_not_Immovable _ Hmov) in Himm. done. }
  (* parking *)
  destruct (park_destination_spec w m r' c' d) as (w2 & Hrun2 & P2).
  { eapply rect_get; eauto. }
  pose proof (board_static_dims _ _ (parked_static _ _ _ _ _ _ P2)) as [Hh2 Hw2].
  pose proof (store_rest_eq _ _ (parked_rest _ _ _ _ _ _ P2)) as (Hn2 & Hi2 & Ht2).
  assert (forall i j, 0 <= i -> 0 <= j -> ~ (i = r' /\ j = c') ->
            py_get2 (overlapped_matrix (board w2)) i j
            = py_get2 (overlapped_matrix (board w)) i j) as E2.
  { intros i j Hi Hj Hn. pose proof (parked_overlapped _ _ _ _ _ _ P2) as H.
    destruct (negb (is_BoardItemVoid (cls (heap (store w) d)))
              && is_Immovable (cls (heap (store w) d))
              && restorable (heap (store w) d)).
    - destruct (set2_cells _ _ _ _ _ H ltac:(lia) ltac:(lia)) as [_ Hoth].
      by apply Hoth.
    - by rewrite H. }
  assert (rect (Board.height (board w)) (Board.width (board w))
            (overlapped_matrix (board w2))) as R2.
  { pose proof (parked_overlapped _ _ _ _ _ _ P2) as H.
    destruct (negb (is_BoardItemVoid (cls (heap (store w) d)))
              && is_Immovable (cls (heap (store w) d))
              && restorable (heap (store w) d)).
    - eapply rect_set2; eauto.
    - by rewrite H. }
  assert (heap (store w2) oi = heap (store w) oi) as Hoi2
    by (by apply (parked_others _ _ _ _ _ _ P2)).
  (* leaving the cell *)
  destruct (leave_cell_restore w2 m r c r' c' m oi) as (w3a & w3 & om' & P3 & Hom' & Hrun3 & ->).
  { rewrite (parked_pos _ _ _ _ _ _ P2). done. }
  { done. } { lia. } { lia. } { done. }
  { rewrite (parked_matrix _ _ _ _ _ _ P2). done. }
  { rewrite E2 by lia. done. }
  { by rewrite Hoi2. } { by rewrite Hoi2. } { by rewrite Hoi2. }
  pose proof (board_static_dims _ _ (placed_static _ _ _ _ _ _ P3)) as [Hh3 Hw3].
  pose proof (store_rest_eq _ _ (placed_rest _ _ _ _ _ _ P3)) as (Hn3 & Hi3 & Ht3).
  pose proof (placed_matrix _ _ _ _ _ _ P3) as Hm3.
  rewrite (parked_matrix _ _ _ _ _ _ P2) in Hm3.
  destruct (set2_cells _ _ _ _ _ Hm3 ltac:(lia) ltac:(lia)) as [Hm3s Hm3o].
  assert (overlapped_matrix (board w3a) = overlapped_matrix (board w2)) as Ho3.
  { pose proof (placed_overlapped _ _ _ _ _ _ P3) as H.
    rewrite <- (stable_cls _ _ (parked_stable _ _ _ _ _ _ P2)) in H.
    rewrite (Movable_not_Immovable _ Hmov) in H. exact H. }
  rewrite Ho3 in Hom'.
  destruct (set2_cells _ _ _ _ _ Hom' ltac:(lia) ltac:(lia)) as [Homs Homo].
  set (w3 := {| store := store w3a;
                board := set_overlapped_matrix om' (board w3a) |}) in *.
  (* placing the mover *)
  assert (heap (store w3) m = heap (store w2) m) as Hm3eq.
  { cbn. by rewrite (placed_others _ _ _ _ _ _ P3). }
  assert (is_Movable (cls (heap (store w3) m)) = true) as Hmov3.
  { rewrite Hm3eq. rewrite <- (stable_cls _ _ (parked_stable _ _ _ _ _ _ P2)).
    done. }
  assert (Board.height (board w3) = Board.height (board w3a)) as Hh3' by done.
  assert (Board.width (board w3) = Board.width (board w3a)) as Hw3' by done.
  destruct (place_item_spec w3 m r' c' d) as (w4 & Hrun4 & P4).
  { lia. } { lia. }
  { by apply Movable_BoardItem. }
  { cbn. rewrite Hm3o by lia. done. }
  { cbn. rewrite Homo by lia.
    pose proof (parked_overlapped _ _ _ _ _ _ P2) as H.
    destruct (negb (is_BoardItemVoid (cls (heap (store w) d)))
              && is_Immovable (cls (heap (store w) d))
              && restorable (heap (store w) d)).
    - rewrite (py_get2_set2_same _ _ _ _ _ H). eauto.
    - rewrite H. eapply rect_get; eauto. }
  exists w4. split.
  { unfold Board.overlap_and_place. run_cell. run_step. rewrite Hov.
    run_with Hrun2. run_with Hrun3. exact Hrun4. }
  pose proof (placed_matrix _ _ _ _ _ _ P4) as Hm4. cbn in Hm4.
  destruct (set2_cells _ _ _ _ _ Hm4 ltac:(lia) ltac:(lia)) as [Hm4s Hm4o].
  pose proof (store_rest_eq _ _ (placed_rest _ _ _ _ _ _ P4)) as (Hn4 & Hi4 & Ht4).
  cbn in Hn4, Hi4, Ht4.
  pose proof (placed_overlapped _ _ _ _ _ _ P4) as H4.
  change (overlapped_matrix (board w3)) with om' in H4.
  assert (forall x, x <> m -> x <> oi -> heap (store w4) x = heap (store w) x)
    as Hothers.
  { intros x Hxm Hxo.
    rewrite (placed_others _ _ _ _ _ _ P4) by done. cbn.
    rewrite (placed_others _ _ _ _ _ _ P3) by done.
    by apply (parked_others _ _ _ _ _ _ P2). }
  assert (heap (store w4) oi = heap (store w3a) oi) as Hoi4.
  { rewrite (placed_others _ _ _ _ _ _ P4) by done. done. }
  assert (stable (heap (store w) m) (heap (store w4) m)) as Hst_m.
  { etrans; [apply (parked_stable _ _ _ _ _ _ P2)|].
    rewrite <- Hm3eq. apply (placed_item_stable _ _ _ _ _ _ P4). }
  assert (stable (heap (store w) oi) (heap (store w4) oi)) as Hst_oi.
  { rewrite Hoi4, <- Hoi2. apply (placed_item_stable _ _ _ _ _ _ P3). }
  assert (forall x, stable (heap (store w) x) (heap (store w3) x)) as Hst3.
  { intros x. cbn. destruct (decide (x = oi)) as [->|Hxo].
    - rewrite <- Hoi2. apply (placed_item_stable _ _ _ _ _ _ P3).
    - rewrite (placed_others _ _ _ _ _ _ P3) by done.
      destruct (decide (x = m)) as [->|Hxm].
      + apply (parked_stable _ _ _ _ _ _ P2).
      + rewrite (parked_others _ _ _ _ _ _ P2) by done. reflexivity. }
  constructor.
  - exact Hm4s.
  - rewrite Hm4o by lia. exact Hm3s.
  - intros i j Hi Hj Hs Hn. rewrite Hm4o by done. by rewrite Hm3o.
  - intros _.
    rewrite <- (stable_cls _ _ (Hst3 d)), <- (stable_restorable _ _ (Hst3 d)),
      <- (stable_overlappable _ _ (Hst3 d)), Hov in H4.
    rewrite andb_true_r in H4.
    pose proof (parked_overlapped _ _ _ _ _ _ P2) as H2.
    destruct (is_Immovable (cls (heap (store w) d))) eqn:Eimm;
      [destruct (restorable (heap (store w) d)) eqn:Erest|]; cbn [andb] in *.
    + by rewrite (py_get2_set2_same _ _ _ _ _ H4).
    + rewrite H4, Homo by lia. rewrite andb_false_r in H2. by rewrite H2.
    + rewrite H4, Homo by lia. rewrite andb_false_r in H2. cbn in H2.
      by rewrite H2.
  - destruct (is_Immovable (cls (heap (store w3) d)) && restorable (heap (store w3) d)
              && overlappable (heap (store w3) d)).
    + destruct (set2_cells _ _ _ _ _ H4 ltac:(lia) ltac:(lia)) as [_ Hoth].
      rewrite Hoth by lia. exact Homs.
    + rewrite H4. exact Homs.
  - intros i j Hi Hj Hs Hn.
    destruct (is_Immovable (cls (heap (store w3) d)) && restorable (heap (store w3) d)
              && overlappable (heap (store w3) d)).
    + destruct (set2_cells _ _ _ _ _ H4 ltac:(lia) ltac:(lia)) as [_ Hoth].
      rewrite Hoth by done. rewrite Homo by done. by apply E2.
    + rewrite H4. rewrite Homo by done. by apply E2.
  - pose proof (board_static_dims _ _ (placed_static _ _ _ _ _ _ P4)) as [Hh4 Hw4].
    split.
    + rewrite Hh4, Hw4, Hh3', Hw3', Hh3, Hw3, Hh2, Hw2.
      eapply rect_set2; [exact Hm4|]. eapply rect_set2; [exact Hm3|]. done.
    + rewrite Hh4, Hw4, Hh3', Hw3', Hh3, Hw3, Hh2, Hw2.
      assert (rect (Board.height (board w)) (Board.width (board w)) om') as R3
        by (eapply rect_set2; eauto).
      destruct (is_Immovable (cls (heap (store w3) d))
                && restorable (heap (store w3) d)
                && overlappable (heap (store w3) d)).
      * eapply rect_set2; [exact H4|]. done.
      * by rewrite H4.
  - rewrite (placed_static _ _ _ _ _ _ P4). cbn.
    rewrite <- (parked_static _ _ _ _ _ _ P2), <- (placed_static _ _ _ _ _ _ P3).
    done.
  - apply (placed_item_pos _ _ _ _ _ _ P4).
  - intros x _. destruct (decide (x = m)) as [->|Hxm]; [done|].
    destruct (decide (x = oi)) as [->|Hxo]; [done|].
    rewrite Hothers by done. reflexivity.
  - intros x _ Hxm. destruct (decide (x = oi)) as [->|Hxo].
    + rewrite Hoi4, (placed_item_pos _ _ _ _ _ _ P3). by rewrite Hpoi.
    + by rewrite Hothers.
  - intros x _. destruct (decide (x = m)) as [->|Hxm].
    + rewrite (placed_item_name _ _ _ _ _ _ P4), Hm3eq.
      apply (parked_name _ _ _ _ _ _ P2).
    + destruct (decide (x = oi)) as [->|Hxo].
      * rewrite Hoi4, (placed_item_name _ _ _ _ _ _ P3). by rewrite Hoi2.
      * by rewrite Hothers.
  - rewrite (placed_movables _ _ _ _ _ _ P4), Hmov3. cbn.
    rewrite (placed_movables _ _ _ _ _ _ P3).
    rewrite Hoi2, (Immovable_not_Movable _ Himm).
    by rewrite (parked_movables _ _ _ _ _ _ P2).
  - rewrite (placed_immovables _ _ _ _ _ _ P4), Hmov3. cbn.
    rewrite (placed_immovables _ _ _ _ _ _ P3).
    rewrite Hoi2, (Immovable_not_Movable _ Himm), Himm.
    by rewrite (parked_immovables _ _ _ _ _ _ P2).
  - done.
  - rewrite Hn4, Hn3, Hn2. lia.
  - by rewrite Hi4, Hi3, Hi2.
  - by rewrite Ht4, Ht3, Ht2.
Qed.

End placement.

(** ** Activation and pickup *)

Lemma activated_board w m t : board (activated w m t) = board w.
Proof. unfold activated. by destruct (_ && _). Qed.

Lemma activated_heap w m t : heap (store (activated w m t)) = heap (store w).
Proof. unfold activated. by destruct (_ && _). Qed.

Lemma activated_rest w m t :
  next_ref (store (activated w m t)) = next_ref (store w)
  /\ inventories (store (activated w m t)) = inventories (store w)
  /\ uuid_hex (store (activated w m t)) = uuid_hex (store w)
  /\ uuid_count (store (activated w m t)) = uuid_count (store w).
Proof. unfold activated. by destruct (_ && _). Qed.

Lemma activated_none w m t : activates w m t = false -> activated w m t = w.
Proof. unfold activates, activated. by intros ->. Qed.

Lemma on_store_run {A} (f : M Store A) w r s :
  f (store w) = (r, s) -> on_store f w = (r, {| store := s; board := board w |}).
Proof. intros H. unfold on_store. by rewrite H. Qed.

Lemma activate_and_pickup_none w m r' c' t :
  py_get2 (matrix (board w)) r' c' = Some t ->
  picks_up w m t = false ->
  Board.activate_and_pickup m r' c' w = (Ok tt, activated w m t).
Proof.
  intros Ht Hpick. unfold Board.activate_and_pickup, activated.
  run_step. run_cell. run_step. unfold picks_up in Hpick. rewrite Hpick.
  destruct (is_Actionable (cls (heap (store w) t))
            && Board.may_activate (cls (heap (store w) m))
                 (perm (heap (store w) t))); reflexivity.
Qed.

Lemma activate_and_pickup_some w m r' c' t inv :
  py_get2 (matrix (board w)) r' c' = Some t ->
  picks_up w m t = true ->
  inventory (heap (store w) m) = Some inv ->
  Board.activate_and_pickup m r' c' w
  = bind (on_store (Inventory.add_item inv t))
      (fun _ => Board.clear_cell r' c') (activated w m t).
Proof.
  intros Ht Hpick Hinv. unfold Board.activate_and_pickup, activated.
  run_step. run_cell. run_step. unfold picks_up in Hpick. rewrite Hpick, Hinv.
  destruct (is_Actionable (cls (heap (store w) t))
            && Board.may_activate (cls (heap (store w) m))
                 (perm (heap (store w) t))).
  - run_refl. reflexivity.
  - run_step. reflexivity.
Qed.

(** [add_item] returns only when it has stored the item. *)
Lemma add_item_returns s self item s' :
  Inventory.add_item self item s = (Ok tt, s') ->
  exists sp,
    _inventory_space (heap s item) = Some sp
    /\ inv_max s self >= inv_size s self + sp
    /\ s' = set_inventories
              (upd self
                 {| max_size := inv_max s self;
                    items := dict_set (items (inventories s self))
                               (stored_name s self item) item |}
                 (inventories s))
              (renamed s self item).
Proof.
  intros Hrun.
  destruct (is_BoardItem (cls (heap s item))) eqn:Hit.
  2: { revert Hrun. unfold Inventory.add_item. run_refl. by rewrite Hit. }
  destruct (pickable (heap s item)) eqn:Hpick.
  2: { revert Hrun. unfold Inventory.add_item. run_refl. by rewrite Hit, Hpick. }
  destruct (_inventory_space (heap s item)) as [sp|] eqn:Hsp.
  - rewrite (add_item_run s self item sp) in Hrun by done.
    case_bool_decide; [|done]. exists sp. by simplify_eq.
  - exfalso.
    pose proof (add_item_exec s self item) as Hex.
    assert (outcome (Inventory.add_item self item) s <> Ok tt) as Hno.
    { unfold outcome, Inventory.add_item.
      run_refl. rewrite Hit, Hpick. run_refl.
      destruct (renamed_heap s self item item) as (Hst & _).
      assert (forall k : unit -> M Store unit,
        bind (when (bool_decide (name (heap s item) = "")
                    || dict_mem (items (inventories s self)) (name (heap s item)))
              then do u <- uuid4_hex;
                   modify (update_item item
                             (set_name (name (heap s item) +:+ "_" +:+ u)))) k s
        = k tt (renamed s self item)) as Hren.
      { intros k. unfold renamed, stored_name.
        destruct (bool_decide (name (heap s item) = "")
                  || dict_mem (items (inventories s self)) (name (heap s item)));
          [|reflexivity].
        rewrite bind_assoc. reflexivity. }
      rewrite Hren. run_refl. run_refl. run_refl.
      rewrite <- (stable_inventory_space _ _ Hst), Hsp.
      unfold Inventory.inventory_space.
      rewrite <- (stable_inventory_space _ _ Hst), Hsp. done. }
    apply Hno. unfold outcome. by rewrite Hrun.
Qed.

(** ** The routing of a move *)

Lemma in_bounds_test b r c :
  in_bounds b r c ->
  bool_decide (r >= 0) && bool_decide (c >= 0)
  && bool_decide (r < Board.height b) && bool_decide (c < Board.width b) = true.
Proof.
  intros [? ?]. rewrite !bool_decide_eq_true_2 by lia. done.
Qed.

Lemma out_of_bounds_test b r c :
  ~ in_bounds b r c ->
  bool_decide (r >= 0) && bool_decide (c >= 0)
  && bool_decide (r < Board.height b) && bool_decide (c < Board.width b) = false.
Proof.
  intros H. unfold in_bounds in H.
  repeat case_bool_decide; try done. lia.
Qed.

Lemma move_in_bounds w m dir stp r' c' :
  is_Movable (cls (heap (store w) m)) = true ->
  can_move (heap (store w) m) = true ->
  Board.destination m dir stp w = (Ok (Some (r', c')), w) ->
  in_bounds (board w) r' c' ->
  Board.move m dir stp w
  = bind (Board.activate_and_pickup m r' c')
      (fun _ => Board.overlap_and_place m r' c') w.
Proof.
  intros Hmov Hcan Hdest Hin. unfold Board.move, Board._move_simple.
  run_step. rewrite Hmov, Hcan. cbn [andb].
  run_with Hdest. run_step. rewrite (in_bounds_test _ _ _ Hin). reflexivity.
Qed.

Lemma move_no_destination w m dir stp dest :
  is_Movable (cls (heap (store w) m)) = true ->
  can_move (heap (store w) m) = true ->
  Board.destination m dir stp w = (Ok dest, w) ->
  match dest with
  | Some (r', c') => ~ in_bounds (board w) r' c'
  | None => True
  end ->
  Board.move m dir stp w = (Ok tt, w).
Proof.
  intros Hmov Hcan Hdest Hout. unfold Board.move, Board._move_simple.
  run_step. rewrite Hmov, Hcan. cbn [andb].
  run_with Hdest. run_step. destruct dest as [[r' c']|]; [|reflexivity].
  rewrite (out_of_bounds_test _ _ _ Hout). reflexivity.
Qed.

Lemma overlap_and_place_refused w m r' c' t :
  py_get2 (matrix (board w)) r' c' = Some t ->
  overlappable (heap (store w) t) = false ->
  Board.overlap_and_place m r' c' w = (Ok tt, w).
Proof.
  intros Ht Hov. unfold Board.overlap_and_place. run_cell. run_step.
  rewrite Hov. reflexivity.
Qed.

Lemma inv_size_activated w m t inv :
  inv_size (store (activated w m t)) inv = inv_size (store w) inv
  /\ inv_max (store (activated w m t)) inv = inv_max (store w) inv.
Proof.
  unfold inv_size, inv_max. rewrite activated_heap.
  destruct (activated_rest w m t) as (_ & -> & _). done.
Qed.

(** C2, as stated, fails: the player of [full_inventory_world], whose
    inventory (capacity 1) cannot take the treasure (space 2) on the next
    cell, moves onto it; the treasure is not overlappable and is not consumed
    (it is still on its cell), and [Board.move] raises the inventory's
    [not_enough_space] exception. *)
Lemma move_onto_unfitting_treasure_raises :
  py_get2 (matrix (board full_inventory_world)) 0 1 = Some 25%nat
  /\ overlappable (heap (store full_inventory_world) 25%nat) = false
  /\ outcome (Board.move 26%nat (Const RIGHT) 1) full_inventory_world
     = Raise (PglInventoryException "not_enough_space")
  /\ py_get2 (matrix (board (exec (Board.move 26%nat (Const RIGHT) 1)
                               full_inventory_world))) 0 1 = Some 25%nat.
Proof. vm_compute. repeat split. Qed.

(** C2 (amended).  For a Movable that can move: if the computed destination
    is absent or outside the board, [Board.move] returns and nothing has
    changed.  Let the destination cell hold a non-overlappable item that
    the move does not activate (it is no Actionable whose permission admits
    the mover): if no pickup is attempted (the item is not pickable, or the
    mover has no inventory), [Board.move] returns and nothing has changed,
    neither the board with its two matrices and two sets nor any object; if
    a pickup is attempted and the item does not fit in the inventory,
    [Board.move] raises the inventory's [not_enough_space] exception, with
    the board, the inventories and the mover's position unchanged. *)
Theorem refused_move_changes_nothing
  (w : World) (m : ref) (dir : DirArg) (stp : Z) (dest : option (Z * Z)) :
  is_Movable (cls (heap (store w) m)) = true ->
  can_move (heap (store w) m) = true ->
  Board.destination m dir stp w = (Ok dest, w) ->
  (match dest with
   | Some (r', c') => ~ in_bounds (board w) r' c'
   | None => True
   end -> Board.move m dir stp w = (Ok tt, w))
  /\ (forall r' c' t,
        dest = Some (r', c') -> in_bounds (board w) r' c' ->
        py_get2 (matrix (board w)) r' c' = Some t ->
        overlappable (heap (store w) t) = false ->
        activates w m t = false ->
        (picks_up w m t = false -> Board.move m dir stp w = (Ok tt, w))
        /\ (forall inv sp,
              picks_up w m t = true ->
              inventory (heap (store w) m) = Some inv ->
              is_BoardItem (cls (heap (store w) t)) = true ->
              _inventory_space (heap (store w) t) = Some sp ->
              inv_size (store w) inv + sp > inv_max (store w) inv ->
              exists w',
                Board.move m dir stp w
                = (Raise (PglInventoryException "not_enough_space"), w')
                /\ board w' = board w
                /\ inventories (store w') = inventories (store w)
                /\ pos (heap (store w') m) = pos (heap (store w) m))).
Proof.
  intros Hmov Hcan Hdest. split.
  - by apply move_no_destination.
  - intros r' c' t -> Hin Ht Hov Hact. split.
    + intros Hpick.
      rewrite (move_in_bounds w m dir stp r' c') by done.
      run_by ltac:(apply activate_and_pickup_none; eassumption).
      rewrite (activated_none _ _ _ Hact).
      by apply (overlap_and_place_refused _ _ _ _ t).
    + intros inv sp Hpick Hinv Hit Hsp Hfull.
      rewrite (move_in_bounds w m dir stp r' c') by done.
      unfold bind at 1.
      rewrite (activate_and_pickup_some w m r' c' t inv) by done.
      assert (pickable (heap (store w) t) = true) as Hpk.
      { unfold picks_up in Hpick. by destruct (pickable (heap (store w) t));
          rewrite ?andb_false_r in Hpick. }
      destruct (inv_size_activated w m t inv) as [Hsz Hmx].
      pose proof (add_item_run (store (activated w m t)) inv t sp) as Hadd.
      rewrite activated_heap in Hadd. specialize (Hadd Hit Hpk Hsp).
      rewrite Hsz, Hmx in Hadd.
      rewrite bool_decide_eq_false_2 in Hadd by lia.
      eexists. split.
      { erewrite run_bind_raise; [reflexivity|].
        apply on_store_run. exact Hadd. }
      cbn [board store]. split; [apply activated_board|]. split.
      * destruct (renamed_rest (store (activated w m t)) inv t) as (-> & _).
        by destruct (activated_rest w m t) as (_ & -> & _).
      * destruct (renamed_heap (store (activated w m t)) inv t m)
          as (_ & -> & _).
        by rewrite activated_heap.
Qed.

Lemma destination_target w m dir stp p :
  pos (heap (store w) m) = Some p ->
  Board.destination m dir stp w = (Ok (target p dir stp), w).
Proof.
  intros Hp. unfold Board.destination, target.
  destruct dir as [[]|v]; try reflexivity;
    run_by ltac:(apply pos_of_run; eassumption); reflexivity.
Qed.

Lemma refused_move_witness :
  is_Movable (cls (heap (store wall_world) 26%nat)) = true
  /\ can_move (heap (store wall_world) 26%nat) = true
  /\ Board.destination 26%nat (Const RIGHT) 1 wall_world
     = (Ok (Some (0, 1)), wall_world)
  /\ in_bounds (board wall_world) 0 1
  /\ py_get2 (matrix (board wall_world)) 0 1 = Some 25%nat
  /\ overlappable (heap (store wall_world) 25%nat) = false
  /\ activates wall_world 26%nat 25%nat = false
  /\ picks_up wall_world 26%nat 25%nat = false
  /\ Board.move 26%nat (Const RIGHT) 1 wall_world = (Ok tt, wall_world).
Proof.
  assert (is_Movable (cls (heap (store wall_world) 26%nat)) = true) as H1
    by (vm_compute; reflexivity).
  assert (can_move (heap (store wall_world) 26%nat) = true) as H2
    by (vm_compute; reflexivity).
  assert (pos (heap (store wall_world) 26%nat) = Some (0, 0)) as Hp
    by (vm_compute; reflexivity).
  assert (Board.destination 26%nat (Const RIGHT) 1 wall_world
          = (Ok (Some (0, 1)), wall_world)) as H3
    by exact (destination_target wall_world 26%nat (Const RIGHT) 1 (0, 0) Hp).
  assert (in_bounds (board wall_world) 0 1) as H4
    by (vm_compute; repeat split; discriminate).
  assert (py_get2 (matrix (board wall_world)) 0 1 = Some 25%nat) as H5
    by (vm_compute; reflexivity).
  assert (overlappable (heap (store wall_world) 25%nat) = false) as H6
    by (vm_compute; reflexivity).
  assert (activates wall_world 26%nat 25%nat = false) as Ha
    by (vm_compute; reflexivity).
  assert (picks_up wall_world 26%nat 25%nat = false) as H7
    by (vm_compute; reflexivity).
  repeat (split; [assumption|]).
  exact (proj1 (proj2 (refused_move_changes_nothing wall_world 26%nat
                         (Const RIGHT) 1 (Some (0, 1)) H1 H2 H3)
                  0 1 25%nat eq_refl H4 H5 H6 Ha) H7).
Defined.

(** ** What activation and pickup keep *)

Lemma kept_activated w m t r' c' : kept w r' c' (activated w m t).
Proof.
  constructor; rewrite ?activated_board, ?activated_heap; try done.
  by destruct (activated_rest w m t) as (-> & _).
Qed.

Lemma has_inventory_Some i :
  Board.has_inventory i = true -> exists inv, inventory i = Some inv.
Proof. unfold Board.has_inventory. destruct (inventory i); eauto. done. Qed.

Lemma picks_up_inventory w m t :
  picks_up w m t = true -> exists inv, inventory (heap (store w) m) = Some inv.
Proof.
  unfold picks_up. intros H. apply has_inventory_Some.
  by destruct (Board.has_inventory (heap (store w) m));
    rewrite ?andb_false_r in H.
Qed.

(** The world after a pickup that succeeded: [t] stored in [inv], then the
    cell cleared. *)
Lemma pickup_cleared w m r' c' t inv w_a o :
  py_get2 (matrix (board w)) r' c' = Some t ->
  py_get2 (overlapped_matrix (board w)) r' c' = Some o ->
  picks_up w m t = true ->
  inventory (heap (store w) m) = Some inv ->
  Board.activate_and_pickup m r' c' w = (Ok tt, w_a) ->
  exists sp,
    _inventory_space (heap (store w) t) = Some sp
    /\ inv_max (store w) inv >= inv_size (store w) inv + sp
    /\ cleared (picked (activated w m t) inv t) r' c' t o w_a.
Proof.
  intros Ht Ho Hpick Hinv Hrun.
  rewrite (activate_and_pickup_some w m r' c' t inv) in Hrun by done.
  unfold bind in Hrun.
  destruct (on_store (Inventory.add_item inv t) (activated w m t))
    as [[[]|e] w_c] eqn:Hadd; [|done].
  unfold on_store in Hadd.
  destruct (Inventory.add_item inv t (store (activated w m t)))
    as [res s'] eqn:Hadd'.
  injection Hadd as -> <-.
  destruct (add_item_returns _ _ _ _ Hadd') as (sp & Hsp & Hfit & ->).
  rewrite activated_heap in Hsp.
  destruct (inv_size_activated w m t inv) as [Hsz Hmx].
  rewrite Hsz, Hmx in Hfit.
  exists sp. split; [done|]. split; [done|].
  destruct (clear_cell_spec (picked (activated w m t) inv t) r' c' t o)
    as (w' & Hrun' & Hcl).
  { cbn. by rewrite activated_board. }
  { cbn. by rewrite activated_board. }
  unfold picked in Hrun' at 1. rewrite Hrun' in Hrun. by simplify_eq.
Qed.

Lemma picked_heap w inv t x :
  stable (heap (store w) x) (heap (store (picked w inv t)) x)
  /\ pos (heap (store (picked w inv t)) x) = pos (heap (store w) x)
  /\ (x <> t -> heap (store (picked w inv t)) x = heap (store w) x).
Proof.
  cbn. destruct (renamed_heap (store w) inv t x) as (H1 & H2 & _ & _ & H5).
  done.
Qed.

Lemma picked_next w inv t :
  next_ref (store (picked w inv t)) = next_ref (store w).
Proof. cbn. by destruct (renamed_rest (store w) inv t) as (_ & -> & _). Qed.

Lemma cleared_kept w r' c' e o w' :
  0 <= r' -> 0 <= c' -> cleared w r' c' e o w' -> kept w r' c' w'.
Proof.
  intros Hr Hc Hcl.
  pose proof (cleared_matrix _ _ _ _ _ _ Hcl) as Hm.
  pose proof (cleared_overlapped _ _ _ _ _ _ Hcl) as Hov.
  pose proof (cleared_store _ _ _ _ _ _ Hcl) as Hst.
  pose proof (board_static_dims _ _ (cleared_static _ _ _ _ _ _ Hcl)) as [Hh Hw].
  destruct (set2_cells _ _ _ _ _ Hm Hr Hc) as [_ Hmo].
  constructor.
  - apply (cleared_static _ _ _ _ _ _ Hcl).
  - intros [Hrm Hro]. split; rewrite Hh, Hw.
    + eapply rect_set2; eauto.
    + destruct o; [eapply rect_set2; eauto | by rewrite Hov].
  - intros i j Hi Hj Hn. by apply Hmo.
  - intros i j Hi Hj Hn. destruct o.
    + destruct (set2_cells _ _ _ _ _ Hov Hr Hc) as [_ Hoo]. by apply Hoo.
    + by rewrite Hov.
  - intros x Hx. rewrite Hst. destruct o; [done|].
    by rewrite with_void_heap.
  - intros x Hx. rewrite Hst. destruct o; [done|].
    by rewrite with_void_heap.
  - rewrite Hst. destruct o; cbn; lia.
Qed.

Lemma kept_trans w r' c' w1 w2 :
  kept w r' c' w1 -> kept w1 r' c' w2 -> kept w r' c' w2.
Proof.
  intros K1 K2.
  assert (forall x, live w x -> live w1 x) as Hl.
  { intros x Hx. unfold live in *. pose proof (kept_next _ _ _ _ K1). lia. }
  constructor.
  - rewrite (kept_static _ _ _ _ K2). apply (kept_static _ _ _ _ K1).
  - intros H. apply (kept_wf _ _ _ _ K2). by apply (kept_wf _ _ _ _ K1).
  - intros i j Hi Hj Hn. rewrite (kept_matrix _ _ _ _ K2) by done.
    by apply (kept_matrix _ _ _ _ K1).
  - intros i j Hi Hj Hn. rewrite (kept_parked _ _ _ _ K2) by done.
    by apply (kept_parked _ _ _ _ K1).
  - intros x Hx. etrans; [by apply (kept_stable _ _ _ _ K1)|].
    apply (kept_stable _ _ _ _ K2). by apply Hl.
  - intros x Hx. rewrite (kept_pos _ _ _ _ K2) by (by apply Hl).
    by apply (kept_pos _ _ _ _ K1).
  - pose proof (kept_next _ _ _ _ K1). pose proof (kept_next _ _ _ _ K2). lia.
Qed.

Lemma kept_picked w inv t r' c' : kept w r' c' (picked w inv t).
Proof.
  constructor; try done.
  - intros x _. apply picked_heap.
  - intros x _. apply picked_heap.
  - by rewrite picked_next.
Qed.

Lemma activate_and_pickup_kept w m r' c' w_a :
  board_wf (board w) -> in_bounds (board w) r' c' ->
  Board.activate_and_pickup m r' c' w = (Ok tt, w_a) ->
  kept w r' c' w_a.
Proof.
  intros [Hrm Hro] [Hr Hc] Hrun.
  destruct (rect_get _ _ _ _ _ Hrm Hr Hc) as [t Ht].
  destruct (rect_get _ _ _ _ _ Hro Hr Hc) as [o Ho].
  destruct (picks_up w m t) eqn:Hpick.
  - destruct (picks_up_inventory _ _ _ Hpick) as [inv Hinv].
    destruct (pickup_cleared w m r' c' t inv w_a o Ht Ho Hpick Hinv Hrun)
      as (sp & _ & _ & Hcl).
    eapply kept_trans; [apply (kept_activated w m t)|].
    eapply kept_trans; [apply kept_picked|].
    eapply cleared_kept; [lia | lia | exact Hcl].
  - rewrite (activate_and_pickup_none w m r' c' t Ht Hpick) in Hrun.
    injection Hrun as <-. apply kept_activated.
Qed.

(** ** Moving onto an overlappable cell, and off a parked item *)

Lemma picks_up_overlappable w m t :
  overlappable (heap (store w) t) = true -> picks_up w m t = false.
Proof. unfold picks_up. by intros ->. Qed.

Lemma live_activated w m t x : live w x -> live (activated w m t) x.
Proof. unfold live. by destruct (activated_rest w m t) as (-> & _). Qed.

Lemma move_onto_overlappable w m d dir stp r c r' c' o :
  board_wf (board w) ->
  in_bounds (board w) r c -> in_bounds (board w) r' c' ->
  ~ (r' = r /\ c' = c) ->
  is_Movable (cls (heap (store w) m)) = true ->
  can_move (heap (store w) m) = true ->
  pos (heap (store w) m) = Some (r, c) ->
  py_get2 (matrix (board w)) r c = Some m ->
  live w m ->
  Board.destination m dir stp w = (Ok (Some (r', c')), w) ->
  py_get2 (matrix (board w)) r' c' = Some d ->
  overlappable (heap (store w) d) = true ->
  py_get2 (overlapped_matrix (board w)) r c = Some o ->
  (restores (heap (store w)) o (r', c') = true ->
   exists oi, o = Some oi /\ pos (heap (store w) oi) = Some (r, c)) ->
  exists w' left,
    Board.move m dir stp w = (Ok tt, w')
    /\ moved (activated w m d) m r c r' c' d left
         (restores (heap (store w)) o (r', c')) w'
    /\ (restores (heap (store w)) o (r', c') = true -> o = Some left).
Proof.
  intros Hwf Hsrc Hnew Hne Hmov Hcan Hpos Hat Hlive Hdest Hd Hov Ho Hsync.
  rewrite (move_in_bounds w m dir stp r' c') by done.
  rewrite (run_bind _ _ _ _ _
             (activate_and_pickup_none w m r' c' d Hd
                (picks_up_overlappable w m d Hov))).
  set (wa := activated w m d).
  assert (board wa = board w) as Hb by apply activated_board.
  assert (heap (store wa) = heap (store w)) as Hh by apply activated_heap.
  destruct (restores (heap (store w)) o (r', c')) eqn:Hres.
  - destruct (Hsync eq_refl) as (oi & -> & Hpoi).
    cbn in Hres. apply andb_prop in Hres as [Hres _].
    apply andb_prop in Hres as [Himm Hrest].
    assert (exists w', Board.overlap_and_place m r' c' wa = (Ok tt, w')
                       /\ moved wa m r c r' c' d oi true w')
      as (w' & Hrun & Hmoved).
    { apply overlap_and_place_restore; rewrite ?Hb, ?Hh; done. }
    exists w', oi. done.
  - assert (exists w', Board.overlap_and_place m r' c' wa = (Ok tt, w')
                       /\ moved wa m r c r' c' d (next_ref (store wa))
                            false w')
      as (w' & Hrun & Hmoved).
    { apply overlap_and_place_void with (o := o); rewrite ?Hb, ?Hh;
        try done.
      by apply live_activated. }
    exists w', (next_ref (store wa)). done.
Qed.

Lemma move_off_parked w m d dir stp r c r2 c2 w2 :
  board_wf (board w) ->
  in_bounds (board w) r c ->
  is_Movable (cls (heap (store w) m)) = true ->
  can_move (heap (store w) m) = true ->
  pos (heap (store w) m) = Some (r, c) ->
  py_get2 (matrix (board w)) r c = Some m ->
  live w m -> live w d ->
  py_get2 (overlapped_matrix (board w)) r c = Some (Some d) ->
  is_Immovable (cls (heap (store w) d)) = true ->
  restorable (heap (store w) d) = true ->
  pos (heap (store w) d) = Some (r, c) ->
  Board.destination m dir stp w = (Ok (Some (r2, c2)), w) ->
  ~ (r2 = r /\ c2 = c) ->
  Board.move m dir stp w = (Ok tt, w2) ->
  pos (heap (store w2) m) = Some (r2, c2) ->
  py_get2 (matrix (board w2)) r c = Some d
  /\ py_get2 (overlapped_matrix (board w2)) r c = Some None
  /\ py_get2 (matrix (board w2)) r2 c2 = Some m.
Proof.
  intros Hwf Hsrc Hmov Hcan Hpos Hat Hlm Hld Ho Himm Hrest Hpd Hdest Hne
    Hrun Hpos2.
  destruct (decide (in_bounds (board w) r2 c2)) as [Hnew|Hout].
  2: { rewrite (move_no_destination w m dir stp (Some (r2, c2))) in Hrun
         by done.
       injection Hrun as <-. rewrite Hpos in Hpos2.
       exfalso. apply Hne. by simplify_eq. }
  rewrite (move_in_bounds w m dir stp r2 c2) in Hrun by done.
  unfold bind in Hrun.
  destruct (Board.activate_and_pickup m r2 c2 w) as [[[]|e] wa] eqn:Hpre;
    [|done].
  pose proof (activate_and_pickup_kept w m r2 c2 wa Hwf Hnew Hpre) as K.
  pose proof (kept_wf _ _ _ _ K Hwf) as Hwfa.
  pose proof (board_static_dims _ _ (kept_static _ _ _ _ K)) as [Hha Hwa].
  destruct Hsrc as [Hr Hc]. destruct Hnew as [Hr2 Hc2].
  destruct Hwfa as [Hrma Hroa].
  assert (is_Some (py_get2 (matrix (board wa)) r2 c2)) as [d2 Hd2]
    by (eapply rect_get; [exact Hrma | lia | lia]).
  assert (pos (heap (store wa) m) = Some (r, c)) as Hposa
    by (by rewrite (kept_pos _ _ _ _ K)).
  destruct (overlappable (heap (store wa) d2)) eqn:Hov2.
  2: { rewrite (overlap_and_place_refused wa m r2 c2 d2 Hd2 Hov2) in Hrun.
       injection Hrun as <-. rewrite Hposa in Hpos2.
       exfalso. apply Hne. by simplify_eq. }
  assert (exists w', Board.overlap_and_place m r2 c2 wa = (Ok tt, w')
                     /\ moved wa m r c r2 c2 d2 d true w')
    as (w' & Hrun' & Hmoved).
  { apply overlap_and_place_restore.
    - done.
    - lia.
    - lia.
    - done.
    - done.
    - by rewrite <- (stable_cls _ _ (kept_stable _ _ _ _ K m Hlm)).
    - rewrite (kept_matrix _ _ _ _ K) by lia. done.
    - done.
    - done.
    - rewrite (kept_parked _ _ _ _ K) by lia. done.
    - by rewrite <- (stable_cls _ _ (kept_stable _ _ _ _ K d Hld)).
    - by rewrite <- (stable_restorable _ _ (kept_stable _ _ _ _ K d Hld)).
    - by rewrite (kept_pos _ _ _ _ K). }
  rewrite Hrun' in Hrun. injection Hrun as <-.
  split; [|split].
  - apply (moved_src _ _ _ _ _ _ _ _ _ _ Hmoved).
  - apply (moved_parked_src _ _ _ _ _ _ _ _ _ _ Hmoved).
  - apply (moved_new _ _ _ _ _ _ _ _ _ _ Hmoved).
Qed.

(** ** C1: overlap and restore *)

(** C1, as stated, fails on the source cell.  In [two_doors_world] the
    Player stands on the first Door and moves onto the second one, an
    overlappable, restorable Immovable: the move succeeds, the destination
    holds the Player and its overlap slot the second Door, but the source
    cell holds the first Door, restored, and not a fresh Void. *)
Lemma move_from_a_door_leaves_the_door :
  let w := two_doors_world in
  let w' := exec (Board.move 27%nat (Const RIGHT) 1) w in
  is_Movable (cls (heap (store w) 27%nat)) = true
  /\ pos (heap (store w) 27%nat) = Some (2, 2)
  /\ py_get2 (matrix (board w)) 2 3 = Some 26%nat
  /\ is_Immovable (cls (heap (store w) 26%nat)) = true
  /\ overlappable (heap (store w) 26%nat) = true
  /\ restorable (heap (store w) 26%nat) = true
  /\ outcome (Board.move 27%nat (Const RIGHT) 1) w = Ok tt
  /\ py_get2 (matrix (board w')) 2 3 = Some 27%nat
  /\ py_get2 (overlapped_matrix (board w')) 2 3 = Some (Some 26%nat)
  /\ py_get2 (matrix (board w')) 2 2 = Some 25%nat
  /\ cls (heap (store w') 25%nat) = Door
  /\ is_BoardItemVoid (cls (heap (store w') 25%nat)) = false
  /\ live w 25%nat.
Proof. vm_compute. repeat split. apply Nat.leb_le. reflexivity. Qed.

(** C1 (amended).  On a well-formed board, let a Movable that can move stand
    on its cell [(r, c)] and let its destination [(r', c')], another cell of
    the board, hold an overlappable, restorable Immovable [d] placed there.
    Then [Board.move] returns; the destination cell holds the mover; the
    overlap slot of the destination holds [d]; and the source cell holds
    either the restorable Immovable that was parked under the mover, or,
    when nothing was to be restored there, a Void allocated by this move.
    After any later move of the same Movable that returns with the mover
    positioned on another cell [(r2, c2)], the cell [(r', c')] holds [d]
    again, its overlap slot is cleared, and [(r2, c2)] holds the mover. *)
Theorem move_onto_restorable_then_off
  w m d dir stp r c r' c' o :
  board_wf (board w) ->
  in_bounds (board w) r c -> in_bounds (board w) r' c' ->
  ~ (r' = r /\ c' = c) ->
  is_Movable (cls (heap (store w) m)) = true ->
  can_move (heap (store w) m) = true ->
  pos (heap (store w) m) = Some (r, c) ->
  py_get2 (matrix (board w)) r c = Some m ->
  live w m -> live w d ->
  Board.destination m dir stp w = (Ok (Some (r', c')), w) ->
  py_get2 (matrix (board w)) r' c' = Some d ->
  pos (heap (store w) d) = Some (r', c') ->
  is_Immovable (cls (heap (store w) d)) = true ->
  overlappable (heap (store w) d) = true ->
  restorable (heap (store w) d) = true ->
  py_get2 (overlapped_matrix (board w)) r c = Some o ->
  (forall oi, o = Some oi -> pos (heap (store w) oi) = Some (r, c)) ->
  exists w1 left,
    Board.move m dir stp w = (Ok tt, w1)
    /\ py_get2 (matrix (board w1)) r' c' = Some m
    /\ py_get2 (overlapped_matrix (board w1)) r' c' = Some (Some d)
    /\ py_get2 (matrix (board w1)) r c = Some left
    /\ (if restores (heap (store w)) o (r', c')
        then o = Some left
        else left = next_ref (store w)
             /\ cls (heap (store w1) left) = BoardItemVoid)
    /\ forall dir2 stp2 r2 c2 w2,
         Board.destination m dir2 stp2 w1 = (Ok (Some (r2, c2)), w1) ->
         ~ (r2 = r' /\ c2 = c') ->
         Board.move m dir2 stp2 w1 = (Ok tt, w2) ->
         pos (heap (store w2) m) = Some (r2, c2) ->
         py_get2 (matrix (board w2)) r' c' = Some d
         /\ py_get2 (overlapped_matrix (board w2)) r' c' = Some None
         /\ py_get2 (matrix (board w2)) r2 c2 = Some m.
Proof.
  intros Hwf Hsrc Hnew Hne Hmov Hcan Hpos Hat Hlm Hld Hdest Hd Hpd Himm Hov
    Hrest Ho Hsync.
  destruct (move_onto_overlappable w m d dir stp r c r' c' o)
    as (w1 & left & Hrun & Hmoved & Hleft); try done.
  { intros Hres. destruct o as [oi|]; [|done]. exists oi. split; [done|].
    by apply Hsync. }
  set (wa := activated w m d) in *.
  assert (heap (store wa) = heap (store w)) as Hh by apply activated_heap.
  assert (next_ref (store wa) = next_ref (store w)) as Hn
    by exact (proj1 (activated_rest w m d)).
  assert (live wa m) as Hlma by (unfold live; by rewrite Hn).
  assert (live wa d) as Hlda by (unfold live; by rewrite Hn).
  assert (d <> m) as Hdm.
  { intros ->. rewrite (Movable_not_Immovable _ Hmov) in Himm. done. }
  pose proof (moved_stable _ _ _ _ _ _ _ _ _ _ Hmoved m Hlma) as Sm.
  pose proof (moved_stable _ _ _ _ _ _ _ _ _ _ Hmoved d Hlda) as Sd.
  rewrite Hh in Sm, Sd.
  pose proof (moved_parked_new _ _ _ _ _ _ _ _ _ _ Hmoved Hlda) as Hpk.
  rewrite Hh, Himm, Hrest in Hpk. cbn in Hpk.
  pose proof (moved_next _ _ _ _ _ _ _ _ _ _ Hmoved) as Hnext.
  exists w1, left. split; [done|]. split.
  { apply (moved_new _ _ _ _ _ _ _ _ _ _ Hmoved). }
  split; [done|]. split.
  { apply (moved_src _ _ _ _ _ _ _ _ _ _ Hmoved). }
  split.
  { pose proof (moved_left _ _ _ _ _ _ _ _ _ _ Hmoved) as Hl.
    destruct (restores (heap (store w)) o (r', c')).
    - by apply Hleft.
    - destruct Hl as (Hl & Hv & _). by rewrite <- Hn. }
  intros dir2 stp2 r2 c2 w2 Hdest2 Hne2 Hrun2 Hpos2.
  apply (move_off_parked w1 m d dir2 stp2 r' c' r2 c2 w2); try done.
  - apply (moved_wf _ _ _ _ _ _ _ _ _ _ Hmoved).
  - pose proof (board_static_dims _ _
                  (moved_static _ _ _ _ _ _ _ _ _ _ Hmoved)) as [Hh1 Hw1].
    unfold in_bounds in *. rewrite Hh1, Hw1.
    subst wa. by rewrite activated_board.
  - by rewrite <- (stable_cls _ _ Sm).
  - by rewrite <- (stable_can_move _ _ Sm).
  - apply (moved_pos _ _ _ _ _ _ _ _ _ _ Hmoved).
  - apply (moved_new _ _ _ _ _ _ _ _ _ _ Hmoved).
  - unfold live in *. lia.
  - unfold live in *. lia.
  - by rewrite <- (stable_cls _ _ Sd).
  - by rewrite <- (stable_restorable _ _ Sd).
  - rewrite (moved_pos_others _ _ _ _ _ _ _ _ _ _ Hmoved d Hlda Hdm).
    by rewrite Hh.
Qed.

Lemma door_world_wf : board_wf (board door_world).
Proof. vm_compute. split; (split; [reflexivity | repeat constructor]). Qed.

Lemma move_onto_restorable_then_off_witness :
  board_wf (board door_world)
  /\ in_bounds (board door_world) 2 1 /\ in_bounds (board door_world) 2 2
  /\ is_Movable (cls (heap (store door_world) 26%nat)) = true
  /\ can_move (heap (store door_world) 26%nat) = true
  /\ pos (heap (store door_world) 26%nat) = Some (2, 1)
  /\ py_get2 (matrix (board door_world)) 2 1 = Some 26%nat
  /\ Board.destination 26%nat (Const RIGHT) 1 door_world
     = (Ok (Some (2, 2)), door_world)
  /\ py_get2 (matrix (board door_world)) 2 2 = Some 25%nat
  /\ pos (heap (store door_world) 25%nat) = Some (2, 2)
  /\ is_Immovable (cls (heap (store door_world) 25%nat)) = true
  /\ overlappable (heap (store door_world) 25%nat) = true
  /\ restorable (heap (store door_world) 25%nat) = true
  /\ py_get2 (overlapped_matrix (board door_world)) 2 1 = Some None
  /\ exists w1 left,
       Board.move 26%nat (Const RIGHT) 1 door_world = (Ok tt, w1)
       /\ py_get2 (matrix (board w1)) 2 2 = Some 26%nat
       /\ py_get2 (overlapped_matrix (board w1)) 2 2 = Some (Some 25%nat)
       /\ py_get2 (matrix (board w1)) 2 1 = Some left
       /\ (if restores (heap (store door_world)) None (2, 2)
           then None = Some left
           else left = next_ref (store door_world)
                /\ cls (heap (store w1) left) = BoardItemVoid)
       /\ forall dir2 stp2 r2 c2 w2,
            Board.destination 26%nat dir2 stp2 w1 = (Ok (Some (r2, c2)), w1) ->
            ~ (r2 = 2 /\ c2 = 2) ->
            Board.move 26%nat dir2 stp2 w1 = (Ok tt, w2) ->
            pos (heap (store w2) 26%nat) = Some (r2, c2) ->
            py_get2 (matrix (board w2)) 2 2 = Some 25%nat
            /\ py_get2 (overlapped_matrix (board w2)) 2 2 = Some None
            /\ py_get2 (matrix (board w2)) r2 c2 = Some 26%nat.
Proof.
  assert (in_bounds (board door_world) 2 1) as H1
    by (vm_compute; repeat split; discriminate).
  assert (in_bounds (board door_world) 2 2) as H2
    by (vm_compute; repeat split; discriminate).
  assert (~ (2 = 2 /\ 2 = 1)) as H3 by (intros [_ H]; discriminate H).
  assert (is_Movable (cls (heap (store door_world) 26%nat)) = true) as H4
    by (vm_compute; reflexivity).
  assert (can_move (heap (store door_world) 26%nat) = true) as H5
    by (vm_compute; reflexivity).
  assert (pos (heap (store door_world) 26%nat) = Some (2, 1)) as H6
    by (vm_compute; reflexivity).
  assert (py_get2 (matrix (board door_world)) 2 1 = Some 26%nat) as H7
    by (vm_compute; reflexivity).
  assert (live door_world 26%nat) as H8
    by (apply Nat.leb_le; vm_compute; reflexivity).
  assert (live door_world 25%nat) as H9
    by (apply Nat.leb_le; vm_compute; reflexivity).
  assert (Board.destination 26%nat (Const RIGHT) 1 door_world
          = (Ok (Some (2, 2)), door_world)) as H10
    by exact (destination_target door_world 26%nat (Const RIGHT) 1 (2, 1) H6).
  assert (py_get2 (matrix (board door_world)) 2 2 = Some 25%nat) as H11
    by (vm_compute; reflexivity).
  assert (pos (heap (store door_world) 25%nat) = Some (2, 2)) as H12
    by (vm_compute; reflexivity).
  assert (is_Immovable (cls (heap (store door_world) 25%nat)) = true) as H13
    by (vm_compute; reflexivity).
  assert (overlappable (heap (store door_world) 25%nat) = true) as H14
    by (vm_compute; reflexivity).
  assert (restorable (heap (store door_world) 25%nat) = true) as H15
    by (vm_compute; reflexivity).
  assert (py_get2 (overlapped_matrix (board door_world)) 2 1 = Some None)
    as H16 by (vm_compute; reflexivity).
  assert (forall oi : ref, @None ref = Some oi ->
            pos (heap (store door_world) oi) = Some (2, 1)) as H17
    by (intros oi H; discriminate H).
  split; [exact door_world_wf|].
  repeat (split; [assumption|]).
  exact (move_onto_restorable_then_off door_world 26%nat 25%nat (Const RIGHT)
           1 2 1 2 2 None door_world_wf H1 H2 H3 H4 H5 H6 H7 H8 H9 H10 H11
           H12 H13 H14 H15 H16 H17).
Defined.

(** The Door/Player scenario run through: after the first move RIGHT the
    Player is on (2, 2), the Door in the overlap slot of (2, 2) and a Void
    on (2, 1); after the second, the Door is back on (2, 2) and the Player
    on (2, 3). *)
Lemma door_scenario :
  let w1 := exec (Board.move 26%nat (Const RIGHT) 1) door_world in
  let w2 := exec (Board.move 26%nat (Const RIGHT) 1) w1 in
  outcome (Board.move 26%nat (Const RIGHT) 1) door_world = Ok tt
  /\ py_get2 (matrix (board w1)) 2 2 = Some 26%nat
  /\ py_get2 (overlapped_matrix (board w1)) 2 2 = Some (Some 25%nat)
  /\ py_get2 (matrix (board w1)) 2 1 = Some 27%nat
  /\ cls (heap (store w1) 27%nat) = BoardItemVoid
  /\ outcome (Board.move 26%nat (Const RIGHT) 1) w1 = Ok tt
  /\ py_get2 (matrix (board w2)) 2 2 = Some 25%nat
  /\ py_get2 (overlapped_matrix (board w2)) 2 2 = Some None
  /\ py_get2 (matrix (board w2)) 2 3 = Some 26%nat.
Proof. vm_compute. repeat split. Qed.

(** ** C3: pickup *)

Lemma void_of_overlappable b : overlappable (Board.void_of b) = true.
Proof. unfold Board.void_of. destruct (ui_board_void_cell_sprixel b); done. Qed.

Lemma dict_get_dict_set {V} (d : list (string * V)) k v :
  dict_get (dict_set d k v) k = Some v.
Proof.
  induction d as [|[k' v'] d IH]; cbn.
  - by rewrite bool_decide_eq_true_2.
  - case_bool_decide as Ek; cbn.
    + by rewrite bool_decide_eq_true_2.
    + by rewrite bool_decide_eq_false_2.
Qed.

(** The placement half of a move onto an overlappable cell, whatever is
    parked under the mover. *)
Lemma overlap_and_place_moves w m d r c r' c' os :
  board_wf (board w) ->
  in_bounds (board w) r c -> in_bounds (board w) r' c' ->
  ~ (r' = r /\ c' = c) ->
  is_Movable (cls (heap (store w) m)) = true ->
  pos (heap (store w) m) = Some (r, c) ->
  py_get2 (matrix (board w)) r c = Some m ->
  live w m ->
  py_get2 (matrix (board w)) r' c' = Some d ->
  overlappable (heap (store w) d) = true ->
  py_get2 (overlapped_matrix (board w)) r c = Some os ->
  (forall oi, os = Some oi -> pos (heap (store w) oi) = Some (r, c)) ->
  exists w' left,
    Board.overlap_and_place m r' c' w = (Ok tt, w')
    /\ moved w m r c r' c' d left (restores (heap (store w)) os (r', c')) w'
    /\ (restores (heap (store w)) os (r', c') = true -> os = Some left).
Proof.
  intros Hwf Hsrc Hnew Hne Hmov Hpos Hat Hlive Hd Hov Ho Hsync.
  destruct (restores (heap (store w)) os (r', c')) eqn:Hres.
  - destruct os as [oi|]; [|done].
    cbn in Hres. apply andb_prop in Hres as [Hres _].
    apply andb_prop in Hres as [Himm Hrest].
    destruct (overlap_and_place_restore w m d r c r' c' Hwf Hsrc Hnew Hne
                Hpos Hmov Hat Hd Hov oi Ho Himm Hrest (Hsync oi eq_refl))
      as (w' & Hrun & Hmoved).
    exists w', oi. done.
  - destruct (overlap_and_place_void w m d r c r' c' Hwf Hsrc Hnew Hne
                Hpos Hmov Hat Hd Hov Hlive os Ho Hres)
      as (w' & Hrun & Hmoved).
    exists w', (next_ref (store w)). done.
Qed.

Lemma stored_name_activated w m t inv x :
  stored_name (store (activated w m t)) inv x = stored_name (store w) inv x.
Proof.
  unfold stored_name. rewrite activated_heap.
  destruct (activated_rest w m t) as (_ & -> & -> & ->). done.
Qed.

(** A pickup for which the inventory has room: the item is stored, then the
    cell cleared. *)
Lemma pickup_runs w m r' c' t inv o sp :
  py_get2 (matrix (board w)) r' c' = Some t ->
  py_get2 (overlapped_matrix (board w)) r' c' = Some o ->
  picks_up w m t = true ->
  inventory (heap (store w) m) = Some inv ->
  is_BoardItem (cls (heap (store w) t)) = true ->
  _inventory_space (heap (store w) t) = Some sp ->
  inv_size (store w) inv + sp <= inv_max (store w) inv ->
  exists w_a,
    Board.activate_and_pickup m r' c' w = (Ok tt, w_a)
    /\ cleared (picked (activated w m t) inv t) r' c' t o w_a.
Proof.
  intros Ht Ho Hpick Hinv Hit Hsp Hfit.
  rewrite (activate_and_pickup_some w m r' c' t inv) by done.
  assert (pickable (heap (store w) t) = true) as Hpk.
  { unfold picks_up in Hpick.
    destruct (pickable (heap (store w) t)); [done|].
    by rewrite andb_false_r in Hpick. }
  destruct (inv_size_activated w m t inv) as [Hsz Hmx].
  assert (Inventory.add_item inv t (store (activated w m t))
          = (Ok tt, store (picked (activated w m t) inv t))) as Hadd.
  { rewrite (add_item_run _ inv t sp) by (by rewrite activated_heap).
    rewrite bool_decide_eq_true_2 by (rewrite Hsz, Hmx; lia).
    reflexivity. }
  destruct (clear_cell_spec (picked (activated w m t) inv t) r' c' t o)
    as (w_a & Hrun & Hcl).
  { cbn. by rewrite activated_board. }
  { cbn. by rewrite activated_board. }
  exists w_a. split; [|done].
  unfold bind. rewrite (on_store_run _ _ _ _ Hadd).
  rewrite <- Hrun. unfold picked. by rewrite activated_board.
Qed.

(** C3 (amended).  On a well-formed board, let a Movable [m] that can move
    and has the inventory [inv] stand on its cell [(r, c)], and let its
    destination [(r', c')], another cell of the board, hold a pickable,
    non-overlappable item [t] stored nowhere else.  If the inventory has room
    for [t] ([size() + space <= max_size]), the key [t] is stored under is
    not in use, and nothing non-overlappable is parked under [t], then
    [Board.move] returns; the mover is stored, and positioned, on
    [(r', c')]; [t] is in no cell of the matrix; [t] is in the inventory;
    and [size()] and [value()] have grown by the space and the value of
    [t]. *)
Theorem move_picks_up_the_pickable
  w m t inv dir stp r c r' c' o os sp :
  board_wf (board w) ->
  in_bounds (board w) r c -> in_bounds (board w) r' c' ->
  ~ (r' = r /\ c' = c) ->
  is_Movable (cls (heap (store w) m)) = true ->
  can_move (heap (store w) m) = true ->
  pos (heap (store w) m) = Some (r, c) ->
  py_get2 (matrix (board w)) r c = Some m ->
  live w m -> live w t ->
  inventory (heap (store w) m) = Some inv ->
  Board.destination m dir stp w = (Ok (Some (r', c')), w) ->
  py_get2 (matrix (board w)) r' c' = Some t ->
  (forall i j, 0 <= i -> 0 <= j ->
     py_get2 (matrix (board w)) i j = Some t -> i = r' /\ j = c') ->
  is_BoardItem (cls (heap (store w) t)) = true ->
  overlappable (heap (store w) t) = false ->
  pickable (heap (store w) t) = true ->
  _inventory_space (heap (store w) t) = Some sp ->
  inv_size (store w) inv + sp <= inv_max (store w) inv ->
  dict_mem (items (inventories (store w) inv)) (stored_name (store w) inv t)
  = false ->
  (forall kv, kv ∈ items (inventories (store w) inv) -> live w kv.2) ->
  py_get2 (overlapped_matrix (board w)) r' c' = Some o ->
  (forall x, o = Some x ->
     live w x /\ overlappable (heap (store w) x) = true) ->
  py_get2 (overlapped_matrix (board w)) r c = Some os ->
  (forall oi, os = Some oi ->
     oi <> t /\ live w oi /\ pos (heap (store w) oi) = Some (r, c)) ->
  exists w',
    Board.move m dir stp w = (Ok tt, w')
    /\ py_get2 (matrix (board w')) r' c' = Some m
    /\ pos (heap (store w') m) = Some (r', c')
    /\ (forall i j, 0 <= i -> 0 <= j ->
          py_get2 (matrix (board w')) i j <> Some t)
    /\ dict_get (items (inventories (store w') inv))
         (stored_name (store w) inv t) = Some t
    /\ Inventory.size inv (store w')
       = (Ok (inv_size (store w) inv + sp), store w')
    /\ Inventory.value inv (store w')
       = (Ok (inv_value (store w) inv + value_or_0 (heap (store w)) t),
          store w').
Proof.
  intros Hwf Hsrc Hnew Hne Hmov Hcan Hpos Hat Hlm Hlt Hinv Hdest Ht Huniq Hit
    Hovt Hpk Hsp Hfit Hkey Hlinv Ho Hox Hos Hsync.
  assert (picks_up w m t = true) as Hpick.
  { unfold picks_up, Board.has_inventory. by rewrite Hovt, Hpk, Hmov, Hinv. }
  assert (m <> t) as Hmt.
  { intros ->. destruct Hsrc as [? ?].
    destruct (Huniq r c ltac:(lia) ltac:(lia) Hat) as [-> ->]. by apply Hne. }
  rewrite (move_in_bounds w m dir stp r' c') by done.
  destruct (pickup_runs w m r' c' t inv o sp) as (w_a & Hpre & Hcl);
    try done.
  pose proof (activate_and_pickup_kept w m r' c' w_a Hwf Hnew Hpre) as K.
  rewrite (run_bind _ _ _ _ _ Hpre).
  set (wp := picked (activated w m t) inv t) in *.
  assert (next_ref (store wp) = next_ref (store w)) as Hnp.
  { unfold wp. rewrite picked_next. exact (proj1 (activated_rest w m t)). }
  pose proof (board_static_dims _ _ (kept_static _ _ _ _ K)) as [Hha Hwa].
  pose proof (kept_next _ _ _ _ K) as Hnext.
  pose proof Hsrc as [Hr Hc]. pose proof Hnew as [Hr' Hc'].
  set (d' := match o with Some x => x | None => next_ref (store wp) end).
  pose proof (cleared_matrix _ _ _ _ _ _ Hcl) as Hcm. fold d' in Hcm.
  destruct (set2_cells _ _ _ _ _ Hcm ltac:(lia) ltac:(lia)) as [Hd' _].
  pose proof (cleared_store _ _ _ _ _ _ Hcl) as Hcs.
  assert (overlappable (heap (store w_a) d') = true) as Hov'.
  { rewrite Hcs. unfold d'. destruct o as [x|].
    - destruct (Hox x eq_refl) as [Hlx Hovx].
      destruct (picked_heap (activated w m t) inv t x) as (Hst & _).
      fold wp in Hst. rewrite <- (stable_overlappable _ _ Hst).
      by rewrite activated_heap.
    - rewrite with_void_new. apply void_of_overlappable. }
  assert (forall x, live w x -> live w_a x) as Hlive_a.
  { intros x Hx. unfold live in *. lia. }
  destruct (overlap_and_place_moves w_a m d' r c r' c' os)
    as (w' & left & Hrun & Hmoved & Hleft).
  { by apply (kept_wf _ _ _ _ K). }
  { unfold in_bounds. by rewrite Hha, Hwa. }
  { unfold in_bounds. by rewrite Hha, Hwa. }
  { done. }
  { by rewrite <- (stable_cls _ _ (kept_stable _ _ _ _ K m Hlm)). }
  { by rewrite (kept_pos _ _ _ _ K). }
  { rewrite (kept_matrix _ _ _ _ K) by (try lia; intros [-> ->]; by apply Hne).
    done. }
  { by apply Hlive_a. }
  { done. }
  { done. }
  { rewrite (kept_parked _ _ _ _ K) by (try lia; intros [-> ->]; by apply Hne).
    done. }
  { intros oi Hoi. destruct (Hsync oi Hoi) as (_ & Hloi & Hpoi).
    by rewrite (kept_pos _ _ _ _ K). }
  assert (forall x, live w x -> stable (heap (store w) x) (heap (store w') x))
    as Hstable.
  { intros x Hx. etrans; [by apply (kept_stable _ _ _ _ K)|].
    apply (moved_stable _ _ _ _ _ _ _ _ _ _ Hmoved). by apply Hlive_a. }
  assert (items (inventories (store w') inv)
          = items (inventories (store w) inv)
              ++ [(stored_name (store w) inv t, t)]) as Hitems.
  { rewrite (moved_inventories _ _ _ _ _ _ _ _ _ _ Hmoved).
    assert (inventories (store w_a) = inventories (store wp)) as ->
      by (rewrite Hcs; by destruct o).
    unfold wp. cbn. rewrite upd_eq. cbn.
    rewrite stored_name_activated.
    destruct (activated_rest w m t) as (_ & -> & _).
    by apply dict_set_fresh. }
  exists w'. split; [done|]. split.
  { apply (moved_new _ _ _ _ _ _ _ _ _ _ Hmoved). }
  split.
  { apply (moved_pos _ _ _ _ _ _ _ _ _ _ Hmoved). }
  split.
  { intros i j Hi Hj Hcell.
    destruct (decide (i = r' /\ j = c')) as [[-> ->]|Hn1].
    { rewrite (moved_new _ _ _ _ _ _ _ _ _ _ Hmoved) in Hcell.
      by simplify_eq. }
    destruct (decide (i = r /\ j = c)) as [[-> ->]|Hn2].
    { rewrite (moved_src _ _ _ _ _ _ _ _ _ _ Hmoved) in Hcell.
      injection Hcell as ->.
      pose proof (moved_left _ _ _ _ _ _ _ _ _ _ Hmoved) as Hl.
      destruct (restores (heap (store w_a)) os (r', c')).
      - destruct (Hsync t (Hleft eq_refl)) as (Hnt & _). done.
      - destruct Hl as [Hl _]. unfold live in *. lia. }
    rewrite (moved_matrix _ _ _ _ _ _ _ _ _ _ Hmoved) in Hcell by done.
    rewrite (kept_matrix _ _ _ _ K) in Hcell by done.
    by apply Hn1, Huniq. }
  split.
  { rewrite Hitems. rewrite <- dict_set_fresh by done.
    apply dict_get_dict_set. }
  assert (_inventory_space (heap (store w') t) = Some sp) as Hsp'
    by (by rewrite <- (stable_inventory_space _ _ (Hstable t Hlt))).
  split.
  - unfold Inventory.size, gets. f_equal. f_equal.
    rewrite Hitems, size_of_app. unfold inv_size. f_equal.
    + apply size_of_ext. intros kv Hkv. symmetry.
      by apply stable_inventory_space, Hstable, Hlinv.
    + unfold Inventory.size_of. cbn. by rewrite Hsp'.
  - unfold Inventory.value, gets. f_equal. f_equal.
    rewrite Hitems, value_of_app. unfold inv_value. f_equal.
    + apply value_of_ext. intros kv Hkv. symmetry.
      by apply stable_value, Hstable, Hlinv.
    + unfold Inventory.value_of, value_or_0. cbn.
      rewrite <- (stable_value _ _ (Hstable t Hlt)).
      by destruct (value (heap (store w) t)).
Qed.

Lemma only_cell_spec m t r c i j :
  only_cell m t r c = true -> 0 <= i -> 0 <= j ->
  py_get2 m i j = Some t -> i = Z.of_nat r /\ j = Z.of_nat c.
Proof.
  intros Hall Hi Hj. unfold py_get2. rewrite py_get_nonneg by done.
  destruct (m !! Z.to_nat i) as [row|] eqn:Hrow; [|done].
  rewrite py_get_nonneg by done. intros Hx.
  unfold only_cell in Hall. rewrite forallb_forall in Hall.
  assert (In (Z.to_nat i, row) (imap pair m)) as Hin.
  { apply list_elem_of_In, list_elem_of_lookup. exists (Z.to_nat i).
    by rewrite list_lookup_imap, Hrow. }
  specialize (Hall _ Hin). cbn in Hall. rewrite forallb_forall in Hall.
  assert (In (Z.to_nat j, t) (imap pair row)) as Hin'.
  { apply list_elem_of_In, list_elem_of_lookup. exists (Z.to_nat j).
    by rewrite list_lookup_imap, Hx. }
  specialize (Hall _ Hin'). cbn in Hall.
  rewrite bool_decide_eq_true_2 in Hall by done. cbn in Hall.
  apply bool_decide_eq_true_1 in Hall. lia.
Qed.

(** C3, as stated, fails without room in the inventory: the player of
    [full_inventory_world] (inventory of capacity 1) moves onto the
    treasure (space 2), which is pickable and not overlappable; the move
    raises, the treasure is still on its cell and not in the inventory, and
    the player has not moved. *)
Lemma pickup_without_room_raises :
  let w := full_inventory_world in
  let w' := exec (Board.move 26%nat (Const RIGHT) 1) w in
  is_Movable (cls (heap (store w) 26%nat)) = true
  /\ inventory (heap (store w) 26%nat) = Some 0%nat
  /\ py_get2 (matrix (board w)) 0 1 = Some 25%nat
  /\ overlappable (heap (store w) 25%nat) = false
  /\ pickable (heap (store w) 25%nat) = true
  /\ outcome (Board.move 26%nat (Const RIGHT) 1) w
     = Raise (PglInventoryException "not_enough_space")
  /\ py_get2 (matrix (board w')) 0 1 = Some 25%nat
  /\ py_get2 (matrix (board w')) 0 0 = Some 26%nat
  /\ items (inventories (store w') 0%nat) = []
  /\ outcome (Inventory.size 0%nat) (store w') = Ok 0.
Proof. vm_compute. repeat split. Qed.

Lemma treasure_world_wf : board_wf (board treasure_world).
Proof. vm_compute. split; (split; [reflexivity | repeat constructor]). Qed.

(** The Treasure scenario run through. *)
Lemma treasure_scenario :
  let w' := exec (Board.move 26%nat (Const RIGHT) 1) treasure_world in
  outcome (Board.move 26%nat (Const RIGHT) 1) treasure_world = Ok tt
  /\ py_get2 (matrix (board w')) 0 1 = Some 26%nat
  /\ only_cell (matrix (board w')) 25%nat 5 5 = true
  /\ outcome (Inventory.size 0%nat) (store w') = Ok 2
  /\ outcome (Inventory.value 0%nat) (store w') = Ok 50.
Proof. vm_compute. repeat split. Qed.

Lemma move_picks_up_the_pickable_witness :
  board_wf (board treasure_world)
  /\ is_Movable (cls (heap (store treasure_world) 26%nat)) = true
  /\ can_move (heap (store treasure_world) 26%nat) = true
  /\ pos (heap (store treasure_world) 26%nat) = Some (0, 0)
  /\ inventory (heap (store treasure_world) 26%nat) = Some 0%nat
  /\ py_get2 (matrix (board treasure_world)) 0 1 = Some 25%nat
  /\ overlappable (heap (store treasure_world) 25%nat) = false
  /\ pickable (heap (store treasure_world) 25%nat) = true
  /\ _inventory_space (heap (store treasure_world) 25%nat) = Some 2
  /\ inv_size (store treasure_world) 0%nat + 2
     <= inv_max (store treasure_world) 0%nat
  /\ exists w',
       Board.move 26%nat (Const RIGHT) 1 treasure_world = (Ok tt, w')
       /\ py_get2 (matrix (board w')) 0 1 = Some 26%nat
       /\ pos (heap (store w') 26%nat) = Some (0, 1)
       /\ (forall i j, 0 <= i -> 0 <= j ->
             py_get2 (matrix (board w')) i j <> Some 25%nat)
       /\ dict_get (items (inventories (store w') 0%nat))
            (stored_name (store treasure_world) 0%nat 25%nat) = Some 25%nat
       /\ Inventory.size 0%nat (store w')
          = (Ok (inv_size (store treasure_world) 0%nat + 2), store w')
       /\ Inventory.value 0%nat (store w')
          = (Ok (inv_value (store treasure_world) 0%nat
                 + value_or_0 (heap (store treasure_world)) 25%nat),
             store w').
Proof.
  assert (in_bounds (board treasure_world) 0 0) as H1
    by (vm_compute; repeat split; discriminate).
  assert (in_bounds (board treasure_world) 0 1) as H2
    by (vm_compute; repeat split; discriminate).
  assert (~ (0 = 0 /\ 1 = 0)) as H3 by (intros [_ H]; discriminate H).
  assert (is_Movable (cls (heap (store treasure_world) 26%nat)) = true) as H4
    by (vm_compute; reflexivity).
  assert (can_move (heap (store treasure_world) 26%nat) = true) as H5
    by (vm_compute; reflexivity).
  assert (pos (heap (store treasure_world) 26%nat) = Some (0, 0)) as H6
    by (vm_compute; reflexivity).
  assert (py_get2 (matrix (board treasure_world)) 0 0 = Some 26%nat) as H7
    by (vm_compute; reflexivity).
  assert (live treasure_world 26%nat) as H8
    by (apply Nat.leb_le; vm_compute; reflexivity).
  assert (live treasure_world 25%nat) as H9
    by (apply Nat.leb_le; vm_compute; reflexivity).
  assert (inventory (heap (store treasure_world) 26%nat) = Some 0%nat) as H10
    by (vm_compute; reflexivity).
  assert (Board.destination 26%nat (Const RIGHT) 1 treasure_world
          = (Ok (Some (0, 1)), treasure_world)) as H11
    by exact (destination_target treasure_world 26%nat (Const RIGHT) 1 (0, 0)
                H6).
  assert (py_get2 (matrix (board treasure_world)) 0 1 = Some 25%nat) as H12
    by (vm_compute; reflexivity).
  assert (forall i j, 0 <= i -> 0 <= j ->
            py_get2 (matrix (board treasure_world)) i j = Some 25%nat ->
            i = 0 /\ j = 1) as H13.
  { intros i j Hi Hj Hcell.
    apply (only_cell_spec (matrix (board treasure_world)) 25%nat 0 1 i j);
      [vm_compute; reflexivity | exact Hi | exact Hj | exact Hcell]. }
  assert (is_BoardItem (cls (heap (store treasure_world) 25%nat)) = true)
    as H14 by (vm_compute; reflexivity).
  assert (overlappable (heap (store treasure_world) 25%nat) = false) as H15
    by (vm_compute; reflexivity).
  assert (pickable (heap (store treasure_world) 25%nat) = true) as H16
    by (vm_compute; reflexivity).
  assert (_inventory_space (heap (store treasure_world) 25%nat) = Some 2)
    as H17 by (vm_compute; reflexivity).
  assert (inv_size (store treasure_world) 0%nat + 2
          <= inv_max (store treasure_world) 0%nat) as H18
    by (vm_compute; discriminate).
  assert (dict_mem (items (inventories (store treasure_world) 0%nat))
            (stored_name (store treasure_world) 0%nat 25%nat) = false) as H19
    by (vm_compute; reflexivity).
  assert (items (inventories (store treasure_world) 0%nat) = []) as Hnil
    by (vm_compute; reflexivity).
  assert (forall kv : string * ref,
            kv ∈ items (inventories (store treasure_world) 0%nat) ->
            live treasure_world kv.2) as H20.
  { intros kv Hkv. rewrite Hnil in Hkv. destruct (not_elem_of_nil kv Hkv). }
  assert (py_get2 (overlapped_matrix (board treasure_world)) 0 1 = Some None)
    as H21 by (vm_compute; reflexivity).
  assert (forall x : ref, @None ref = Some x ->
            live treasure_world x
            /\ overlappable (heap (store treasure_world) x) = true) as H22
    by (intros x H; discriminate H).
  assert (py_get2 (overlapped_matrix (board treasure_world)) 0 0 = Some None)
    as H23 by (vm_compute; reflexivity).
  assert (forall oi : ref, @None ref = Some oi ->
            oi <> 25%nat /\ live treasure_world oi
            /\ pos (heap (store treasure_world) oi) = Some (0, 0)) as H24
    by (intros x H; discriminate H).
  split; [exact treasure_world_wf|].
  repeat (split; [assumption|]).
  exact (move_picks_up_the_pickable treasure_world 26%nat 25%nat 0%nat
           (Const RIGHT) 1 0 0 0 1 None None 2 treasure_world_wf H1 H2 H3 H4
           H5 H6 H7 H8 H9 H10 H11 H12 H13 H14 H15 H16 H17 H18 H19 H20 H21 H22
           H23 H24).
Defined.

(** ** C4: the movables and immovables sets *)

Lemma placed_ok w it r c e w' :
  board_ok w -> in_bounds (board w) r c -> live w it ->
  py_get2 (matrix (board w)) r c = Some e ->
  placed w it r c e w' -> board_ok w'.
Proof.
  intros OK [Hr Hc] Hlit He P.
  pose proof (placed_matrix _ _ _ _ _ _ P) as Hm.
  destruct (set2_cells _ _ _ _ _ Hm ltac:(lia) ltac:(lia)) as [Hms Hmo].
  pose proof (placed_overlapped _ _ _ _ _ _ P) as Hov.
  pose proof (store_rest_eq _ _ (placed_rest _ _ _ _ _ _ P)) as (Hn & _ & _).
  pose proof (board_static_dims _ _ (placed_static _ _ _ _ _ _ P)) as [Hh Hw].
  pose proof (placed_movables _ _ _ _ _ _ P) as Hmv.
  pose proof (placed_immovables _ _ _ _ _ _ P) as Him.
  destruct (ok_wf _ OK) as [Hrm Hro].
  assert (forall x, cls (heap (store w') x) = cls (heap (store w) x)) as Hcls.
  { intros x. destruct (decide (x = it)) as [->|Hx].
    - symmetry. apply stable_cls, (placed_item_stable _ _ _ _ _ _ P).
    - by rewrite (placed_others _ _ _ _ _ _ P). }
  assert (forall x, live w x -> live w' x) as Hlive.
  { intros x. unfold live. by rewrite Hn. }
  assert (forall x, member_of w x -> member_of w' x) as Hmem.
  { intros x [H1 H2]. unfold member_of. rewrite Hcls, Hmv, Him.
    split; intros Hx.
    - specialize (H1 Hx).
      destruct (is_Movable (cls (heap (store w) it)));
        [by apply elem_of_union_l | done].
    - specialize (H2 Hx).
      destruct (is_Movable (cls (heap (store w) it))); [done|].
      destruct (is_Immovable (cls (heap (store w) it)));
        [by apply elem_of_union_l | done]. }
  assert (member_of w' it) as Hmit.
  { unfold member_of. rewrite Hcls, Hmv, Him. split; intros Hx.
    - rewrite Hx. apply elem_of_union_r. by apply elem_of_singleton.
    - rewrite (Immovable_not_Movable _ Hx), Hx.
      apply elem_of_union_r. by apply elem_of_singleton. }
  assert (forall i j x, 0 <= i -> 0 <= j ->
            py_get2 (overlapped_matrix (board w')) i j = Some (Some x) ->
            (i = r /\ j = c /\ x = e)
            \/ py_get2 (overlapped_matrix (board w)) i j = Some (Some x))
    as Hslots.
  { intros i j x Hi Hj Hx.
    destruct (is_Immovable (cls (heap (store w) e))
              && restorable (heap (store w) e)
              && overlappable (heap (store w) e)).
    - destruct (set2_cells _ _ _ _ _ Hov ltac:(lia) ltac:(lia)) as [Hs Ho].
      destruct (decide (i = r /\ j = c)) as [[-> ->]|Hne].
      + rewrite Hs in Hx. left. by simplify_eq.
      + rewrite Ho in Hx by done. by right.
    - rewrite Hov in Hx. by right. }
  constructor.
  - split; rewrite Hh, Hw.
    + eapply rect_set2; eauto.
    + destruct (is_Immovable (cls (heap (store w) e))
                && restorable (heap (store w) e)
                && overlappable (heap (store w) e)).
      * eapply rect_set2; eauto.
      * by rewrite Hov.
  - intros i j x Hi Hj Hx. apply Hlive.
    destruct (decide (i = r /\ j = c)) as [[-> ->]|Hne].
    + rewrite Hms in Hx. by simplify_eq.
    + rewrite Hmo in Hx by done. by apply (ok_cells_live _ OK i j).
  - intros i j x Hi Hj Hx. apply Hlive.
    destruct (Hslots i j x Hi Hj Hx) as [(-> & -> & ->)|Hold].
    + by apply (ok_cells_live _ OK r c).
    + by apply (ok_parked_live _ OK i j).
  - intros x Hx. rewrite Hcls. rewrite Hmv in Hx.
    destruct (is_Movable (cls (heap (store w) it))) eqn:E.
    + apply elem_of_union in Hx as [Hx|Hx].
      * destruct (ok_movables _ OK x Hx). split; [by apply Hlive | done].
      * apply elem_of_singleton in Hx as ->. split; [by apply Hlive | done].
    + destruct (ok_movables _ OK x Hx). split; [by apply Hlive | done].
  - intros x Hx. rewrite Hcls. rewrite Him in Hx.
    destruct (is_Movable (cls (heap (store w) it))) eqn:E.
    { destruct (ok_immovables _ OK x Hx). split; [by apply Hlive | done]. }
    destruct (is_Immovable (cls (heap (store w) it))) eqn:E'.
    + apply elem_of_union in Hx as [Hx|Hx].
      * destruct (ok_immovables _ OK x Hx). split; [by apply Hlive | done].
      * apply elem_of_singleton in Hx as ->. split; [by apply Hlive | done].
    + destruct (ok_immovables _ OK x Hx). split; [by apply Hlive | done].
  - intros i j x Hi Hj Hx.
    destruct (decide (i = r /\ j = c)) as [[-> ->]|Hne].
    + rewrite Hms in Hx. by simplify_eq.
    + rewrite Hmo in Hx by done. by apply Hmem, (ok_stored _ OK i j).
  - intros i j x Hi Hj Hx. apply Hmem.
    destruct (Hslots i j x Hi Hj Hx) as [(-> & -> & ->)|Hold].
    + by apply (ok_stored _ OK r c).
    + by apply (ok_parked _ OK i j).
Qed.

Lemma board_ok_stable w w' :
  board w' = board w ->
  (forall x, cls (heap (store w') x) = cls (heap (store w) x)) ->
  next_ref (store w') = next_ref (store w) ->
  board_ok w -> board_ok w'.
Proof.
  intros Hb Hcls Hn OK.
  assert (forall x, live w x -> live w' x) as Hlive
    by (intros x; unfold live; by rewrite Hn).
  assert (forall x, member_of w x -> member_of w' x) as Hmem
    by (intros x; unfold member_of; by rewrite Hcls, Hb).
  constructor; rewrite ?Hb.
  - apply (ok_wf _ OK).
  - intros i j x Hi Hj Hx. by apply Hlive, (ok_cells_live _ OK i j).
  - intros i j x Hi Hj Hx. by apply Hlive, (ok_parked_live _ OK i j).
  - intros x Hx. rewrite Hcls. destruct (ok_movables _ OK x Hx).
    split; [by apply Hlive | done].
  - intros x Hx. rewrite Hcls. destruct (ok_immovables _ OK x Hx).
    split; [by apply Hlive | done].
  - intros i j x Hi Hj Hx. by apply Hmem, (ok_stored _ OK i j).
  - intros i j x Hi Hj Hx. by apply Hmem, (ok_parked _ OK i j).
Qed.

Lemma cleared_ok w r c e o w' :
  board_ok w -> in_bounds (board w) r c ->
  py_get2 (matrix (board w)) r c = Some e ->
  py_get2 (overlapped_matrix (board w)) r c = Some o ->
  only_at w e r c ->
  cleared w r c e o w' -> board_ok w'.
Proof.
  intros OK [Hr Hc] He Ho [Hu1 Hu2] Cl.
  pose proof (cleared_matrix _ _ _ _ _ _ Cl) as Hm.
  destruct (set2_cells _ _ _ _ _ Hm ltac:(lia) ltac:(lia)) as [Hms Hmo].
  pose proof (cleared_overlapped _ _ _ _ _ _ Cl) as Hov.
  pose proof (cleared_store _ _ _ _ _ _ Cl) as Hst.
  pose proof (cleared_movables _ _ _ _ _ _ Cl) as Hmv.
  pose proof (cleared_immovables _ _ _ _ _ _ Cl) as Him.
  pose proof (board_static_dims _ _ (cleared_static _ _ _ _ _ _ Cl)) as [Hh Hw].
  assert (board_wf (board w')) as Hwf'.
  { apply (kept_wf w r c w'); [|apply (ok_wf _ OK)].
    apply (cleared_kept w r c e o w'); [lia | lia | done]. }
  assert (forall x, live w x -> heap (store w') x = heap (store w) x) as Hheap.
  { intros x Hx. rewrite Hst. destruct o; [done|]. by apply with_void_heap. }
  assert (forall x, live w x -> live w' x) as Hlive.
  { intros x. unfold live. rewrite Hst. destruct o; cbn; lia. }
  assert (forall x, live w x -> x <> e -> member_of w x -> member_of w' x)
    as Hmem.
  { intros x Hx Hxe [H1 H2]. unfold member_of. rewrite Hheap by done.
    rewrite Hmv, Him. split; intros Hc'.
    - apply elem_of_difference. split; [by apply H1|].
      by rewrite elem_of_singleton.
    - case_bool_decide; [by apply H2|].
      apply elem_of_difference. split; [by apply H2|].
      by rewrite elem_of_singleton. }
  constructor.
  - done.
  - intros i j x Hi Hj Hx.
    destruct (decide (i = r /\ j = c)) as [[-> ->]|Hne].
    + rewrite Hms in Hx. injection Hx as <-. destruct o as [y|].
      * by apply Hlive, (ok_parked_live _ OK r c).
      * unfold live. rewrite Hst. cbn. lia.
    + rewrite Hmo in Hx by done. by apply Hlive, (ok_cells_live _ OK i j).
  - intros i j x Hi Hj Hx. apply Hlive. destruct o as [y|].
    + destruct (set2_cells _ _ _ _ _ Hov ltac:(lia) ltac:(lia)) as [Hs Hoth].
      destruct (decide (i = r /\ j = c)) as [[-> ->]|Hne].
      * rewrite Hs in Hx. done.
      * rewrite Hoth in Hx by done. by apply (ok_parked_live _ OK i j).
    + rewrite Hov in Hx. by apply (ok_parked_live _ OK i j).
  - intros x Hx. rewrite Hmv in Hx. apply elem_of_difference in Hx as [Hx _].
    destruct (ok_movables _ OK x Hx) as [Hl Hc'].
    rewrite Hheap by done. split; [by apply Hlive | done].
  - intros x Hx. rewrite Him in Hx.
    assert (x ∈ immovables (board w)) as Hx'.
    { case_bool_decide; [done|]. by apply elem_of_difference in Hx as [Hx _]. }
    destruct (ok_immovables _ OK x Hx') as [Hl Hc'].
    rewrite Hheap by done. split; [by apply Hlive | done].
  - intros i j x Hi Hj Hx.
    destruct (decide (i = r /\ j = c)) as [[-> ->]|Hne].
    + rewrite Hms in Hx. injection Hx as <-. destruct o as [y|].
      * apply Hmem.
        -- by apply (ok_parked_live _ OK r c).
        -- intros ->. by apply (Hu2 r c).
        -- by apply (ok_parked _ OK r c).
      * unfold member_of. rewrite Hst, with_void_new, void_of_cls. done.
    + rewrite Hmo in Hx by done. apply Hmem.
      * by apply (ok_cells_live _ OK i j).
      * intros ->. by apply Hne, Hu1.
      * by apply (ok_stored _ OK i j).
  - intros i j x Hi Hj Hx.
    assert (py_get2 (overlapped_matrix (board w)) i j = Some (Some x)) as Hx'.
    { destruct o as [y|]; [|by rewrite Hov in Hx].
      destruct (set2_cells _ _ _ _ _ Hov ltac:(lia) ltac:(lia)) as [Hs Hoth].
      destruct (decide (i = r /\ j = c)) as [[-> ->]|Hne].
      - rewrite Hs in Hx. done.
      - by rewrite Hoth in Hx. }
    apply Hmem.
    + by apply (ok_parked_live _ OK i j).
    + intros ->. by apply (Hu2 i j).
    + by apply (ok_parked _ OK i j).
Qed.

Lemma moved_ok w m r c r' c' d left restored w' :
  board_ok w -> live w m ->
  is_Movable (cls (heap (store w) m)) = true ->
  py_get2 (matrix (board w)) r' c' = Some d ->
  0 <= r' -> 0 <= c' ->
  (restored = true ->
   live w left /\ is_Immovable (cls (heap (store w) left)) = true) ->
  moved w m r c r' c' d left restored w' -> board_ok w'.
Proof.
  intros OK Hlm Hmov Hd Hr' Hc' Hrest Mv.
  pose proof (moved_movables _ _ _ _ _ _ _ _ _ _ Mv) as Hmv.
  pose proof (moved_immovables _ _ _ _ _ _ _ _ _ _ Mv) as Him.
  pose proof (moved_next _ _ _ _ _ _ _ _ _ _ Mv) as Hn.
  pose proof (moved_left _ _ _ _ _ _ _ _ _ _ Mv) as Hleft.
  assert (live w d) as Hld by (by apply (ok_cells_live _ OK r' c')).
  pose proof (moved_parked_new _ _ _ _ _ _ _ _ _ _ Mv Hld) as Hpn.
  pose proof (moved_parked_src _ _ _ _ _ _ _ _ _ _ Mv) as Hps.
  assert (forall x, live w x ->
            cls (heap (store w') x) = cls (heap (store w) x)) as Hcls.
  { intros x Hx. symmetry.
    apply stable_cls, (moved_stable _ _ _ _ _ _ _ _ _ _ Mv x Hx). }
  assert (forall x, live w x -> live w' x) as Hlive.
  { intros x. unfold live. lia. }
  assert (movables (board w) ⊆ movables (board w')) as Hsub1.
  { rewrite Hmv. apply union_subseteq_l. }
  assert (immovables (board w) ⊆ immovables (board w')) as Hsub2.
  { rewrite Him. destruct restored; [apply union_subseteq_l | done]. }
  assert (forall x, live w x -> member_of w x -> member_of w' x) as Hmem.
  { intros x Hx [H1 H2]. unfold member_of. rewrite Hcls by done.
    split; intros Hc0; [by apply Hsub1, H1 | by apply Hsub2, H2]. }
  assert (forall i j x, 0 <= i -> 0 <= j ->
            py_get2 (overlapped_matrix (board w')) i j = Some (Some x) ->
            x = d
            \/ py_get2 (overlapped_matrix (board w)) i j = Some (Some x))
    as Hslots.
  { intros i j x Hi Hj Hx.
    destruct (decide (i = r' /\ j = c')) as [[-> ->]|Hne1].
    { rewrite Hpn in Hx.
      destruct (is_Immovable (cls (heap (store w) d))
                && restorable (heap (store w) d)).
      - left. by simplify_eq.
      - by right. }
    destruct (decide (i = r /\ j = c)) as [[-> ->]|Hne2].
    { rewrite Hps in Hx. destruct restored; [done | by right]. }
    rewrite (moved_parked _ _ _ _ _ _ _ _ _ _ Mv) in Hx by done. by right. }
  constructor.
  - apply (moved_wf _ _ _ _ _ _ _ _ _ _ Mv).
  - intros i j x Hi Hj Hx.
    destruct (decide (i = r' /\ j = c')) as [[-> ->]|Hne1].
    { rewrite (moved_new _ _ _ _ _ _ _ _ _ _ Mv) in Hx. injection Hx as <-.
      by apply Hlive. }
    destruct (decide (i = r /\ j = c)) as [[-> ->]|Hne2].
    { rewrite (moved_src _ _ _ _ _ _ _ _ _ _ Mv) in Hx. injection Hx as <-.
      destruct restored.
      - by apply Hlive, Hrest.
      - by destruct Hleft as (_ & _ & ?). }
    rewrite (moved_matrix _ _ _ _ _ _ _ _ _ _ Mv) in Hx by done.
    by apply Hlive, (ok_cells_live _ OK i j).
  - intros i j x Hi Hj Hx. apply Hlive.
    destruct (Hslots i j x Hi Hj Hx) as [->|Hold]; [done|].
    by apply (ok_parked_live _ OK i j).
  - intros x Hx. rewrite Hmv in Hx. apply elem_of_union in Hx as [Hx|Hx].
    + destruct (ok_movables _ OK x Hx) as [Hl Hc0].
      rewrite Hcls by done. split; [by apply Hlive | done].
    + apply elem_of_singleton in Hx as ->.
      rewrite Hcls by done. split; [by apply Hlive | done].
  - intros x Hx. rewrite Him in Hx.
    assert (x ∈ immovables (board w) \/ (restored = true /\ x = left))
      as [Hx'|[Hres ->]].
    { destruct restored; [|by left].
      apply elem_of_union in Hx as [Hx|Hx]; [by left|].
      apply elem_of_singleton in Hx. by right. }
    + destruct (ok_immovables _ OK x Hx') as [Hl Hc0].
      rewrite Hcls by done. split; [by apply Hlive | done].
    + destruct (Hrest Hres) as [Hl Hc0].
      rewrite Hcls by done. split; [by apply Hlive | done].
  - intros i j x Hi Hj Hx.
    destruct (decide (i = r' /\ j = c')) as [[-> ->]|Hne1].
    { rewrite (moved_new _ _ _ _ _ _ _ _ _ _ Mv) in Hx. injection Hx as <-.
      unfold member_of. rewrite Hcls by done. split; intros Hc0.
      - rewrite Hmv. apply elem_of_union_r. by apply elem_of_singleton.
      - by rewrite (Movable_not_Immovable _ Hmov) in Hc0. }
    destruct (decide (i = r /\ j = c)) as [[-> ->]|Hne2].
    { rewrite (moved_src _ _ _ _ _ _ _ _ _ _ Mv) in Hx. injection Hx as <-.
      unfold member_of. destruct restored.
      - destruct (Hrest eq_refl) as [Hl Hc0]. rewrite Hcls by done.
        split; intros Hc1.
        + by rewrite (Immovable_not_Movable _ Hc0) in Hc1.
        + rewrite Him. apply elem_of_union_r. by apply elem_of_singleton.
      - destruct Hleft as (_ & -> & _). done. }
    rewrite (moved_matrix _ _ _ _ _ _ _ _ _ _ Mv) in Hx by done.
    apply Hmem; [by apply (ok_cells_live _ OK i j) |].
    by apply (ok_stored _ OK i j).
  - intros i j x Hi Hj Hx.
    destruct (Hslots i j x Hi Hj Hx) as [->|Hold].
    + apply Hmem; [done|]. by apply (ok_stored _ OK r' c').
    + apply Hmem; [by apply (ok_parked_live _ OK i j)|].
      by apply (ok_parked _ OK i j).
Qed.

Lemma place_item_ok w it r c :
  board_ok w -> in_bounds (board w) r c -> live w it ->
  is_BoardItem (cls (heap (store w) it)) = true ->
  exists w', Board.place_item it r c w = (Ok tt, w')
             /\ board_ok w'
             /\ py_get2 (matrix (board w')) r c = Some it
             /\ member_of w' it.
Proof.
  intros OK Hin Hlit Hit. pose proof Hin as [Hr Hc].
  destruct (ok_wf _ OK) as [Hrm Hro].
  destruct (rect_get _ _ _ _ _ Hrm Hr Hc) as [e He].
  destruct (place_item_spec w it r c e) as (w' & Hrun & P);
    [lia | lia | done | done | by eapply rect_get |].
  assert (board_ok w') as OK' by (by apply (placed_ok w it r c e w')).
  assert (py_get2 (matrix (board w')) r c = Some it) as Hcell
    by apply (py_get2_set2_same _ _ _ _ _ (placed_matrix _ _ _ _ _ _ P)).
  exists w'. split; [done|]. split; [done|]. split; [done|].
  apply (ok_stored _ OK' r c); [lia | lia | done].
Qed.

Lemma clear_cell_ok w r c e :
  board_ok w -> in_bounds (board w) r c ->
  py_get2 (matrix (board w)) r c = Some e ->
  only_at w e r c ->
  exists w', Board.clear_cell r c w = (Ok tt, w')
             /\ board_ok w'
             /\ (e ∉ movables (board w'))
             /\ (e ∉ immovables (board w')).
Proof.
  intros OK Hin He Hu. pose proof Hin as [Hr Hc].
  destruct (ok_wf _ OK) as [Hrm Hro].
  destruct (rect_get _ _ _ _ _ Hro Hr Hc) as [o Ho].
  destruct (clear_cell_spec w r c e o He Ho) as (w' & Hrun & Cl).
  exists w'. split; [done|]. split.
  { by apply (cleared_ok w r c e o w'). }
  rewrite (cleared_movables _ _ _ _ _ _ Cl), (cleared_immovables _ _ _ _ _ _ Cl).
  split.
  - intros [_ Hn]%elem_of_difference. apply Hn. by apply elem_of_singleton.
  - case_bool_decide as Em.
    + intros Hi. destruct (ok_movables _ OK e Em) as [_ Hc1].
      destruct (ok_immovables _ OK e Hi) as [_ Hc2].
      by rewrite (Movable_not_Immovable _ Hc1) in Hc2.
    + intros [_ Hn]%elem_of_difference. apply Hn. by apply elem_of_singleton.
Qed.

Lemma only_at_board w w' e r c :
  board w' = board w -> only_at w e r c -> only_at w' e r c.
Proof. unfold only_at. by intros ->. Qed.

Lemma move_ok w m dir stp r c w' :
  board_ok w ->
  is_Movable (cls (heap (store w) m)) = true ->
  pos (heap (store w) m) = Some (r, c) ->
  in_bounds (board w) r c ->
  py_get2 (matrix (board w)) r c = Some m ->
  (forall oi, py_get2 (overlapped_matrix (board w)) r c = Some (Some oi) ->
     pos (heap (store w) oi) = Some (r, c)) ->
  (forall r' c', target (r, c) dir stp = Some (r', c') ->
     ~ (r' = r /\ c' = c)) ->
  (forall r' c' t, target (r, c) dir stp = Some (r', c') ->
     in_bounds (board w) r' c' ->
     py_get2 (matrix (board w)) r' c' = Some t ->
     picks_up w m t = true -> only_at w t r' c') ->
  Board.move m dir stp w = (Ok tt, w') ->
  board_ok w'.
Proof.
  intros OK Hmov Hpos Hsrc Hat Hsync Hne Huniq Hrun.
  pose proof (ok_wf _ OK) as Hwf.
  pose proof Hsrc as [Hr Hc].
  assert (live w m) as Hlm by (apply (ok_cells_live _ OK r c); [lia|lia|done]).
  destruct (can_move (heap (store w) m)) eqn:Hcan.
  2: { revert Hrun. unfold Board.move, Board._move_simple. run_step.
       rewrite Hmov, Hcan. done. }
  pose proof (destination_target w m dir stp (r, c) Hpos) as Hdest.
  destruct (target (r, c) dir stp) as [[r' c']|] eqn:Et.
  2: { rewrite (move_no_destination w m dir stp None) in Hrun by done.
       by injection Hrun as <-. }
  destruct (decide (in_bounds (board w) r' c')) as [Hnew|Hout].
  2: { rewrite (move_no_destination w m dir stp (Some (r', c'))) in Hrun
         by done.
       by injection Hrun as <-. }
  specialize (Hne r' c' eq_refl). pose proof Hnew as [Hr' Hc'].
  rewrite (move_in_bounds w m dir stp r' c') in Hrun by done.
  unfold bind in Hrun.
  destruct (Board.activate_and_pickup m r' c' w) as [[[]|ex] wa] eqn:Hpre;
    [|done].
  pose proof (activate_and_pickup_kept w m r' c' wa Hwf Hnew Hpre) as K.
  pose proof (board_static_dims _ _ (kept_static _ _ _ _ K)) as [Hha Hwa].
  destruct Hwf as [Hrm Hro].
  destruct (rect_get _ _ _ _ _ Hrm Hr' Hc') as [t Ht].
  destruct (rect_get _ _ _ _ _ Hro Hr' Hc') as [o Ho].
  destruct (rect_get _ _ _ _ _ Hro Hr Hc) as [os Hos].
  assert (board_ok (activated w m t)) as OKact.
  { apply (board_ok_stable w); [apply activated_board | | | done].
    - intros x. by rewrite activated_heap.
    - exact (proj1 (activated_rest w m t)). }
  assert (board_ok wa) as OKa.
  { destruct (picks_up w m t) eqn:Hpick.
    - destruct (picks_up_inventory _ _ _ Hpick) as [inv Hinv].
      destruct (pickup_cleared w m r' c' t inv wa o Ht Ho Hpick Hinv Hpre)
        as (sp & _ & _ & Cl).
      apply (cleared_ok _ r' c' t o wa) in Cl; [done | | | | |].
      + apply (board_ok_stable (activated w m t)); [done | | | done].
        * intros x. symmetry.
          apply stable_cls, (picked_heap (activated w m t) inv t x).
        * apply picked_next.
      + cbn. by rewrite activated_board.
      + cbn. by rewrite activated_board.
      + cbn. by rewrite activated_board.
      + apply (only_at_board w); [cbn; by rewrite activated_board|].
        by apply Huniq.
    - rewrite (activate_and_pickup_none w m r' c' t Ht Hpick) in Hpre.
      by injection Hpre as <-. }
  destruct (ok_wf _ OKa) as [Hrma Hroa].
  assert (is_Some (py_get2 (matrix (board wa)) r' c')) as [d' Hd']
    by (eapply rect_get; [exact Hrma | lia | lia]).
  destruct (overlappable (heap (store wa) d')) eqn:Hov'.
  2: { rewrite (overlap_and_place_refused wa m r' c' d' Hd' Hov') in Hrun.
       by injection Hrun as <-. }
  assert (is_Movable (cls (heap (store wa) m)) = true) as Hmova
    by (by rewrite <- (stable_cls _ _ (kept_stable _ _ _ _ K m Hlm))).
  assert (live wa m) as Hlma.
  { unfold live in *. pose proof (kept_next _ _ _ _ K). lia. }
  assert (py_get2 (overlapped_matrix (board wa)) r c = Some os) as Hosa.
  { rewrite (kept_parked _ _ _ _ K) by (try lia; intros [-> ->]; by apply Hne).
    done. }
  destruct (overlap_and_place_moves wa m d' r c r' c' os)
    as (w'' & left & Hrun' & Mv & Hleft).
  { by apply (ok_wf _ OKa). }
  { unfold in_bounds. by rewrite Hha, Hwa. }
  { unfold in_bounds. by rewrite Hha, Hwa. }
  { done. }
  { done. }
  { by rewrite (kept_pos _ _ _ _ K). }
  { rewrite (kept_matrix _ _ _ _ K) by (try lia; intros [-> ->]; by apply Hne).
    done. }
  { done. }
  { done. }
  { done. }
  { done. }
  { intros oi ->. rewrite (kept_pos _ _ _ _ K).
    - by apply Hsync.
    - apply (ok_parked_live _ OK r c); [lia | lia | done]. }
  rewrite Hrun' in Hrun. injection Hrun as <-.
  apply (moved_ok wa m r c r' c' d' left
           (restores (heap (store wa)) os (r', c')) w''); try done; try lia.
  intros Hres. specialize (Hleft Hres). subst os. split.
  - apply (ok_parked_live _ OKa r c); [lia | lia | done].
  - cbn in Hres. apply andb_prop in Hres as [Hres _].
    by apply andb_prop in Hres as [Himm _].
Qed.

(** The cells of a matrix, as a list. *)
Lemma mjoin_get2 {A} (m : list (list A)) x :
  x ∈ mjoin m <-> exists i j, 0 <= i /\ 0 <= j /\ py_get2 m i j = Some x.
Proof.
  rewrite list_elem_of_join. split.
  - intros (l & Hx & Hl).
    apply list_elem_of_lookup in Hx as [j Hj].
    apply list_elem_of_lookup in Hl as [i Hi].
    exists (Z.of_nat i), (Z.of_nat j). split; [lia|]. split; [lia|].
    unfold py_get2. rewrite py_get_nonneg by lia. rewrite Nat2Z.id, Hi.
    rewrite py_get_nonneg by lia. by rewrite Nat2Z.id.
  - intros (i & j & Hi & Hj & H). unfold py_get2 in H.
    rewrite py_get_nonneg in H by done.
    destruct (m !! Z.to_nat i) as [l|] eqn:E; [|done].
    rewrite py_get_nonneg in H by done.
    exists l. split; eapply list_elem_of_lookup_2; eauto.
Qed.

Lemma stored_spec w x :
  stored w x = true
  <-> exists i j, 0 <= i /\ 0 <= j /\ py_get2 (matrix (board w)) i j = Some x.
Proof. unfold stored. rewrite bool_decide_eq_true. apply mjoin_get2. Qed.

Lemma liveb_live w x : liveb w x = true -> live w x.
Proof. unfold liveb, live. intros H. by apply bool_decide_eq_true in H. Qed.

Lemma member_ofb_member_of w x : member_ofb w x = true -> member_of w x.
Proof.
  unfold member_ofb, member_of. intros [H1 H2]%andb_prop.
  split; intros Hc.
  - rewrite Hc in H1. cbn in H1. by apply bool_decide_eq_true in H1.
  - rewrite Hc in H2. cbn in H2. by apply bool_decide_eq_true in H2.
Qed.

Lemma board_okb_ok w : board_wf (board w) -> board_okb w = true -> board_ok w.
Proof.
  intros Hwf H. unfold board_okb in H.
  apply andb_prop in H as [H H4]. apply andb_prop in H as [H H3].
  apply andb_prop in H as [H1 H2].
  rewrite forallb_forall in H1, H2, H3, H4.
  assert (forall i j x, 0 <= i -> 0 <= j ->
            py_get2 (matrix (board w)) i j = Some x ->
            live w x /\ member_of w x) as Hcells.
  { intros i j x Hi Hj Hx.
    assert (In x (mjoin (matrix (board w)))) as Hin.
    { apply list_elem_of_In, mjoin_get2. eauto. }
    apply H1, andb_prop in Hin as [Ha Hb].
    split; [by apply liveb_live | by apply member_ofb_member_of]. }
  assert (forall i j x, 0 <= i -> 0 <= j ->
            py_get2 (overlapped_matrix (board w)) i j = Some (Some x) ->
            live w x /\ member_of w x) as Hslots.
  { intros i j x Hi Hj Hx.
    assert (In (Some x) (mjoin (overlapped_matrix (board w)))) as Hin.
    { apply list_elem_of_In, mjoin_get2. eauto. }
    apply H2, andb_prop in Hin as [Ha Hb].
    split; [by apply liveb_live | by apply member_ofb_member_of]. }
  constructor.
  - done.
  - intros i j x Hi Hj Hx. by apply (Hcells i j).
  - intros i j x Hi Hj Hx. by apply (Hslots i j).
  - intros x Hx. apply elem_of_elements, list_elem_of_In in Hx.
    apply H3, andb_prop in Hx as [Ha Hb]. split; [by apply liveb_live | done].
  - intros x Hx. apply elem_of_elements, list_elem_of_In in Hx.
    apply H4, andb_prop in Hx as [Ha Hb]. split; [by apply liveb_live | done].
  - intros i j x Hi Hj Hx. by apply (Hcells i j).
  - intros i j x Hi Hj Hx. by apply (Hslots i j).
Qed.

(** C4.  On [one_wall_world], where the first Wall is in the cell (0, 0),
    [place_item] of the second Wall on that cell returns; the first Wall is
    then in no cell of the matrix and in no slot of the overlapped matrix,
    and it is still a member of [immovables], so that [get_immovables()]
    still returns it. *)
Theorem overwritten_item_stays_in_immovables :
  let w := exec (Board.place_item 26%nat 0 0) one_wall_world in
  py_get2 (matrix (board one_wall_world)) 0 0 = Some 25%nat
  /\ outcome (Board.place_item 26%nat 0 0) one_wall_world = Ok tt
  /\ py_get2 (matrix (board w)) 0 0 = Some 26%nat
  /\ stored w 25%nat = false
  /\ bool_decide (Some 25%nat ∈ mjoin (overlapped_matrix (board w))) = false
  /\ is_Immovable (cls (heap (store w) 25%nat)) = true
  /\ bool_decide (25%nat ∈ immovables (board w)) = true
  /\ match outcome (Board.get_immovables []) w with
     | Ok l => bool_decide (25%nat ∈ l)
     | Raise _ => false
     end = true.
Proof. vm_compute. repeat split. Qed.

(** What the three mutators keep of the two sets, for the single-cell items
    of the embedding.  Let a board be well formed, hold allocated items only,
    have Movables only in [movables] and Immovables only in [immovables],
    and have every Movable or Immovable that is stored in the matrix or
    parked in the overlapped matrix in the set of its class ([board_ok]).
    Then [place_item] of an allocated [BoardItem] on a cell of the board
    returns, the board is [board_ok] again, and the item is on its cell and
    in the set of its class; [clear_cell] of a cell whose occupant is stored
    and parked nowhere else returns, the board is [board_ok] again, and the
    occupant is in neither set; and at every return of [move] of a Movable
    standing on its cell (whatever is parked under it being positioned on
    that cell, the destination being another cell, and an item that is
    picked up being stored and parked nowhere else) the board is [board_ok]
    again. *)
Theorem sets_cover_the_matrix :
  (forall w it r c,
      board_ok w -> in_bounds (board w) r c -> live w it ->
      is_BoardItem (cls (heap (store w) it)) = true ->
      exists w', Board.place_item it r c w = (Ok tt, w')
                 /\ board_ok w'
                 /\ py_get2 (matrix (board w')) r c = Some it
                 /\ member_of w' it)
  /\ (forall w r c e,
        board_ok w -> in_bounds (board w) r c ->
        py_get2 (matrix (board w)) r c = Some e ->
        only_at w e r c ->
        exists w', Board.clear_cell r c w = (Ok tt, w')
                   /\ board_ok w'
                   /\ (e ∉ movables (board w'))
                   /\ (e ∉ immovables (board w')))
  /\ (forall w m dir stp r c w',
        board_ok w ->
        is_Movable (cls (heap (store w) m)) = true ->
        pos (heap (store w) m) = Some (r, c) ->
        in_bounds (board w) r c ->
        py_get2 (matrix (board w)) r c = Some m ->
        (forall oi,
           py_get2 (overlapped_matrix (board w)) r c = Some (Some oi) ->
           pos (heap (store w) oi) = Some (r, c)) ->
        (forall r' c', target (r, c) dir stp = Some (r', c') ->
           ~ (r' = r /\ c' = c)) ->
        (forall r' c' t, target (r, c) dir stp = Some (r', c') ->
           in_bounds (board w) r' c' ->
           py_get2 (matrix (board w)) r' c' = Some t ->
           picks_up w m t = true -> only_at w t r' c') ->
        Board.move m dir stp w = (Ok tt, w') ->
        board_ok w').
Proof.
  split; [|split].
  - apply place_item_ok.
  - apply clear_cell_ok.
  - apply move_ok.
Qed.

Lemma one_wall_world_ok : board_ok one_wall_world.
Proof.
  apply board_okb_ok.
  - vm_compute. split; (split; [reflexivity | repeat constructor]).
  - vm_compute. reflexivity.
Qed.

Lemma sets_cover_the_matrix_witness :
  board_ok one_wall_world
  /\ in_bounds (board one_wall_world) 0 1
  /\ live one_wall_world 26%nat
  /\ is_BoardItem (cls (heap (store one_wall_world) 26%nat)) = true
  /\ exists w', Board.place_item 26%nat 0 1 one_wall_world = (Ok tt, w')
                /\ board_ok w'
                /\ py_get2 (matrix (board w')) 0 1 = Some 26%nat
                /\ member_of w' 26%nat.
Proof.
  assert (in_bounds (board one_wall_world) 0 1) as H1
    by (vm_compute; repeat split; discriminate).
  assert (live one_wall_world 26%nat) as H2
    by (apply Nat.leb_le; vm_compute; reflexivity).
  assert (is_BoardItem (cls (heap (store one_wall_world) 26%nat)) = true)
    as H3 by (vm_compute; reflexivity).
  split; [exact one_wall_world_ok|].
  split; [exact H1|]. split; [exact H2|]. split; [exact H3|].
  exact (proj1 sets_cover_the_matrix one_wall_world 26%nat 0 1
           one_wall_world_ok H1 H2 H3).
Defined.

(** The Door/Player scenario meets the conditions on [move]: the board is
    [board_ok] before the Player steps on the Door, and after. *)
Lemma door_world_ok : board_ok door_world.
Proof.
  apply board_okb_ok; [exact door_world_wf | vm_compute; reflexivity].
Qed.

Lemma door_move_ok :
  board_ok (exec (Board.move 26%nat (Const RIGHT) 1) door_world).
Proof.
  assert (pos (heap (store door_world) 26%nat) = Some (2, 1)) as Hpos
    by (vm_compute; reflexivity).
  assert (py_get2 (matrix (board door_world)) 2 2 = Some 25%nat) as Hd
    by (vm_compute; reflexivity).
  assert (picks_up door_world 26%nat 25%nat = false) as Hpick
    by (vm_compute; reflexivity).
  assert (py_get2 (overlapped_matrix (board door_world)) 2 1 = Some None)
    as Hos by (vm_compute; reflexivity).
  apply (move_ok door_world 26%nat (Const RIGHT) 1 2 1).
  - exact door_world_ok.
  - vm_compute; reflexivity.
  - exact Hpos.
  - vm_compute; repeat split; discriminate.
  - vm_compute; reflexivity.
  - intros oi Hoi. rewrite Hos in Hoi. discriminate Hoi.
  - intros r' c' [= <- <-]. intros [_ H]. discriminate H.
  - intros r' c' t [= <- <-] _ Ht Hp.
    change (py_get2 (matrix (board door_world)) 2 2 = Some t) in Ht.
    rewrite Hd in Ht. injection Ht as <-.
    rewrite Hpick in Hp. discriminate Hp.
  - vm_compute. reflexivity.
Qed.

(** ** Games *)

Lemma reads_ret {S A} (a : A) : reads (S := S) (ret a).
Proof. done. Qed.

Lemma reads_raise {S A} e : reads (S := S) (A := A) (raise e).
Proof. done. Qed.

Lemma reads_gets {S A} (f : S -> A) : reads (gets f).
Proof. done. Qed.

Lemma reads_or_raise {S A} e (o : option A) : reads (S := S) (or_raise e o).
Proof. by destruct o. Qed.

Lemma reads_bind {S A B} (m : M S A) (k : A -> M S B) :
  reads m -> (forall a, reads (k a)) -> reads (bind m k).
Proof.
  intros Hm Hk s. unfold bind. specialize (Hm s).
  destruct (m s) as [[a|e] s']; cbn in Hm; subst s'; [apply Hk | done].
Qed.

Lemma reads_fold_each {S A B} (l : list A) (body : B -> A -> M S B) acc :
  (forall acc x, reads (body acc x)) -> reads (fold_each l body acc).
Proof.
  intros Hb. revert acc. induction l as [|x l IH]; intros acc; cbn.
  - apply reads_ret.
  - apply reads_bind; [apply Hb | intros a; apply IH].
Qed.

Lemma reads_run {S A} (m : M S A) s r s' : reads m -> m s = (r, s') -> s' = s.
Proof. intros Hm Hrun. specialize (Hm s). by rewrite Hrun in Hm. Qed.

Lemma reads_item row column : reads (Board.item row column).
Proof.
  unfold Board.item. apply reads_bind; [apply reads_gets|]. intros b.
  destruct (_ && _); [|apply reads_raise].
  unfold matrix_get. apply reads_bind; [apply reads_gets|]. intros m.
  apply reads_or_raise.
Qed.

Lemma set_boards_id g n l :
  boards g !! n = Some l ->
  set_boards
    (<[n := {| lvl_board := lvl_board l; npcs := npcs l;
               projectiles := projectiles l |}]> (boards g))
    (set_game_store (game_store g) g) = g.
Proof.
  intros Hl. destruct g as [s bs cl pl st lib fs pol], l as [b ns ps].
  cbn in *. unfold set_boards, set_game_store. cbn.
  by rewrite insert_id.
Qed.

Lemma reads_on_level_board {A} n (m : M World A) :
  reads m -> reads (on_level_board n m).
Proof.
  intros Hm g. unfold on_level_board.
  destruct (boards g !! n) as [l|] eqn:Hl; [|done].
  specialize (Hm {| store := game_store g; board := lvl_board l |}).
  destruct (m _) as [r w]. cbn in Hm. subst w. cbn.
  by apply set_boards_id.
Qed.

Lemma reads_current_board : reads Game.current_board.
Proof.
  unfold Game.current_board.
  apply reads_bind; [apply reads_gets|]. intros bs.
  apply reads_bind; [apply reads_gets|]. intros [n|]; [|apply reads_raise].
  destruct (bs !! n); [apply reads_ret | apply reads_raise].
Qed.

Lemma reads_on_current_board {A} (m : M World A) :
  reads m -> reads (Game.on_current_board m).
Proof.
  intros Hm. unfold Game.on_current_board.
  apply reads_bind; [apply reads_current_board|]. intros _.
  apply reads_bind; [apply reads_gets|]. intros [n|]; [|apply reads_raise].
  by apply reads_on_level_board.
Qed.

(** [Game.neighbors] changes nothing. *)
Lemma reads_neighbors radius object : reads (Game.neighbors radius object).
Proof.
  unfold Game.neighbors. apply reads_bind; [apply reads_gets|]. intros pl.
  apply reads_fold_each. intros acc x.
  apply reads_fold_each. intros acc' y.
  destruct (_ && _); [apply reads_ret|].
  apply reads_bind; [apply reads_or_raise|]. intros o.
  apply reads_bind; [apply reads_gets|]. intros i.
  apply reads_bind; [apply reads_or_raise|]. intros p.
  apply reads_bind; [apply reads_current_board|]. intros b.
  destruct (_ && _); [|apply reads_ret].
  apply reads_bind; [apply reads_on_current_board, reads_item|]. intros c.
  apply reads_bind; [apply reads_gets|]. intros ci.
  destruct (negb _); [|apply reads_ret].
  apply reads_bind; [apply reads_on_current_board, reads_item|]. intros c'.
  apply reads_ret.
Qed.

(** ** C6: a projectile added on an occupied cell *)

Lemma on_level_board_item g n l row column x :
  boards g !! n = Some l ->
  row < Board.height (lvl_board l) -> column < Board.width (lvl_board l) ->
  py_get2 (matrix (lvl_board l)) row column = Some x ->
  on_level_board n (Board.item row column) g = (Ok x, g).
Proof.
  intros Hl Hr Hc Hx. unfold on_level_board. rewrite Hl.
  rewrite (item_run {| store := game_store g; board := lvl_board l |}
             row column x) by done.
  cbn. f_equal. by apply set_boards_id.
Qed.

Lemma level_run g n l : boards g !! n = Some l -> level n g = (Ok l, g).
Proof. intros Hl. unfold level, bind, gets. by rewrite Hl. Qed.

(** C6.  The three-Wall scenario: on [three_walls_game], whose Walls are
    at (3, 3), (3, 4) and (4, 3), [add_projectile] of the AoE projectile of
    radius 1 on the cell (3, 3) returns, the projectile being neither placed
    nor added to the roster, and the callback has received the two Walls
    around the blocker, in row-major order, and not the blocker itself. *)
Theorem aoe_on_placement_leaves_out_the_blocker :
  let g := three_walls_game in
  let g' := exec (Game.add_projectile 1 103%nat (Some 3) (Some 3)) g in
  py_get2 (matrix (lvl_board (the_level g 1))) 3 3 = Some 100%nat
  /\ py_get2 (matrix (lvl_board (the_level g 1))) 3 4 = Some 101%nat
  /\ py_get2 (matrix (lvl_board (the_level g 1))) 4 3 = Some 102%nat
  /\ is_aoe (heap (game_store g) 103%nat) = true
  /\ aoe_radius (heap (game_store g) 103%nat) = 1
  /\ outcome (Game.add_projectile 1 103%nat (Some 3) (Some 3)) g = Ok tt
  /\ trace (game_store g) = []
  /\ trace (game_store g') = [Hit 103%nat [101%nat; 102%nat]]
  /\ roster g' 1 = []
  /\ boards g' = boards g.
Proof. vm_compute. repeat split. Qed.

(** The same call on any board.  [add_projectile(level, proj, row, column)]
    with coordinates inside the level's board, on a cell that holds a
    non-Void item (the blocker): a projectile that is not AoE fires its callback
    with the one-element list of the blocker; an AoE projectile fires it
    with what [neighbors(aoe_radius, blocker)] returns, and raises what
    that call raises.  Whenever the call returns, one hit has been
    recorded, and the boards, with their rosters, and the items are as
    before: the projectile is neither placed nor added to the roster. *)
Theorem add_projectile_on_occupied_cell
  g level_number proj row column l blocker :
  is_Projectile (cls (heap (game_store g) proj)) = true ->
  boards g !! level_number = Some l ->
  0 <= row < Board.height (lvl_board l) ->
  0 <= column < Board.width (lvl_board l) ->
  py_get2 (matrix (lvl_board l)) row column = Some blocker ->
  is_BoardItemVoid (cls (heap (game_store g) blocker)) = false ->
  Game.add_projectile level_number proj (Some row) (Some column) g
  = (if is_aoe (heap (game_store g) proj) then
       match outcome (Game.neighbors (aoe_radius (heap (game_store g) proj))
                        (Some blocker)) g with
       | Ok around => (Ok tt, fired g proj around)
       | Raise e => (Raise e, g)
       end
     else (Ok tt, fired g proj [blocker]))
  /\ forall g',
       Game.add_projectile level_number proj (Some row) (Some column) g
       = (Ok tt, g') ->
       boards g' = boards g
       /\ heap (game_store g') = heap (game_store g)
       /\ exists objs,
            trace (game_store g') = trace (game_store g) ++ [Hit proj objs].
Proof.
  intros Hproj Hl Hr Hc Hcell Hvoid.
  assert (Game.add_projectile level_number proj (Some row) (Some column) g
          = (if is_aoe (heap (game_store g) proj) then
               match outcome (Game.neighbors
                                (aoe_radius (heap (game_store g) proj))
                                (Some blocker)) g with
               | Ok around => (Ok tt, fired g proj around)
               | Raise e => (Raise e, g)
               end
             else (Ok tt, fired g proj [blocker]))) as Hrun.
  { unfold Game.add_projectile, game_deref. run_step. rewrite Hproj.
    run_with (level_run g level_number l Hl).
    rewrite !bool_decide_eq_false_2 by lia. cbn [orb].
    run_with (on_level_board_item g level_number l row column blocker Hl
                ltac:(lia) ltac:(lia) Hcell).
    run_step. rewrite Hvoid. cbn [negb].
    destruct (is_aoe (heap (game_store g) proj)); [|reflexivity].
    unfold outcome, bind.
    destruct (Game.neighbors (aoe_radius (heap (game_store g) proj))
                (Some blocker) g) as [[around|e] g1] eqn:Hn;
      rewrite (reads_run _ _ _ _ (reads_neighbors _ _) Hn); reflexivity. }
  split; [exact Hrun|].
  intros g' Hok. rewrite Hrun in Hok.
  destruct (is_aoe (heap (game_store g) proj)).
  - destruct (outcome _ g) as [around|e]; [|done].
    injection Hok as <-. split; [done|]. split; [done|]. by exists around.
  - injection Hok as <-. split; [done|]. split; [done|]. by exists [blocker].
Qed.

Lemma add_projectile_on_occupied_cell_witness :
  is_Projectile (cls (heap (game_store three_walls_game) 103%nat)) = true
  /\ boards three_walls_game !! 1 = Some (the_level three_walls_game 1)
  /\ 0 <= 3 < Board.height (lvl_board (the_level three_walls_game 1))
  /\ 0 <= 3 < Board.width (lvl_board (the_level three_walls_game 1))
  /\ py_get2 (matrix (lvl_board (the_level three_walls_game 1))) 3 3
     = Some 100%nat
  /\ is_BoardItemVoid (cls (heap (game_store three_walls_game) 100%nat))
     = false
  /\ forall g',
       Game.add_projectile 1 103%nat (Some 3) (Some 3) three_walls_game
       = (Ok tt, g') ->
       boards g' = boards three_walls_game
       /\ heap (game_store g') = heap (game_store three_walls_game)
       /\ exists objs,
            trace (game_store g')
            = trace (game_store three_walls_game) ++ [Hit 103%nat objs].
Proof.
  assert (is_Projectile (cls (heap (game_store three_walls_game) 103%nat))
          = true) as H1 by (vm_compute; reflexivity).
  assert (boards three_walls_game !! 1
          = Some (the_level three_walls_game 1)) as H2
    by (vm_compute; reflexivity).
  assert (0 <= 3 < Board.height (lvl_board (the_level three_walls_game 1)))
    as H3 by (vm_compute; split; [discriminate | reflexivity]).
  assert (0 <= 3 < Board.width (lvl_board (the_level three_walls_game 1)))
    as H4 by (vm_compute; split; [discriminate | reflexivity]).
  assert (py_get2 (matrix (lvl_board (the_level three_walls_game 1))) 3 3
          = Some 100%nat) as H5 by (vm_compute; reflexivity).
  assert (is_BoardItemVoid
            (cls (heap (game_store three_walls_game) 100%nat)) = false)
    as H6 by (vm_compute; reflexivity).
  split; [exact H1|]. split; [exact H2|]. split; [exact H3|].
  split; [exact H4|]. split; [exact H5|]. split; [exact H6|].
  exact (proj2 (add_projectile_on_occupied_cell three_walls_game 1 103%nat
                  3 3 (the_level three_walls_game 1) 100%nat
                  H1 H2 H3 H4 H5 H6)).
Defined.

(** ** C5: how often a projectile hits *)

(** C5.  One call of [actuate_projectiles] on [arrow_game]: the projectile
    is blocked by the Wall, and its [hit] is called twice, first with a
    Void made for the occasion (reference 27, on no board), then with the
    Wall beyond it; the projectile has not moved and is still in the
    roster. *)
Theorem directional_collision_hits_twice :
  let g := arrow_game in
  let g1 := exec (Game.actuate_projectiles 1) g in
  roster g 1 = [26%nat]
  /\ is_aoe (heap (game_store g) 26%nat) = false
  /\ pos (heap (game_store g) 26%nat) = Some (0, 0)
  /\ py_get2 (matrix (lvl_board (the_level g 1))) 0 1 = Some 25%nat
  /\ trace (game_store g) = []
  /\ outcome (Game.actuate_projectiles 1) g = Ok tt
  /\ trace (game_store g1) = [Hit 26%nat [27%nat]; Hit 26%nat [25%nat]]
  /\ cls (heap (game_store g1) 27%nat) = BoardItemVoid
  /\ pos (heap (game_store g1) 26%nat) = Some (0, 0)
  /\ roster g1 1 = [26%nat].
Proof. vm_compute. repeat split. Qed.

(** A move onto a cell whose item is not overlappable and is not picked up
    is refused. *)
Lemma move_refused w m dir stp r' c' t :
  is_Movable (cls (heap (store w) m)) = true ->
  can_move (heap (store w) m) = true ->
  Board.destination m dir stp w = (Ok (Some (r', c')), w) ->
  in_bounds (board w) r' c' ->
  py_get2 (matrix (board w)) r' c' = Some t ->
  overlappable (heap (store w) t) = false ->
  picks_up w m t = false ->
  Board.move m dir stp w = (Ok tt, activated w m t).
Proof.
  intros Hmov Hcan Hdest Hin Ht Hov Hpick.
  rewrite (move_in_bounds w m dir stp r' c') by done.
  run_by ltac:(apply activate_and_pickup_none; eassumption).
  apply (overlap_and_place_refused _ _ _ _ t).
  - by rewrite activated_board.
  - by rewrite activated_heap.
Qed.

Lemma beyond_target d p stp : Game.beyond d p stp = target p (Const d) stp.
Proof. by destruct d. Qed.

Lemma actuator_state_run g r a :
  actuator (heap (game_store g) r) = Some a ->
  Game.actuator_state r g = (Ok (a_state a), g).
Proof.
  intros Ha. unfold Game.actuator_state, game_deref, bind, gets. by rewrite Ha.
Qed.

Lemma item_next_move_run g r a :
  actuator (heap (game_store g) r) = Some a ->
  Game.item_next_move r g
  = (Ok (next_move a).1,
     set_game_store
       (update_item r (set_actuator (Some (next_move a).2)) (game_store g)) g).
Proof.
  intros Ha. unfold Game.item_next_move, game_deref, bind, gets.
  rewrite Ha. reflexivity.
Qed.

Lemma step_of_run g r stp :
  step (heap (game_store g) r) = Some stp -> Game.step_of r g = (Ok stp, g).
Proof.
  intros Hs. unfold Game.step_of, game_deref, bind, gets. by rewrite Hs.
Qed.

Lemma on_level_board_run {A} g n l (m : M World A) r w :
  boards g !! n = Some l ->
  m {| store := game_store g; board := lvl_board l |} = (r, w) ->
  on_level_board n m g
  = (r, set_boards
          (<[n := {| lvl_board := board w; npcs := npcs l;
                     projectiles := projectiles l |}]> (boards g))
          (set_game_store (store w) g)).
Proof. intros Hl Hm. unfold on_level_board. by rewrite Hl, Hm. Qed.

Lemma not_NO_DIR {A} (d : Direction) (x y : A) :
  d <> NO_DIR ->
  match d with
  | NO_DIR => x
  | _ => y
  end = y.
Proof. by destruct d. Qed.

(** The same holds whatever the board: a projectile that is not AoE, whose
    move is refused by the item [t] of the cell beyond it, hits twice in
    that call, first a new Void, then [t]. *)
Lemma blocked_projectile_hits_twice g n l proj a stp r c r' c' t :
  boards g !! n = Some l ->
  is_Projectile (cls (heap (game_store g) proj)) = true ->
  can_move (heap (game_store g) proj) = true ->
  inventory (heap (game_store g) proj) = None ->
  actuator (heap (game_store g) proj) = Some a ->
  a_state a = RUNNING ->
  step (heap (game_store g) proj) = Some stp ->
  range (heap (game_store g) proj) > 0 ->
  is_aoe (heap (game_store g) proj) = false ->
  pos (heap (game_store g) proj) = Some (r, c) ->
  Game.beyond (next_move a).1 (r, c) stp = Some (r', c') ->
  in_bounds (lvl_board l) r' c' ->
  py_get2 (matrix (lvl_board l)) r' c' = Some t ->
  overlappable (heap (game_store g) t) = false ->
  exists g',
    Game.actuate_projectile n proj g = (Ok tt, g')
    /\ trace (game_store g')
       = trace (game_store g)
         ++ [Hit proj [next_ref (game_store g)]; Hit proj [t]]
    /\ boards g' = boards g.
Proof.
  intros Hl Hproj Hcan Hinv Ha Hrun Hstep Hrange Haoe Hpos Hbey Hin Ht Hov.
  unfold Game.actuate_projectile.
  rewrite (run_bind _ _ _ _ _ (actuator_state_run g proj a Ha)). cbn beta iota.
  rewrite Hrun. rewrite bool_decide_eq_true_2 by done.
  unfold game_deref at 1. rewrite (run_bind _ _ _ _ _ (gets_run _ _)).
  cbn beta iota. rewrite bool_decide_eq_true_2 by done.
  rewrite (run_bind _ _ _ _ _ (item_next_move_run g proj a Ha)). cbn beta iota.
  set (d := (next_move a).1) in *.
  set (i1 := set_actuator (Some (next_move a).2) (heap (game_store g) proj)).
  set (g1 := set_game_store _ g).
  assert (d <> NO_DIR) as Hd by (intros E; by rewrite E in Hbey).
  assert (heap (game_store g1) proj = i1) as Hh1 by apply upd_eq.
  assert (boards g1 !! n = Some l) as Hl1 by done.
  assert (cls (heap (game_store g) proj) = Projectile) as Hcls
    by (by destruct (cls (heap (game_store g) proj))).
  (* the move is refused *)
  set (w1 := {| store := game_store g1; board := lvl_board l |}).
  assert (overlappable (heap (store w1) t) = false) as Hov1.
  { cbn. unfold upd. case_bool_decide as E; [subst t|]; done. }
  assert (Board.move proj (Const d) stp w1 = (Ok tt, w1)) as Hmove.
  { rewrite (move_refused w1 proj (Const d) stp r' c' t).
    - f_equal. unfold activated. cbn [store w1]. rewrite Hh1.
      cbn [cls i1 set_actuator]. rewrite Hcls.
      by rewrite andb_false_r.
    - cbn [store w1]. rewrite Hh1. cbn. by rewrite Hcls.
    - cbn [store w1]. by rewrite Hh1.
    - rewrite (destination_target w1 proj (Const d) stp (r, c))
        by (cbn [store w1]; by rewrite Hh1).
      by rewrite <- beyond_target, Hbey.
    - done.
    - done.
    - done.
    - unfold picks_up, Board.has_inventory. cbn [store w1]. rewrite Hh1.
      cbn [inventory i1 set_actuator]. rewrite Hinv.
      by rewrite andb_false_r. }
  assert (Board.move_own_step proj d w1 = (Ok tt, w1)) as Hmove'.
  { unfold Board.move_own_step. run_step. cbn [store w1]. rewrite Hh1.
    change (step i1) with (step (heap (game_store g) proj)).
    by rewrite Hstep. }
  rewrite (run_bind _ _ _ _ _ (on_level_board_run g1 n l _ _ _ Hl1 Hmove')).
  cbn beta iota. cbn [store board w1].
  rewrite (set_boards_id g1 n l Hl1).
  rewrite (run_bind _ _ _ _ _ (step_of_run g1 proj stp ltac:(by rewrite Hh1))).
  cbn beta iota.
  (* the range goes down, the position is the same *)
  unfold game_assign at 1, on_game_store at 1, modify at 1.
  unfold bind at 1. cbn beta iota.
  set (g2 := set_game_store _ g1).
  set (i2 := set_range (range i1 - stp) i1).
  assert (heap (game_store g2) proj = i2) as Hh2.
  { cbn. rewrite upd_eq. by rewrite upd_eq. }
  unfold game_deref at 1. rewrite (run_bind _ _ _ _ _ (gets_run _ _)).
  cbn beta iota. rewrite Hh2.
  rewrite bool_decide_eq_true_2 by done.
  change (is_aoe i2) with (is_aoe (heap (game_store g) proj)). rewrite Haoe.
  (* the two hits *)
  unfold Game.hit_placeholder at 1, on_game_store at 1, allocate at 1.
  unfold bind at 2. unfold bind at 1. cbn beta iota.
  unfold hit at 1, on_game_store at 1, modify at 1. cbn beta iota.
  set (g3 := set_game_store _ _).
  rewrite not_NO_DIR by done.
  change (pos i2) with (pos (heap (game_store g) proj)). rewrite Hpos.
  unfold or_raise at 1. rewrite (run_bind _ _ _ _ _ (ret_run _ _)).
  cbn beta iota.
  assert (boards g3 !! n = Some l) as Hl3 by done.
  rewrite (run_bind _ _ _ _ _ (level_run g3 n l Hl3)). cbn beta iota.
  rewrite Hbey. rewrite (in_bounds_test _ _ _ Hin).
  destruct Hin as [Hr Hc].
  rewrite (run_bind _ _ _ _ _
             (on_level_board_item g3 n l r' c' t Hl3 ltac:(lia) ltac:(lia) Ht)).
  cbn beta iota.
  eexists. split; [reflexivity|]. split; [|done].
  cbn. by rewrite <- app_assoc.
Qed.

(** ** C8: neighbors *)

(** C8.  [neighbors] tests the cells of the square against the upper bounds
    of the board only, so a negative coordinate reaches Python's indexing
    from the end: around the Player at (0, 0), radius 1 returns the Wall of
    the opposite corner (4, 4), which is outside the square; radius 5
    returns the Player itself and the Wall several times; radius 6 raises
    [IndexError]. *)
Theorem neighbors_wrap_around_the_board :
  let g := corner_game in
  pos (heap (game_store g) 26%nat) = Some (0, 0)
  /\ pos (heap (game_store g) 25%nat) = Some (4, 4)
  /\ py_get2 (matrix (lvl_board (the_level g 1))) 4 4 = Some 25%nat
  /\ Game.neighbors 1 (Some 26%nat) g = (Ok [25%nat], g)
  /\ outcome (Game.neighbors 5 (Some 26%nat)) g
     = Ok [26%nat; 26%nat; 25%nat; 25%nat; 26%nat; 25%nat; 25%nat]
  /\ outcome (Game.neighbors 6 (Some 26%nat)) g = Raise IndexError.
Proof.
  assert (outcome (Game.neighbors 1 (Some 26%nat)) corner_game
          = Ok [25%nat]) as H by (vm_compute; reflexivity).
  cbv zeta. split; [vm_compute; reflexivity|].
  split; [vm_compute; reflexivity|]. split; [vm_compute; reflexivity|].
  split.
  - unfold outcome in H.
    destruct (Game.neighbors 1 (Some 26%nat) corner_game) as [r g'] eqn:Hn.
    rewrite (reads_run _ _ _ _ (reads_neighbors _ _) Hn).
    cbn in H. by rewrite H.
  - split; vm_compute; reflexivity.
Qed.

(** A loop whose every iteration appends to the accumulator. *)
Lemma fold_each_collect {S A B} (l : list A)
  (body : list B -> A -> M S (list B)) (f : A -> list B) s acc :
  (forall acc x, x ∈ l -> body acc x s = (Ok (acc ++ f x), s)) ->
  fold_each l body acc s = (Ok (acc ++ (l ≫= f)), s).
Proof.
  revert acc. induction l as [|a l IH]; intros acc H; cbn.
  - by rewrite app_nil_r.
  - rewrite (run_bind _ _ _ _ _ (H acc a ltac:(left))).
    rewrite IH by (intros; apply H; by right).
    by rewrite app_assoc.
Qed.

Lemma current_board_run g n l :
  current_level g = Some n -> boards g !! n = Some l ->
  Game.current_board g = (Ok (lvl_board l), g).
Proof.
  intros Hc Hl. unfold Game.current_board, bind, gets. by rewrite Hc, Hl.
Qed.

Lemma on_current_board_item g n l row column x :
  current_level g = Some n -> boards g !! n = Some l ->
  row < Board.height (lvl_board l) -> column < Board.width (lvl_board l) ->
  py_get2 (matrix (lvl_board l)) row column = Some x ->
  Game.on_current_board (Board.item row column) g = (Ok x, g).
Proof.
  intros Hc Hl Hr Hcol Hx. unfold Game.on_current_board.
  rewrite (run_bind _ _ _ _ _ (current_board_run g n l Hc Hl)).
  unfold bind, gets. rewrite Hc. by apply (on_level_board_item g n l).
Qed.

(** Away from the top and left edges no coordinate of the square is
    negative, and [neighbors] returns what it is to return. *)
Lemma neighbors_away_from_the_edges g n l o p radius :
  current_level g = Some n -> boards g !! n = Some l ->
  board_wf (lvl_board l) ->
  pos (heap (game_store g) o) = Some p ->
  radius <= p.1 -> radius <= p.2 ->
  Game.neighbors radius (Some o) g
  = (Ok (neighbors_spec (heap (game_store g)) (lvl_board l) p radius), g).
Proof.
  intros Hc Hl [Hrm _] Hp Hr1 Hr2. unfold Game.neighbors, neighbors_spec.
  rewrite (run_bind _ _ _ _ _ (gets_run _ _)). cbn beta iota.
  apply (fold_each_collect _ _ _ g []). intros acc x Hx.
  apply fold_each_collect. intros acc' y Hy.
  apply elem_of_seqZ in Hx, Hy.
  destruct (decide (x = 0 /\ y = 0)) as [[-> ->]|Hxy].
  { rewrite !bool_decide_eq_true_2 by done. cbn [andb].
    rewrite bool_decide_eq_false_2 by (intros [Hne _]; by apply Hne).
    by rewrite app_nil_r. }
  assert (bool_decide (x = 0) && bool_decide (y = 0) = false) as ->.
  { destruct (decide (x = 0)) as [->|Hx0].
    - rewrite bool_decide_eq_true_2 by done.
      rewrite bool_decide_eq_false_2; [done|]. intros ->. by apply Hxy.
    - by rewrite bool_decide_eq_false_2. }
  unfold or_raise at 1. rewrite (run_bind _ _ _ _ _ (ret_run _ _)).
  cbn beta iota. unfold game_deref at 1.
  rewrite (run_bind _ _ _ _ _ (gets_run _ _)). cbn beta iota.
  rewrite Hp. unfold or_raise at 1. rewrite (run_bind _ _ _ _ _ (ret_run _ _)).
  cbn beta iota.
  rewrite (run_bind _ _ _ _ _ (current_board_run g n l Hc Hl)). cbn beta iota.
  destruct (decide (p.1 + x < Board.height (lvl_board l)
                    /\ p.2 + y < Board.width (lvl_board l))) as [[Hh Hw]|Hout].
  2: { assert (bool_decide (p.1 + x < Board.height (lvl_board l))
               && bool_decide (p.2 + y < Board.width (lvl_board l)) = false)
         as ->.
       { destruct (decide (p.1 + x < Board.height (lvl_board l))).
         - rewrite bool_decide_eq_true_2 by done.
           rewrite bool_decide_eq_false_2; [done|]. intros ?. by apply Hout.
         - by rewrite bool_decide_eq_false_2. }
       rewrite bool_decide_eq_false_2 by lia. by rewrite app_nil_r. }
  rewrite !bool_decide_eq_true_2 by done. cbn [andb].
  assert (is_Some (py_get2 (matrix (lvl_board l)) (p.1 + x) (p.2 + y)))
    as [c Hcell] by (eapply rect_get; [exact Hrm | lia | lia]).
  rewrite (run_bind _ _ _ _ _
             (on_current_board_item g n l _ _ c Hc Hl Hh Hw Hcell)).
  cbn beta iota. unfold game_deref at 1.
  rewrite (run_bind _ _ _ _ _ (gets_run _ _)). cbn beta iota.
  rewrite bool_decide_eq_true_2.
  2: { split; [|lia]. intros [= -> ->]. by apply Hxy. }
  rewrite Hcell.
  destruct (is_BoardItemVoid (cls (heap (game_store g) c))); cbn [negb].
  - by rewrite app_nil_r.
  - by rewrite (run_bind _ _ _ _ _
                  (on_current_board_item g n l _ _ c Hc Hl Hh Hw Hcell)).
Qed.

(** ** C9: saving and loading a board *)

(** C9.  [save_board(2, f)] takes the name and the size from the board of
    level 2 and the cells from the current board: with level 1 current,
    the document has the name "B" and an empty [map_data], and
    [load_board(f, 2)] yields a board "B" whose cell (1, 1) holds a Void
    instead of the Wall.  With level 2 current the same calls write the
    Wall and bring it back. *)
Theorem save_board_saves_the_current_cells :
  let g := two_boards_game in
  let saved := exec (Game.save_board 2 "f") g in
  let g2 := exec (modify (set_current_level (Some 2))) g in
  let saved2 := exec (Game.save_board 2 "f") g2 in
  current_level g = Some 1
  /\ class_at (game_store g) (lvl_board (the_level g 2)) 1 1 = Some Wall
  /\ outcome (Game.save_board 2 "f") g = Ok tt
  /\ (bd_name <$> files saved !! "f") = Some (Some "B")
  /\ (bd_map_data <$> files saved !! "f") = Some (Some [])
  /\ loaded_name (Game.load_board "f" 2 saved) = Some "B"
  /\ loaded_class (Game.load_board "f" 2 saved) 1 1 = Some BoardItemVoid
  /\ outcome (Game.save_board 2 "f") g2 = Ok tt
  /\ loaded_class (Game.load_board "f" 2 saved2) 1 1 = Some Wall.
Proof. vm_compute. repeat split. Qed.

(** ** [Math.intersect] *)

Lemma intersect_true r1 c1 w1 h1 r2 c2 w2 h2 :
  Math.intersect r1 c1 w1 h1 r2 c2 w2 h2 = true
  <-> (r1 = r2 /\ c1 = c2)
      \/ (Z.max r1 (r1 + h1 - 1) >= Z.min r2 (r2 + h2 - 1)
          /\ Z.min r1 (r1 + h1 - 1) <= Z.max r2 (r2 + h2 - 1)
          /\ Z.max c1 (c1 + w1 - 1) >= Z.min c2 (c2 + w2 - 1)
          /\ Z.min c1 (c1 + w1 - 1) <= Z.max c2 (c2 + w2 - 1)).
Proof.
  unfold Math.intersect.
  destruct (bool_decide (r1 = r2) && bool_decide (c1 = c2)) eqn:E.
  - apply andb_true_iff in E. rewrite !bool_decide_eq_true in E. tauto.
  - apply andb_false_iff in E. rewrite !bool_decide_eq_false in E.
    rewrite !andb_true_iff, !bool_decide_eq_true. tauto.
Qed.

(** X1.  [Math.intersect] does not depend on which of the two rectangles
    is given first. *)
Theorem intersect_is_symmetric r1 c1 w1 h1 r2 c2 w2 h2 :
  Math.intersect r1 c1 w1 h1 r2 c2 w2 h2
  = Math.intersect r2 c2 w2 h2 r1 c1 w1 h1.
Proof.
  apply eq_true_iff_eq. rewrite !intersect_true. lia.
Qed.

(** X2.  For two rectangles that have at least one row and one column
    each, [Math.intersect] answers [True] exactly when some cell belongs to
    both. *)
Theorem intersect_iff_a_common_cell r1 c1 w1 h1 r2 c2 w2 h2 :
  1 <= w1 -> 1 <= h1 -> 1 <= w2 -> 1 <= h2 ->
  Math.intersect r1 c1 w1 h1 r2 c2 w2 h2 = true
  <-> exists r c, covers r1 c1 w1 h1 r c /\ covers r2 c2 w2 h2 r c.
Proof.
  intros Hw1 Hh1 Hw2 Hh2. rewrite intersect_true. unfold covers. split.
  - intros H. exists (Z.max r1 r2), (Z.max c1 c2). lia.
  - intros (r & c & Hr & Hc). lia.
Qed.

Lemma intersect_iff_a_common_cell_witness :
  1 <= 3 /\ 1 <= 2
  /\ (Math.intersect 0 0 3 2 1 2 3 2 = true
      <-> exists r c, covers 0 0 3 2 r c /\ covers 1 2 3 2 r c).
Proof.
  split; [lia|]. split; [lia|].
  apply (intersect_iff_a_common_cell 0 0 3 2 1 2 3 2); lia.
Defined.

(** ** A move by a vector *)

(** X3.  [Board.move] with the vector [Vector2D.from_direction(d, step)]
    does what it does with the direction [d] and that step, for every
    direction but [NO_DIR]; the step given beside a vector is not used. *)
Theorem move_by_the_vector_of_a_direction w it d stp stp' :
  d <> NO_DIR ->
  Board.move it (Vector (from_direction d stp)) stp' w
  = Board.move it (Const d) stp w.
Proof.
  intros Hd. unfold Board.move, Board._move_simple.
  rewrite !(run_bind _ _ _ _ _ (deref_run _ _)).
  destruct (is_Movable (cls (heap (store w) it)) && can_move (heap (store w) it));
    [|done].
  assert (Board.destination it (Vector (from_direction d stp)) stp' w
          = Board.destination it (Const d) stp w) as Hdest.
  { destruct d; try done;
      unfold Board.destination, bind, from_direction;
      cbn [v_row v_column];
      (destruct (Board.pos_of it w) as [[p|e] w1]; [|done]);
      rewrite ?Z.add_0_r, ?Z.add_opp_r; reflexivity. }
  unfold bind at 1 3. by rewrite Hdest.
Qed.

Lemma move_by_the_vector_of_a_direction_witness :
  RIGHT <> NO_DIR
  /\ Board.move 26%nat (Vector (from_direction RIGHT 1)) 7 door_world
     = Board.move 26%nat (Const RIGHT) 1 door_world.
Proof.
  assert (RIGHT <> NO_DIR) as H by discriminate.
  split; [exact H|].
  exact (move_by_the_vector_of_a_direction door_world 26%nat RIGHT 1 7 H).
Defined.


(** ** Inventory: lookup, deletion and search *)

Lemma prefix_refl s : String.prefix s s = true.
Proof.
  induction s as [|a s IH]; cbn; [done|].
  destruct (Ascii.ascii_dec a a); done.
Qed.

Lemma contains_refl s : contains s s = true.
Proof.
  unfold contains. destruct s as [|a s]; cbn; [done|].
  destruct (Ascii.ascii_dec a a); [|done]. by rewrite prefix_refl.
Qed.

Lemma contains_empty s : contains "" s = true.
Proof. unfold contains. destruct s; done. Qed.

Lemma dict_get_elem_of {V} (d : list (string * V)) k v :
  dict_get d k = Some v -> (k, v) ∈ d.
Proof.
  induction d as [|[k' v'] d IH]; cbn; [done|].
  case_bool_decide as E.
  - intros [= ->]. subst. apply list_elem_of_here.
  - intros H. apply list_elem_of_further. by apply IH.
Qed.

Lemma dict_get_dict_set_ne {V} (d : list (string * V)) k k' v :
  k' <> k -> dict_get (dict_set d k v) k' = dict_get d k'.
Proof.
  intros Hne. induction d as [|[k0 v0] d IH]; cbn.
  - by rewrite bool_decide_eq_false_2.
  - case_bool_decide as E; cbn.
    + subst. by rewrite !bool_decide_eq_false_2.
    + case_bool_decide; [done|]. apply IH.
Qed.

Lemma dict_get_dict_del_ne {V} (d : list (string * V)) k k' :
  k' <> k -> dict_get (dict_del d k) k' = dict_get d k'.
Proof.
  intros Hne. induction d as [|[k0 v0] d IH]; cbn; [done|].
  case_bool_decide as E; cbn.
  - subst. by rewrite bool_decide_eq_false_2.
  - case_bool_decide; [done|]. apply IH.
Qed.

Lemma dict_get_None {V} (d : list (string * V)) k :
  k ∉ d.*1 -> dict_get d k = None.
Proof.
  induction d as [|[k0 v0] d IH]; cbn; [done|].
  intros Hn. case_bool_decide as E.
  - subst. exfalso. apply Hn. apply list_elem_of_here.
  - apply IH. intros Hin. apply Hn. by apply list_elem_of_further.
Qed.

(** A dictionary holds a key once: deleting it leaves no entry of it. *)
Lemma dict_get_dict_del {V} (d : list (string * V)) k :
  NoDup d.*1 -> dict_get (dict_del d k) k = None.
Proof.
  induction d as [|[k0 v0] d IH]; cbn; [done|].
  intros [Hn Hd]%NoDup_cons. case_bool_decide as E; cbn.
  - subst. by apply dict_get_None.
  - rewrite bool_decide_eq_false_2 by done. by apply IH.
Qed.

Lemma get_item_run s self nm :
  Inventory.get_item self nm s
  = (match dict_get (items (inventories s self)) nm with
     | Some r => Ok r
     | None => Raise (PglInventoryException "no_item_by_that_name")
     end, s).
Proof.
  unfold Inventory.get_item, bind, gets. cbn.
  destruct (dict_get (items (inventories s self)) nm); reflexivity.
Qed.

Lemma delete_item_run s self nm :
  Inventory.delete_item self nm s
  = if dict_mem (items (inventories s self)) nm then
      (Ok tt,
       set_inventories
         (upd self {| max_size := inv_max s self;
                      items := dict_del (items (inventories s self)) nm |}
            (inventories s)) s)
    else (Raise (PglInventoryException "no_item_by_that_name"), s).
Proof.
  unfold Inventory.delete_item. run_refl.
  destruct (dict_mem (items (inventories s self)) nm); reflexivity.
Qed.

(** [add_item] on a pickable item that has no inventory space: the call of
    [inventory_space()] fails, after the renaming. *)
Lemma add_item_without_space s self item :
  is_BoardItem (cls (heap s item)) = true ->
  pickable (heap s item) = true ->
  _inventory_space (heap s item) = None ->
  Inventory.add_item self item s = (Raise AttributeError, renamed s self item).
Proof.
  intros Hit Hpick Hsp. unfold Inventory.add_item.
  run_refl. rewrite Hit, Hpick. run_refl.
  destruct (renamed_heap s self item item) as (Hst & _).
  assert (forall k : unit -> M Store unit,
    bind (when (bool_decide (name (heap s item) = "")
                || dict_mem (items (inventories s self)) (name (heap s item)))
          then do u <- uuid4_hex;
               modify (update_item item
                         (set_name (name (heap s item) +:+ "_" +:+ u)))) k s
    = k tt (renamed s self item)) as Hren.
  { intros k. unfold renamed, stored_name.
    destruct (bool_decide (name (heap s item) = "")
              || dict_mem (items (inventories s self)) (name (heap s item)));
      [|reflexivity].
    rewrite bind_assoc. reflexivity. }
  rewrite Hren. run_refl. run_refl. run_refl.
  rewrite <- (stable_inventory_space _ _ Hst), Hsp.
  unfold Inventory.inventory_space.
  rewrite <- (stable_inventory_space _ _ Hst), Hsp. reflexivity.
Qed.

(** X4.  After [add_item(item)] has returned, [get_item] with the name the
    item now has returns that item, the inventory unchanged; the name is
    the item's own, or its own with a UUID suffix when it was empty or
    already in use; and [get_item] with any other name answers as it did
    before the call. *)
Theorem get_item_returns_the_added_item s self item s' :
  Inventory.add_item self item s = (Ok tt, s') ->
  Inventory.get_item self (name (heap s' item)) s' = (Ok item, s')
  /\ name (heap s' item) = stored_name s self item
  /\ forall nm, nm <> name (heap s' item) ->
       outcome (Inventory.get_item self nm) s'
       = outcome (Inventory.get_item self nm) s.
Proof.
  intros Hrun.
  destruct (add_item_returns _ _ _ _ Hrun) as (sp & Hsp & Hfit & ->).
  assert (name (heap (renamed s self item) item) = stored_name s self item)
    as Hname by apply renamed_name.
  destruct (renamed_rest s self item) as (Hinv & _).
  split; [|split; [done|]].
  - rewrite get_item_run. cbn. rewrite upd_eq. cbn.
    by rewrite Hname, dict_get_dict_set.
  - intros nm Hnm. unfold outcome. rewrite !get_item_run. cbn.
    rewrite upd_eq. cbn. cbn in Hnm. rewrite Hname in Hnm.
    by rewrite dict_get_dict_set_ne.
Qed.

Lemma get_item_returns_the_added_item_witness :
  Inventory.add_item 0%nat 0%nat two_treasures = (Ok tt, inventory3)
  /\ Inventory.get_item 0%nat (name (heap inventory3 0%nat)) inventory3
     = (Ok 0%nat, inventory3)
  /\ name (heap inventory3 0%nat) = stored_name two_treasures 0%nat 0%nat
  /\ forall nm, nm <> name (heap inventory3 0%nat) ->
       outcome (Inventory.get_item 0%nat nm) inventory3
       = outcome (Inventory.get_item 0%nat nm) two_treasures.
Proof.
  assert (Inventory.add_item 0%nat 0%nat two_treasures = (Ok tt, inventory3))
    as H by (vm_compute; reflexivity).
  split; [exact H|].
  exact (get_item_returns_the_added_item two_treasures 0%nat 0%nat inventory3 H).
Defined.

(** X5.  In an inventory, whose names are distinct, [delete_item(name)]
    returns exactly when [get_item(name)] does and raises what it raises
    otherwise; afterwards [get_item(name)] raises "no_item_by_that_name",
    [get_item] with any other name answers as before, and no item has
    changed. *)
Theorem delete_item_forgets_the_name s self nm :
  NoDup (names s self) ->
  let s' := exec (Inventory.delete_item self nm) s in
  (outcome (Inventory.delete_item self nm) s
   = match outcome (Inventory.get_item self nm) s with
     | Ok _ => Ok tt
     | Raise e => Raise e
     end)
  /\ outcome (Inventory.get_item self nm) s'
     = Raise (PglInventoryException "no_item_by_that_name")
  /\ (forall nm', nm' <> nm ->
        outcome (Inventory.get_item self nm') s'
        = outcome (Inventory.get_item self nm') s)
  /\ heap s' = heap s.
Proof.
  intros Hnd. cbn zeta. unfold outcome, exec.
  rewrite delete_item_run, !get_item_run. unfold dict_mem.
  destruct (dict_get (items (inventories s self)) nm) as [r|] eqn:Eg.
  - split; [done|]. split; [|split; [|done]].
    + cbn. rewrite upd_eq. cbn. by rewrite dict_get_dict_del.
    + intros nm' Hne. rewrite !get_item_run. cbn. rewrite upd_eq. cbn.
      by rewrite dict_get_dict_del_ne.
  - split; [done|]. split; [|done].
    cbn. by rewrite Eg.
Qed.

Lemma delete_item_forgets_the_name_witness :
  NoDup (names inventory3 0%nat)
  /\ outcome (Inventory.get_item 0%nat "A")
       (exec (Inventory.delete_item 0%nat "A") inventory3)
     = Raise (PglInventoryException "no_item_by_that_name").
Proof.
  assert (NoDup (names inventory3 0%nat)) as H
    by (vm_compute; apply NoDup_singleton).
  split; [exact H|].
  exact (proj1 (proj2 (delete_item_forgets_the_name inventory3 0%nat "A" H))).
Defined.

(** X6.  When [add_item(item)] raises "not_enough_space", the inventories
    are as they were, but the item has been renamed all the same: it is the
    item it was but for its name, which is the one it would have been
    stored under, with the UUID suffix if its own was empty or in use.  No
    other object has changed. *)
Theorem refused_add_item_has_renamed_the_item s self item s' :
  Inventory.add_item self item s
  = (Raise (PglInventoryException "not_enough_space"), s') ->
  inventories s' = inventories s
  /\ heap s' item = set_name (stored_name s self item) (heap s item)
  /\ (forall x, x <> item -> heap s' x = heap s x).
Proof.
  intros Hrun.
  assert (s' = renamed s self item) as ->.
  { destruct (is_BoardItem (cls (heap s item))) eqn:Hit.
    2: { revert Hrun. unfold Inventory.add_item. run_refl. by rewrite Hit. }
    destruct (pickable (heap s item)) eqn:Hpick.
    2: { revert Hrun. unfold Inventory.add_item. run_refl.
         by rewrite Hit, Hpick. }
    destruct (_inventory_space (heap s item)) as [sp|] eqn:Hsp.
    - rewrite (add_item_run s self item sp) in Hrun by done.
      case_bool_decide; by simplify_eq.
    - rewrite add_item_without_space in Hrun by done. done. }
  destruct (renamed_rest s self item) as (Hinv & _).
  split; [done|]. split.
  - unfold renamed, stored_name.
    destruct (bool_decide (name (heap s item) = "")
              || dict_mem (items (inventories s self)) (name (heap s item))).
    + cbn. by rewrite upd_eq.
    + by destruct (heap s item).
  - intros x. by destruct (renamed_heap s self item x) as (_ & _ & _ & _ & Hne).
Qed.

Lemma refused_add_item_has_renamed_the_item_witness :
  Inventory.add_item 0%nat 1%nat namesake_inventory
  = (Raise (PglInventoryException "not_enough_space"),
     exec (Inventory.add_item 0%nat 1%nat) namesake_inventory)
  /\ name (heap namesake_inventory 1%nat) = "A"
  /\ heap (exec (Inventory.add_item 0%nat 1%nat) namesake_inventory) 1%nat
     = set_name (stored_name namesake_inventory 0%nat 1%nat)
         (heap namesake_inventory 1%nat)
  /\ stored_name namesake_inventory 0%nat 1%nat = "A_0".
Proof.
  assert (Inventory.add_item 0%nat 1%nat namesake_inventory
          = (Raise (PglInventoryException "not_enough_space"),
             exec (Inventory.add_item 0%nat 1%nat) namesake_inventory)) as H
    by (vm_compute; reflexivity).
  assert (name (heap namesake_inventory 1%nat) = "A") as H1
    by (vm_compute; reflexivity).
  assert (stored_name namesake_inventory 0%nat 1%nat = "A_0") as H2
    by (vm_compute; reflexivity).
  split; [exact H|]. split; [exact H1|]. split; [|exact H2].
  exact (proj1 (proj2 (refused_add_item_has_renamed_the_item
                         namesake_inventory 0%nat 1%nat _ H))).
Defined.

Lemma search_run s self q :
  Inventory.search self q s
  = (Ok (omap (fun kv : string * ref =>
                 if contains q kv.1 then Some kv.2 else None)
           (items (inventories s self))), s).
Proof. reflexivity. Qed.

(** X7.  [search("")] returns every item of the inventory, in insertion
    order; [search(query)] returns the item [get_item(name)] returns
    whenever the name contains the query, so [search(name)] finds it; and
    whatever [search(query)] returns is stored under a name that contains
    the query. *)
Theorem search_finds_what_get_item_returns s self :
  outcome (Inventory.search self "") s = Ok (items (inventories s self)).*2
  /\ (forall nm r q l,
        outcome (Inventory.get_item self nm) s = Ok r ->
        contains q nm = true ->
        outcome (Inventory.search self q) s = Ok l ->
        r ∈ l)
  /\ (forall nm r, outcome (Inventory.get_item self nm) s = Ok r ->
        exists l, outcome (Inventory.search self nm) s = Ok l /\ r ∈ l)
  /\ (forall q l r,
        outcome (Inventory.search self q) s = Ok l -> r ∈ l ->
        exists nm, contains q nm = true /\ (nm, r) ∈ items (inventories s self)).
Proof.
  assert (forall nm r q l,
            outcome (Inventory.get_item self nm) s = Ok r ->
            contains q nm = true ->
            outcome (Inventory.search self q) s = Ok l ->
            r ∈ l) as Hfind.
  { intros nm r q l. unfold outcome. rewrite get_item_run, search_run. cbn.
    destruct (dict_get (items (inventories s self)) nm) as [r'|] eqn:Eg;
      [|done].
    intros [= ->] Hq [= <-]. apply list_elem_of_omap.
    exists (nm, r). split; [by apply dict_get_elem_of|]. cbn. by rewrite Hq. }
  split; [|split; [exact Hfind|split]].
  - unfold outcome. rewrite search_run. cbn. f_equal.
    induction (items (inventories s self)) as [|[k v] d IH]; cbn; [done|].
    rewrite contains_empty. cbn. by f_equal.
  - intros nm r Hr. eexists. split; [reflexivity|].
    eapply Hfind; [exact Hr | apply contains_refl | reflexivity].
  - intros q l r. unfold outcome. rewrite search_run. cbn. intros [= <-].
    intros ([nm r'] & Hin & Hq)%list_elem_of_omap. cbn in Hq.
    destruct (contains q nm) eqn:Ec; [|done].
    exists nm. by simplify_eq.
Qed.


(** ** New boards *)

Lemma built_0 v s : built 0 v s s.
Proof. constructor; try done; lia. Qed.

Lemma built_trans n m v s s1 s2 :
  built n v s s1 -> built m v s1 s2 -> built (n + m) v s s2.
Proof.
  intros [N1 New1 Old1 E1] [N2 New2 Old2 E2]. constructor.
  - lia.
  - intros x Hx.
    destruct (decide (next_ref s1 <= x)%nat).
    + apply New2. lia.
    + rewrite Old2 by lia. apply New1. lia.
  - intros x Hx. rewrite Old2 by lia. apply Old1. lia.
  - congruence.
Qed.

Lemma allocate_built v s : built 1 v s (allocate v s).2.
Proof.
  constructor; cbn; try done.
  - lia.
  - intros x Hx. unfold upd. rewrite bool_decide_eq_true_2 by lia. done.
  - intros x Hx. unfold upd. rewrite bool_decide_eq_false_2 by lia. done.
Qed.

Lemma replicateM_allocate v n : forall w,
  exists w',
    replicateM n (on_store (allocate v)) w
    = (Ok (seq (next_ref (store w)) n), w')
    /\ board w' = board w
    /\ built n v (store w) (store w').
Proof.
  induction n as [|n IH]; intros w.
  - exists w. split; [reflexivity|]. split; [done | apply built_0].
  - cbn [replicateM].
    set (w1 := {| store := (allocate v (store w)).2; board := board w |}).
    assert (on_store (allocate v) w = (Ok (next_ref (store w)), w1)) as H1
      by reflexivity.
    run_with H1.
    destruct (IH w1) as (w' & Hrun & Hb & B).
    run_with Hrun. rewrite ret_run.
    exists w'. split; [reflexivity|]. split; [done|].
    apply (built_trans 1 n v _ _ _ (allocate_built v (store w)) B).
Qed.

Lemma replicateM_rows v wd h : forall w,
  exists w',
    replicateM h (replicateM wd (on_store (allocate v))) w
    = (Ok ((fun i => seq (next_ref (store w) + i * wd) wd) <$> seq 0 h), w')
    /\ board w' = board w
    /\ built (h * wd) v (store w) (store w').
Proof.
  induction h as [|h IH]; intros w.
  - exists w. split; [reflexivity|]. split; [done | apply built_0].
  - cbn [replicateM].
    destruct (replicateM_allocate v wd w) as (w1 & H1 & Hb1 & B1).
    run_with H1.
    destruct (IH w1) as (w' & Hrun & Hb & B).
    run_with Hrun. rewrite ret_run.
    pose proof (built_next _ _ _ _ B1) as Hn.
    exists w'. split; [|split; [congruence|]].
    + f_equal. f_equal. cbn [seq fmap list_fmap]. f_equal.
      * f_equal. lia.
      * rewrite <- fmap_S_seq, <- list_fmap_compose.
        apply list_fmap_ext. intros i x _. cbn. rewrite Hn. f_equal. lia.
    + apply (built_trans wd (h * wd) v _ _ _ B1 B).
Qed.

Lemma py_get2_nonneg {A} (m : list (list A)) i j :
  0 <= i -> 0 <= j ->
  py_get2 m i j = m !! Z.to_nat i ≫= (fun r => r !! Z.to_nat j).
Proof.
  intros Hi Hj. unfold py_get2. rewrite py_get_nonneg by done.
  destruct (m !! Z.to_nat i) as [r|]; cbn; [|done].
  by rewrite py_get_nonneg.
Qed.

Lemma rect_fmap_seq {A} (f : nat -> list A) (h w : nat) :
  (forall i, length (f i) = w) ->
  rect (Z.of_nat h) (Z.of_nat w) (f <$> seq 0 h).
Proof.
  intros Hf. split.
  - by rewrite length_fmap, length_seq.
  - apply Forall_fmap, Forall_forall. intros i _. cbn. by rewrite Hf.
Qed.

(** The run of [init_board]: [h] rows of [wd] new Voids, and as many
    empty overlap slots. *)
Lemma init_board_run w :
  let wd := Z.to_nat (Board.width (board w)) in
  let h := Z.to_nat (Board.height (board w)) in
  exists w',
    Board.init_board w = (Ok tt, w')
    /\ board w'
       = set_overlapped_matrix (replicate h (replicate wd None))
           (set_matrix
              ((fun i : nat => seq (next_ref (store w) + i * wd) wd)
                 <$> seq 0 h) (board w))
    /\ built (h * wd) (init_void (board w)) (store w) (store w').
Proof.
  cbn zeta. unfold Board.init_board. run_step.
  fold (init_void (board w)).
  set (wd := Z.to_nat (Board.width (board w))).
  set (h := Z.to_nat (Board.height (board w))).
  destruct (replicateM_rows (init_void (board w)) wd h w)
    as (w1 & Hrun & Hb & B).
  run_with Hrun. run_step. rewrite on_board_run.
  eexists. split; [reflexivity|]. cbn. by rewrite Hb.
Qed.

Lemma init_void_cls b : cls (init_void b) = BoardItemVoid.
Proof. unfold init_void. by destruct (ui_board_void_cell_sprixel b). Qed.

Lemma replicate_fmap_seq {A} (x : A) (h : nat) k :
  replicate h x = (fun _ : nat => x) <$> seq k h.
Proof. revert k. induction h as [|h IH]; intros k; cbn; [done|]. by rewrite <- IH. Qed.

Lemma fresh_rows_get (n wd h : nat) r c :
  0 <= r < Z.of_nat h -> 0 <= c < Z.of_nat wd ->
  py_get2 ((fun i : nat => seq (n + i * wd) wd) <$> seq 0 h) r c
  = Some (n + Z.to_nat r * wd + Z.to_nat c)%nat.
Proof.
  intros Hr Hc. rewrite py_get2_nonneg by lia.
  rewrite list_lookup_fmap, lookup_seq_lt by lia. cbn.
  rewrite lookup_seq_lt by lia. done.
Qed.

Lemma fresh_rows_elem (n wd h : nat) i j x :
  0 <= i -> 0 <= j ->
  py_get2 ((fun i : nat => seq (n + i * wd) wd) <$> seq 0 h) i j = Some x ->
  (n <= x < n + h * wd)%nat.
Proof.
  intros Hi Hj. rewrite py_get2_nonneg by lia.
  rewrite list_lookup_fmap.
  destruct (seq 0 h !! Z.to_nat i) as [k|] eqn:Ek; cbn; [|done].
  apply lookup_seq in Ek as [-> Hk]. cbn.
  intros [-> Hx]%lookup_seq. nia.
Qed.

Lemma no_parked_get (wd h : nat) i j (x : ref) :
  0 <= i -> 0 <= j ->
  py_get2 (replicate h (replicate wd (@None ref))) i j <> Some (Some x).
Proof.
  intros Hi Hj. rewrite py_get2_nonneg by lia.
  destruct (replicate h (replicate wd None) !! Z.to_nat i) as [r|] eqn:Er;
    cbn; [|done].
  apply lookup_replicate in Er as [-> _].
  intros [? _]%lookup_replicate. done.
Qed.

(** X8.  On a board whose width and height are not negative, [init_board]
    returns, and leaves [height] rows of [width] cells and as many empty
    overlap slots; the cell of row [r] and column [c] holds the new object
    of rank [r * width + c], a [BoardItemVoid] that has no position, so the
    cells hold pairwise distinct objects.  The objects that existed are
    untouched, and so are the movables and immovables sets: [init_board]
    does not empty them. *)
Theorem init_board_fills_the_board_with_new_voids w :
  0 <= Board.width (board w) -> 0 <= Board.height (board w) ->
  exists w',
    Board.init_board w = (Ok tt, w')
    /\ board_wf (board w')
    /\ board_static (board w') = board_static (board w)
    /\ movables (board w') = movables (board w)
    /\ immovables (board w') = immovables (board w)
    /\ (forall r c, in_bounds (board w) r c ->
          let x := (next_ref (store w)
                    + Z.to_nat (r * Board.width (board w) + c))%nat in
          Board.item r c w' = (Ok x, w')
          /\ live w' x
          /\ cls (heap (store w') x) = BoardItemVoid
          /\ pos (heap (store w') x) = None
          /\ py_get2 (overlapped_matrix (board w')) r c = Some None)
    /\ (forall x, live w x -> heap (store w') x = heap (store w) x).
Proof.
  intros Hw Hh.
  destruct (init_board_run w) as (w' & Hrun & Hbw' & B). cbn zeta in *.
  set (wd := Z.to_nat (Board.width (board w))) in *.
  set (h := Z.to_nat (Board.height (board w))) in *.
  exists w'. split; [done|].
  assert (Z.of_nat wd = Board.width (board w)) as Ewd by (unfold wd; lia).
  assert (Z.of_nat h = Board.height (board w)) as Eh by (unfold h; lia).
  rewrite Hbw'.
  split; [|split; [done|split; [done|split; [done|split]]]].
  - unfold board_wf, Board.height, Board.width in *. cbn.
    rewrite <- Ewd, <- Eh. split.
    + apply rect_fmap_seq. intros i. by rewrite length_seq.
    + rewrite (replicate_fmap_seq _ _ 0%nat).
      apply rect_fmap_seq. intros i. by rewrite length_replicate.
  - intros r c [Hr Hc]. cbn zeta.
    assert ((next_ref (store w) + Z.to_nat (r * Board.width (board w) + c))%nat
            = (next_ref (store w) + Z.to_nat r * wd + Z.to_nat c)%nat) as ->.
    { unfold wd. nia. }
    assert (next_ref (store w)
            <= next_ref (store w) + Z.to_nat r * wd + Z.to_nat c
            < next_ref (store w) + h * wd)%nat as Hrange by nia.
    split; [|split; [|split; [|split]]].
    + apply item_run; rewrite Hbw';
        [unfold Board.height in *; cbn; lia
        |unfold Board.width in *; cbn; lia|]. cbn.
      apply fresh_rows_get; lia.
    + unfold live. rewrite (built_next _ _ _ _ B). lia.
    + rewrite (built_new _ _ _ _ B) by done. apply init_void_cls.
    + rewrite (built_new _ _ _ _ B) by done.
      unfold init_void. by destruct (ui_board_void_cell_sprixel (board w)).
    + cbn. rewrite py_get2_nonneg by lia.
      rewrite lookup_replicate_2 by lia. cbn.
      by rewrite lookup_replicate_2 by lia.
  - intros x Hx. apply (built_old _ _ _ _ B). unfold live in Hx. lia.
Qed.

Lemma init_board_fills_the_board_with_new_voids_witness :
  0 <= Board.width (board blank5) /\ 0 <= Board.height (board blank5)
  /\ exists w',
       Board.init_board blank5 = (Ok tt, w')
       /\ board_wf (board w')
       /\ board_static (board w') = board_static (board blank5)
       /\ movables (board w') = movables (board blank5)
       /\ immovables (board w') = immovables (board blank5)
       /\ (forall r c, in_bounds (board blank5) r c ->
             let x := (next_ref (store blank5)
                       + Z.to_nat (r * Board.width (board blank5) + c))%nat in
             Board.item r c w' = (Ok x, w')
             /\ live w' x
             /\ cls (heap (store w') x) = BoardItemVoid
             /\ pos (heap (store w') x) = None
             /\ py_get2 (overlapped_matrix (board w')) r c = Some None)
       /\ (forall x, live blank5 x -> heap (store w') x = heap (store blank5) x).
Proof.
  assert (0 <= Board.width (board blank5)) as H1 by (vm_compute; discriminate).
  assert (0 <= Board.height (board blank5)) as H2 by (vm_compute; discriminate).
  split; [exact H1|]. split; [exact H2|].
  exact (init_board_fills_the_board_with_new_voids blank5 H1 H2).
Defined.

(** X9.  A board built with no item yet -- both sets empty, as
    [Board.__init__] has them when it calls [init_board] -- satisfies the
    invariant of the two sets once [init_board] has returned. *)
Theorem new_board_is_ok w :
  0 <= Board.width (board w) -> 0 <= Board.height (board w) ->
  movables (board w) = ∅ -> immovables (board w) = ∅ ->
  outcome Board.init_board w = Ok tt
  /\ board_ok (exec Board.init_board w).
Proof.
  intros Hw Hh Hm Hi.
  destruct (init_board_run w) as (w' & Hrun & Hbw' & B). cbn zeta in *.
  unfold outcome, exec. rewrite Hrun. split; [done|]. cbn.
  set (wd := Z.to_nat (Board.width (board w))) in *.
  set (h := Z.to_nat (Board.height (board w))) in *.
  assert (Z.of_nat wd = Board.width (board w)) as Ewd by (unfold wd; lia).
  assert (Z.of_nat h = Board.height (board w)) as Eh by (unfold h; lia).
  pose proof (built_next _ _ _ _ B) as Hn. cbn in Hn.
  assert (forall i j x, 0 <= i -> 0 <= j ->
            py_get2 (matrix (board w')) i j = Some x ->
            live w' x /\ cls (heap (store w') x) = BoardItemVoid) as Hcells.
  { intros i j x H0i H0j. rewrite Hbw'. cbn. intros Hx.
    pose proof (fresh_rows_elem _ _ _ _ _ _ H0i H0j Hx) as Hr.
    split; [unfold live; lia|].
    rewrite (built_new _ _ _ _ B x) by done. apply init_void_cls. }
  constructor.
  - rewrite Hbw'. unfold board_wf, Board.height, Board.width in *. cbn.
    rewrite <- Ewd, <- Eh. split.
    + apply rect_fmap_seq. intros i. by rewrite length_seq.
    + rewrite (replicate_fmap_seq _ _ 0%nat).
      apply rect_fmap_seq. intros i. by rewrite length_replicate.
  - intros i j x H0i H0j Hx. by destruct (Hcells i j x).
  - intros i j x H0i H0j. rewrite Hbw'. cbn. intros Hx.
    by destruct (no_parked_get wd h i j x).
  - intros x. rewrite Hbw'. cbn. rewrite Hm. by intros ?%elem_of_empty.
  - intros x. rewrite Hbw'. cbn. rewrite Hi. by intros ?%elem_of_empty.
  - intros i j x H0i H0j Hx. destruct (Hcells i j x) as [_ Hc]; [done..|].
    unfold member_of. rewrite Hc. done.
  - intros i j x H0i H0j. rewrite Hbw'. cbn. intros Hx.
    by destruct (no_parked_get wd h i j x).
Qed.

Lemma new_board_is_ok_witness :
  0 <= Board.width (board blank5) /\ 0 <= Board.height (board blank5)
  /\ movables (board blank5) = ∅ /\ immovables (board blank5) = ∅
  /\ outcome Board.init_board blank5 = Ok tt
  /\ board_ok (exec Board.init_board blank5).
Proof.
  assert (0 <= Board.width (board blank5)) as H1 by (vm_compute; discriminate).
  assert (0 <= Board.height (board blank5)) as H2 by (vm_compute; discriminate).
  assert (movables (board blank5) = ∅) as H3 by reflexivity.
  assert (immovables (board blank5) = ∅) as H4 by reflexivity.
  split; [exact H1|]. split; [exact H2|]. split; [exact H3|].
  split; [exact H4|].
  exact (new_board_is_ok blank5 H1 H2 H3 H4).
Defined.

(** ** [Board.clear_cell] *)

Lemma py_get_outside {A} (l : list A) i :
  Z.of_nat (length l) <= i \/ i < - Z.of_nat (length l) -> py_get l i = None.
Proof.
  intros Hi. unfold py_get, py_index.
  rewrite !bool_decide_eq_false_2 by lia. done.
Qed.

Lemma rect_get_outside {A} h w (m : list (list A)) i j :
  rect h w m -> h <= i \/ i < - h \/ w <= j \/ j < - w ->
  py_get2 m i j = None.
Proof.
  intros Hrect Hout. pose proof Hrect as [Hh Hw].
  unfold py_get2. destruct (py_get m i) as [r|] eqn:Er; [|done].
  apply py_get_outside. rewrite (rect_row _ _ _ _ _ Hrect Er).
  destruct Hout as [Hi|[Hi|Hj]]; [| |lia].
  - rewrite py_get_outside in Er by lia. done.
  - rewrite py_get_outside in Er by lia. done.
Qed.

(** X10.  On a well-formed board, [clear_cell(r, c)] of a cell of the
    board returns and leaves no hole: the cell then holds the item that was
    parked in its overlap slot, no object having changed, or, when nothing
    was parked, a new [BoardItemVoid]; the overlap slot is empty, every
    other cell and slot is as before, and the board is still well formed. *)
Theorem clear_cell_restores_what_was_parked w r c :
  board_wf (board w) -> in_bounds (board w) r c ->
  exists w' x,
    Board.clear_cell r c w = (Ok tt, w')
    /\ Board.item r c w' = (Ok x, w')
    /\ py_get2 (overlapped_matrix (board w')) r c = Some None
    /\ match py_get2 (overlapped_matrix (board w)) r c with
       | Some (Some o) => x = o /\ store w' = store w
       | _ =>
           x = next_ref (store w)
           /\ cls (heap (store w') x) = BoardItemVoid
           /\ forall y, live w y -> heap (store w') y = heap (store w) y
       end
    /\ (forall i j, 0 <= i -> 0 <= j -> ~ (i = r /\ j = c) ->
          py_get2 (matrix (board w')) i j = py_get2 (matrix (board w)) i j
          /\ py_get2 (overlapped_matrix (board w')) i j
             = py_get2 (overlapped_matrix (board w)) i j)
    /\ board_wf (board w').
Proof.
  intros [Hrm Hro] [Hr Hc].
  destruct (rect_get _ _ _ _ _ Hrm Hr Hc) as [e He].
  destruct (rect_get _ _ _ _ _ Hro Hr Hc) as [o Ho].
  destruct (clear_cell_spec w r c e o He Ho) as (w' & Hrun & Cl).
  pose proof (cleared_matrix _ _ _ _ _ _ Cl) as Hm.
  pose proof (cleared_overlapped _ _ _ _ _ _ Cl) as Hov.
  pose proof (cleared_store _ _ _ _ _ _ Cl) as Hst.
  destruct (board_static_dims _ _ (cleared_static _ _ _ _ _ _ Cl)) as [Hh' Hw'].
  destruct (set2_cells _ _ _ _ _ Hm) as [Hcell Hothers]; [lia | lia |].
  exists w', (match o with Some x => x | None => next_ref (store w) end).
  split; [done|].
  split; [apply item_run; [lia | lia | done]|].
  rewrite Ho. destruct o as [x|].
  - destruct (set2_cells _ _ _ _ _ Hov) as [Hocell Hoothers]; [lia | lia |].
    split; [done|]. split; [done|]. split.
    + intros i j Hi Hj Hne. split; [by apply Hothers | by apply Hoothers].
    + split; rewrite Hh', Hw'; eapply rect_set2; eauto.
  - rewrite Hov. split; [done|]. split.
    + split; [done|]. rewrite Hst. split.
      * rewrite with_void_new. apply void_of_cls.
      * intros y Hy. by apply with_void_heap.
    + split.
      * intros i j Hi Hj Hne. split; [by apply Hothers | done].
      * split; rewrite Hh', Hw'; [eapply rect_set2; eauto | by rewrite Hov].
Qed.

Lemma two_doors_world_wf : board_wf (board two_doors_world).
Proof. vm_compute. split; (split; [reflexivity | repeat constructor]). Qed.

Lemma clear_cell_restores_what_was_parked_witness :
  board_wf (board two_doors_world) /\ in_bounds (board two_doors_world) 2 2
  /\ py_get2 (overlapped_matrix (board two_doors_world)) 2 2 = Some (Some 25%nat)
  /\ exists w' x,
       Board.clear_cell 2 2 two_doors_world = (Ok tt, w')
       /\ Board.item 2 2 w' = (Ok x, w')
       /\ py_get2 (overlapped_matrix (board w')) 2 2 = Some None
       /\ match py_get2 (overlapped_matrix (board two_doors_world)) 2 2 with
          | Some (Some o) => x = o /\ store w' = store two_doors_world
          | _ =>
              x = next_ref (store two_doors_world)
              /\ cls (heap (store w') x) = BoardItemVoid
              /\ forall y, live two_doors_world y ->
                   heap (store w') y = heap (store two_doors_world) y
          end
       /\ (forall i j, 0 <= i -> 0 <= j -> ~ (i = 2 /\ j = 2) ->
             py_get2 (matrix (board w')) i j
             = py_get2 (matrix (board two_doors_world)) i j
             /\ py_get2 (overlapped_matrix (board w')) i j
                = py_get2 (overlapped_matrix (board two_doors_world)) i j)
       /\ board_wf (board w').
Proof.
  assert (in_bounds (board two_doors_world) 2 2) as H
    by (vm_compute; repeat split; discriminate).
  assert (py_get2 (overlapped_matrix (board two_doors_world)) 2 2
          = Some (Some 25%nat)) as Hp by (vm_compute; reflexivity).
  split; [exact two_doors_world_wf|]. split; [exact H|]. split; [exact Hp|].
  exact (clear_cell_restores_what_was_parked two_doors_world 2 2
           two_doors_world_wf H).
Defined.

(** X11.  [clear_cell] checks no bound itself: on a well-formed board, a
    row at or beyond the height or below [-height], or such a column, makes
    it raise [IndexError], the board unchanged. *)
Theorem clear_cell_outside_the_board_raises_IndexError w r c :
  board_wf (board w) ->
  Board.height (board w) <= r \/ r < - Board.height (board w)
  \/ Board.width (board w) <= c \/ c < - Board.width (board w) ->
  Board.clear_cell r c w = (Raise IndexError, w).
Proof.
  intros [Hrm _] Hout. unfold Board.clear_cell.
  erewrite run_bind_raise; [done|].
  apply matrix_get_raise. by eapply rect_get_outside.
Qed.

Lemma clear_cell_outside_the_board_raises_IndexError_witness :
  board_wf (board board5_wall)
  /\ (Board.height (board board5_wall) <= 5 \/ 5 < - Board.height (board board5_wall)
      \/ Board.width (board board5_wall) <= 0 \/ 0 < - Board.width (board board5_wall))
  /\ Board.clear_cell 5 0 board5_wall = (Raise IndexError, board5_wall).
Proof.
  assert (Board.height (board board5_wall) <= 5 \/ 5 < - Board.height (board board5_wall)
      \/ Board.width (board board5_wall) <= 0 \/ 0 < - Board.width (board board5_wall))
    as H by (left; vm_compute; discriminate).
  split; [exact board5_wall_wf|]. split; [exact H|].
  exact (clear_cell_outside_the_board_raises_IndexError board5_wall 5 0
           board5_wall_wf H).
Defined.

(** ** [Board.get_movables] and [Board.get_immovables] *)

Lemma counter_bounds i (kwargs : list (StrAttr * string)) c0 :
  let c := foldl (fun counter kv =>
                    if contains kv.2 (getattr i kv.1) then counter + 1
                    else counter) c0 kwargs in
  c <= c0 + Z.of_nat (length kwargs)
  /\ (c = c0 + Z.of_nat (length kwargs)
      <-> forall kv, kv ∈ kwargs -> contains kv.2 (getattr i kv.1) = true).
Proof.
  revert c0. induction kwargs as [|kv kwargs IH]; intros c0; cbn zeta.
  - cbn. split; [lia|]. split; [by intros _ kv ?%elem_of_nil | lia].
  - cbn [foldl length].
    destruct (contains kv.2 (getattr i kv.1)) eqn:E.
    + destruct (IH (c0 + 1)) as [Hle Hiff]. cbn zeta in *.
      split; [lia|]. split.
      * intros Hc kv' [->|Hin]%elem_of_cons; [done|].
        apply Hiff; [lia | done].
      * intros Hall. assert (forall kv', kv' ∈ kwargs ->
                   contains kv'.2 (getattr i kv'.1) = true) as Hall'
          by (intros; apply Hall; by right).
        apply Hiff in Hall'. lia.
    + destruct (IH c0) as [Hle Hiff]. cbn zeta in *.
      split; [lia|]. split; [lia|].
      intros Hall. specialize (Hall kv ltac:(left)). congruence.
Qed.

Lemma kwargs_match_spec i kwargs :
  kwargs_match i kwargs = true
  <-> forall kv, kv ∈ kwargs -> contains kv.2 (getattr i kv.1) = true.
Proof.
  unfold kwargs_match. destruct (counter_bounds i kwargs 0) as [_ Hiff].
  cbn zeta in *. rewrite bool_decide_eq_true. by rewrite <- Hiff.
Qed.

(** X12.  [get_movables] and [get_immovables], with keywords, return,
    the board unchanged, the members of the movables set, of the immovables
    set, whose attribute contains the value for every keyword given, each
    once; with no keyword, every member. *)
Theorem get_movables_filters_by_every_keyword w kwargs :
  exists ms ims,
    Board.get_movables kwargs w = (Ok ms, w)
    /\ Board.get_immovables kwargs w = (Ok ims, w)
    /\ NoDup ms /\ NoDup ims
    /\ (forall x, x ∈ ms <->
          x ∈ movables (board w)
          /\ forall kv, kv ∈ kwargs ->
               contains kv.2 (getattr (heap (store w) x) kv.1) = true)
    /\ (forall x, x ∈ ims <->
          x ∈ immovables (board w)
          /\ forall kv, kv ∈ kwargs ->
               contains kv.2 (getattr (heap (store w) x) kv.1) = true).
Proof.
  assert (forall s, exists l,
            select s kwargs w = (Ok l, w) /\ NoDup l
            /\ forall x, x ∈ l <->
                 x ∈ s /\ forall kv, kv ∈ kwargs ->
                   contains kv.2 (getattr (heap (store w) x) kv.1) = true)
    as Hsel.
  { intros s. unfold select, set_members. destruct kwargs as [|kv kwargs].
    - eexists. split; [reflexivity|]. split; [apply NoDup_elements|].
      intros x. rewrite elem_of_elements. split; [|tauto].
      intros Hx. split; [done|]. by intros kv ?%elem_of_nil.
    - eexists. split; [reflexivity|].
      split; [apply NoDup_filter, NoDup_elements|].
      intros x. rewrite list_elem_of_filter, elem_of_elements.
      rewrite kwargs_match_spec. tauto. }
  destruct (Hsel (movables (board w))) as (ms & Hms & Hnd & Hin).
  destruct (Hsel (immovables (board w))) as (ims & Hims & Hndi & Hini).
  exists ms, ims. unfold Board.get_movables, Board.get_immovables.
  rewrite !(run_bind _ _ _ _ _ (gets_run _ _)). done.
Qed.


(** ** Levels *)

Lemma get_board_run g n l :
  boards g !! n = Some l -> Game.get_board n g = (Ok (lvl_board l), g).
Proof.
  intros Hl. unfold Game.get_board. by rewrite (run_bind _ _ _ _ _ (level_run g n l Hl)).
Qed.

(** X13.  After [add_board(n, b)], [get_board(n)] returns [b], and so
    does [current_board()] when [n] is the current level; both rosters of
    level [n] are empty, whatever they held before, and the other levels are
    untouched.  For a number that has no board, [get_board] lets a
    [KeyError] escape where [current_board] raises
    [PglInvalidLevelException]. *)
Theorem get_board_returns_the_added_board g n b :
  let g' := exec (Game.add_board n b) g in
  Game.add_board n b g = (Ok tt, g')
  /\ Game.get_board n g' = (Ok b, g')
  /\ npc_roster g' n = [] /\ roster g' n = []
  /\ (forall m, m <> n -> boards g' !! m = boards g !! m)
  /\ (current_level g = Some n -> Game.current_board g' = (Ok b, g'))
  /\ (forall m, boards g' !! m = None ->
        Game.get_board m g' = (Raise KeyError, g')
        /\ (current_level g = Some m ->
            Game.current_board g' = (Raise PglInvalidLevelException, g'))).
Proof.
  cbn zeta. unfold exec.
  assert (Game.add_board n b g
          = (Ok tt, set_boards
                      (<[n := {| lvl_board := b; npcs := []; projectiles := [] |}]>
                         (boards g)) g)) as Hrun by reflexivity.
  rewrite Hrun. cbn [snd].
  set (g' := set_boards _ g).
  assert (boards g' !! n
          = Some {| lvl_board := b; npcs := []; projectiles := [] |}) as Hn
    by apply lookup_insert_eq.
  split; [done|]. split; [by rewrite (get_board_run g' n _ Hn)|].
  split; [unfold npc_roster; by rewrite Hn|].
  split; [unfold roster; by rewrite Hn|].
  split; [intros m Hm; by apply lookup_insert_ne|].
  split.
  - intros Hc. by apply (current_board_run g' n _ Hc Hn).
  - intros m Hm. split.
    + unfold Game.get_board, level, bind, gets. by rewrite Hm.
    + intros Hc. unfold Game.current_board, bind, gets.
      change (current_level g') with (current_level g). by rewrite Hc, Hm.
Qed.

Lemma owned_parent g p : parent (heap (game_store (owned g p)) p) = ParentGame.
Proof.
  unfold owned. destruct (parent (heap (game_store g) p)) eqn:E; cbn;
    rewrite ?upd_eq; done.
Qed.

Lemma owned_heap g p x :
  x <> p -> heap (game_store (owned g p)) x = heap (game_store g) x.
Proof.
  intros Hx. unfold owned. destruct (parent (heap (game_store g) p)); cbn;
    rewrite ?upd_ne by done; done.
Qed.

Lemma owned_stable g p x :
  stable (heap (game_store g) x) (heap (game_store (owned g p)) x)
  /\ pos (heap (game_store (owned g p)) x) = pos (heap (game_store g) x).
Proof.
  unfold owned. destruct (parent (heap (game_store g) p)); cbn; try done;
    unfold upd; case_bool_decide; subst; done.
Qed.

Lemma owned_rest g p :
  boards (owned g p) = boards g /\ current_level (owned g p) = current_level g
  /\ player (owned g p) = player g /\ state (owned g p) = state g.
Proof. unfold owned. by destruct (parent (heap (game_store g) p)). Qed.

Lemma change_level_owns g p (k : unit -> M Game unit) :
  bind (when (match parent (heap (game_store g) p) with
              | ParentGame => false
              | _ => true
              end)
        then game_assign p (set_parent ParentGame)) k g
  = k tt (owned g p).
Proof.
  unfold owned. by destruct (parent (heap (game_store g) p)).
Qed.

(** X14.  [change_level(n)] for a number that has no board: without a
    player it raises the [PglException] "undefined_player", the game
    unchanged; with one it raises [PglInvalidLevelException], the current
    level and the boards unchanged, but the player has by then been given
    the game as its parent. *)
Theorem change_level_to_an_unknown_level g n :
  boards g !! n = None ->
  match player g with
  | None =>
      Game.change_level n g = (Raise (PglException "undefined_player"), g)
  | Some p =>
      Game.change_level n g = (Raise PglInvalidLevelException, owned g p)
      /\ current_level (owned g p) = current_level g
      /\ boards (owned g p) = boards g
      /\ parent (heap (game_store (owned g p)) p) = ParentGame
  end.
Proof.
  intros Hn. unfold Game.change_level.
  rewrite (run_bind _ _ _ _ _ (gets_run _ _)).
  destruct (player g) as [p|]; [|done].
  unfold game_deref. rewrite (run_bind _ _ _ _ _ (gets_run _ _)).
  rewrite change_level_owns.
  rewrite (run_bind _ _ _ _ _ (gets_run _ _)).
  destruct (owned_rest g p) as (Hb & Hc & _).
  rewrite Hb, Hn. split; [done|]. split; [done|]. split; [done|].
  apply owned_parent.
Qed.

Lemma change_level_to_an_unknown_level_witness :
  boards player_game !! 2 = None
  /\ match player player_game with
     | None =>
         Game.change_level 2 player_game
         = (Raise (PglException "undefined_player"), player_game)
     | Some p =>
         Game.change_level 2 player_game
         = (Raise PglInvalidLevelException, owned player_game p)
         /\ current_level (owned player_game p) = current_level player_game
         /\ boards (owned player_game p) = boards player_game
         /\ parent (heap (game_store (owned player_game p)) p) = ParentGame
     end.
Proof.
  assert (boards player_game !! 2 = None) as H by (vm_compute; reflexivity).
  split; [exact H|].
  exact (change_level_to_an_unknown_level player_game 2 H).
Defined.




Lemma owned_next g p :
  next_ref (game_store (owned g p)) = next_ref (game_store g).
Proof. unfold owned. by destruct (parent (heap (game_store g) p)). Qed.

(** X16.  [change_level(n)] with a player placed at a cell of the
    current level [n0], the board of level [n] being another board than
    that of [n0]: the call returns, [n] is the current level and its board
    holds the player at its starting position; on the board of [n0] the
    player's cell was cleared: it holds what was parked there, or a new
    [BoardItemVoid] when nothing was, and its overlap slot is empty. *)
Theorem change_level_leaves_the_old_board g n0 l0 n l p r c :
  player g = Some p ->
  (p < next_ref (game_store g))%nat ->
  is_BoardItem (cls (heap (game_store g) p)) = true ->
  pos (heap (game_store g) p) = Some (r, c) ->
  current_level g = Some n0 ->
  boards g !! n0 = Some l0 ->
  board_wf (lvl_board l0) ->
  in_bounds (lvl_board l0) r c ->
  boards g !! n = Some l ->
  lvl_board l <> lvl_board l0 ->
  board_wf (lvl_board l) ->
  in_bounds (lvl_board l) (player_starting_position (lvl_board l)).1
    (player_starting_position (lvl_board l)).2 ->
  exists g' l0' l',
    Game.change_level n g = (Ok tt, g')
    /\ current_level g' = Some n
    /\ boards g' !! n0 = Some l0'
    /\ boards g' !! n = Some l'
    /\ match py_get2 (overlapped_matrix (lvl_board l0)) r c with
       | Some (Some o) => py_get2 (matrix (lvl_board l0')) r c = Some o
       | _ =>
           py_get2 (matrix (lvl_board l0')) r c
           = Some (next_ref (game_store g))
           /\ cls (heap (game_store g') (next_ref (game_store g)))
              = BoardItemVoid
       end
    /\ py_get2 (overlapped_matrix (lvl_board l0')) r c = Some None
    /\ py_get2 (matrix (lvl_board l')) (player_starting_position (lvl_board l)).1
         (player_starting_position (lvl_board l)).2 = Some p
    /\ pos (heap (game_store g') p)
       = Some (player_starting_position (lvl_board l)).
Proof.
  intros Hp Hlive Hit Hpos Hcur Hl0 [Hrm0 Hro0] [Hr0 Hc0] Hl Hdiff [Hrm Hro]
    [Hr Hc].
  assert (n <> n0) as Hne by (intros ->; congruence).
  set (psp := player_starting_position (lvl_board l)) in *.
  unfold Game.change_level.
  rewrite (run_bind _ _ _ _ _ (gets_run _ _)). rewrite Hp.
  unfold game_deref. rewrite (run_bind _ _ _ _ _ (gets_run _ _)).
  rewrite change_level_owns.
  rewrite (run_bind _ _ _ _ _ (gets_run _ _)).
  destruct (owned_rest g p) as (Hb & Hcl & _).
  rewrite Hb, Hl, Hpos. rewrite ?bind_assoc.
  rewrite (run_bind _ _ _ _ _ (gets_run _ _)). rewrite Hcl, Hcur.
  rewrite ?bind_assoc.   rewrite (run_bind _ _ _ _ _
             (run_or_raise (S := Game) KeyError (Some n0) n0 _ eq_refl)).
  (* the old cell is cleared *)
  destruct (rect_get _ _ _ _ _ Hrm0 Hr0 Hc0) as [e He].
  destruct (rect_get _ _ _ _ _ Hro0 Hr0 Hc0) as [o Ho].
  assert (boards (owned g p) !! n0 = Some l0) as Hl0' by (by rewrite Hb).
  destruct (clear_cell_spec (level_world (owned g p) l0) r c e o He Ho)
    as (w1 & Hrun1 & Cl).
  rewrite (run_bind _ _ _ _ _
             (on_level_board_run (owned g p) n0 l0 _ _ _ Hl0' Hrun1)).
  erewrite run_bind by reflexivity. cbn beta iota.
  match goal with |- exists _ _ _, bind _ _ ?G = _ /\ _ => set (g1 := G) end.
  assert (boards g1 !! n = Some l) as Hl1.
  { unfold g1. cbn. rewrite lookup_insert_ne by done. by rewrite Hb. }
  rewrite (run_bind _ _ _ _ _ (level_run g1 n l Hl1)). fold psp.
  (* the player is placed *)
  pose proof (cleared_store _ _ _ _ _ _ Cl) as Hst1.
  assert (heap (store w1) p = heap (game_store (owned g p)) p) as Hheap.
  { rewrite Hst1. destruct o; [done|]. cbn. apply upd_ne.
    rewrite owned_next. lia. }
  destruct (rect_get _ _ _ _ _ Hrm Hr Hc) as [e' He'].
  destruct (place_item_spec (level_world g1 l) p psp.1 psp.2 e')
    as (w' & Hrun & P);
    [cbn; lia | cbn; lia | | done | by eapply rect_get |].
  { cbn. rewrite Hheap. destruct (owned_stable g p p) as [Hst _].
    by rewrite <- (stable_cls _ _ Hst). }
  rewrite (on_level_board_run g1 n l _ _ _ Hl1 Hrun).
  match goal with |- exists _ _ _, (_, ?G) = _ /\ _ => set (g' := G) end.
  assert (game_store g' = store w') as Hs' by reflexivity.
  eexists g', _, _. split; [reflexivity|]. split; [reflexivity|].
  split.
  { unfold g', g1. cbn. rewrite lookup_insert_ne by done.
    by rewrite lookup_insert_eq. }
  split; [unfold g'; cbn; by rewrite lookup_insert_eq|].
  cbn [lvl_board]. rewrite Ho.
  pose proof (cleared_matrix _ _ _ _ _ _ Cl) as Hm1.
  pose proof (cleared_overlapped _ _ _ _ _ _ Cl) as Hov1.
  pose proof (py_get2_set2_same _ _ _ _ _ Hm1) as Hcell1.
  split.
  { destruct o as [x|]; [exact Hcell1|]. cbn in Hcell1.
    rewrite owned_next in Hcell1. split; [exact Hcell1|].
    rewrite Hs'.
    rewrite (placed_others _ _ _ _ _ _ P); cbn.
    - rewrite Hst1. cbn. rewrite owned_next, upd_eq. apply void_of_cls.
    - lia. }
  split.
  { destruct o as [x|].
    - by apply (py_get2_set2_same _ _ _ _ _ Hov1).
    - rewrite Hov1. exact Ho. }
  split; [apply (py_get2_set2_same _ _ _ _ _ (placed_matrix _ _ _ _ _ _ P))|].
  rewrite Hs', (placed_item_pos _ _ _ _ _ _ P). by destruct psp.
Qed.

Lemma two_levels_player_game_wf n :
  n = 1 \/ n = 2 -> board_wf (lvl_board (the_level two_levels_player_game n)).
Proof.
  intros [->| ->]; vm_compute;
    (split; (split; [reflexivity | repeat constructor])).
Qed.

Lemma change_level_leaves_the_old_board_witness :
  player two_levels_player_game = Some 19%nat
  /\ (19 < next_ref (game_store two_levels_player_game))%nat
  /\ is_BoardItem (cls (heap (game_store two_levels_player_game) 19%nat)) = true
  /\ pos (heap (game_store two_levels_player_game) 19%nat) = Some (0, 0)
  /\ current_level two_levels_player_game = Some 1
  /\ boards two_levels_player_game !! 1
     = Some (the_level two_levels_player_game 1)
  /\ board_wf (lvl_board (the_level two_levels_player_game 1))
  /\ in_bounds (lvl_board (the_level two_levels_player_game 1)) 0 0
  /\ boards two_levels_player_game !! 2
     = Some (the_level two_levels_player_game 2)
  /\ lvl_board (the_level two_levels_player_game 2)
     <> lvl_board (the_level two_levels_player_game 1)
  /\ board_wf (lvl_board (the_level two_levels_player_game 2))
  /\ in_bounds (lvl_board (the_level two_levels_player_game 2))
       (player_starting_position (lvl_board (the_level two_levels_player_game 2))).1
       (player_starting_position (lvl_board (the_level two_levels_player_game 2))).2
  /\ exists g' l0' l',
       Game.change_level 2 two_levels_player_game = (Ok tt, g')
       /\ current_level g' = Some 2
       /\ boards g' !! 1 = Some l0'
       /\ boards g' !! 2 = Some l'
       /\ match py_get2 (overlapped_matrix
                           (lvl_board (the_level two_levels_player_game 1))) 0 0 with
          | Some (Some o) => py_get2 (matrix (lvl_board l0')) 0 0 = Some o
          | _ =>
              py_get2 (matrix (lvl_board l0')) 0 0
              = Some (next_ref (game_store two_levels_player_game))
              /\ cls (heap (game_store g')
                        (next_ref (game_store two_levels_player_game)))
                 = BoardItemVoid
          end
       /\ py_get2 (overlapped_matrix (lvl_board l0')) 0 0 = Some None
       /\ py_get2 (matrix (lvl_board l'))
            (player_starting_position (lvl_board (the_level two_levels_player_game 2))).1
            (player_starting_position (lvl_board (the_level two_levels_player_game 2))).2
          = Some 19%nat
       /\ pos (heap (game_store g') 19%nat)
          = Some (player_starting_position
                    (lvl_board (the_level two_levels_player_game 2))).
Proof.
  assert (player two_levels_player_game = Some 19%nat) as H1
    by (vm_compute; reflexivity).
  assert (19 < next_ref (game_store two_levels_player_game))%nat as H2
    by (apply Nat.leb_le; vm_compute; reflexivity).
  assert (is_BoardItem (cls (heap (game_store two_levels_player_game) 19%nat))
          = true) as H3 by (vm_compute; reflexivity).
  assert (pos (heap (game_store two_levels_player_game) 19%nat) = Some (0, 0))
    as H4 by (vm_compute; reflexivity).
  assert (current_level two_levels_player_game = Some 1) as H5
    by (vm_compute; reflexivity).
  assert (boards two_levels_player_game !! 1
          = Some (the_level two_levels_player_game 1)) as H6
    by (vm_compute; reflexivity).
  assert (in_bounds (lvl_board (the_level two_levels_player_game 1)) 0 0)
    as H7 by (vm_compute; repeat split; discriminate).
  assert (lvl_board (the_level two_levels_player_game 2)
          <> lvl_board (the_level two_levels_player_game 1)) as H8
    by (intros E; apply (f_equal board_name) in E; vm_compute in E;
        discriminate E).
  assert (boards two_levels_player_game !! 2
          = Some (the_level two_levels_player_game 2)) as H9
    by (vm_compute; reflexivity).
  assert (in_bounds (lvl_board (the_level two_levels_player_game 2))
       (player_starting_position (lvl_board (the_level two_levels_player_game 2))).1
       (player_starting_position (lvl_board (the_level two_levels_player_game 2))).2)
    as H10 by (vm_compute; repeat split; discriminate).
  pose proof (two_levels_player_game_wf 1 (or_introl eq_refl)) as W1.
  pose proof (two_levels_player_game_wf 2 (or_intror eq_refl)) as W2.
  split; [exact H1|]. split; [exact H2|]. split; [exact H3|].
  split; [exact H4|]. split; [exact H5|]. split; [exact H6|].
  split; [exact W1|]. split; [exact H7|]. split; [exact H9|].
  split; [exact H8|]. split; [exact W2|]. split; [exact H10|].
  exact (change_level_leaves_the_old_board two_levels_player_game 1
           (the_level two_levels_player_game 1) 2
           (the_level two_levels_player_game 2) 19%nat 0 0
           H1 H2 H3 H4 H5 H6 W1 H7 H9 H8 W2 H10).
Defined.

(** ** Rosters *)








Lemma list_remove_elem x l : x ∈ l -> is_Some (list_remove x l).
Proof.
  induction l as [|y l IH]; cbn.
  - by intros ?%elem_of_nil.
  - intros Hin. case_bool_decide as E; [by eexists|].
    apply elem_of_cons in Hin as [->|Hin]; [done|].
    destruct (IH Hin) as [l' ->]. by eexists.
Qed.

(** X18.  [remove_npc(n, npc)] takes the first occurrence of the NPC off
    the NPC roster of level [n], and then clears the cell of the NPC's
    position on the current board, whichever level that is: the effect on
    the current board and on the store is that of [clear_cell] there.  When
    the board of level [n] is another board than the current one, it is
    left as it was, the NPC still in its cell; so is every level whose
    board is not the current board. *)
Theorem remove_npc_clears_the_current_board g n l npc r c m lm :
  boards g !! n = Some l ->
  npc ∈ npcs l ->
  pos (heap (game_store g) npc) = Some (r, c) ->
  current_level g = Some m ->
  boards g !! m = Some lm ->
  board_wf (lvl_board lm) ->
  in_bounds (lvl_board lm) r c ->
  exists g' ns w',
    Game.remove_npc n npc g = (Ok tt, g')
    /\ list_remove npc (npcs l) = Some ns
    /\ Board.clear_cell r c (level_world g lm) = (Ok tt, w')
    /\ game_store g' = store w'
    /\ npc_roster g' n = ns
    /\ (exists lm', boards g' !! m = Some lm' /\ lvl_board lm' = board w')
    /\ (lvl_board l <> lvl_board lm ->
        boards g' !! n
        = Some {| lvl_board := lvl_board l; npcs := ns;
                  projectiles := projectiles l |})
    /\ (forall k lk, k <> n -> boards g !! k = Some lk ->
          lvl_board lk <> lvl_board lm -> boards g' !! k = Some lk).
Proof.
  intros Hl Hin Hpos Hcur Hlm [Hrm Hro] [Hr Hc].
  destruct (list_remove_elem _ _ Hin) as [ns Hns].
  destruct (rect_get _ _ _ _ _ Hrm Hr Hc) as [e He].
  destruct (rect_get _ _ _ _ _ Hro Hr Hc) as [o Ho].
  destruct (clear_cell_spec (level_world g lm) r c e o He Ho)
    as (w' & Hrun & _).
  unfold Game.remove_npc.
  run_with (level_run g n l Hl).
  run_with (run_or_raise (S := Game) ValueError _ _ g Hns).
  unfold set_level, modify.
  erewrite run_bind by reflexivity. cbn beta iota.
  match goal with |- exists _ _ _, bind _ _ ?G = _ /\ _ => set (g1 := G) end.
  set (l1 := {| lvl_board := lvl_board l; npcs := ns;
                projectiles := projectiles l |}).
  set (lm1 := if decide (m = n) then l1 else lm).
  assert (boards g1 !! m = Some lm1) as Hlm1.
  { unfold g1, lm1. cbn. destruct (decide (m = n)) as [->|Hne].
    - by rewrite lookup_insert_eq.
    - by rewrite lookup_insert_ne. }
  assert (lvl_board lm1 = lvl_board lm) as Hb1.
  { unfold lm1. destruct (decide (m = n)) as [->|Hne]; [|done].
    cbn. congruence. }
  rewrite (run_bind _ _ _ _ _ (current_board_run g1 m lm1 Hcur Hlm1)).
  cbn beta iota.
  unfold game_deref. run_step.
  assert (pos (heap (game_store g1) npc) = Some (r, c)) as Hpos1 by exact Hpos.
  run_with (run_or_raise (S := Game) TypeError _ _ g1 Hpos1). cbn [fst snd].
  assert (Board.clear_cell r c
            {| store := game_store g1; board := lvl_board lm1 |} = (Ok tt, w'))
    as Hrun1 by (rewrite Hb1; exact Hrun).
  unfold Game.on_current_board.
  rewrite (run_bind _ _ _ _ _ (current_board_run g1 m lm1 Hcur Hlm1)).
  run_step. change (current_level g1) with (current_level g). rewrite Hcur.
  rewrite (on_level_board_run g1 m lm1 _ _ _ Hlm1 Hrun1).
  match goal with |- exists _ _ _, (_, ?G) = _ /\ _ => set (g' := G) end.
  exists g', ns, w'. split; [reflexivity|]. split; [done|].
  split; [done|]. split; [reflexivity|].
  split.
  { unfold npc_roster, g'. cbn. destruct (decide (m = n)) as [->|Hne].
    - rewrite lookup_insert_eq. cbn. unfold lm1. cbn.
      rewrite ?decide_True by done. done.
    - rewrite lookup_insert_ne by done. unfold g1. cbn.
      by rewrite lookup_insert_eq. }
  split.
  { eexists. split; [unfold g'; cbn; by rewrite lookup_insert_eq | done]. }
  split.
  { intros Hdiff.
    assert (m <> n) as Hne by (intros ->; congruence).
    unfold g'. cbn. rewrite lookup_insert_ne by done.
    unfold g1. cbn. by rewrite lookup_insert_eq. }
  intros k lk Hkn Hk Hdiff.
  assert (k <> m) as Hkm by (intros ->; congruence).
  unfold g', g1. cbn.
  by rewrite !lookup_insert_ne by done.
Qed.

Lemma guard_game_wf : board_wf (lvl_board (the_level guard_game 1)).
Proof. vm_compute. split; (split; [reflexivity | repeat constructor]). Qed.

Lemma remove_npc_clears_the_current_board_witness :
  boards guard_game !! 2 = Some (the_level guard_game 2)
  /\ 19%nat ∈ npcs (the_level guard_game 2)
  /\ pos (heap (game_store guard_game) 19%nat) = Some (0, 0)
  /\ current_level guard_game = Some 1
  /\ boards guard_game !! 1 = Some (the_level guard_game 1)
  /\ board_wf (lvl_board (the_level guard_game 1))
  /\ in_bounds (lvl_board (the_level guard_game 1)) 0 0
  /\ lvl_board (the_level guard_game 2) <> lvl_board (the_level guard_game 1)
  /\ exists g' ns w',
       Game.remove_npc 2 19%nat guard_game = (Ok tt, g')
       /\ list_remove 19%nat (npcs (the_level guard_game 2)) = Some ns
       /\ Board.clear_cell 0 0 (level_world guard_game (the_level guard_game 1))
          = (Ok tt, w')
       /\ game_store g' = store w'
       /\ npc_roster g' 2 = ns
       /\ (exists lm', boards g' !! 1 = Some lm' /\ lvl_board lm' = board w')
       /\ (lvl_board (the_level guard_game 2)
           <> lvl_board (the_level guard_game 1) ->
           boards g' !! 2
           = Some {| lvl_board := lvl_board (the_level guard_game 2); npcs := ns;
                     projectiles := projectiles (the_level guard_game 2) |})
       /\ (forall k lk, k <> 2 -> boards guard_game !! k = Some lk ->
             lvl_board lk <> lvl_board (the_level guard_game 1) ->
             boards g' !! k = Some lk).
Proof.
  assert (boards guard_game !! 2 = Some (the_level guard_game 2)) as H1
    by (vm_compute; reflexivity).
  assert (19%nat ∈ npcs (the_level guard_game 2)) as H2
    by (apply list_elem_of_In; vm_compute; left; reflexivity).
  assert (pos (heap (game_store guard_game) 19%nat) = Some (0, 0)) as H3
    by (vm_compute; reflexivity).
  assert (current_level guard_game = Some 1) as H4 by (vm_compute; reflexivity).
  assert (boards guard_game !! 1 = Some (the_level guard_game 1)) as H5
    by (vm_compute; reflexivity).
  assert (in_bounds (lvl_board (the_level guard_game 1)) 0 0) as H6
    by (vm_compute; repeat split; discriminate).
  split; [exact H1|]. split; [exact H2|]. split; [exact H3|].
  assert (lvl_board (the_level guard_game 2)
          <> lvl_board (the_level guard_game 1)) as H7
    by (intros E; apply (f_equal board_name) in E; vm_compute in E;
        discriminate E).
  split; [exact H4|]. split; [exact H5|]. split; [exact guard_game_wf|].
  split; [exact H6|]. split; [exact H7|].
  exact (remove_npc_clears_the_current_board guard_game 2
           (the_level guard_game 2) 19%nat 0 0 1 (the_level guard_game 1)
           H1 H2 H3 H4 H5 guard_game_wf H6).
Defined.




(** X20.  [add_projectile] with coordinates that are not a cell of the
    board of the level returns at once: nothing is placed, enrolled, hit or
    assigned. *)
Theorem add_projectile_out_of_the_board_does_nothing g n l proj r c :
  boards g !! n = Some l ->
  is_Projectile (cls (heap (game_store g) proj)) = true ->
  ~ in_bounds (lvl_board l) r c ->
  Game.add_projectile n proj (Some r) (Some c) g = (Ok tt, g).
Proof.
  intros Hl Hproj Hout.
  unfold Game.add_projectile, game_deref. run_step. rewrite Hproj.
  run_with (level_run g n l Hl).
  destruct (bool_decide (r >= Board.height (lvl_board l))) eqn:E1; [done|].
  destruct (bool_decide (c >= Board.width (lvl_board l))) eqn:E2; [done|].
  destruct (bool_decide (r < 0)) eqn:E3; [done|].
  destruct (bool_decide (c < 0)) eqn:E4; [done|].
  apply bool_decide_eq_false in E1, E2, E3, E4.
  exfalso. apply Hout. unfold in_bounds. lia.
Qed.

Lemma add_projectile_out_of_the_board_does_nothing_witness :
  boards three_walls_game !! 1 = Some (the_level three_walls_game 1)
  /\ is_Projectile (cls (heap (game_store three_walls_game) 103%nat)) = true
  /\ ~ in_bounds (lvl_board (the_level three_walls_game 1)) 10 0
  /\ Game.add_projectile 1 103%nat (Some 10) (Some 0) three_walls_game
     = (Ok tt, three_walls_game).
Proof.
  assert (boards three_walls_game !! 1 = Some (the_level three_walls_game 1))
    as H1 by (vm_compute; reflexivity).
  assert (is_Projectile (cls (heap (game_store three_walls_game) 103%nat))
          = true) as H2 by (vm_compute; reflexivity).
  assert (~ in_bounds (lvl_board (the_level three_walls_game 1)) 10 0) as H3
    by (intros [[_ Hr] _]; vm_compute in Hr; discriminate Hr).
  split; [exact H1|]. split; [exact H2|]. split; [exact H3|].
  exact (add_projectile_out_of_the_board_does_nothing three_walls_game 1
           (the_level three_walls_game 1) 103%nat 10 0 H1 H2 H3).
Defined.


(** ** A game that does not run *)

(** X21.  While the state of the game is not RUNNING, [actuate_npcs],
    [actuate_projectiles] and [move_player] return at once and change
    nothing, whatever the level number and the direction, even a number
    that has no board. *)
Theorem paused_game_moves_nothing g n direction stp :
  state g <> RUNNING ->
  Game.actuate_npcs n g = (Ok tt, g)
  /\ Game.actuate_projectiles n g = (Ok tt, g)
  /\ Game.move_player direction stp g = (Ok tt, g).
Proof.
  intros Hs.
  unfold Game.actuate_npcs, Game.actuate_projectiles, Game.move_player.
  unfold bind, gets. by rewrite !bool_decide_eq_false_2.
Qed.

Lemma paused_game_moves_nothing_witness :
  state paused_game <> RUNNING
  /\ Game.actuate_npcs 1 paused_game = (Ok tt, paused_game)
  /\ Game.actuate_projectiles 1 paused_game = (Ok tt, paused_game)
  /\ Game.move_player (Const RIGHT) 1 paused_game = (Ok tt, paused_game).
Proof.
  assert (state paused_game <> RUNNING) as H by (vm_compute; discriminate).
  split; [exact H|].
  exact (paused_game_moves_nothing paused_game 1 (Const RIGHT) 1 H).
Defined.

(** ** Projectiles at the end of their flight *)

Lemma actuate_projectile_spent g n proj :
  spent g proj -> Game.actuate_projectile n proj g = (Ok tt, hit_void g proj).
Proof.
  intros (_ & (a & Ha & Hst) & Hrange & Haoe).
  unfold Game.actuate_projectile.
  run_with (actuator_state_run g proj a Ha). rewrite Hst.
  rewrite bool_decide_eq_true_2 by done.
  unfold game_deref. run_step. rewrite Hrange.
  rewrite bool_decide_eq_false_2 by lia.
  rewrite bool_decide_eq_true_2 by done. rewrite Haoe.
  reflexivity.
Qed.

Lemma hit_void_spent g proj p :
  (proj < next_ref (game_store g))%nat -> spent g p -> spent (hit_void g proj) p.
Proof.
  intros Hl (Hp & Ha & Hr & Haoe). unfold spent, hit_void. cbn.
  rewrite !upd_ne by lia. split; [lia|]. done.
Qed.

Lemma actuate_from_spent n l : forall fuel idx g,
  boards g !! n = Some l ->
  (forall p, p ∈ projectiles l -> spent g p) ->
  (length (projectiles l) <= idx + fuel)%nat ->
  exists g',
    Game.actuate_from fuel n idx g = (Ok tt, g')
    /\ boards g' = boards g
    /\ state g' = state g
    /\ next_ref (game_store g')
       = (next_ref (game_store g) + length (drop idx (projectiles l)))%nat
    /\ (forall x, (x < next_ref (game_store g))%nat ->
          heap (game_store g') x = heap (game_store g) x)
    /\ (forall k, (k < length (drop idx (projectiles l)))%nat ->
          heap (game_store g') (next_ref (game_store g) + k)%nat
          = default_BoardItemVoid)
    /\ trace (game_store g')
       = trace (game_store g)
         ++ imap (fun k p => Hit p [(next_ref (game_store g) + k)%nat])
              (drop idx (projectiles l)).
Proof.
  induction fuel as [|fuel IH]; intros idx g Hl Hsp Hlen.
  - exists g. rewrite drop_ge by lia. cbn. rewrite app_nil_r, Nat.add_0_r.
    repeat split; try done. intros k Hk. lia.
  - cbn [Game.actuate_from]. run_with (level_run g n l Hl).
    destruct (projectiles l !! idx) as [proj|] eqn:Hidx.
    + assert (proj ∈ projectiles l) as Hin
        by (eapply list_elem_of_lookup_2; eauto).
      pose proof (Hsp proj Hin) as Hproj. pose proof Hproj as (Hlive & _).
      run_with (actuate_projectile_spent g n proj Hproj).
      destruct (IH (S idx) (hit_void g proj))
        as (g' & Hrun & Hb & Hs & Hn & Hh & Hv & Ht).
      { done. }
      { intros p Hp. apply hit_void_spent; [done | by apply Hsp]. }
      { lia. }
      exists g'. split; [done|]. split; [by rewrite Hb|].
      split; [by rewrite Hs|].
      rewrite (drop_S _ _ _ Hidx). cbn [length imap].
      split; [rewrite Hn; cbn; lia|]. split; [|split].
      * intros x Hx. rewrite Hh by (cbn; lia). cbn. by rewrite upd_ne by lia.
      * intros k Hk. destruct k as [|k].
        -- rewrite Nat.add_0_r, Hh by (cbn; lia). cbn. by rewrite upd_eq.
        -- replace (next_ref (game_store g) + S k)%nat
             with (next_ref (game_store (hit_void g proj)) + k)%nat
             by (cbn; lia).
           apply Hv. lia.
      * rewrite Ht. cbn. rewrite <- app_assoc. cbn. rewrite Nat.add_0_r.
        do 2 f_equal. apply imap_ext. intros k p _. cbn. do 2 f_equal. lia.
    + rewrite ret_run. exists g. apply lookup_ge_None in Hidx.
      rewrite drop_ge by lia. cbn. rewrite app_nil_r, Nat.add_0_r.
      repeat split; try done. intros k Hk. lia.
Qed.

(** X23.  A projectile that is not AoE, whose actuator is running and
    whose range is exactly 0, is neither moved nor taken off the roster by
    [actuate_projectiles]: when the roster of a level of a running game
    holds such projectiles only, the call returns with the boards and their
    rosters as before, having called [hit] once for each projectile, in
    roster order, each time with a list of one newly built object, the
    [BoardItemVoid] its constructor builds without arguments, which is on
    no board. *)
Theorem spent_projectiles_hit_a_placeholder g n l :
  state g = RUNNING ->
  boards g !! n = Some l ->
  (forall p, p ∈ projectiles l -> spent g p) ->
  exists g',
    Game.actuate_projectiles n g = (Ok tt, g')
    /\ boards g' = boards g
    /\ state g' = RUNNING
    /\ trace (game_store g')
       = trace (game_store g)
         ++ imap (fun k p => Hit p [(next_ref (game_store g) + k)%nat])
              (projectiles l)
    /\ (forall k, (k < length (projectiles l))%nat ->
          heap (game_store g') (next_ref (game_store g) + k)%nat
          = default_BoardItemVoid).
Proof.
  intros Hst Hl Hsp.
  destruct (actuate_from_spent n l (length (projectiles l)) 0 g Hl Hsp)
    as (g' & Hrun & Hb & Hs & Hn & Hh & Hv & Ht); [lia|].
  exists g'. unfold Game.actuate_projectiles. run_step. rewrite Hst.
  rewrite bool_decide_eq_true_2 by done. run_step. rewrite Hl.
  split; [done|]. split; [done|]. split.
  { by rewrite Hs. }
  split; [by rewrite Ht | exact Hv].
Qed.

Lemma spent_arrow_game_spent p :
  p ∈ projectiles (the_level spent_arrow_game 1) -> spent spent_arrow_game p.
Proof.
  assert (projectiles (the_level spent_arrow_game 1) = [26%nat]) as E
    by (vm_compute; reflexivity).
  rewrite E. intros ->%list_elem_of_singleton.
  assert (26 < next_ref (game_store spent_arrow_game))%nat as H1
    by (apply Nat.leb_le; vm_compute; reflexivity).
  assert (match actuator (heap (game_store spent_arrow_game) 26%nat) with
          | Some a => a_state a = RUNNING
          | None => False
          end) as H2 by (vm_compute; reflexivity).
  assert (range (heap (game_store spent_arrow_game) 26%nat) = 0) as H3
    by (vm_compute; reflexivity).
  assert (is_aoe (heap (game_store spent_arrow_game) 26%nat) = false) as H4
    by (vm_compute; reflexivity).
  split; [exact H1|]. split; [|split; [exact H3 | exact H4]].
  destruct (actuator (heap (game_store spent_arrow_game) 26%nat)) as [a|];
    [|destruct H2].
  exists a. split; [reflexivity | exact H2].
Qed.

Lemma spent_projectiles_hit_a_placeholder_witness :
  state spent_arrow_game = RUNNING
  /\ boards spent_arrow_game !! 1 = Some (the_level spent_arrow_game 1)
  /\ (forall p, p ∈ projectiles (the_level spent_arrow_game 1) ->
        spent spent_arrow_game p)
  /\ exists g',
       Game.actuate_projectiles 1 spent_arrow_game = (Ok tt, g')
       /\ boards g' = boards spent_arrow_game
       /\ state g' = RUNNING
       /\ trace (game_store g')
          = trace (game_store spent_arrow_game)
            ++ imap (fun k p =>
                       Hit p [(next_ref (game_store spent_arrow_game) + k)%nat])
                 (projectiles (the_level spent_arrow_game 1))
       /\ (forall k,
             (k < length (projectiles (the_level spent_arrow_game 1)))%nat ->
             heap (game_store g')
               (next_ref (game_store spent_arrow_game) + k)%nat
             = default_BoardItemVoid).
Proof.
  assert (state spent_arrow_game = RUNNING) as H1 by (vm_compute; reflexivity).
  assert (boards spent_arrow_game !! 1 = Some (the_level spent_arrow_game 1))
    as H2 by (vm_compute; reflexivity).
  split; [exact H1|]. split; [exact H2|]. split; [exact spent_arrow_game_spent|].
  exact (spent_projectiles_hit_a_placeholder spent_arrow_game 1
           (the_level spent_arrow_game 1) H1 H2 spent_arrow_game_spent).
Defined.













(** ** [_obj2ref] and [_ref2obj] *)

Lemma moves_of_dir_doc ms :
  Game.moves_of (Some (Game.dir_doc <$> ms)) = ms.
Proof.
  cbn. induction ms as [|[d|] ms IH]; cbn; [done| |]; f_equal; done.
Qed.

(** X25.  [_ref2obj(_obj2ref(obj))] always returns.  For a Wall, a
    Treasure, a Door, a GenericStructure, a GenericActionableStructure and
    an NPC it is an object of the same class with the name, the model and
    the type of [obj], and no position; with them come the value and the
    inventory space of a Treasure, a Door and the two structures, their
    overlappable and pickable flags, the restorable flag of a Door only
    (the structures get [False], though the flag was written), the hp,
    max_hp, step, remaining_lives and attack_power of an NPC, and a new
    actuator of the kind of its own.  The inventory space of a Wall is
    written and not read back.  For an object of any other class the result
    is a default [BoardItemVoid]. *)
Theorem ref2obj_rebuilds_what_obj2ref_wrote policy i :
  exists i',
    Game._ref2obj policy (Game._obj2ref i) = Ok i'
    /\ if persistent (cls i) then
         cls i' = cls i /\ name i' = name i /\ model i' = model i
         /\ type i' = type i /\ pos i' = None
         /\ match cls i with
            | Wall => _inventory_space i' = _inventory_space default_Wall
            | Treasure =>
                value i' = value i /\ _inventory_space i' = _inventory_space i
            | Door =>
                value i' = value i /\ _inventory_space i' = _inventory_space i
                /\ overlappable i' = overlappable i
                /\ pickable i' = pickable i /\ restorable i' = restorable i
            | GenericStructure | GenericActionableStructure =>
                value i' = value i /\ _inventory_space i' = _inventory_space i
                /\ overlappable i' = overlappable i
                /\ pickable i' = pickable i /\ restorable i' = false
            | NPC =>
                hp i' = hp i /\ max_hp i' = max_hp i /\ step i' = step i
                /\ remaining_lives i' = remaining_lives i
                /\ attack_power i' = attack_power i
                /\ actuator i' = reloaded_actuator policy (actuator i)
            | _ => True
            end
       else i' = default_BoardItemVoid.
Proof.
  destruct i as [c nm ty mdl ps par spx ov pk rs cm pm isp vl inv stp act rg
                 aoe rad h mh rl ap].
  destruct c.
  11: {
    destruct act as [[st k ans calls]|];
      [destruct k as [ms|pth|pth|wps circle|]|];
      (eexists; split;
       [cbv -[Game.moves_of Game.dir_doc fmap new_actuator]; reflexivity|]);
      cbn [persistent cls name model type pos hp max_hp step remaining_lives
           attack_power actuator reloaded_actuator a_kind];
      rewrite ?moves_of_dir_doc; repeat split; reflexivity. }
  all: eexists; (split; [vm_compute; reflexivity|]);
    cbn [persistent cls name model type pos _inventory_space value
         overlappable pickable restorable default_Wall mk_Wall mk_item];
    repeat split; reflexivity.
Qed.


(** ** The menu *)

Section menu_props.
Context {D : Type}.
Implicit Types (menu : gmap string (list (Game.MenuEntry D))) (e : Game.MenuEntry D).

Lemma first_entry_app sc (l l' : list (Game.MenuEntry D)) :
  Game.first_entry sc (l ++ l')
  = match Game.first_entry sc l with
    | Some e => Some e
    | None => Game.first_entry sc l'
    end.
Proof.
  induction l as [|e l IH]; cbn; [done|]. by case_bool_decide.
Qed.

Lemma get_menu_entry_run menu c sc :
  Game.get_menu_entry c sc menu
  = (Ok (match menu !! c with
         | Some l => Game.first_entry sc l
         | None => None
         end), menu).
Proof.
  unfold Game.get_menu_entry, bind, gets, id. cbn.
  destruct (menu !! c); reflexivity.
Qed.

(** X26.  [add_menu_entry] never replaces an entry: afterwards
    [get_menu_entry] answers as before wherever it found an entry, and
    returns the new entry for its category and shortcut only if it found
    none there; every other category and shortcut is untouched. *)
Theorem added_entry_comes_after_its_namesakes menu c sc msg dt c' sc' :
  let menu' := exec (Game.add_menu_entry c sc msg dt) menu in
  outcome (Game.add_menu_entry c sc msg dt) menu = Ok tt
  /\ outcome (Game.get_menu_entry c' sc') menu'
     = Ok (match outcome (Game.get_menu_entry c' sc') menu with
           | Ok (Some e) => Some e
           | _ =>
               if bool_decide (c' = c /\ sc' = sc)
               then Some {| Game.shortcut := sc; Game.message := msg;
                            Game.data := dt |}
               else None
           end).
Proof.
  cbn zeta. unfold outcome, exec. rewrite !get_menu_entry_run. cbn [fst].
  unfold Game.add_menu_entry, bind, gets, modify, id. cbn.
  destruct (menu !! c) as [l|] eqn:El; cbn.
  - split; [done|]. f_equal.
    destruct (decide (c' = c)) as [->|Hc].
    + rewrite lookup_insert_eq, El, first_entry_app.
      destruct (Game.first_entry sc' l); [done|]. cbn.
      repeat case_bool_decide; naive_solver.
    + rewrite lookup_insert_ne by done.
      destruct (menu !! c') as [l'|]; [destruct (Game.first_entry sc' l')|];
        try done; by rewrite bool_decide_eq_false_2 by naive_solver.
  - split; [done|]. f_equal.
    destruct (decide (c' = c)) as [->|Hc].
    + rewrite lookup_insert_eq, El. cbn.
      repeat case_bool_decide; naive_solver.
    + rewrite lookup_insert_ne by done.
      destruct (menu !! c') as [l'|]; [destruct (Game.first_entry sc' l')|];
        try done; by rewrite bool_decide_eq_false_2 by naive_solver.
Qed.


Lemma first_entry_update sc msg dt sc' (l : list (Game.MenuEntry D)) :
  Game.first_entry sc' (Game.update_entry sc msg dt <$> l)
  = Game.update_entry sc msg dt <$> Game.first_entry sc' l.
Proof.
  induction l as [|e l IH]; cbn; [done|].
  assert (Game.shortcut (Game.update_entry sc msg dt e) = Game.shortcut e) as ->
    by (unfold Game.update_entry; by case_bool_decide).
  by case_bool_decide.
Qed.

(** X27.  [update_menu_entry] on a category that does not exist lets a
    [KeyError] escape, the menu unchanged (where [get_menu_entry] returns
    [None]).  On one that exists it returns; the category has as many
    entries as before, every one of them with the shortcut has the new
    message, and [get_menu_entry] returns what it returned, with the new
    message, and the new data unless that is [None], for the category and
    shortcut updated. *)
Theorem update_menu_entry_rewrites_every_namesake menu c sc msg dt :
  match menu !! c with
  | None => Game.update_menu_entry c sc msg dt menu = (Raise KeyError, menu)
  | Some l =>
      exists menu',
        Game.update_menu_entry c sc msg dt menu = (Ok tt, menu')
        /\ (exists l', menu' !! c = Some l' /\ length l' = length l
              /\ forall e, e ∈ l' -> Game.shortcut e = sc ->
                   Game.message e = msg)
        /\ (forall c' sc',
              outcome (Game.get_menu_entry c' sc') menu'
              = match outcome (Game.get_menu_entry c' sc') menu with
                | Ok (Some e) =>
                    Ok (Some
                          (if bool_decide (c' = c /\ sc' = sc)
                           then {| Game.shortcut := sc; Game.message := msg;
                                   Game.data := match dt with
                                           | Some _ => dt
                                           | None => Game.data e
                                           end |}
                           else e))
                | r => r
                end)
  end.
Proof.
  unfold Game.update_menu_entry, bind, gets, modify, id. cbn.
  destruct (menu !! c) as [l|] eqn:El; cbn; [|done].
  eexists. split; [reflexivity|]. split.
  - exists (Game.update_entry sc msg dt <$> l).
    split; [by rewrite lookup_insert_eq|]. split; [by rewrite length_fmap|].
    intros e (e0 & -> & Hin)%list_elem_of_fmap.
    unfold Game.update_entry. case_bool_decide as E; cbn; [done|].
    intros Hs. by destruct E.
  - intros c' sc'. unfold outcome. rewrite !get_menu_entry_run. cbn [fst].
    destruct (decide (c' = c)) as [->|Hc].
    + rewrite lookup_insert_eq, El, first_entry_update.
      destruct (Game.first_entry sc' l) as [e|] eqn:Ef; cbn; [|done].
      do 2 f_equal. unfold Game.update_entry.
      assert (Game.shortcut e = sc') as Hsc.
      { clear -Ef. induction l as [|e0 l IH]; cbn in Ef; [done|].
        case_bool_decide; [by simplify_eq | by apply IH]. }
      repeat case_bool_decide; try done; subst; naive_solver.
    + rewrite lookup_insert_ne by done.
      destruct (menu !! c') as [l'|]; [|done].
      destruct (Game.first_entry sc' l'); [|done].
      by rewrite bool_decide_eq_false_2 by naive_solver.
Qed.

(** X28.  [delete_menu_category] raises [PglInvalidTypeException] for a
    category that is not a string or is not in the menu, the menu
    unchanged.  For one that is, it returns; [get_menu_entry] then returns
    [None] for every shortcut of that category and answers as before for
    the other categories, and [add_menu_entry] starts the category
    anew. *)
Theorem delete_menu_category_forgets_the_category menu category :
  match category with
  | Some c =>
      match menu !! c with
      | Some _ =>
          exists menu',
            Game.delete_menu_category (Some c) menu = (Ok tt, menu')
            /\ (forall sc, Game.get_menu_entry c sc menu' = (Ok None, menu'))
            /\ (forall c' sc, c' <> c ->
                  outcome (Game.get_menu_entry c' sc) menu'
                  = outcome (Game.get_menu_entry c' sc) menu)
            /\ (forall sc msg dt,
                  exists menu'',
                    Game.add_menu_entry c sc msg dt menu' = (Ok tt, menu'')
                    /\ menu'' !! c
                       = Some [{| Game.shortcut := sc; Game.message := msg;
                                  Game.data := dt |}])
      | None =>
          Game.delete_menu_category (Some c) menu
          = (Raise PglInvalidTypeException, menu)
      end
  | None =>
      Game.delete_menu_category None menu
      = (Raise PglInvalidTypeException, menu)
  end.
Proof.
  destruct category as [c|]; [|reflexivity].
  destruct (menu !! c) as [l|] eqn:El.
  2: { unfold Game.delete_menu_category, bind, gets, id. cbn.
       by rewrite El. }
  exists (delete c menu). split; [|split; [|split]].
  - unfold Game.delete_menu_category, bind, gets, id. cbn.
    by rewrite El.
  - intros sc. rewrite get_menu_entry_run. by rewrite lookup_delete_eq.
  - intros c' sc Hne. unfold outcome. rewrite !get_menu_entry_run.
    by rewrite lookup_delete_ne.
  - intros sc msg dt. unfold Game.add_menu_entry, bind, gets, modify, id.
    cbn. rewrite lookup_delete_eq. eexists. split; [reflexivity|].
    by rewrite lookup_insert_eq.
Qed.

End menu_props.
